(* ===== verification/_CoqProject ===== *)
-Q . S2P
Prelude.v
HashMap.v
HashMapFacts.v
Serialization.v
SerializationFacts.v
SerializationTyping.v
IntrusiveList.v
IntrusiveListFacts.v
Vector.v
VectorFacts.v
Moo.v
MooSystem.v
MooSpanFacts.v
MooFacts.v
MooAllocFacts.v
MooMediumFacts.v
MooMemoryFacts.v
MooTotalFacts.v
MooExitFacts.v
MooOrphanFacts.v
MooSystemFacts.v
MooClaims.v
StoreTopology.v
StoreTopologyFacts.v
Store.v
StoreConn.v
StoreBoot.v
StoreTimer.v
StoreRun.v
StoreFormat.v
StoreSendFacts.v
StoreCalmFacts.v
StoreReactFacts.v
StoreStepFacts.v
StoreNetFacts.v
StoreConnFacts.v
StoreBootFacts.v
StoreTimerFacts.v
StoreKnowFacts.v
StoreRunFacts.v
StoreThreadFacts.v
StoreMailFacts.v
StoreLogFacts.v
StoreBookFacts.v
StoreAnswerFacts.v
StoreLiveFacts.v
StoreDrainFacts.v
StoreLineFacts.v
StoreLinkFacts.v
StoreWireFacts.v
StoreReadFacts.v
StoreActFacts.v
StoreRefineFacts.v
StoreExample.v
StoreClaims.v
StoreBootClaims.v
StoreFormatFacts.v
