(* ===== verification/Prelude.v ===== *)
(** * Moodist: a verification development

    Moodist is a library for distributed training.  Its core (src/core) has its
    own containers, its own memory allocator, a binary message format, and a
    key-value store that spans all processes ("ranks") of a job; on top of these
    it runs collective operations on RDMA hardware and GPUs.  This development
    models the parts whose behaviour is decided by the code itself: the
    containers, the allocator, the message format and the store.

    ** How the parts fit together

    The allocator (moo_allocator_impl.h) serves every [new] of the process and
    uses the bootstrap containers of its own header.  Messages of the store are
    written and read by serialization.h; the store keeps its tables in
    [HashMap], its queues in [Vector], and its ranks talk to each other over a
    mesh of TCP connections.  Client files use the finite map, the list or the
    message that the container and format files prove their code to implement.

    ** The files

    - Prelude.v: outcomes of C++ code with their monad, machine integers, and
      lemmas on lists, maps and words that all files share.
    - HashMap.v, HashMapFacts.v: core/hash_map.h.  The primary and secondary
      arrays with the lifetime of every object in them; [find], [try_emplace]
      with growth, [erase], iteration, [clear], copy.  The facts give the
      representation invariant and refine every operation to a finite map.
    - Serialization.v, SerializationFacts.v: core/serialization.h and the buffer
      of core/buffer.h.  C++ types are a universe, with the overload each type
      selects; writing in two passes, the growing buffer, checked reading.  The
      facts give the exact bytes, round trips, and that reads stay in bounds.
      SerializationTyping.v: what is read from any bytes has the type asked for.
    - Vector.v, VectorFacts.v: core/vector.h, core/simple_vector.h and the
      vector of moo_allocator_impl.h, with raw storage and constructed objects
      told apart; refinement to lists.
    - IntrusiveList.v, IntrusiveListFacts.v: core/intrusive_list.h and
      IntrusiveList2, proved over a class of link heaps that both implement.
    - Moo.v (one thread) and MooSystem.v (all threads): moo_allocator_impl.h.
      MooSpanFacts.v has size classes and free spans, MooFacts.v the invariant
      of a thread, MooAllocFacts.v, MooMediumFacts.v and MooMemoryFacts.v the
      ways a block is handed out, MooTotalFacts.v whole calls, MooExitFacts.v
      and MooOrphanFacts.v threads that exit, MooSystemFacts.v the process, and
      MooClaims.v what follows for callers.
    - StoreTopology.v: [StoreImpl::findPaths] and the hash of keys in
      core/store.cc.  Store.v: the state of a rank and its handlers.
      StoreConn.v: how connections are accepted, opened, lost and kept alive.
      StoreBoot.v: how ranks find each other over UDP ([onreadudp], [connect],
      [sendAddresses]).  StoreTimer.v: the thread that runs callbacks.
      StoreFormat.v: the bytes of datagrams and packets, built from fields that
      are C++ types of Serialization.v; StoreFormatFacts.v has the laws of fields
      and the theorems about bytes.
      StoreRun.v: runs of all ranks together.  Its world has the state of every
      rank, the messages each edge was given, how many the other end has
      handled, the calls made and the log of requests carried out; an action is
      the arrival of a packet (any packet ever written, again or out of order)
      or of a datagram (lost, repeated, or of another store), a round of a timer
      thread, a call, or a connection that comes or goes.
      StoreTopologyFacts.v has graphs and the search; StoreSendFacts.v,
      StoreReactFacts.v, StoreStepFacts.v and StoreConnFacts.v describe each
      handler by the messages it sends; StoreNetFacts.v is the invariant of all
      ranks.  StoreCalmFacts.v says which handlers leave the timers and what a
      rank knows of others alone; StoreBootFacts.v, StoreTimerFacts.v,
      StoreKnowFacts.v and StoreThreadFacts.v follow the addresses from rank to
      rank and the callbacks through the thread.  The proofs about runs have two levels.  The upper one is a network
      of lines that deliver in order (StoreRunFacts.v): StoreMailFacts.v,
      StoreLogFacts.v, StoreBookFacts.v and StoreAnswerFacts.v follow a
      request from its call to its answer, StoreLiveFacts.v and
      StoreDrainFacts.v show that it gets there.  The lower one is what the code
      has, numbered packets on connections that fail: StoreLineFacts.v,
      StoreLinkFacts.v, StoreWireFacts.v, StoreReadFacts.v and StoreActFacts.v
      show that each edge implements such a line, and StoreRefineFacts.v joins
      the two.  StoreExample.v is a network of three ranks; StoreClaims.v and
      StoreBootClaims.v say what follows.

    State is passed explicitly.  A C++ function that can fail is a function into
    [outcome]: it returns, throws, aborts, does something undefined, or runs out
    of fuel.  Machine integers are integers with their wrap-around written out
    ([u32], [u64]).

    ** What the theorems show

    Containers: each operation acts on the abstract map or sequence as its name
    says, never reads an object that is not there, and terminates.  Format:
    deserialization inverts serialization for every type of the universe,
    nothing outside the input is read, and the exact size is written.
    Allocator: live blocks never overlap, a request gets a block that is large
    enough, a free is accepted on any thread, a thread may exit while its blocks
    live on, and its memory returns with the last of them.  Store: the mesh is
    connected, of degree at most four, and first hops are shortest; no action of
    any run makes a handler fail; an edge delivers its messages exactly once and
    in order over connections that are lost and packets that are repeated; the
    calls of all ranks are linearizable; and a call returns unless the key it
    asks for is never set.  Ranks only ever learn true addresses of each other, no
    address gets lost on its way through rank 0, and the timer thread runs every
    callback, in order of time and none too early.  Every datagram and packet is
    read back from its bytes, the header fields patched in place are those fields,
    and bytes that are cut short or hostile never lead outside the buffer.  Some theorems pin down defects that
    modelling found: the stale bucket of an incremented map iterator, the
    length check that wraps, the count that is believed, the vector that frees twice.

    ** Bounds and fuel

    Every loop that is not structural takes fuel, the model passes a fixed
    amount computed from the state, and the theorems conclude that the result is
    [Ok], so the amount is enough: the size of an array plus one for scans of a
    table, the length of the span table for its binary search, the number of
    bins and regions for the medium path of the allocator, the world size for
    the search of the mesh, three for the mutual recursion of [sendMessage] and
    [processMessage], four for the phases of the shutdown.  The loop that draws
    shortcuts consumes a list of draws instead; it is shown that it can always
    end within four.

    ** Not modelled

    The collectives (processgroup.cc, group.cc, cputhread.cc, allgather.cc,
    reduce_scatter.cc, alltoall.cc, queue.cc), kernels.cc and compile_op.cc: they
    drive RDMA, CUDA and generated device code, and what they do is visible only
    through those interfaces.  Sockets and threads (socket.cc, connection.cc,
    async.cc, tcpdev.cc): system calls; the store model lets connections come
    and go and datagrams arrive at any time instead.  The texts of the store's
    errors ([getConnectionDiagnostics]).  Device memory (allocator.cc), IPC, NUMA and InfiniBand:
    foreign interfaces.  function.h, shared_ptr.h, freelist.h and
    synchronization.h: lifetimes and atomics.  Threads of the allocator run one
    call at a time, which is what its mutexes and thread-local data give. *)

From Stdlib Require Import ZArith Lia.
From stdpp Require Import base list list_numbers gmap numbers option strings.

Declare Scope moodist_scope.
Delimit Scope moodist_scope with moodist.
#[global] Open Scope Z_scope.
#[global] Open Scope moodist_scope.

(** ** Outcomes of C++ code

    A call returns a value, throws, aborts, or does something the language
    leaves undefined (an access outside an array, a read of an object that
    was never constructed).  [NoFuel] marks a loop whose fuel ran out; the
    theorems show it does not happen for the fuel the model passes. *)

(** The exceptions the modelled code throws. *)
Inductive exn : Type :=
  | OutOfRange
  | RangeError
  | BadAlloc
  | CheckFailed
  | SerializationError
  | RuntimeError.

#[global] Instance exn_eq_dec : EqDecision exn.
Proof. solve_decision. Defined.

Inductive outcome (A : Type) : Type :=
  | Ok (a : A)
  | Throw (e : exn)
  | Abort
  | Undef
  | NoFuel.
Arguments Ok {A} a.
Arguments Throw {A} e.
Arguments Abort {A}.
Arguments Undef {A}.
Arguments NoFuel {A}.

Definition obind {A B} (o : outcome A) (f : A → outcome B) : outcome B :=
  match o with
  | Ok a => f a
  | Throw e => Throw e
  | Abort => Abort
  | Undef => Undef
  | NoFuel => NoFuel
  end.

Notation "'let!' x := c 'in' k" := (obind c (fun x => k))
  (at level 10, x name, c at level 100, k at level 200) : moodist_scope.
Notation "'let!' ' p := c 'in' k" := (obind c (fun x => match x with p => k end))
  (at level 10, p pattern, c at level 100, k at level 200) : moodist_scope.
Notation "c ';;!' k" := (obind c (fun _ => k))
  (at level 199, right associativity) : moodist_scope.

Definition of_option {A} (o : option A) : outcome A :=
  match o with Some a => Ok a | None => Undef end.

(** [CHECK(x)] of core/commondefs.h throws when its argument is false. *)
Definition CHECK (b : bool) : outcome unit :=
  if b then Ok tt else Throw CheckFailed.

(** ** Machine integers *)

#[global] Arguments Z.add _ _ : simpl never.
#[global] Arguments Z.sub _ _ : simpl never.
#[global] Arguments Z.mul _ _ : simpl never.
#[global] Arguments Z.div _ _ : simpl never.
#[global] Arguments Z.modulo _ _ : simpl never.
#[global] Arguments Z.pow _ _ : simpl never.
#[global] Arguments Z.eqb : simpl never.
#[global] Arguments Z.ltb : simpl never.
#[global] Arguments Z.leb : simpl never.
#[global] Arguments Z.geb : simpl never.
#[global] Arguments Z.land : simpl never.

(** A 64-bit unsigned value ([size_t], [uint64_t], [uintptr_t]) is a [Z] in
    [0, 2^64); [u64] is the wrap-around of an arithmetic result. *)
Definition u64 (x : Z) : Z := x mod 2 ^ 64.
Definition u32 (x : Z) : Z := x mod 2 ^ 32.
Definition is_u64 (x : Z) : Prop := 0 ≤ x < 2 ^ 64.

(** The value of [(size_t)-1]. *)
Definition size_max : Z := 2 ^ 64 - 1.

Arguments u64 : simpl never.
Arguments u32 : simpl never.
Arguments size_max : simpl never.

(** Non-zero powers of two, as bucket counts are. *)
Definition is_pow2 (k : Z) : Prop := ∃ n : Z, 0 ≤ n ∧ k = 2 ^ n.

(** ** Arrays indexed by machine integers *)

Section arrays.
Context {A : Type}.
Implicit Types (l : list A) (i : Z).

(** Lookup and update at a machine index. *)
Definition zlookup l i : option A := if i <? 0 then None else l !! Z.to_nat i.
Definition zinsert l i (x : A) : list A := <[Z.to_nat i := x]> l.

(** [a[i]]: reading outside the array is undefined. *)
Definition arr_get l i : outcome A := of_option (zlookup l i).

(** [a[i] = x]. *)
Definition arr_set l i (x : A) : outcome (list A) :=
  if bool_decide (0 ≤ i < Z.of_nat (length l)) then Ok (zinsert l i x) else Undef.
End arrays.

Notation "l !? i" := (zlookup l i) (at level 20) : moodist_scope.
Notation "l .[ i := x ]" := (zinsert l i x)
  (at level 1, left associativity, format "l .[ i  :=  x ]") : moodist_scope.

(** ** Automation *)

(** Split an equation [Ok _ = Ok _], refute the mixed ones. *)
Ltac simplify_ok :=
  repeat match goal with
  | H : Ok _ = Ok _ |- _ => injection H as H; simplify_eq
  | H : Ok _ = Throw _ |- _ => discriminate H
  | H : Throw _ = Ok _ |- _ => discriminate H
  | H : Undef = Ok _ |- _ => discriminate H
  | H : Abort = Ok _ |- _ => discriminate H
  | H : NoFuel = Ok _ |- _ => discriminate H
  end.

(** Step through the binds of an [Ok] result in a hypothesis. *)
Ltac bind_inv H :=
  match type of H with
  | obind ?c _ = Ok _ =>
      let E := fresh "E" in
      destruct c eqn:E; cbn [obind] in H; try discriminate H
  end.

Create HintDb moodist.
Create Rewrite HintDb moodist.

(** ** Lemmas on machine integers *)

Lemma u64_small x : 0 ≤ x < 2 ^ 64 → u64 x = x.
Proof. apply Z.mod_small. Qed.

Lemma u64_range x : 0 ≤ u64 x < 2 ^ 64.
Proof. apply Z.mod_pos_bound. lia. Qed.

Lemma is_pow2_pos k : is_pow2 k → 0 < k.
Proof. intros (n & Hn & ->). apply Z.pow_pos_nonneg; lia. Qed.

Lemma is_pow2_double k : is_pow2 k → is_pow2 (k * 2).
Proof.
  intros (n & Hn & ->). exists (n + 1). split; [lia|].
  rewrite Z.pow_add_r by lia. lia.
Qed.

Lemma land_pow2_mask k x : is_pow2 k → Z.land x (k - 1) = x mod k.
Proof.
  intros (n & Hn & ->). rewrite <- Z.land_ones by lia.
  f_equal. rewrite Z.ones_equiv. lia.
Qed.

Lemma pow2_divides_u64 k x :
  is_pow2 k → k ≤ 2 ^ 64 → u64 x mod k = x mod k.
Proof.
  intros (n & Hn & ->) Hle. unfold u64.
  apply Z.pow_le_mono_r_iff in Hle; [|lia..].
  replace (2 ^ 64) with (2 ^ (64 - n) * 2 ^ n)
    by (rewrite <- Z.pow_add_r by lia; f_equal; lia).
  rewrite Z.mul_comm. apply Z.mod_mod_divide. 
  exists (2 ^ (64 - n)). lia.
Qed.

(** A masked index, [(x) & (k - 1)] on a [size_t], is a residue modulo [k]. *)
Lemma mask_u64 k x :
  is_pow2 k → k ≤ 2 ^ 64 → Z.land (u64 x) (k - 1) = x mod k.
Proof. intros. rewrite land_pow2_mask by done. by apply pow2_divides_u64. Qed.

Lemma pow2_test k : 0 < k → Z.land k (k - 1) = 0 → is_pow2 k.
Proof.
  intros Hk Hl. exists (Z.log2 k). split; [apply Z.log2_nonneg|].
  destruct (Z.log2_spec k Hk) as [Hlo Hhi].
  destruct (decide (k = 2 ^ Z.log2 k)) as [|Hne]; [done|exfalso].
  pose proof (Z.log2_nonneg k) as Hn.
  assert (Z.testbit (Z.land k (k - 1)) (Z.log2 k) = true) as Hb.
  { rewrite Z.land_spec, Z.bit_log2 by done. simpl.
    replace (Z.log2 k) with (Z.log2 (k - 1)) at 1.
    - apply Z.bit_log2. pose proof (Z.pow_pos_nonneg 2 (Z.log2 k)). lia.
    - apply Z.log2_unique; [done|]. lia. }
  by rewrite Hl, Z.bits_0 in Hb.
Qed.

Lemma is_pow2_test k : is_pow2 k → Z.land k (k - 1) = 0.
Proof.
  intros Hk. rewrite land_pow2_mask by done.
  apply Z.mod_same. apply is_pow2_pos in Hk. lia.
Qed.

Lemma is_pow2_lt a b : is_pow2 a → is_pow2 b → a < b → 2 * a ≤ b.
Proof.
  intros (n & Hn & ->) (p & Hp & ->) Hlt. apply Z.pow_lt_mono_r_iff in Hlt; [|lia..].
  rewrite <- Z.pow_succ_r by done. apply Z.pow_le_mono_r; lia.
Qed.

(** Positions on a ring of [k] slots. *)
Section ring.
Context (k : Z) (Hk : 0 < k).

Lemma ring_dist i j : 0 ≤ j < k → (i + (j - i) mod k) mod k = j.
Proof using Hk.
  intros. rewrite Zplus_mod_idemp_r. replace (i + (j - i)) with j by lia.
  by apply Z.mod_small.
Qed.

Lemma ring_inj i a b :
  (i + a) mod k = (i + b) mod k → Z.abs (a - b) < k → a = b.
Proof using Hk.
  intros Heq Hab.
  assert ((a - b) mod k = 0) as Hm.
  { replace (a - b) with ((i + a) - (i + b)) by lia.
    rewrite Zminus_mod, Heq, Z.sub_diag. by apply Z.mod_0_l; lia. }
  apply Z.mod_divide in Hm; [|lia]. destruct Hm as [c Hc].
  rewrite Hc, Z.abs_mul in Hab. assert (Z.abs c = 0) by nia. nia.
Qed.

Lemma ring_succ i :
  (i + 1) mod k = if i mod k + 1 =? k then 0 else i mod k + 1.
Proof using Hk.
  pose proof (Z.mod_pos_bound i k Hk).
  rewrite <- Zplus_mod_idemp_l. destruct (Z.eqb_spec (i mod k + 1) k) as [->|].
  - by apply Z.mod_same; lia.
  - apply Z.mod_small. lia.
Qed.

Lemma ring_succ_small i : i mod k + 1 < k → (i + 1) mod k = i mod k + 1.
Proof using Hk. intros. rewrite ring_succ. destruct (Z.eqb_spec (i mod k + 1) k); lia. Qed.

Lemma ring_dist_of i a : 0 ≤ a < k → ((i + a) mod k - i) mod k = a.
Proof using Hk.
  intros. rewrite Zminus_mod_idemp_l. replace (i + a - i) with a by lia.
  by apply Z.mod_small.
Qed.

Lemma ring_no_wrap i a :
  0 ≤ a < k → i mod k < (i + a) mod k → (i + a) mod k = i mod k + a.
Proof using Hk.
  intros Ha Hlt. pose proof (Z.mod_pos_bound i k Hk).
  rewrite <- Zplus_mod_idemp_l in *.
  destruct (decide (i mod k + a < k)).
  - apply Z.mod_small. lia.
  - rewrite <- (Z.mod_unique (i mod k + a) k 1 (i mod k + a - k)) in Hlt by lia. lia.
Qed.
End ring.

(** ** Lemmas on arrays *)

Section array_lemmas.
Context {A : Type}.
Implicit Types (l : list A) (i j : Z) (x y : A).

Lemma zlookup_nat l (n : nat) : l !? Z.of_nat n = l !! n.
Proof. unfold zlookup. destruct (Z.ltb_spec (Z.of_nat n) 0); [lia|]. by rewrite Nat2Z.id. Qed.

Lemma zlookup_nonneg l i : 0 ≤ i → l !? i = l !! Z.to_nat i.
Proof. intros. unfold zlookup. by destruct (Z.ltb_spec i 0); [lia|]. Qed.

Lemma zlookup_bounds l i x : l !? i = Some x → 0 ≤ i < Z.of_nat (length l).
Proof.
  unfold zlookup. destruct (Z.ltb_spec i 0); [done|].
  intros ?%lookup_lt_Some. lia.
Qed.

Lemma zlookup_in_range l i : 0 ≤ i < Z.of_nat (length l) → ∃ x, l !? i = Some x.
Proof.
  intros Hi. rewrite zlookup_nonneg by lia.
  destruct (lookup_lt_is_Some_2 l (Z.to_nat i)) as [x Hx]; [lia|by exists x].
Qed.

Lemma length_zinsert l i x : length l.[i := x] = length l.
Proof. apply length_insert. Qed.

Lemma zlookup_zinsert_eq l i x :
  0 ≤ i < Z.of_nat (length l) → l.[i := x] !? i = Some x.
Proof.
  intros. rewrite zlookup_nonneg by lia. unfold zinsert.
  apply list_lookup_insert_eq. lia.
Qed.

Lemma zlookup_zinsert_ne l i j x :
  0 ≤ i → i ≠ j → l.[i := x] !? j = l !? j.
Proof.
  intros. unfold zinsert, zlookup. destruct (Z.ltb_spec j 0); [done|].
  apply list_lookup_insert_ne. lia.
Qed.

Lemma zlookup_zinsert l i j x :
  0 ≤ i < Z.of_nat (length l) →
  l.[i := x] !? j = if decide (i = j) then Some x else l !? j.
Proof.
  intros. case_decide; subst; [by apply zlookup_zinsert_eq|].
  apply zlookup_zinsert_ne; lia.
Qed.

Lemma zlookup_replicate (n : nat) i x y :
  replicate n x !? i = Some y → y = x.
Proof.
  unfold zlookup. destruct (Z.ltb_spec i 0); [done|].
  by intros [-> _]%lookup_replicate.
Qed.

Lemma arr_get_Ok l i x : arr_get l i = Ok x ↔ l !? i = Some x.
Proof. unfold arr_get. destruct (l !? i); simpl; split; intros; simplify_eq; congruence. Qed.

Lemma arr_get_Some l i x : l !? i = Some x → arr_get l i = Ok x.
Proof. apply arr_get_Ok. Qed.

Lemma arr_set_in l i x : 0 ≤ i < Z.of_nat (length l) → arr_set l i x = Ok l.[i := x].
Proof. intros. unfold arr_set. by rewrite bool_decide_eq_true_2. Qed.

Lemma arr_set_Some l i x y : l !? i = Some y → arr_set l i x = Ok l.[i := x].
Proof. intros ?%zlookup_bounds. by apply arr_set_in. Qed.

Lemma arr_get_mid pre x post : arr_get (pre ++ x :: post) (Z.of_nat (length pre)) = Ok x.
Proof. apply arr_get_Some. rewrite zlookup_nat. by apply list_lookup_middle. Qed.

Lemma arr_set_mid pre x y post :
  arr_set (pre ++ x :: post) (Z.of_nat (length pre)) y = Ok (pre ++ y :: post).
Proof.
  unfold arr_set, zinsert. rewrite bool_decide_true by (rewrite length_app; cbn [length]; lia).
  rewrite Nat2Z.id. f_equal. rewrite <- (Nat.add_0_r (length pre)). by rewrite insert_app_r.
Qed.

Lemma Forall_zlookup (R : A → Prop) l : (∀ i x, l !? i = Some x → R x) → Forall R l.
Proof.
  intros HR. apply Forall_lookup. intros n x Hx. apply (HR (Z.of_nat n)).
  by rewrite zlookup_nat.
Qed.

Lemma drop_zlookup l i x :
  l !? i = Some x → drop (Z.to_nat i) l = x :: drop (Z.to_nat (i + 1)) l.
Proof.
  intros Hi. pose proof (zlookup_bounds _ _ _ Hi). rewrite zlookup_nonneg in Hi by lia.
  rewrite (drop_S _ _ _ Hi). do 2 f_equal. lia.
Qed.

Lemma zinsert_zinsert l i x y : l.[i := x].[i := y] = l.[i := y].
Proof. apply list_insert_insert_eq. Qed.

Lemma zinsert_comm l i j x y :
  0 ≤ i → 0 ≤ j → i ≠ j → l.[i := x].[j := y] = l.[j := y].[i := x].
Proof. intros. apply list_insert_insert_ne. lia. Qed.

Lemma list_eq_zlookup l1 l2 : (∀ i, 0 ≤ i → l1 !? i = l2 !? i) → l1 = l2.
Proof.
  intros Heq. apply list_eq. intros n. rewrite <- !zlookup_nat. apply Heq. lia.
Qed.
End array_lemmas.

#[export] Hint Rewrite @length_zinsert : moodist.

(** ** The values collected from an array *)

Section omap_lemmas.
Context {A B : Type} (f : A → option B).
Implicit Types (l : list A).

Lemma omap_take_drop l i x :
  l !? i = Some x →
  omap f l ≡ₚ option_list (f x) ++ omap f (take (Z.to_nat i) l ++ drop (S (Z.to_nat i)) l).
Proof.
  intros Hi. assert (0 ≤ i) by (apply zlookup_bounds in Hi; lia).
  rewrite zlookup_nonneg in Hi by done.
  rewrite <- (take_drop_middle l _ x Hi) at 1.
  rewrite !omap_app. simpl. destruct (f x); simpl; [|done].
  by rewrite Permutation_middle.
Qed.

Lemma omap_zinsert l i x y :
  l !? i = Some x →
  option_list (f x) ++ omap f l.[i := y] ≡ₚ option_list (f y) ++ omap f l.
Proof.
  intros Hi. pose proof (zlookup_bounds _ _ _ Hi) as Hb.
  rewrite (omap_take_drop l i x Hi).
  rewrite (omap_take_drop l.[i := y] i y) by (by apply zlookup_zinsert_eq).
  unfold zinsert. rewrite take_insert_ge by done. rewrite drop_insert_lt by lia.
  rewrite !(assoc_L (++)). apply Permutation_app; [|done]. apply Permutation_app_comm.
Qed.

Lemma elem_of_omap_zlookup l b :
  b ∈ omap f l ↔ ∃ i x, l !? i = Some x ∧ f x = Some b.
Proof.
  rewrite list_elem_of_omap. split.
  - intros (x & [n Hn]%list_elem_of_lookup & Hf). exists (Z.of_nat n), x. by rewrite zlookup_nat.
  - intros (i & x & Hi & Hf). exists x. split; [|done].
    apply list_elem_of_lookup. exists (Z.to_nat i).
    rewrite <- zlookup_nonneg; [done|]. apply zlookup_bounds in Hi. lia.
Qed.

Lemma omap_replicate_None n x : f x = None → omap f (replicate n x) = [].
Proof. intros Hf. induction n; [done|]. simpl. by rewrite Hf. Qed.

(** The positions that hold a value, one per collected value. *)
Lemma omap_positions_exist l :
  ∃ qs : list Z, length qs = length (omap f l) ∧
    ∀ i x, l !? i = Some x → is_Some (f x) → i ∈ qs.
Proof.
  induction l as [|x l (qs & Hlen & Hqs)] using rev_ind.
  { exists []. split; [done|]. intros i y Hi%zlookup_bounds. simpl in Hi. lia. }
  exists (qs ++ (match f x with Some _ => [Z.of_nat (length l)] | None => [] end)). split.
  - rewrite omap_app, !length_app, Hlen. simpl. by destruct (f x).
  - intros i y Hi Hy. pose proof (zlookup_bounds _ _ _ Hi) as Hb.
    rewrite length_app in Hb. simpl in Hb. apply elem_of_app.
    rewrite zlookup_nonneg in Hi by lia.
    apply lookup_app_Some in Hi as [Hi|[Hge Hi]].
    + left. apply (Hqs i y); [|done]. by rewrite zlookup_nonneg by lia.
    + right. apply list_lookup_singleton_Some in Hi as [Hi ->].
      destruct Hy as [b ->]. apply list_elem_of_singleton. lia.
Qed.

(** Distinct positions that all hold a value are at most as many as the values. *)
Lemma omap_positions (ps : list Z) l :
  NoDup ps → (∀ i, i ∈ ps → ∃ x, l !? i = Some x ∧ is_Some (f x)) →
  (length ps ≤ length (omap f l))%nat.
Proof.
  intros Hnd Hps. destruct (omap_positions_exist l) as (qs & <- & Hqs).
  apply submseteq_length, NoDup_submseteq; [done|].
  intros i (x & Hx & Hf)%Hps. eauto.
Qed.
End omap_lemmas.

(** The slots met when going round a ring are distinct. *)
Lemma NoDup_ring_positions k i n :
  0 < k → n ≤ k → NoDup ((λ u, (i + u) mod k) <$> seqZ 0 n).
Proof.
  intros Hk Hn. apply NoDup_fmap_2_strong; [|apply NoDup_seqZ].
  intros a b Ha Hb Heq. apply elem_of_seqZ in Ha, Hb.
  apply (ring_inj k Hk i); [done|lia].
Qed.
