(* ===== verification/HashMap.v ===== *)
(** * core/hash_map.h: the [HashMap] container

    An open-addressing table with a primary and a secondary array.  A key's
    bucket [ki] owns the primary slot [ki]; further keys of the bucket live in
    secondary slots at distances [0 .. size-1] from [ki] (cyclically), [size]
    being stored in the primary slot.  The model keeps the two arrays, the
    sentinel [none], the iterator with its cached [ki]/[vi], and the lifetime of
    every key and value (a slot holds [None] when no object is constructed in
    it).  The theorems show that the table refines a finite map. *)

From Stdlib Require Import ZArith Lia.
From stdpp Require Import base gmap option list.
From S2P Require Import Prelude.

(** ** Data *)

(** [none]: [(size_t)(int8_t)-1]. *)
Definition none : Z := size_max.

Definition isNone (v : Z) : bool := v =? none.

Arguments none : simpl never.
Arguments isNone : simpl never.

Section data.
Context (Key Value : Type).

Record PrimaryItem := mkPrimary {
  p_key : option Key;
  p_value : option Value;
  p_size : Z
}.

Record SecondaryItem := mkSecondary {
  s_key : option Key;
  s_value : option Value;
  s_index : Z
}.

(** [primary] and [secondary] are [None] for a null pointer. *)
Record HashMap := mkHashMap {
  ksize : Z;
  msize : Z;
  primary : option (list PrimaryItem);
  secondary : option (list SecondaryItem)
}.

(** What the member [v] of an iterator points at, when it is not null. *)
Inductive vref :=
  | InPrimary (i : Z)
  | InSecondary (i : Z).

Record iterator := mkIterator {
  it_ki : Z;
  it_vi : Z;
  it_v : option vref
}.
End data.

Arguments mkPrimary {Key Value}.
Arguments p_key {Key Value}.
Arguments p_value {Key Value}.
Arguments p_size {Key Value}.
Arguments mkSecondary {Key Value}.
Arguments s_key {Key Value}.
Arguments s_value {Key Value}.
Arguments s_index {Key Value}.
Arguments mkHashMap {Key Value}.
Arguments ksize {Key Value}.
Arguments msize {Key Value}.
Arguments primary {Key Value}.
Arguments secondary {Key Value}.

#[global] Instance vref_eq_dec : EqDecision vref.
Proof. solve_decision. Defined.

(** ** Operations *)

Section operations.
Context {Key Value : Type}.
(** The template parameters [Hash] and [Equal], the default constructor of
    [Value] and [sizeof(PrimaryItem)]. *)
Context (Hash : Key → Z) (Equal : Key → Key → bool).
Context (value_init : Value) (sizeofPrimaryItem : Z).

Implicit Types (m : HashMap Key Value) (it : iterator).
Implicit Types (P : list (PrimaryItem Key Value)) (Q : list (SecondaryItem Key Value)).

(** [HashMap() = default]. *)
Definition hashmap_init : HashMap Key Value := mkHashMap 0 0 None None.

Definition empty m : bool := msize m =? 0.
Definition bucket_count m : Z := ksize m.
Definition size m : Z := msize m.

(** [end()]. *)
Definition end_ : iterator := mkIterator 0 0 None.

(** [a == b] on iterators compares [v] only. *)
Definition iterator_eq (a b : iterator) : bool := bool_decide (it_v a = it_v b).

(** The arrays behind the member pointers; dereferencing null is undefined. *)
Definition primary_of m : outcome (list (PrimaryItem Key Value)) := of_option (primary m).
Definition secondary_of m : outcome (list (SecondaryItem Key Value)) := of_option (secondary m).

(** [*it]: the key stored next to the value, and the value. *)
Definition deref m it : outcome (Key * Value) :=
  match it_v it with
  | None => Undef
  | Some (InPrimary i) =>
      let! P := primary_of m in
      let! pv := arr_get P i in
      let! k := of_option (p_key pv) in
      let! v := of_option (p_value pv) in
      Ok (k, v)
  | Some (InSecondary i) =>
      let! Q := secondary_of m in
      let! sv := arr_get Q i in
      let! k := of_option (s_key sv) in
      let! v := of_option (s_value sv) in
      Ok (k, v)
  end.

(** The two scans of [begin()]: the first slot at or after [i] in use. *)
Fixpoint first_primary (fuel : nat) P (bs i : Z) : outcome (option Z) :=
  match fuel with
  | O => NoFuel
  | S fuel =>
      if i =? bs then Ok None
      else let! pv := arr_get P i in
           if isNone (p_size pv) then first_primary fuel P bs (i + 1) else Ok (Some i)
  end.

Fixpoint first_secondary (fuel : nat) Q (bs i : Z) : outcome (option Z) :=
  match fuel with
  | O => NoFuel
  | S fuel =>
      if i =? bs then Ok None
      else let! sv := arr_get Q i in
           if isNone (s_index sv) then first_secondary fuel Q bs (i + 1) else Ok (Some i)
  end.

(** Enough fuel for a scan over [bs] slots. *)
Definition scan_fuel (bs : Z) : nat := S (Z.to_nat bs).

Definition begin m : outcome iterator :=
  match primary m with
  | None => Ok end_
  | Some P =>
      let bs := ksize m in
      let! r := first_primary (scan_fuel bs) P bs 0 in
      match r with
      | Some i => Ok (mkIterator i none (Some (InPrimary i)))
      | None =>
          let! Q := secondary_of m in
          let! r := first_secondary (scan_fuel bs) Q bs 0 in
          match r with
          | Some i => Ok (mkIterator i i (Some (InSecondary i)))
          | None => Ok end_
          end
      end
  end.

(** The inner [while (isNone(ki))] of [operator++]: from [vi] with
    [ki = secondary[vi].index] already read. *)
Fixpoint incr_enter_secondary (fuel : nat) Q (ks ki vi : Z) : outcome iterator :=
  match fuel with
  | O => NoFuel
  | S fuel =>
      if isNone ki then
        if vi =? ks - 1 then Ok (mkIterator ki vi None)
        else let! sv := arr_get Q (vi + 1) in
             incr_enter_secondary fuel Q ks (s_index sv) (vi + 1)
      else Ok (mkIterator ki vi (Some (InSecondary vi)))
  end.

(** [do { ... } while (isNone(map->primary[ki].size))]. *)
Fixpoint incr_primary (fuel : nat) P Q (ks ki : Z) : outcome iterator :=
  match fuel with
  | O => NoFuel
  | S fuel =>
      if ki =? ks - 1 then
        let! s0 := arr_get Q 0 in
        incr_enter_secondary (scan_fuel ks) Q ks (s_index s0) 0
      else
        let ki := ki + 1 in
        let! pv := arr_get P ki in
        if isNone (p_size pv) then incr_primary fuel P Q ks ki
        else Ok (mkIterator ki none (Some (InPrimary ki)))
  end.

(** [do { ... } while (isNone(map->secondary[vi].index))]; [ki] is left alone. *)
Fixpoint incr_secondary (fuel : nat) Q (ks ki vi : Z) : outcome iterator :=
  match fuel with
  | O => NoFuel
  | S fuel =>
      if vi =? ks - 1 then Ok (mkIterator ki vi None)
      else
        let vi := vi + 1 in
        let! sv := arr_get Q vi in
        if isNone (s_index sv) then incr_secondary fuel Q ks ki vi
        else Ok (mkIterator ki vi (Some (InSecondary vi)))
  end.

(** [operator++]. *)
Definition incr m it : outcome iterator :=
  let! P := primary_of m in
  let! Q := secondary_of m in
  if isNone (it_vi it)
  then incr_primary (scan_fuel (ksize m)) P Q (ksize m) (it_ki it)
  else incr_secondary (scan_fuel (ksize m)) Q (ksize m) (it_ki it) (it_vi it).

(** [while (s && secondary[(ki + s - 1) & mask].index != ki) --s]. *)
Fixpoint trim (fuel : nat) Q (mask ki s : Z) : outcome Z :=
  match fuel with
  | O => NoFuel
  | S fuel =>
      if s =? 0 then Ok s
      else let! sv := arr_get Q (Z.land (u64 (ki + s - 1)) mask) in
           if s_index sv =? ki then Ok s else trim fuel Q mask ki (s - 1)
  end.

(** [erase(iterator)]. *)
Definition erase m it : outcome (iterator * HashMap Key Value) :=
  let mask := u64 (ksize m - 1) in
  let ki := it_ki it in
  let vi := it_vi it in
  let msize' := u64 (msize m - 1) in
  let! P := primary_of m in
  let! Q := secondary_of m in
  if isNone vi then
    let! pv := arr_get P ki in
    if negb (p_size pv =? 0) then
      let s := u64 (p_size pv - 1) in
      let index := Z.land (u64 (ki + s)) mask in
      let! sv := arr_get Q index in
      let! Q := arr_set Q index (mkSecondary None None none) in
      let! s := trim (scan_fuel (ksize m)) Q mask ki s in
      let! P := arr_set P ki (mkPrimary (s_key sv) (s_value sv) s) in
      Ok (it, mkHashMap (ksize m) msize' (Some P) (Some Q))
    else
      let! it := incr m it in
      let! P := arr_set P ki (mkPrimary None None none) in
      Ok (it, mkHashMap (ksize m) msize' (Some P) (Some Q))
  else
    let! sv := arr_get Q vi in
    let ki := if isNone ki then s_index sv else ki in
    let! pv := arr_get P ki in
    let s := u64 (p_size pv - 1) in
    let lastIndex := Z.land (u64 (ki + s)) mask in
    let! lv := arr_get Q lastIndex in
    let! it' := if lastIndex =? vi then incr m it else Ok it in
    let! Q := if lastIndex =? vi then Ok Q
              else arr_set Q vi (mkSecondary (s_key lv) (s_value lv) (s_index sv)) in
    let! Q := arr_set Q lastIndex (mkSecondary None None none) in
    let! s := trim (scan_fuel (ksize m)) Q mask ki s in
    let! P := arr_set P ki (mkPrimary (p_key pv) (p_value pv) s) in
    Ok (it', mkHashMap (ksize m) msize' (Some P) (Some Q)).

(** The lambda [equal] of [findSlowPath]. *)
Definition slot_equal Q (i ki : Z) (key : Key) : outcome bool :=
  let! sv := arr_get Q i in
  if s_index sv =? ki then let! k := of_option (s_key sv) in Ok (Equal k key)
  else Ok false.

(** [n] of the falling-through [case] blocks of the [switch]: the iterator
    found, or the advanced [(i, vi, s)]. *)
Fixpoint slow_cases (n : nat) Q (mask ki : Z) (key : Key) (i vi s : Z) :
    outcome (iterator + (Z * Z * Z)) :=
  match n with
  | O => Ok (inr (i, vi, s))
  | S n =>
      let! b := slot_equal Q i ki key in
      if b then Ok (inl (mkIterator ki (Z.land vi mask) (Some (InSecondary i))))
      else slow_cases n Q mask ki key (i + 1) (u64 (vi + 1)) (u64 (s - 1))
  end.

(** [switch (s)]: how many blocks run from the label [s] selects. *)
Definition switch_cases (s : Z) : nat :=
  if s =? 1 then 1%nat else if s =? 2 then 2%nat else if s =? 3 then 3%nat else 4%nat.

(** The [do ... while (i != e)] loop of [findSlowPath]; [i] and [e] are offsets
    from [secondary]. *)
Fixpoint slow_loop (fuel : nat) Q (bs ki endvi : Z) (key : Key) (i vi s : Z) :
    outcome iterator :=
  match fuel with
  | O => NoFuel
  | S fuel =>
      let mask := u64 (bs - 1) in
      let enditerator := mkIterator ki endvi None in
      let! r := if i <? endvi then slow_cases (switch_cases s) Q mask ki key i vi s
                else Ok (inr (i, vi, s)) in
      match r with
      | inl it => Ok it
      | inr (i', vi', s') =>
          if (i <? endvi) && (i' =? endvi) then Ok enditerator
          else
            let! b := slot_equal Q i' ki key in
            if b then Ok (mkIterator ki (Z.land vi' mask) (Some (InSecondary i')))
            else
              let i' := i' + 1 in
              let vi' := u64 (vi' + 1) in
              let s' := u64 (s' - 1) in
              let i' := if i' =? bs then 0 else i' in
              if i' =? endvi then Ok enditerator
              else slow_loop fuel Q bs ki endvi key i' vi' s'
      end
  end.

Definition findSlowPath m (ki : Z) (key : Key) : outcome iterator :=
  let bs := ksize m in
  let mask := u64 (bs - 1) in
  let! P := primary_of m in
  let! Q := secondary_of m in
  let! pv := arr_get P ki in
  let s := p_size pv in
  let endvi := Z.land (u64 (ki + s)) mask in
  slow_loop (scan_fuel bs) Q bs ki endvi key ki ki s.

(** [((__uint128_t)(Hash()(key) * 0x9E3779B97F4A7C15ul) * bs) >> 64]. *)
Definition bucket (bs : Z) (key : Key) : Z :=
  Z.shiftr (u64 (Hash key * 0x9E3779B97F4A7C15) * bs) 64.

Definition find m (key : Key) : outcome iterator :=
  match primary m with
  | None => Ok end_
  | Some P =>
      let ki := bucket (ksize m) key in
      let! pv := arr_get P ki in
      if isNone (p_size pv) then Ok (mkIterator ki none None)
      else
        let! k := of_option (p_key pv) in
        if Equal k key then Ok (mkIterator ki none (Some (InPrimary ki)))
        else if p_size pv =? 0 then Ok (mkIterator ki ki None)
        else findSlowPath m ki key
  end.

Definition contains m (key : Key) : outcome bool :=
  let! i := find m key in Ok (negb (iterator_eq i end_)).

Definition at_ m (key : Key) : outcome Value :=
  let! i := find m key in
  if iterator_eq i end_ then Throw OutOfRange
  else let! kv := deref m i in Ok kv.2.

(** [erase(key)]. *)
Definition erase_key m (key : Key) : outcome (HashMap Key Value) :=
  let! i := find m key in
  if iterator_eq i end_ then Ok m
  else let! r := erase m i in Ok r.2.

(** [clear()]: erase from [begin()] until the iterator is [end()]. *)
Fixpoint clear_loop (fuel : nat) m it : outcome (HashMap Key Value) :=
  match fuel with
  | O => NoFuel
  | S fuel =>
      if iterator_eq it end_ then Ok m
      else let! '(it', m') := erase m it in clear_loop fuel m' it'
  end.

Definition clear m : outcome (HashMap Key Value) :=
  let! i := begin m in
  clear_loop (S (Z.to_nat (msize m))) m i.

(** [for (auto& v : map)]: the pairs visited, in order. *)
Fixpoint iterate_loop (fuel : nat) m it : outcome (list (Key * Value)) :=
  match fuel with
  | O => NoFuel
  | S fuel =>
      if iterator_eq it end_ then Ok []
      else
        let! kv := deref m it in
        let! it' := incr m it in
        let! l := iterate_loop fuel m it' in
        Ok (kv :: l)
  end.

Definition iterate m : outcome (list (Key * Value)) :=
  let! i := begin m in
  iterate_loop (S (Z.to_nat (msize m))) m i.

(** ** Insertion

    [rehash], [reserve] and [try_emplace] call each other; [te] stands for the
    [try_emplace] that [rehash] calls on the new table. *)

Definition emplacer : Type :=
  HashMap Key Value → Key → Value → outcome ((iterator * bool) * HashMap Key Value).

(** [for (; pi != pend; ++pi) if (!isNone(pi->size)) try_emplace(...)]. *)
Fixpoint rehash_primary (te : emplacer) P m : outcome (HashMap Key Value) :=
  match P with
  | [] => Ok m
  | pi :: P =>
      if isNone (p_size pi) then rehash_primary te P m
      else
        let! k := of_option (p_key pi) in
        let! v := of_option (p_value pi) in
        let! r := te m k v in
        rehash_primary te P r.2
  end.

Fixpoint rehash_secondary (te : emplacer) Q m : outcome (HashMap Key Value) :=
  match Q with
  | [] => Ok m
  | si :: Q =>
      if isNone (s_index si) then rehash_secondary te Q m
      else
        let! k := of_option (s_key si) in
        let! v := of_option (s_value si) in
        let! r := te m k v in
        rehash_secondary te Q r.2
  end.

(** The freshly allocated arrays, every slot marked [none]. *)
Definition fresh_table (newBs : Z) : HashMap Key Value :=
  mkHashMap newBs 0
    (Some (replicate (Z.to_nat newBs) (mkPrimary None None none)))
    (Some (replicate (Z.to_nat newBs) (mkSecondary None None none))).

Definition rehash (te : emplacer) m (newBs : Z) : outcome (HashMap Key Value) :=
  if negb (Z.land newBs (u64 (newBs - 1)) =? 0) then Abort
  else
    match primary m with
    | None => Ok (fresh_table newBs)
    | Some oldPrimary =>
        let! oldSecondary := secondary_of m in
        let! m' := rehash_primary te oldPrimary (fresh_table newBs) in
        rehash_secondary te oldSecondary m'
    end.

(** [while (bs < n) bs *= 2]. *)
Fixpoint grow (fuel : nat) (bs n : Z) : outcome Z :=
  match fuel with
  | O => NoFuel
  | S fuel => if bs <? n then grow fuel (u64 (bs * 2)) n else Ok bs
  end.

Definition reserve (te : emplacer) m (n : Z) : outcome (HashMap Key Value) :=
  if n >=? size_max / 2 then Throw RangeError
  else
    let bs := if ksize m =? 0 then 1 else ksize m in
    let! bs := grow 65 bs n in
    rehash te m bs.

(** [while (!isNone(secondary[index].index)) { index = (index + 1) & mask; ++s; }]. *)
Fixpoint probe (fuel : nat) Q (mask index s : Z) : outcome (Z * Z) :=
  match fuel with
  | O => NoFuel
  | S fuel =>
      let! sv := arr_get Q index in
      if isNone (s_index sv) then Ok (index, s)
      else probe fuel Q mask (Z.land (u64 (index + 1)) mask) (u64 (s + 1))
  end.

(** The part of [try_emplace] after the label [resize]'s block: store the new
    pair at the position [find] reported, or [None] for [goto expand]. *)
Definition place m it (key : Key) (value : Value) :
    outcome (option ((iterator * bool) * HashMap Key Value)) :=
  let! P := primary_of m in
  let! Q := secondary_of m in
  let ki := it_ki it in
  let! pv := arr_get P ki in
  if isNone (it_vi it) then
    let! P := arr_set P ki (mkPrimary (Some key) (Some value) 0) in
    Ok (Some ((mkIterator ki none (Some (InPrimary ki)), true),
              mkHashMap (ksize m) (u64 (msize m + 1)) (Some P) (Some Q)))
  else if (ksize m <? 1024 * 1024 / sizeofPrimaryItem) && (ksize m <? u64 (msize m * 4))
  then Ok None
  else
    let mask := u64 (ksize m - 1) in
    let! '(index, s) :=
      probe (scan_fuel (ksize m)) Q mask (it_vi it) (u64 (p_size pv + 1)) in
    if ((s >=? 4) && (ksize m <? 1024 * 1024 * 4 / sizeofPrimaryItem))
       || (s >=? ksize m / 2)
    then Ok None
    else
      let! P := arr_set P ki (mkPrimary (p_key pv) (p_value pv) s) in
      let! Q := arr_set Q index (mkSecondary (Some key) (Some value) ki) in
      Ok (Some ((mkIterator ki index (Some (InSecondary index)), true),
                mkHashMap (ksize m) (u64 (msize m + 1)) (Some P) (Some Q))).

(** The loop made by [goto resize]: try to place, else grow and look again. *)
Fixpoint place_loop (te : emplacer) (fuel : nat) m it (key : Key) (value : Value) :
    outcome ((iterator * bool) * HashMap Key Value) :=
  let! r := place m it key value in
  match r with
  | Some r => Ok r
  | None =>
      match fuel with
      | O => NoFuel
      | S fuel =>
          let! m := reserve te m (u64 (ksize m + 1)) in
          let! it := find m key in
          place_loop te fuel m it key value
      end
  end.

(** [try_emplace] with the depth of its recursion through [rehash] bounded. *)
Fixpoint try_emplace (fuel : nat) m (key : Key) (value : Value) :
    outcome ((iterator * bool) * HashMap Key Value) :=
  match fuel with
  | O => NoFuel
  | S fuel =>
      let te := try_emplace fuel in
      let! m := match primary m with None => reserve te m 16 | Some _ => Ok m end in
      let! i := find m key in
      match it_v i with
      | Some _ => Ok ((i, false), m)
      | None =>
          let newksize := u64 (msize m + 1) in
          if ksize m <? newksize then
            let! m := reserve te m newksize in
            let! i := find m key in
            place_loop te fuel m i key value
          else place_loop te fuel m i key value
      end
  end.

(** The fuel the remaining operations pass; [try_emplace_total] shows it is
    enough. *)
Definition emplace_fuel : nat := 64%nat.

(** [operator[]]: the slot of the key, made with a default value if absent. *)
Definition operator_index m (key : Key) : outcome (iterator * HashMap Key Value) :=
  let! r := try_emplace emplace_fuel m key value_init in
  Ok (r.1.1, r.2).

(** [insert(key, value)]. *)
Definition insert m (key : Key) (value : Value) : outcome (iterator * HashMap Key Value) :=
  let! r := try_emplace emplace_fuel m key value in
  Ok (r.1.1, r.2).

(** [insert(pair)] through [emplace]. *)
Definition insert_pair m (x : Key * Value) :
    outcome ((iterator * bool) * HashMap Key Value) :=
  try_emplace emplace_fuel m x.1 x.2.

(** [m[key] = value]: assignment through the reference [operator[]] returns. *)
Definition assign_at m it (value : Value) : outcome (HashMap Key Value) :=
  match it_v it with
  | None => Undef
  | Some (InPrimary i) =>
      let! P := primary_of m in
      let! pv := arr_get P i in
      let! P := arr_set P i (mkPrimary (p_key pv) (Some value) (p_size pv)) in
      Ok (mkHashMap (ksize m) (msize m) (Some P) (secondary m))
  | Some (InSecondary i) =>
      let! Q := secondary_of m in
      let! sv := arr_get Q i in
      let! Q := arr_set Q i (mkSecondary (s_key sv) (Some value) (s_index sv)) in
      Ok (mkHashMap (ksize m) (msize m) (primary m) (Some Q))
  end.

(** Copy assignment: clear, then insert every pair of the source in order. *)
Fixpoint insert_all m (l : list (Key * Value)) : outcome (HashMap Key Value) :=
  match l with
  | [] => Ok m
  | x :: l => let! r := insert_pair m x in insert_all r.2 l
  end.

Definition copy_assign m (n : HashMap Key Value) : outcome (HashMap Key Value) :=
  let! m := clear m in
  let! l := iterate n in
  insert_all m l.

End operations.
