(* ===== verification/HashMapFacts.v ===== *)
(** * Correctness of core/hash_map.h

    The representation invariant of [HashMap], and the refinement: the entries
    of a table form a finite map, and every operation acts on that map. *)

From Stdlib Require Import ZArith Lia.
From stdpp Require Import base gmap option list.
From S2P Require Import Prelude HashMap.

(** ** Abstraction *)

Section abstraction.
Context {Key Value : Type}.

(** The pair stored in a slot, when both its objects are constructed. *)
Definition pentry (p : PrimaryItem Key Value) : option (Key * Value) :=
  match p_key p, p_value p with Some k, Some v => Some (k, v) | _, _ => None end.
Definition sentry (q : SecondaryItem Key Value) : option (Key * Value) :=
  match s_key q, s_value q with Some k, Some v => Some (k, v) | _, _ => None end.

Definition table_entries P Q : list (Key * Value) := omap pentry P ++ omap sentry Q.

(** Every stored pair, primary slots first: the order of iteration. *)
Definition entries (m : HashMap Key Value) : list (Key * Value) :=
  table_entries (default [] (primary m)) (default [] (secondary m)).

(** Slots without objects. *)
Definition pdead : PrimaryItem Key Value := mkPrimary None None none.
Definition sdead : SecondaryItem Key Value := mkSecondary None None none.
End abstraction.

Arguments pdead {Key Value}.
Arguments sdead {Key Value}.

(** The finite map a table stands for. *)
Definition to_map {Key Value} `{Countable Key} (m : HashMap Key Value) : gmap Key Value :=
  list_to_map (entries m).

Section facts.
Context {Key Value : Type} `{Countable Key}.
Context (Hash : Key → Z) (Equal : Key → Key → bool).
Context (value_init : Value) (sizeofPrimaryItem : Z).
(** [Equal] decides equality, as [std::equal_to] does. *)
Context (Equal_spec : ∀ a b, Equal a b = true ↔ a = b).

Ltac step :=
  cbn [obind of_option p_key p_value p_size s_key s_value s_index it_ki it_vi it_v
       fst snd ksize msize primary secondary].

Implicit Types (m : HashMap Key Value) (it : iterator) (k key : Key) (v : Value).
Implicit Types (P : list (PrimaryItem Key Value)) (Q : list (SecondaryItem Key Value)).

Local Abbreviation bucket := (bucket Hash).
Local Abbreviation find := (find Hash Equal).

(** ** The representation invariant *)

(** Bucket [i] is in use, by [k] and by [s] slots of the secondary array. *)
Definition plive P (i : Z) k v (s : Z) : Prop :=
  P !? i = Some (mkPrimary (Some k) (Some v) s).
Definition slive Q (j : Z) k v (i : Z) : Prop :=
  Q !? j = Some (mkSecondary (Some k) (Some v) i).

Record table_ok (K : Z) P Q : Prop := {
  ok_pow2 : is_pow2 K;
  ok_max : K ≤ 2 ^ 63;
  ok_lenP : Z.of_nat (length P) = K;
  ok_lenQ : Z.of_nat (length Q) = K;
  ok_primary i p : P !? i = Some p →
    p = pdead ∨ ∃ k v s, p = mkPrimary (Some k) (Some v) s ∧ bucket K k = i ∧ 0 ≤ s < K;
  ok_secondary j q : Q !? j = Some q →
    q = sdead ∨ ∃ k v i, q = mkSecondary (Some k) (Some v) i ∧ bucket K k = i ∧
      ∃ k' v' s, plive P i k' v' s ∧ (j - i) mod K < s;
  ok_tail i k v s : plive P i k v s → 0 < s →
    ∃ k' v', slive Q ((i + s - 1) mod K) k' v' i;
  ok_nodup : NoDup (table_entries P Q).*1
}.

(** A map with arrays: they form a well-formed table and [msize] counts its
    entries. *)
Record repr m P Q : Prop := {
  repr_primary : primary m = Some P;
  repr_secondary : secondary m = Some Q;
  repr_ok : table_ok (ksize m) P Q;
  repr_msize : msize m = Z.of_nat (length (table_entries P Q));
  repr_load : msize m ≤ ksize m
}.

(** The invariant of every [HashMap] object. *)
Definition wf m : Prop := m = hashmap_init ∨ ∃ P Q, repr m P Q.

(** ** Buckets *)

Lemma bucket_range K key : 0 < K → 0 ≤ bucket K key < K.
Proof.
  intros HK. unfold bucket. rewrite Z.shiftr_div_pow2 by lia.
  pose proof (Z.mod_pos_bound (Hash key * 0x9E3779B97F4A7C15) (2 ^ 64) ltac:(lia)) as Hb.
  unfold u64. split; [apply Z.div_pos; nia|].
  apply Z.div_lt_upper_bound; nia.
Qed.

Lemma none_neq (x K : Z) : K ≤ 2 ^ 63 → x < K → isNone x = false.
Proof. intros. unfold isNone, none, size_max. apply Z.eqb_neq. lia. Qed.

Section table.
Context (K : Z) P Q (Hok : table_ok K P Q).

Lemma table_pos : 0 < K.
Proof using Hok. apply is_pow2_pos, Hok. Qed.

Lemma table_mask x : Z.land (u64 x) (u64 (K - 1)) = x mod K.
Proof using Hok.
  pose proof table_pos. pose proof (ok_max _ _ _ Hok).
  unfold u64 at 2. rewrite Z.mod_small by lia.
  apply mask_u64; [apply Hok|lia].
Qed.

Lemma table_P_get i : 0 ≤ i < K → ∃ p, P !? i = Some p.
Proof using Hok. intros. apply zlookup_in_range. by rewrite (ok_lenP _ _ _ Hok). Qed.

Lemma table_Q_get i : 0 ≤ i < K → ∃ q, Q !? i = Some q.
Proof using Hok. intros. apply zlookup_in_range. by rewrite (ok_lenQ _ _ _ Hok). Qed.

Lemma table_P_range i p : P !? i = Some p → 0 ≤ i < K.
Proof using Hok. intros Hi%zlookup_bounds. by rewrite (ok_lenP _ _ _ Hok) in Hi. Qed.

Lemma table_Q_range i q : Q !? i = Some q → 0 ≤ i < K.
Proof using Hok. intros Hi%zlookup_bounds. by rewrite (ok_lenQ _ _ _ Hok) in Hi. Qed.

(** Entries, by the slot that holds them. *)
Lemma elem_of_table_entries k v :
  (k, v) ∈ table_entries P Q ↔
    (∃ i s, plive P i k v s) ∨ (∃ j i, slive Q j k v i).
Proof using.
  unfold table_entries. rewrite elem_of_app, !elem_of_omap_zlookup.
  unfold plive, slive, pentry, sentry. split.
  - intros [(i & [[k'|] [v'|] s] & ? & ?)|(j & [[k'|] [v'|] i] & ? & ?)];
      simplify_eq/=; eauto.
  - intros [(i & s & ?)|(j & i & ?)]; [left|right]; do 2 eexists; split; done.
Qed.

(** A key is stored in its bucket's primary slot or in a secondary slot that
    the bucket owns. *)
Lemma key_location k :
  k ∈ (table_entries P Q).*1 →
  (∃ v s, plive P (bucket K k) k v s) ∨
  (∃ j v k' v' s, slive Q j k v (bucket K k) ∧ plive P (bucket K k) k' v' s ∧
     0 ≤ j < K ∧ (j - bucket K k) mod K < s).
Proof using Hok.
  intros ([k' v] & -> & [(i & s & Hi)|(j & i & Hj)]%elem_of_table_entries)%list_elem_of_fmap.
  - left. destruct (ok_primary _ _ _ Hok i _ Hi) as [?|(?&?&?&?&Hb&?)]; simplify_eq/=; eauto.
  - right. destruct (ok_secondary _ _ _ Hok j _ Hj)
      as [?|(?&?&?&?&Hb&k'' & v'' & s & Hp & Hd)]; simplify_eq/=.
    pose proof (table_Q_range _ _ Hj). eauto 10.
Qed.
End table.

(** ** [find] *)

(** What [find] reports: the slot of the key, or where to insert it. *)
Definition find_post (K : Z) P Q key it : Prop :=
  it_ki it = bucket K key ∧
  match it_v it with
  | Some (InPrimary i) =>
      i = bucket K key ∧ it_vi it = none ∧ ∃ v s, plive P i key v s
  | Some (InSecondary j) =>
      it_vi it = j ∧ ∃ v, slive Q j key v (bucket K key)
  | None =>
      (key ∉ (table_entries P Q).*1) ∧
      ((it_vi it = none ∧ P !? bucket K key = Some pdead) ∨
       ∃ k v s, plive P (bucket K key) k v s ∧ it_vi it = (bucket K key + s) mod K)
  end.

Section find_table.
Context (K : Z) P Q (Hok : table_ok K P Q).

(** The comparison of a secondary slot never reads a key that is not there. *)
Lemma slot_equal_spec j ki key :
  0 ≤ j < K → 0 ≤ ki < K →
  ∃ b, slot_equal Equal Q j ki key = Ok b ∧ (b = true ↔ ∃ v, slive Q j key v ki).
Proof using Hok Equal_spec.
  intros Hj Hki. destruct (table_Q_get _ _ _ Hok j Hj) as [q Hq].
  unfold slot_equal, slive. rewrite (arr_get_Some _ _ _ Hq). simpl.
  pose proof (ok_max _ _ _ Hok).
  destruct (ok_secondary _ _ _ Hok j q Hq) as [->|(k & v & i & -> & Hb & _)]; simpl.
  - destruct (Z.eqb_spec none ki); [unfold none, size_max in *; lia|].
    exists false. split; [done|]. split; [done|]. intros [v Hv]. rewrite Hq in Hv. simplify_eq.
  - destruct (Z.eqb_spec i ki) as [->|].
    + exists (Equal k key). split; [done|]. rewrite Equal_spec.
      split; [intros ->; eauto|intros [? ?]; by simplify_eq].
    + exists false. split; [done|]. split; [done|]. intros [? ?]; by simplify_eq.
Qed.

(** Progress of the scan over the slots a bucket owns: none of the first [t]
    slots from [ki] holds [key]. *)
Definition scanned (ki : Z) key (t : Z) : Prop :=
  ∀ u, 0 ≤ u < t → ∀ v, ¬ slive Q ((ki + u) mod K) key v ki.

(** The outcome of the scan for a bucket that owns [s0] slots. *)
Definition scan_post (ki s0 : Z) key it : Prop :=
  it_ki it = ki ∧
  match it_v it with
  | Some (InSecondary j) => it_vi it = j ∧ ∃ v, slive Q j key v ki
  | Some (InPrimary _) => False
  | None => it_vi it = (ki + s0) mod K ∧ scanned ki key s0
  end.

Lemma scanned_step ki key t :
  scanned ki key t → (∀ v, ¬ slive Q ((ki + t) mod K) key v ki) → scanned ki key (t + 1).
Proof using.
  intros Hsc Ht u Hu v. destruct (decide (u = t)) as [->|]; [apply Ht|].
  apply Hsc. lia.
Qed.

Lemma found_post ki s0 key t i v :
  0 ≤ ki < K → 0 ≤ t < K → i = (ki + t) mod K → slive Q i key v ki →
  scan_post ki s0 key (mkIterator ki (Z.land (ki + t) (u64 (K - 1))) (Some (InSecondary i))).
Proof using Hok.
  intros ? ? -> Hv. pose proof (ok_max _ _ _ Hok).
  split; [done|]. simpl. split; [|eauto].
  rewrite <- (table_mask _ _ _ Hok (ki + t)). 
  by rewrite (u64_small (ki + t)) by lia.
Qed.

Lemma slow_cases_spec n ki s0 key t :
  0 ≤ ki < K → 0 ≤ t → t + Z.of_nat n ≤ s0 → s0 < K →
  (ki + t) mod K + Z.of_nat n ≤ K → scanned ki key t →
  ∃ r, slow_cases Equal n Q (u64 (K - 1)) ki key ((ki + t) mod K) (ki + t) (s0 - t) = Ok r ∧
    match r with
    | inl it => scan_post ki s0 key it
    | inr (i, vi, s) =>
        i = (ki + t) mod K + Z.of_nat n ∧ vi = ki + (t + Z.of_nat n) ∧
        s = s0 - (t + Z.of_nat n) ∧ scanned ki key (t + Z.of_nat n)
    end.
Proof using Hok Equal_spec.
  intros Hki. pose proof (table_pos _ _ _ Hok) as HK. pose proof (ok_max _ _ _ Hok).
  revert t. induction n as [|n IH]; intros t Ht Hn Hs Hw Hsc.
  { eexists. split; [done|]. simpl. rewrite !Z.add_0_r. done. }
  pose proof (Z.mod_pos_bound (ki + t) K HK) as Hb.
  destruct (slot_equal_spec ((ki + t) mod K) ki key Hb Hki) as (b & Hb1 & Hb2).
  cbn [slow_cases]. rewrite Hb1. cbn [obind]. destruct b.
  { destruct Hb2 as [[v Hv] _]; [done|]. eexists. split; [done|].
    eapply found_post; eauto; lia. }
  assert (∀ v, ¬ slive Q ((ki + t) mod K) key v ki) as Hne 
    by (intros v Hv; assert (false = true) by (apply Hb2; eauto); done).
  apply (scanned_step _ _ _ Hsc) in Hne.
  rewrite (u64_small (ki + t + 1)), (u64_small (s0 - t - 1)) by lia.
  replace (ki + t + 1) with (ki + (t + 1)) by lia.
  replace (s0 - t - 1) with (s0 - (t + 1)) by lia.
  destruct n as [|n].
  { eexists. split; [done|]. simpl. split_and!; [lia..|]. done. }
  assert ((ki + (t + 1)) mod K = (ki + t) mod K + 1) as Hsucc.
  { rewrite Z.add_assoc. apply ring_succ_small; lia. }
  rewrite <- Hsucc.
  destruct (IH (t + 1)) as (r & Hr & Hpost); [lia..|done|].
  rewrite Hr. eexists. split; [done|]. destruct r as [it|[[i vi] s]]; [done|].
  destruct Hpost as (-> & -> & -> & Hsc'). split_and!; [lia..|].
  by replace (t + Z.of_nat (S (S n))) with (t + 1 + Z.of_nat (S n)) by lia.
Qed.
(** The blocks the [switch] runs stay within the slots left. *)
Lemma switch_cases_le s : 1 ≤ s → Z.of_nat (switch_cases s) ≤ s.
Proof using.
  intros. unfold switch_cases.
  destruct (Z.eqb_spec s 1), (Z.eqb_spec s 2), (Z.eqb_spec s 3); lia.
Qed.

Lemma switch_cases_pos s : (0 < switch_cases s)%nat.
Proof using.
  unfold switch_cases.
  destruct (Z.eqb_spec s 1), (Z.eqb_spec s 2), (Z.eqb_spec s 3); lia.
Qed.

(** One comparison after the [switch], then on to the next slot. *)
Lemma slow_step_spec fuel ki s0 key t :
  0 ≤ ki < K → 0 ≤ t < s0 → s0 < K → scanned ki key t →
  (∀ t', t < t' < s0 → scanned ki key t' →
     ∃ it, slow_loop Equal fuel Q K ki ((ki + s0) mod K) key
             ((ki + t') mod K) (ki + t') (s0 - t') = Ok it ∧ scan_post ki s0 key it) →
  ∃ it, (let! b := slot_equal Equal Q ((ki + t) mod K) ki key in
         if b then Ok (mkIterator ki (Z.land (ki + t) (u64 (K - 1)))
                         (Some (InSecondary ((ki + t) mod K))))
         else
           let i' := (ki + t) mod K + 1 in
           let vi' := u64 (ki + t + 1) in
           let s' := u64 (s0 - t - 1) in
           let i' := if i' =? K then 0 else i' in
           if i' =? (ki + s0) mod K then Ok (mkIterator ki ((ki + s0) mod K) None)
           else slow_loop Equal fuel Q K ki ((ki + s0) mod K) key i' vi' s') = Ok it ∧
        scan_post ki s0 key it.
Proof using Hok Equal_spec.
  intros Hki Ht Hs0 Hsc Hrec. pose proof (table_pos _ _ _ Hok) as HK.
  pose proof (ok_max _ _ _ Hok).
  pose proof (Z.mod_pos_bound (ki + t) K HK) as Hb.
  destruct (slot_equal_spec ((ki + t) mod K) ki key Hb Hki) as (b & Hb1 & Hb2).
  rewrite Hb1. cbn [obind]. destruct b.
  { destruct Hb2 as [[v Hv] _]; [done|]. eexists. split; [done|].
    eapply found_post; eauto; lia. }
  assert (scanned ki key (t + 1)) as Hsc'.
  { apply scanned_step; [done|]. intros v Hv.
    assert (false = true) by (apply Hb2; eauto). done. }
  rewrite <- ring_succ by done.
  rewrite (u64_small (ki + t + 1)), (u64_small (s0 - t - 1)) by lia.
  rewrite <- Z.add_assoc. destruct (Z.eqb_spec ((ki + (t + 1)) mod K) ((ki + s0) mod K)) as [He|He].
  - apply (ring_inj K HK) in He; [|lia]. subst s0. eexists. split; [done|]. done.
  - replace (s0 - t - 1) with (s0 - (t + 1)) by lia. apply Hrec; [|done].
    assert (t + 1 ≠ s0) by (intros <-; done). lia.
Qed.

Lemma slow_loop_spec fuel ki s0 key t :
  0 ≤ ki < K → 0 ≤ t < s0 → s0 < K → s0 - t ≤ Z.of_nat fuel → scanned ki key t →
  ∃ it, slow_loop Equal fuel Q K ki ((ki + s0) mod K) key
          ((ki + t) mod K) (ki + t) (s0 - t) = Ok it ∧ scan_post ki s0 key it.
Proof using Hok Equal_spec.
  intros Hki. revert t. induction fuel as [|fuel IH]; intros t Ht Hs0 Hf Hsc; [lia|].
  pose proof (table_pos _ _ _ Hok) as HK.
  pose proof (Z.mod_pos_bound (ki + t) K HK).
  pose proof (Z.mod_pos_bound (ki + s0) K HK).
  cbn [slow_loop]. destruct (Z.ltb_spec ((ki + t) mod K) ((ki + s0) mod K)) as [Hlt|Hge].
  - assert ((ki + s0) mod K = (ki + t) mod K + (s0 - t)) as Hnw.
    { replace (ki + s0) with (ki + t + (s0 - t)) in * by lia. apply ring_no_wrap; lia. }
    set (n := switch_cases (s0 - t)).
    pose proof (switch_cases_le (s0 - t)) as Hn1. pose proof (switch_cases_pos (s0 - t)) as Hn2.
    destruct (slow_cases_spec n ki s0 key t) as (r & Hr & Hpost); [lia..|done|].
    rewrite Hr. cbn [obind]. destruct r as [it|[[i vi] s]]; [eauto|].
    destruct Hpost as (-> & -> & -> & Hsc').
    destruct (Z.eqb_spec ((ki + t) mod K + Z.of_nat n) ((ki + s0) mod K)) as [He|He]; cbn [andb].
    + eexists. split; [done|]. split; [done|]. simpl. split; [done|].
      by replace s0 with (t + Z.of_nat n) by lia.
    + assert ((ki + (t + Z.of_nat n)) mod K = (ki + t) mod K + Z.of_nat n) as <-.
      { rewrite Z.add_assoc, <- (Zplus_mod_idemp_l (ki + t)). apply Z.mod_small. lia. }
      apply slow_step_spec; [lia..|done|]. intros t' Ht' Hsc''. apply IH; [lia..|done].
  - cbn [obind andb]. apply slow_step_spec; [lia..|done|].
    intros t' Ht' Hsc''. apply IH; [lia..|done].
Qed.

(** On a well-formed table [find] returns, and reports the key's slot exactly
    when the key is stored. *)
Lemma find_table_spec n key :
  ∃ it, find (mkHashMap K n (Some P) (Some Q)) key = Ok it ∧ find_post K P Q key it.
Proof using Hok Equal_spec.
  pose proof (table_pos _ _ _ Hok) as HK. pose proof (ok_max _ _ _ Hok) as Hmax.
  pose proof (bucket_range K key HK) as Hb.
  destruct (table_P_get _ _ _ Hok _ Hb) as [p Hp].
  unfold find. cbn [primary ksize]. rewrite (arr_get_Some _ _ _ Hp). cbn [obind].
  destruct (ok_primary _ _ _ Hok _ _ Hp) as [->|(k & v & s & -> & Hbk & Hs)]; simpl.
  { eexists. split; [done|]. split; [done|]. simpl. split; [|by left].
    intros [(?&?&Hl)|(?&?&?&?&?&_&Hl&_)]%(key_location _ _ _ Hok);
      unfold plive in Hl; rewrite Hp in Hl; done. }
  rewrite (none_neq s K) by lia.
  destruct (Equal k key) eqn:Heq.
  { apply Equal_spec in Heq as ->. eexists. split; [done|]. split; [done|]. simpl.
    split_and!; [done..|]. by exists v, s. }
  assert (k ≠ key) as Hne by (intros ->; assert (Equal key key = true) by (by apply Equal_spec); congruence).
  assert (∀ v s, ¬ plive P (bucket K key) key v s) as Hnp.
  { intros ?? Hl. unfold plive in Hl. rewrite Hp in Hl. congruence. }
  destruct (Z.eqb_spec s 0) as [->|Hs0].
  { eexists. split; [done|]. split; [done|]. simpl. split.
    - intros [(?&?&Hl)|(j&?&?&?&s&_&Hl&_&Hd)]%(key_location _ _ _ Hok);
      [by eapply Hnp|].
      unfold plive in Hl. rewrite Hp in Hl. simplify_eq. pose proof (Z.mod_pos_bound (j - bucket K key) K HK). lia.
    - right. exists k, v, 0. split; [done|]. rewrite Z.add_0_r. symmetry. by apply Z.mod_small. }
  unfold findSlowPath. cbn [primary_of secondary_of primary secondary ksize of_option obind].
  rewrite (arr_get_Some _ _ _ Hp). cbn [obind p_size].
  rewrite (table_mask _ _ _ Hok).
  destruct (slow_loop_spec (scan_fuel K) (bucket K key) s key 0) as (it & Hit & Hki & Hpost);
    [lia..|unfold scan_fuel; lia|intros ?; lia|].
  rewrite !Z.add_0_r, Z.sub_0_r, (Z.mod_small (bucket K key)) in Hit by done.
  exists it. split; [done|]. split; [done|].
  destruct (it_v it) as [[|j]|]; [done|done|]. destruct Hpost as [Hvi Hsc]. split.
  - intros [(?&?&Hl)|(j&v'&?&?&s'&Hj&Hl&Hjr&Hd)]%(key_location _ _ _ Hok);
      [by eapply Hnp|].
    unfold plive in Hl. rewrite Hp in Hl. simplify_eq.
    apply (Hsc ((j - bucket K key) mod K)) with v'.
    { split; [apply Z.mod_pos_bound|]; lia. }
    by rewrite ring_dist by done.
  - right. by exists k, v, s.
Qed.
End find_table.

(** ** Updates of the arrays, on the entries *)

Lemma entries_set_P P Q i p x :
  P !? i = Some p →
  option_list (pentry p) ++ table_entries P.[i := x] Q ≡ₚ
  option_list (pentry x) ++ table_entries P Q.
Proof.
  intros Hi. unfold table_entries. rewrite !(assoc_L (++)).
  by rewrite (omap_zinsert pentry P i p x Hi).
Qed.

Lemma entries_set_Q P Q j q x :
  Q !? j = Some q →
  option_list (sentry q) ++ table_entries P Q.[j := x] ≡ₚ
  option_list (sentry x) ++ table_entries P Q.
Proof.
  intros Hj. unfold table_entries.
  rewrite (Permutation_app_swap_app (option_list (sentry q))),
    (Permutation_app_swap_app (option_list (sentry x))).
  by rewrite (omap_zinsert sentry Q j q x Hj).
Qed.

Lemma nodup_insert P Q P' Q' key v :
  table_entries P' Q' ≡ₚ (key, v) :: table_entries P Q →
  NoDup (table_entries P Q).*1 → key ∉ (table_entries P Q).*1 →
  NoDup (table_entries P' Q').*1.
Proof. intros -> ? ?. simpl. by apply NoDup_cons_2. Qed.

Lemma nodup_delete P Q P' Q' kv :
  table_entries P Q ≡ₚ kv :: table_entries P' Q' →
  NoDup (table_entries P Q).*1 → NoDup (table_entries P' Q').*1.
Proof. intros ->. simpl. by intros ?%NoDup_cons_1_2. Qed.

(** ** Storing a new pair *)

(** Without erasures the slots a bucket owns have no gaps. *)
Definition dense (K : Z) P Q : Prop :=
  ∀ i k v s, plive P i k v s → ∀ u, 0 ≤ u < s → ∃ k' v' i', slive Q ((i + u) mod K) k' v' i'.

Section store.
Context (K : Z) P Q (Hok : table_ok K P Q).
Context (key : Key) (v : Value) (Hnew : key ∉ (table_entries P Q).*1).

Lemma live_secondary_bound ps :
  NoDup ps → (∀ j, j ∈ ps → ∃ k' v' i', slive Q j k' v' i') →
  (length ps ≤ length (omap sentry Q))%nat.
Proof using.
  intros Hnd Hps. apply omap_positions; [done|].
  intros j (k' & v' & i' & Hj)%Hps. eexists. split; [done|]. by eexists.
Qed.

(** The primary slot of an unused bucket. *)
Lemma store_primary_ok :
  P !? bucket K key = Some pdead →
  let P' := P.[bucket K key := mkPrimary (Some key) (Some v) 0] in
  table_ok K P' Q ∧ table_entries P' Q ≡ₚ (key, v) :: table_entries P Q ∧
  (dense K P Q → dense K P' Q).
Proof using Hok Hnew.
  intros Hp P'. pose proof (zlookup_bounds _ _ _ Hp) as Hb.
  pose proof (table_pos _ _ _ Hok).
  assert (table_entries P' Q ≡ₚ (key, v) :: table_entries P Q) as Hperm
    by apply (entries_set_P P Q _ _ (mkPrimary (Some key) (Some v) 0) Hp).
  split_and!; [split|done|].
  - apply Hok.
  - apply Hok.
  - unfold P'. rewrite length_zinsert. apply Hok.
  - apply Hok.
  - intros i p Hi. unfold P' in Hi. rewrite zlookup_zinsert in Hi by done.
    case_decide; simplify_eq; [|by apply (ok_primary _ _ _ Hok)].
    right. exists key, v, 0. split_and!; [done|done|lia|lia].
  - intros j q Hq. destruct (ok_secondary _ _ _ Hok j q Hq)
      as [->|(k & v0 & i & -> & Hbi & k' & v' & s & Hl & Hd)]; [by left|right].
    exists k, v0, i. split_and!; [done..|]. exists k', v', s. split; [|done].
    unfold plive, P' in *. rewrite zlookup_zinsert by done.
    case_decide as Hi; [|done]. rewrite <- Hi, Hp in Hl. done.
  - intros i k v0 s Hl Hs. unfold plive, P' in Hl. rewrite zlookup_zinsert in Hl by done.
    case_decide; simplify_eq; [lia|]. by eapply (ok_tail _ _ _ Hok).
  - eapply nodup_insert; eauto. apply Hok.
  - intros Hd i k v0 s Hl u Hu. unfold plive, P' in Hl. rewrite zlookup_zinsert in Hl by done.
    case_decide; simplify_eq; [lia|]. by eapply Hd.
Qed.

(** A free secondary slot, at distance [s - 1] past the slots the bucket owns. *)
Lemma store_secondary_ok k0 v0 s0 s :
  plive P (bucket K key) k0 v0 s0 → s0 < s < K →
  Q !? ((bucket K key + s - 1) mod K) = Some sdead →
  let P' := P.[bucket K key := mkPrimary (Some k0) (Some v0) s] in
  let Q' := Q.[(bucket K key + s - 1) mod K := mkSecondary (Some key) (Some v) (bucket K key)] in
  table_ok K P' Q' ∧ table_entries P' Q' ≡ₚ (key, v) :: table_entries P Q.
Proof using Hok Hnew.
  intros Hp Hs Hq P' Q'. pose proof (table_pos _ _ _ Hok) as HK.
  pose proof (zlookup_bounds _ _ _ Hp) as Hbp. pose proof (zlookup_bounds _ _ _ Hq) as Hbq.
  assert (0 ≤ s0).
  { destruct (ok_primary _ _ _ Hok _ _ Hp) as [?|(?&?&?&?&?&?)]; simplify_eq; lia. }
  assert (∀ i k v s', plive P i k v s' → ∃ s'', plive P' i k v s'' ∧ s' ≤ s'') as HP'.
  { intros i k v' s' Hl. unfold plive, P' in *. rewrite zlookup_zinsert by done.
    case_decide; [|by exists s']. simplify_eq. exists s. split; [done|lia]. }
  assert (∀ j k v i, slive Q j k v i → slive Q' j k v i) as HQ'.
  { intros j k v' i Hl. unfold slive, Q' in *. rewrite zlookup_zinsert by done.
    case_decide as Hj; [|done]. rewrite <- Hj, Hq in Hl. done. }
  assert (table_entries P' Q' ≡ₚ (key, v) :: table_entries P Q) as Hperm.
  { pose proof (entries_set_Q P' Q _ _ (mkSecondary (Some key) (Some v) (bucket K key)) Hq) as HA.
    pose proof (entries_set_P P Q _ _ (mkPrimary (Some k0) (Some v0) s) Hp) as HB.
    simpl in HA, HB. apply Permutation_cons_inv in HB. by rewrite <- HB. }
  split; [split|done].
  - apply Hok.
  - apply Hok.
  - unfold P'. rewrite length_zinsert. apply Hok.
  - unfold Q'. rewrite length_zinsert. apply Hok.
  - intros i p Hi. unfold P' in Hi. rewrite zlookup_zinsert in Hi by done.
    case_decide; simplify_eq; [|by apply (ok_primary _ _ _ Hok)].
    destruct (ok_primary _ _ _ Hok _ _ Hp) as [?|(?&?&?&?&?&?)]; simplify_eq.
    right. do 3 eexists. split_and!; [done|done|lia|lia].
  - intros j q Hj. unfold Q' in Hj. rewrite zlookup_zinsert in Hj by done.
    case_decide; simplify_eq.
    + right. exists key, v, (bucket K key). split_and!; [done..|].
      destruct (HP' _ _ _ _ Hp) as (s'' & Hl & ?). exists k0, v0, s.
      split; [unfold plive, P'; by apply zlookup_zinsert_eq|].
      replace (bucket K key + s - 1) with (bucket K key + (s - 1)) by lia.
      rewrite ring_dist_of by lia. lia.
    + destruct (ok_secondary _ _ _ Hok j q Hj)
        as [->|(k & v' & i & -> & Hbi & k' & v'' & s' & Hl & Hd)]; [by left|right].
      exists k, v', i. split_and!; [done..|].
      destruct (HP' _ _ _ _ Hl) as (s'' & Hl' & ?). exists k', v'', s''. split; [done|lia].
  - intros i k v' s' Hl Hs'. unfold plive, P' in Hl. rewrite zlookup_zinsert in Hl by done.
    case_decide; simplify_eq.
    + exists key, v. unfold slive, Q'. by apply zlookup_zinsert_eq.
    + destruct (ok_tail _ _ _ Hok _ _ _ _ Hl Hs') as (k' & v'' & Hq'). eauto.
  - eapply nodup_insert; eauto. apply Hok.
Qed.

Lemma store_secondary_dense k0 v0 s0 s :
  plive P (bucket K key) k0 v0 s0 → dense K P Q → 0 ≤ s0 < s → s ≤ K →
  Q !? ((bucket K key + s - 1) mod K) = Some sdead →
  (∀ u, s0 ≤ u < s - 1 → ∃ k' v' i', slive Q ((bucket K key + u) mod K) k' v' i') →
  dense K P.[bucket K key := mkPrimary (Some k0) (Some v0) s]
    Q.[(bucket K key + s - 1) mod K := mkSecondary (Some key) (Some v) (bucket K key)] ∧
  s - 1 ≤ Z.of_nat (length (omap sentry Q)).
Proof using Hok.
  intros Hp Hd Hs HsK Hq Hrun. pose proof (table_pos _ _ _ Hok) as HK.
  pose proof (zlookup_bounds _ _ _ Hp) as Hbp. pose proof (zlookup_bounds _ _ _ Hq) as Hbq.
  assert (∀ u, 0 ≤ u < s - 1 → ∃ k' v' i', slive Q ((bucket K key + u) mod K) k' v' i') as Hown.
  { intros u Hu. destruct (decide (u < s0)); [apply (Hd _ _ _ _ Hp); lia|apply Hrun; lia]. }
  split.
  - intros i k v' s' Hl u Hu. unfold plive in Hl. rewrite zlookup_zinsert in Hl by done.
    assert (∀ j, (∃ k' v' i', slive Q j k' v' i') →
      ∃ k' v' i', slive Q.[(bucket K key + s - 1) mod K := mkSecondary (Some key) (Some v) (bucket K key)] j k' v' i') as Hkeep.
    { intros j (k' & v'' & i' & Hj). unfold slive. rewrite zlookup_zinsert by lia.
      destruct (decide (_ = j)); [eauto|]. by exists k', v'', i'. }
    case_decide as Hi; [simplify_eq|apply Hkeep, (Hd _ _ _ _ Hl); lia].
    destruct (decide (u = s' - 1)) as [->|]; [|apply Hkeep, Hown; lia].
    exists key, v, (bucket K key). unfold slive. rewrite Z.add_sub_assoc.
    by apply zlookup_zinsert_eq.
  - pose proof (live_secondary_bound ((λ u, (bucket K key + u) mod K) <$> seqZ 0 (s - 1))) as Hlen.
    rewrite length_fmap, length_seqZ in Hlen. enough (Z.to_nat (s - 1) ≤ length (omap sentry Q))%nat by lia.
    apply Hlen; [apply NoDup_ring_positions; lia|].
    intros j (u & -> & Hu%elem_of_seqZ)%list_elem_of_fmap. apply Hown. lia.
Qed.
End store.

(** The probe finds the first free slot, if there is one. *)
Lemma probe_spec K P Q fuel (vi s t : Z) :
  table_ok K P Q → 0 ≤ vi < K → 0 ≤ s ≤ K → 0 ≤ t →
  (∃ u, t ≤ u < K ∧ u - t < Z.of_nat fuel ∧ Q !? ((vi + u) mod K) = Some sdead) →
  ∃ n, t ≤ n < K ∧
    probe fuel Q (u64 (K - 1)) ((vi + t) mod K) (s + t) = Ok ((vi + n) mod K, s + n) ∧
    Q !? ((vi + n) mod K) = Some sdead ∧
    (∀ u, t ≤ u < n → ∃ k' v' i', slive Q ((vi + u) mod K) k' v' i').
Proof.
  intros Hok Hvi Hs. revert t. pose proof (table_pos _ _ _ Hok) as HK.
  pose proof (ok_max _ _ _ Hok).
  induction fuel as [|fuel IH]; intros t Ht (u & Hu & Hf & Hdead); [lia|].
  destruct (table_Q_get _ _ _ Hok ((vi + t) mod K)) as [q Hq]; [by apply Z.mod_pos_bound|].
  cbn [probe]. rewrite (arr_get_Some _ _ _ Hq). cbn [obind].
  destruct (ok_secondary _ _ _ Hok _ _ Hq) as [->|(k & v & i & -> & Hb & _)]; simpl.
  - exists t. split_and!; [lia..|done|done|]. intros; lia.
  - assert (i < K) by (subst i; by apply bucket_range).
    assert (u ≠ t) by (intros ->; rewrite Hq in Hdead; done).
    rewrite (none_neq i K) by done. rewrite (table_mask _ _ _ Hok), (u64_small (s + t + 1)) by lia.
    rewrite Zplus_mod_idemp_l, <- !Z.add_assoc.
    destruct (IH (t + 1)) as (n & Hn & Hpr & Hnd & Hrun); [lia|exists u; split_and!; [lia..|done]|].
    exists n. split_and!; [lia..|done|done|]. intros u' Hu'.
    destruct (decide (u' = t)) as [->|]; [by exists k, v, i|apply Hrun; lia].
Qed.

(** The iterator points at the slot of [k], with the bucket it belongs to. *)
Definition at_iter P Q it k v : Prop :=
  match it_v it with
  | Some (InPrimary i) => it_ki it = i ∧ it_vi it = none ∧ ∃ s, plive P i k v s
  | Some (InSecondary j) => it_vi it = j ∧ slive Q j k v (it_ki it)
  | None => False
  end.

Lemma find_post_at K P Q key it :
  find_post K P Q key it → it_v it ≠ None → ∃ v, at_iter P Q it key v.
Proof.
  unfold find_post, at_iter. intros [Hki Hv] Hne.
  destruct (it_v it) as [[i|j]|]; [..|done].
  - destruct Hv as (-> & Hvi & v & s & Hl). eauto 10.
  - destruct Hv as (Hvi & v & Hl). exists v. by rewrite Hki.
Qed.

Lemma at_iter_deref m P Q it k v :
  repr m P Q → at_iter P Q it k v → deref m it = Ok (k, v).
Proof.
  intros [HP HQ _ _ _] Hat. unfold deref, at_iter, plive, slive in *.
  unfold primary_of, secondary_of. rewrite HP, HQ.
  destruct (it_v it) as [[i|j]|]; [..|done]; simpl.
  - destruct Hat as (_ & _ & s & Hl). by rewrite (arr_get_Some _ _ _ Hl).
  - destruct Hat as (_ & Hl). by rewrite (arr_get_Some _ _ _ Hl).
Qed.

Lemma live_primary_pos P i k v s : plive P i k v s → (0 < length (omap pentry P))%nat.
Proof.
  intros Hl. assert ((k, v) ∈ omap pentry P) as Hin by (apply elem_of_omap_zlookup; eauto).
  destruct (omap pentry P); [by apply not_elem_of_nil in Hin|simpl; lia].
Qed.

(** A stored primary entry leaves a free secondary slot in a table that is not
    full. *)
Lemma free_slot K P Q i k v s (j : Z) :
  table_ok K P Q → plive P i k v s → Z.of_nat (length (table_entries P Q)) < K + 1 →
  ∃ u, 0 ≤ u < K ∧ Q !? ((j + u) mod K) = Some sdead.
Proof.
  intros Hok Hl Hlen. pose proof (table_pos _ _ _ Hok) as HK.
  destruct (decide (Exists (λ u, s_index <$> Q !? ((j + u) mod K) = Some none) (seqZ 0 K)))
    as [Hex|Hno].
  { apply Exists_exists in Hex as (u & Hu%elem_of_seqZ & Hd).
    exists u. split; [lia|].
    destruct (Q !? ((j + u) mod K)) as [q|] eqn:Hq; [|done]. simplify_eq/=.
    destruct (ok_secondary _ _ _ Hok _ _ Hq) as [->|(k' & v' & i' & -> & Hb & _)]; [done|].
    simpl in Hd. pose proof (bucket_range K k' HK). pose proof (ok_max _ _ _ Hok).
    unfold none, size_max in Hd. lia. }
  exfalso. rewrite Exists_exists in Hno.
  assert (Z.to_nat K ≤ length (omap sentry Q))%nat as Hle.
  { rewrite <- (length_seqZ 0 K), <- (length_fmap (λ u, (j + u) mod K)).
    apply live_secondary_bound; [apply NoDup_ring_positions; lia|].
    intros j' (u & -> & Hu)%list_elem_of_fmap.
    destruct (table_Q_get _ _ _ Hok ((j + u) mod K)) as [q Hq]; [by apply Z.mod_pos_bound|].
    destruct (ok_secondary _ _ _ Hok _ _ Hq) as [->|(k' & v' & i' & -> & _)]; [|by exists k', v', i'].
    destruct Hno. exists u. by rewrite Hq. }
  pose proof (live_primary_pos _ _ _ _ _ Hl).
  unfold table_entries in Hlen. rewrite length_app in Hlen. lia.
Qed.

(** ** [place] *)

Local Abbreviation place := (place sizeofPrimaryItem).
Local Abbreviation try_emplace := (try_emplace Hash Equal sizeofPrimaryItem).
Local Abbreviation place_loop := (place_loop Hash Equal sizeofPrimaryItem).

(** The pair has been added; [it] points at it. *)
Definition added m P Q key v it m' : Prop :=
  ∃ P' Q', repr m' P' Q' ∧ ksize m' = ksize m ∧
    table_entries P' Q' ≡ₚ (key, v) :: table_entries P Q ∧
    (dense (ksize m) P Q → dense (ksize m) P' Q') ∧ at_iter P' Q' it key v.

Lemma repr_added m P Q P' Q' key v it :
  repr m P Q → table_ok (ksize m) P' Q' → msize m < ksize m →
  table_entries P' Q' ≡ₚ (key, v) :: table_entries P Q →
  (dense (ksize m) P Q → dense (ksize m) P' Q') → at_iter P' Q' it key v →
  added m P Q key v it (mkHashMap (ksize m) (u64 (msize m + 1)) (Some P') (Some Q')).
Proof.
  intros [_ _ Hok Hms _] Hok' Hlt Hperm Hd Hat. exists P', Q'.
  pose proof (ok_max _ _ _ Hok). split_and!; [|done..].
  rewrite u64_small by lia.
  split; simpl; [done..| |lia]. rewrite Hperm. simpl. lia.
Qed.

Lemma place_free m P Q it key v :
  repr m P Q → msize m < ksize m → find_post (ksize m) P Q key it →
  it_v it = None → it_vi it = none →
  ∃ r m', place m it key v = Ok (Some (r, true, m')) ∧ added m P Q key v r m'.
Proof.
  intros Hr Hlt Hf Hv Hvi. destruct Hf as [Hki Hf]. rewrite Hv in Hf.
  destruct Hf as [Hnew Hf]. destruct (Hr) as [HP HQ Hok _ _].
  pose proof (table_pos _ _ _ Hok) as HK. pose proof (ok_max _ _ _ Hok).
  destruct Hf as [[_ Hdead]|(k & v' & s & _ & Hvi')].
  2:{ pose proof (Z.mod_pos_bound (bucket (ksize m) key + s) (ksize m) HK).
      rewrite Hvi in Hvi'. unfold none, size_max in Hvi'. lia. }
  destruct (store_primary_ok _ _ _ Hok key v Hnew Hdead) as (Hok' & Hperm & Hd).
  pose proof (zlookup_bounds _ _ _ Hdead).
  unfold place, primary_of, secondary_of. rewrite HP, HQ, Hvi, Hki. step.
  rewrite (arr_get_Some _ _ _ Hdead). step.
  change (isNone none) with true. cbn [negb]. rewrite (arr_set_Some _ _ _ _ Hdead). step.
  do 2 eexists. split; [done|]. apply repr_added; [done..|].
  unfold at_iter. step. split_and!; [done..|]. eexists. by apply zlookup_zinsert_eq.
Qed.

(** An object of the C++ program has a size. *)
Context (sizeof_pos : 1 ≤ sizeofPrimaryItem).

Lemma quot_le c : 0 ≤ c → c / sizeofPrimaryItem ≤ c.
Proof using sizeof_pos. intros. apply Z.div_le_upper_bound; nia. Qed.

Definition place_post m P Q key v (r : option ((iterator * bool) * HashMap Key Value)) : Prop :=
  match r with
  | Some (it, b, m') => b = true ∧ added m P Q key v it m'
  | None => dense (ksize m) P Q → ksize m < 2 ^ 22 ∨ ksize m ≤ 2 * msize m + 1
  end.

Lemma place_taken m P Q it key v k0 v0 s0 :
  repr m P Q → msize m < ksize m → it_ki it = bucket (ksize m) key →
  key ∉ (table_entries P Q).*1 → plive P (bucket (ksize m) key) k0 v0 s0 →
  it_vi it = (bucket (ksize m) key + s0) mod ksize m →
  ∃ r, place m it key v = Ok r ∧ place_post m P Q key v r.
Proof using sizeof_pos.
  intros Hr Hlt Hki Hnew Hl Hvi. destruct (Hr) as [HP HQ Hok Hms _].
  set (K := ksize m) in *. set (b := bucket K key) in *.
  pose proof (table_pos _ _ _ Hok) as HK. pose proof (ok_max _ _ _ Hok).
  pose proof (Z.mod_pos_bound (b + s0) K HK) as Hvb.
  assert (0 ≤ s0 < K) as Hs0.
  { destruct (ok_primary _ _ _ Hok _ _ Hl) as [?|(?&?&?&?&?&?)]; simplify_eq; lia. }
  assert (0 ≤ b < K) as Hbb by (by apply bucket_range).
  unfold place, primary_of, secondary_of. rewrite HP, HQ, Hvi, Hki. step.
  rewrite (arr_get_Some _ _ _ Hl). step. rewrite (none_neq _ K) by lia. fold K.
  destruct (_ && _) eqn:Hc.
  { eexists. split; [done|]. intros _. left. pose proof (quot_le (1024 * 1024)). lia. }
  destruct (free_slot K P Q b k0 v0 s0 (b + s0) Hok Hl) as (u & Hu & Hfree); [lia|].
  destruct (probe_spec K P Q (scan_fuel K) ((b + s0) mod K) (s0 + 1) 0 Hok)
    as (n & Hn & Hpr & Hdead & Hrun); [lia..| |].
  { exists u. unfold scan_fuel. rewrite Zplus_mod_idemp_l. split_and!; [lia..|done]. }
  rewrite !Z.add_0_r, Z.mod_mod in Hpr by lia. rewrite (u64_small (s0 + 1)) by lia.
  rewrite Hpr. step. rewrite Zplus_mod_idemp_l in *.
  replace (b + s0 + n) with (b + (s0 + 1 + n) - 1) in * by lia.
  set (s := s0 + 1 + n) in *.
  assert (∀ u, s0 ≤ u < s - 1 → ∃ k' v' i', slive Q ((b + u) mod K) k' v' i') as Hrun'.
  { intros u' Hu'. destruct (Hrun (u' - s0)) as (k' & v' & i' & Hq'); [lia|].
    rewrite Zplus_mod_idemp_l in Hq'. replace (b + s0 + (u' - s0)) with (b + u') in Hq' by lia. eauto. }
  assert (dense K P Q → s ≤ K) as HsK.
  { intros Hd. destruct (decide (s ≤ K)); [done|].
    assert ((b + (s - 1 - K)) mod K = (b + s - 1) mod K) as He.
    { rewrite <- (Z_mod_plus_full (b + (s - 1 - K)) 1 K). f_equal. lia. }
    destruct (decide (s - 1 - K < s0)).
    - destruct (Hd _ _ _ _ Hl (s - 1 - K)) as (? & ? & ? & Hq); [lia|].
      unfold slive in Hq. rewrite He, Hdead in Hq. done.
    - destruct (Hrun' (s - 1 - K)) as (? & ? & ? & Hq); [lia|].
      unfold slive in Hq. rewrite He, Hdead in Hq. done. }
  destruct (_ || _) eqn:Hc2.
  - eexists. split; [done|]. intros Hd. apply orb_true_iff in Hc2 as [Hc2|Hc2].
    + left. pose proof (quot_le (1024 * 1024 * 4)). lia.
    + right. destruct (store_secondary_dense K P Q Hok key v k0 v0 s0 s Hl Hd)
        as [_ Hlen]; [lia|auto|done|done|].
      pose proof (live_primary_pos _ _ _ _ _ Hl).
      unfold table_entries in Hms. rewrite length_app in Hms.
      assert (K / 2 ≤ s) by lia. pose proof (Z.div_mod K 2). pose proof (Z.mod_pos_bound K 2).
      unfold K in *. lia.
  - assert (s < K).
    { apply orb_false_iff in Hc2 as [_ Hc2]. pose proof (Z.div_lt_upper_bound K 2 K). lia. }
    destruct (store_secondary_ok K P Q Hok key v Hnew k0 v0 s0 s Hl) as (Hok' & Hperm);
      [lia|done|].
    rewrite (arr_set_Some _ _ _ _ Hl). step. rewrite (arr_set_Some _ _ _ _ Hdead). step.
    eexists. split; [done|]. split; [done|].
    apply repr_added; [done..| |].
    + intros Hd. apply (store_secondary_dense K P Q Hok key v k0 v0 s0 s Hl Hd); [lia..|done|done].
    + unfold at_iter. step. split; [done|]. apply zlookup_zinsert_eq.
      by apply zlookup_bounds in Hdead.
Qed.

Lemma place_spec m P Q it key v :
  repr m P Q → msize m < ksize m → find_post (ksize m) P Q key it → it_v it = None →
  ∃ r, place m it key v = Ok r ∧ place_post m P Q key v r.
Proof using sizeof_pos.
  intros Hr Hlt Hf Hv. destruct (Hf) as [Hki Hf']. rewrite Hv in Hf'.
  destruct Hf' as [Hnew [[Hvi _]|(k & v' & s & Hl & Hvi)]].
  - destruct (place_free m P Q it key v) as (r & m' & Hp & Ha); [done..|].
    rewrite Hp. eexists. split; [done|]. done.
  - by eapply place_taken.
Qed.

(** ** [rehash] and [reserve] *)

Definition densem m : Prop := ∃ P Q, repr m P Q ∧ dense (ksize m) P Q.

Lemma repr_entries m P Q : repr m P Q → entries m = table_entries P Q.
Proof. intros [HP HQ _ _ _]. unfold entries. by rewrite HP, HQ. Qed.

Lemma repr_find m P Q key :
  repr m P Q → ∃ it, find m key = Ok it ∧ find_post (ksize m) P Q key it.
Proof using Equal_spec.
  intros [HP HQ Hok _ _]. destruct m as [K n p q]. simpl in *. subst.
  by apply find_table_spec.
Qed.

(** What [try_emplace] promises: a new pair and [true], or the map unchanged and
    the slot of the key. *)
Definition emplace_ok m key v (r : (iterator * bool) * HashMap Key Value) : Prop :=
  let '(it, b, m') := r in
  ∃ P' Q', repr m' P' Q' ∧ ksize m ≤ ksize m' ∧
    if (b : bool) then
      (key ∉ (entries m).*1) ∧ entries m' ≡ₚ (key, v) :: entries m ∧ at_iter P' Q' it key v
    else m' = m ∧ ∃ v', at_iter P' Q' it key v'.

(** [te] inserts into every dense table of at least [L] buckets. *)
Definition good_te (te : emplacer) (L : Z) : Prop :=
  ∀ m key v, densem m → L ≤ ksize m ≤ 2 ^ 60 → msize m < 2 ^ 58 →
    ∃ r, te m key v = Ok r ∧ emplace_ok m key v r ∧ densem r.2 ∧ ksize r.2 ≤ 2 ^ 60.

Lemma at_iter_in m P Q it k v : repr m P Q → at_iter P Q it k v → (k, v) ∈ entries m.
Proof.
  intros Hr Hat. rewrite (repr_entries _ _ _ Hr). apply elem_of_table_entries.
  unfold at_iter in Hat. destruct (it_v it) as [[i|j]|]; [..|done].
  - destruct Hat as (_ & _ & s & Hl). eauto.
  - destruct Hat as (_ & Hl). eauto.
Qed.

Lemma repr_msize_entries m P Q : repr m P Q → msize m = Z.of_nat (length (entries m)).
Proof. intros Hr. rewrite (repr_entries _ _ _ Hr). apply Hr. Qed.

(** Inserting one more pair of the old table. *)
Lemma good_te_new te L m key v :
  good_te te L → densem m → L ≤ ksize m ≤ 2 ^ 60 → Z.of_nat (length (entries m)) < 2 ^ 58 →
  key ∉ (entries m).*1 →
  ∃ r, te m key v = Ok r ∧ densem r.2 ∧ L ≤ ksize r.2 ≤ 2 ^ 60 ∧ ksize m ≤ ksize r.2 ∧
    entries r.2 ≡ₚ (key, v) :: entries m.
Proof.
  intros Hte Hd HK Hlen Hnew. destruct (Hd) as (P & Q & Hr & _).
  destruct (Hte m key v Hd HK) as ([[it b] m'] & Hok & (P' & Q' & Hr' & HKle & Hpost) & Hd' & Hmax).
  { by rewrite (repr_msize_entries _ _ _ Hr). }
  eexists. split; [done|]. step. split_and!; [done|lia|done|done|].
  destruct b; [by destruct Hpost as (_ & ? & _)|].
  destruct Hpost as [-> [v' Hat]]. exfalso. apply Hnew.
  apply (at_iter_in _ _ _ _ _ _ Hr') in Hat. apply (list_elem_of_fmap_2 fst) in Hat. done.
Qed.

Definition pslot (p : PrimaryItem Key Value) : Prop :=
  p = pdead ∨ ∃ k v s, p = mkPrimary (Some k) (Some v) s ∧ isNone s = false.
Definition sslot (q : SecondaryItem Key Value) : Prop :=
  q = sdead ∨ ∃ k v i, q = mkSecondary (Some k) (Some v) i ∧ isNone i = false.

Lemma table_pslot K P Q i p : table_ok K P Q → P !? i = Some p → pslot p.
Proof.
  intros Hok Hp. pose proof (ok_max _ _ _ Hok).
  destruct (ok_primary _ _ _ Hok i p Hp) as [->|(k & v & s & -> & _ & ?)]; [by left|right].
  exists k, v, s. split; [done|]. apply (none_neq s K); lia.
Qed.

Lemma table_sslot K P Q j q : table_ok K P Q → Q !? j = Some q → sslot q.
Proof.
  intros Hok Hq. pose proof (ok_max _ _ _ Hok). pose proof (table_pos _ _ _ Hok) as HK.
  destruct (ok_secondary _ _ _ Hok j q Hq) as [->|(k & v & i & -> & Hb & _)]; [by left|right].
  exists k, v, i. split; [done|]. apply (none_neq i K); [done|]. subst i. by apply bucket_range.
Qed.

Lemma table_slots K P Q : table_ok K P Q → Forall pslot P ∧ Forall sslot Q.
Proof.
  intros Hok. split; apply Forall_zlookup; eauto using table_pslot, table_sslot.
Qed.

(** What copying [l] into a map does. *)
Definition copied m (l : list (Key * Value)) m' : Prop :=
  densem m' ∧ ksize m ≤ ksize m' ≤ 2 ^ 60 ∧ entries m' ≡ₚ l ++ entries m.

(** Both loops of [rehash] insert the pairs of their array in order. *)
Fixpoint insert_pairs (te : emplacer) (l : list (Key * Value)) m : outcome (HashMap Key Value) :=
  match l with
  | [] => Ok m
  | kv :: l => let! r := te m kv.1 kv.2 in insert_pairs te l r.2
  end.

Lemma rehash_primary_pairs te P m :
  Forall pslot P → rehash_primary te P m = insert_pairs te (omap pentry P) m.
Proof.
  intros HP. revert m. induction HP as [|p P [->|(k & v & s & -> & Hs)] _ IH]; intros m; [done|..].
  - apply IH.
  - cbn [rehash_primary]. step. rewrite Hs. step. simpl omap. cbn [insert_pairs].
    step. destruct (te m k v); cbn [obind]; auto.
Qed.

Lemma rehash_secondary_pairs te Q m :
  Forall sslot Q → rehash_secondary te Q m = insert_pairs te (omap sentry Q) m.
Proof.
  intros HQ. revert m. induction HQ as [|q Q [->|(k & v & s & -> & Hs)] _ IH]; intros m; [done|..].
  - apply IH.
  - cbn [rehash_secondary]. step. rewrite Hs. step. simpl omap. cbn [insert_pairs].
    step. destruct (te m k v); cbn [obind]; auto.
Qed.

Lemma insert_pairs_spec te L l m :
  good_te te L → densem m → L ≤ ksize m ≤ 2 ^ 60 → NoDup (l ++ entries m).*1 →
  Z.of_nat (length (l ++ entries m)) ≤ 2 ^ 58 →
  ∃ m', insert_pairs te l m = Ok m' ∧ copied m l m'.
Proof.
  intros Hte. revert m. induction l as [|[k v] l IH]; intros m Hd HK Hnd Hlen.
  { exists m. split; [done|]. split_and!; [done|lia|lia|done]. }
  simpl in Hnd, Hlen. rewrite length_app in Hlen.
  destruct (good_te_new te L m k v Hte Hd HK) as (r & Hr & Hd' & HK' & HKle & Hperm); [lia| |].
  { intros Hin. apply NoDup_cons_1_1 in Hnd. apply Hnd.
    rewrite fmap_app. apply elem_of_app. by right. }
  assert ((k, v) :: l ++ entries m ≡ₚ l ++ entries r.2) as Hmove
    by (by rewrite Hperm, Permutation_middle).
  destruct (IH r.2 Hd' HK') as (m' & Hm' & Hd'' & HK'' & Hperm'').
  { by rewrite <- Hmove. }
  { rewrite <- Hmove. simpl. rewrite length_app. lia. }
  exists m'. cbn [insert_pairs]. step. rewrite Hr. step. split; [done|].
  split_and!; [done|lia|lia|]. by rewrite Hperm'', <- Hmove.
Qed.

Lemma fresh_table_spec n :
  is_pow2 n → n ≤ 2 ^ 63 → densem (fresh_table n) ∧ entries (fresh_table n : HashMap Key Value) = [].
Proof.
  intros Hn Hmax. pose proof (is_pow2_pos _ Hn) as Hpos.
  assert (table_entries (replicate (Z.to_nat n) pdead) (replicate (Z.to_nat n) sdead) = []
    :> list (Key * Value)) as He.
  { unfold table_entries. by rewrite !omap_replicate_None. }
  assert (∀ i k v s, ¬ plive (replicate (Z.to_nat n) pdead) i k v s) as Hdead
    by (intros i k v s Hl%zlookup_replicate; done).
  split; [|done].
  exists (replicate (Z.to_nat n) pdead), (replicate (Z.to_nat n) sdead). split; [split; [done..| | |]|];
    cbn [ksize msize fresh_table].
  - split; [done|done|..].
    + rewrite length_replicate. lia.
    + rewrite length_replicate. lia.
    + intros i p Hi%zlookup_replicate. by left.
    + intros i p Hi%zlookup_replicate. by left.
    + intros i k v s []%Hdead.
    + rewrite He. constructor.
  - by rewrite He.
  - lia.
  - intros i k v s []%Hdead.
Qed.

Lemma rehash_spec te m P Q n :
  repr m P Q → good_te te n → is_pow2 n → n ≤ 2 ^ 60 → msize m ≤ 2 ^ 58 →
  ∃ m', rehash te m n = Ok m' ∧ densem m' ∧ n ≤ ksize m' ≤ 2 ^ 60 ∧ entries m' ≡ₚ entries m.
Proof.
  intros Hr Hte Hn Hmax Hms. destruct (Hr) as [HP HQ Hok Hlen _].
  destruct (fresh_table_spec n Hn) as [Hd He]; [lia|].
  pose proof (is_pow2_pos _ Hn). pose proof (ok_nodup _ _ _ Hok) as Hnd.
  destruct (table_slots _ _ _ Hok) as [HsP HsQ].
  rewrite (repr_entries _ _ _ Hr). unfold table_entries in *.
  unfold rehash. rewrite u64_small by lia. rewrite (is_pow2_test n Hn). cbn [negb Z.eqb].
  unfold secondary_of. rewrite HP, HQ. step. rewrite rehash_primary_pairs by done.
  rewrite length_app in Hlen.
  destruct (insert_pairs_spec te n (omap pentry P) (fresh_table n) Hte Hd)
    as (m1 & H1 & Hd1 & HK1 & Hp1).
  { cbn [ksize fresh_table]. lia. }
  { rewrite He, app_nil_r. rewrite fmap_app in Hnd. by apply NoDup_app in Hnd as [? _]. }
  { rewrite He, app_nil_r. lia. }
  rewrite He, app_nil_r in Hp1. cbn [ksize fresh_table] in HK1.
  rewrite H1. step. rewrite rehash_secondary_pairs by done.
  destruct (insert_pairs_spec te n (omap sentry Q) m1 Hte Hd1)
    as (m2 & H2 & Hd2 & HK2 & Hp2); [lia|..].
  { by rewrite Hp1, Permutation_app_comm. }
  { rewrite Hp1, length_app. lia. }
  exists m2. split_and!; [done..|lia|lia|]. by rewrite Hp2, Hp1, Permutation_app_comm.
Qed.

Lemma grow_spec fuel bs n :
  is_pow2 bs → n ≤ 2 ^ 63 → n ≤ bs * 2 ^ Z.of_nat fuel →
  ∃ r, grow (S fuel) bs n = Ok r ∧ is_pow2 r ∧ bs ≤ r ∧ n ≤ r ∧ (r = bs ∨ r < 2 * n).
Proof.
  revert bs. induction fuel as [|fuel IH]; intros bs Hbs Hn Hf;
    cbn [grow]; destruct (Z.ltb_spec bs n).
  - change (2 ^ Z.of_nat 0) with 1 in Hf. lia.
  - exists bs. split_and!; [done..|lia|lia|by left].
  - pose proof (is_pow2_pos _ Hbs). rewrite u64_small by lia.
    destruct (IH (bs * 2)) as (r & Hr & ? & ? & ? & ?).
    { by apply is_pow2_double. }
    { done. }
    { rewrite Nat2Z.inj_succ, Z.pow_succ_r in Hf by lia. lia. }
    exists r. split_and!; [done..|lia|lia|lia].
  - exists bs. split_and!; [done..|lia|lia|by left].
Qed.

(** Growing by one bucket doubles the table. *)
Lemma reserve_spec te m P Q n :
  repr m P Q → good_te te (2 * ksize m) → ksize m < n ≤ 2 ^ 59 → msize m ≤ 2 ^ 58 →
  ∃ m', reserve te m n = Ok m' ∧ densem m' ∧ 2 * ksize m ≤ ksize m' ≤ 2 ^ 60 ∧ n ≤ ksize m' ∧
    entries m' ≡ₚ entries m.
Proof.
  intros Hr Hte Hn Hms. destruct (Hr) as [_ _ Hok _ _].
  pose proof (table_pos _ _ _ Hok) as HK.
  unfold reserve. replace (n >=? size_max / 2) with false
    by (symmetry; change (size_max / 2) with (2 ^ 63 - 1); lia).
  replace (ksize m =? 0) with false by lia.
  destruct (grow_spec 64 (ksize m) n) as (r & -> & Hr2 & _ & Hnr & Hlt);
    [apply Hok|lia|change (2 ^ Z.of_nat 64) with (2 ^ 64); nia|].
  assert (2 * ksize m ≤ r) by (apply is_pow2_lt; [apply Hok|done|lia]).
  step. destruct (rehash_spec te m P Q r) as (m' & Hm' & Hd & HK' & Hperm); [done| |done|lia|done|].
  { intros ?????. apply Hte; [done|lia]. }
  exists m'. split_and!; [done..|lia|lia|lia|done].
Qed.

Lemma find_present m P Q key it :
  repr m P Q → find_post (ksize m) P Q key it → it_v it ≠ None →
  ∃ v, at_iter P Q it key v ∧ (key, v) ∈ entries m.
Proof.
  intros Hr Hf Hv. destruct (find_post_at _ _ _ _ _ Hf Hv) as [v Hat].
  eauto using at_iter_in.
Qed.

Lemma find_absent m P Q key it :
  repr m P Q → find_post (ksize m) P Q key it → key ∉ (entries m).*1 → it_v it = None.
Proof.
  intros Hr Hf Hnew. destruct (it_v it) as [r|] eqn:Hv; [|done]. exfalso.
  destruct (find_present _ _ _ _ _ Hr Hf) as (v & _ & Hin); [congruence|].
  apply (list_elem_of_fmap_2 fst) in Hin. done.
Qed.

Lemma find_None_absent m P Q key it :
  repr m P Q → find_post (ksize m) P Q key it → it_v it = None → key ∉ (entries m).*1.
Proof.
  intros Hr [_ Hf] Hv. rewrite Hv in Hf. rewrite (repr_entries _ _ _ Hr). by destruct Hf.
Qed.

(** The pair has been added to a map whose table may have grown. *)
Lemma added_emplace_ok m0 m P Q key v it m' :
  repr m P Q → ksize m0 ≤ ksize m → entries m ≡ₚ entries m0 → key ∉ (entries m0).*1 →
  added m P Q key v it m' → emplace_ok m0 key v (it, true, m').
Proof.
  intros Hr HK Hperm Hnew (P' & Q' & Hr' & HK' & Hperm' & _ & Hat).
  exists P', Q'. split_and!; [done|lia|done| |done].
  by rewrite (repr_entries _ _ _ Hr'), Hperm', <- (repr_entries _ _ _ Hr), Hperm.
Qed.

Lemma added_dense m P Q key v it m' :
  repr m P Q → dense (ksize m) P Q → added m P Q key v it m' → densem m'.
Proof.
  intros Hr Hd (P' & Q' & Hr' & HK' & _ & Hd' & _). exists P', Q'. split; [done|].
  rewrite HK'. auto.
Qed.

(** The [goto resize] loop ends: each round doubles the table, and a dense table
    of [2 ^ 59] buckets has room. *)
Lemma place_loop_spec te lf m0 m P Q it key v :
  repr m P Q → dense (ksize m) P Q → msize m < ksize m → find_post (ksize m) P Q key it →
  it_v it = None → msize m < 2 ^ 58 → ksize m ≤ 2 ^ 60 → ksize m0 ≤ ksize m →
  entries m ≡ₚ entries m0 → (ksize m < 2 ^ 59 → ∀ L, 2 * ksize m ≤ L → good_te te L) →
  2 ^ 59 ≤ ksize m * 2 ^ Z.of_nat lf →
  ∃ r, place_loop te lf m it key v = Ok r ∧ emplace_ok m0 key v r ∧ densem r.2 ∧
    ksize r.2 ≤ 2 ^ 60.
Proof using Equal_spec sizeof_pos.
  revert m P Q it. induction lf as [|lf IH];
    intros m P Q it Hr Hd Hlt Hf Hv Hms HK HK0 Hperm Hte HT;
    destruct (place_spec m P Q it key v Hr Hlt Hf Hv) as (r & Hp & Hpost);
    pose proof (repr_load _ _ _ Hr);
    assert (key ∉ (entries m0).*1) as Hnew
      by (rewrite <- Hperm; by eapply find_None_absent);
    cbn [HashMap.place_loop]; rewrite Hp; step;
    (destruct r as [[[it' b] m']|];
      [destruct Hpost as [-> Hadd]; exists (it', true, m'); split_and!;
        [done|by eapply added_emplace_ok|by eapply added_dense|
         destruct Hadd as (?&?&?&?&_); step; lia]|]);
    specialize (Hpost Hd).
  - change (2 ^ Z.of_nat 0) with 1 in HT. lia.
  - rewrite u64_small by lia.
    destruct (reserve_spec te m P Q (ksize m + 1) Hr) as (m1 & -> & (P1 & Q1 & Hr1 & Hd1) & HK1 & Hn1 & Hperm1);
      [apply Hte; lia|lia|lia|].
    step. destruct (repr_find m1 P1 Q1 key Hr1) as (it1 & -> & Hf1). step.
    assert (msize m1 = msize m) as Hms1.
    { rewrite (repr_msize_entries _ _ _ Hr1), (repr_msize_entries _ _ _ Hr). by rewrite Hperm1. }
    eapply IH; [done..|lia|done| |lia|lia|lia| | |].
    + eapply find_absent; [done..|]. by rewrite Hperm1, Hperm.
    + by rewrite Hperm1.
    + intros HT1 L HL. apply Hte; lia.
    + rewrite Nat2Z.inj_succ, Z.pow_succ_r in HT by lia. nia.
Qed.

(** ** [try_emplace] *)

Lemma emplace_found m P Q key v it :
  repr m P Q → find_post (ksize m) P Q key it → it_v it ≠ None →
  emplace_ok m key v (it, false, m).
Proof.
  intros Hr Hf Hv. exists P, Q. split_and!; [done|lia|done|].
  destruct (find_present _ _ _ _ _ Hr Hf Hv) as (v' & Hat & _). eauto.
Qed.

Lemma try_emplace_S fuel m key v :
  try_emplace (S fuel) m key v =
  let! m := match primary m with
            | None => reserve (try_emplace fuel) m 16 | Some _ => Ok m end in
  let! i := find m key in
  match it_v i with
  | Some _ => Ok ((i, false), m)
  | None =>
      if ksize m <? u64 (msize m + 1) then
        let! m := reserve (try_emplace fuel) m (u64 (msize m + 1)) in
        let! i := find m key in
        place_loop (try_emplace fuel) fuel m i key v
      else place_loop (try_emplace fuel) fuel m i key v
  end.
Proof. done. Qed.

Lemma try_emplace_dense f L :
  0 < L → 2 ^ 59 ≤ L * 2 ^ Z.of_nat f → good_te (try_emplace (S f)) L.
Proof using Equal_spec sizeof_pos.
  revert L. induction f as [|f IH]; intros L HL HT m key v Hd HK Hms;
    destruct (Hd) as (P & Q & Hr & Hdn); destruct (repr_find m P Q key Hr) as (it & Hit & Hf);
    pose proof (repr_load _ _ _ Hr); pose proof (repr_msize _ _ _ Hr);
    rewrite try_emplace_S, (repr_primary _ _ _ Hr); step; rewrite Hit; step;
    (destruct (it_v it) eqn:Hv;
      [exists (it, false, m); split_and!; [done|eapply emplace_found; [done..|congruence]|done|step; lia]|]);
    pose proof (find_None_absent _ _ _ _ _ Hr Hf Hv) as Hnew;
    rewrite (u64_small (msize m + 1)) by lia.
  - change (2 ^ Z.of_nat 0) with 1 in HT. destruct (Z.ltb_spec (ksize m) (msize m + 1)); [lia|].
    eapply place_loop_spec; [done..|lia|done|done|done|lia|lia|done|lia|]. 
    change (2 ^ Z.of_nat 0) with 1. lia.
  - rewrite Nat2Z.inj_succ, Z.pow_succ_r in HT by lia.
    assert (∀ L', 2 * ksize m ≤ L' → good_te (try_emplace (S f)) L') as Hte
      by (intros L' HL'; apply IH; nia).
    destruct (Z.ltb_spec (ksize m) (msize m + 1)).
    + destruct (reserve_spec (try_emplace (S f)) m P Q (msize m + 1) Hr)
        as (m1 & -> & (P1 & Q1 & Hr1 & Hd1) & HK1 & Hn1 & Hperm1); [by apply Hte|lia|lia|].
      step. destruct (repr_find m1 P1 Q1 key Hr1) as (it1 & -> & Hf1). step.
      assert (msize m1 = msize m) as Hms1.
      { rewrite (repr_msize_entries _ _ _ Hr1), (repr_msize_entries _ _ _ Hr). by rewrite Hperm1. }
      eapply place_loop_spec; [done..|lia|done| |lia|lia|lia|done| |].
      * eapply find_absent; [done..|]. by rewrite Hperm1.
      * intros _ L' HL'. apply Hte. lia.
      * rewrite Nat2Z.inj_succ, Z.pow_succ_r by lia. nia.
    + eapply place_loop_spec; [done..|lia|done|done|done|lia|lia|done|intros _; exact Hte|].
      rewrite Nat2Z.inj_succ, Z.pow_succ_r by lia. nia.
Qed.

(** After the table has been rebuilt, the loop ends as for a dense table. *)
Lemma place_loop_regrown te lf m P Q n key v :
  repr m P Q → ksize m < n ≤ 2 ^ 59 → msize m < n → msize m < 2 ^ 58 →
  key ∉ (entries m).*1 → (∀ L, 2 * ksize m ≤ L → good_te te L) →
  2 ^ 59 ≤ 2 * ksize m * 2 ^ Z.of_nat lf →
  ∃ r, (let! m := reserve te m n in
        let! i := find m key in place_loop te lf m i key v) = Ok r ∧ emplace_ok m key v r.
Proof using Equal_spec sizeof_pos.
  intros Hr Hn Hlt Hms Hnew Hte HT.
  destruct (reserve_spec te m P Q n Hr)
    as (m1 & -> & (P1 & Q1 & Hr1 & Hd1) & HK1 & Hn1 & Hperm1); [by apply Hte|lia|lia|].
  step. destruct (repr_find m1 P1 Q1 key Hr1) as (it1 & -> & Hf1). step.
  assert (msize m1 = msize m) as Hms1.
  { rewrite (repr_msize_entries _ _ _ Hr1), (repr_msize_entries _ _ _ Hr). by rewrite Hperm1. }
  pose proof (table_pos _ _ _ (repr_ok _ _ _ Hr)).
  destruct (place_loop_spec te lf m m1 P1 Q1 it1 key v) as (r & ? & ? & _); try done; try lia.
  - eapply find_absent; [done..|]. by rewrite Hperm1.
  - intros _ L' HL'. apply Hte. lia.
  - nia.
  - eauto.
Qed.

Lemma try_emplace_repr f m P Q key v :
  repr m P Q → msize m < 2 ^ 58 → ksize m ≤ 2 ^ 58 → 2 ^ 59 ≤ ksize m * 2 ^ Z.of_nat (S f) →
  ∃ r, try_emplace (S (S f)) m key v = Ok r ∧ emplace_ok m key v r.
Proof using Equal_spec sizeof_pos.
  intros Hr Hms HK HT. destruct (repr_find m P Q key Hr) as (it & Hit & Hf).
  pose proof (repr_load _ _ _ Hr). pose proof (repr_msize _ _ _ Hr).
  pose proof (table_pos _ _ _ (repr_ok _ _ _ Hr)).
  assert (∀ L', 2 * ksize m ≤ L' → good_te (try_emplace (S f)) L') as Hte.
  { rewrite Nat2Z.inj_succ, Z.pow_succ_r in HT by lia.
    intros L' HL'. apply try_emplace_dense; nia. }
  rewrite try_emplace_S, (repr_primary _ _ _ Hr). step. rewrite Hit. step.
  destruct (it_v it) as [w|] eqn:Hv.
  { eexists. split; [done|]. eapply emplace_found; [done..|congruence]. }
  pose proof (find_None_absent _ _ _ _ _ Hr Hf Hv) as Hnew.
  rewrite (u64_small (msize m + 1)) by lia.
  destruct (Z.ltb_spec (ksize m) (msize m + 1)).
  { eapply place_loop_regrown; [done|lia|lia|lia|done|done|nia]. }
  destruct (place_spec m P Q it key v Hr) as (r & Hp & Hpost); [lia|done|done|].
  change (place_loop (try_emplace (S f)) (S f) m it key v) with
    (let! r := place m it key v in
     match r with
     | Some r => Ok r
     | None => let! m := reserve (try_emplace (S f)) m (u64 (ksize m + 1)) in
               let! i := find m key in place_loop (try_emplace (S f)) f m i key v
     end).
  rewrite Hp. step. destruct r as [[[it' b] m']|].
  { eexists. split; [done|]. destruct Hpost as [-> Ha].
    eapply added_emplace_ok; [done|lia|done..]. }
  rewrite (u64_small (ksize m + 1)) by lia.
  eapply place_loop_regrown; [done|lia|lia|lia|done|done|].
  rewrite Nat2Z.inj_succ, Z.pow_succ_r in HT by lia. lia.
Qed.

Lemma try_emplace_null f key v :
  try_emplace (S f) hashmap_init key v = try_emplace (S f) (fresh_table 16) key v.
Proof. done. Qed.

(** The room the theorems assume: a table of [2 ^ 58] buckets does not fit in
    memory. *)
Definition roomy m : Prop := msize m < 2 ^ 58 ∧ ksize m ≤ 2 ^ 58.

Lemma try_emplace_wf m key v :
  wf m → roomy m → ∃ r, try_emplace emplace_fuel m key v = Ok r ∧ emplace_ok m key v r.
Proof using Equal_spec sizeof_pos.
  intros [->|(P & Q & Hr)] [Hms HK]; unfold emplace_fuel.
  - rewrite try_emplace_null.
    assert (is_pow2 16) as H16 by (exists 4; split; [lia|done]).
    destruct (fresh_table_spec 16 H16) as [(P & Q & Hr & _) He]; [lia|].
    destruct (try_emplace_repr 62 (fresh_table 16) P Q key v) as ([[it b] m'] & -> & HE);
      [done|simpl; lia|simpl; lia|simpl ksize; lia|].
    eexists. split; [done|]. destruct HE as (P' & Q' & Hr' & HK' & HE). exists P', Q'.
    split_and!; [done|simpl in *; lia|]. destruct b.
    + by rewrite He in HE.
    + destruct HE as [-> [v' Hat]]. apply (at_iter_in _ _ _ _ _ _ Hr') in Hat.
      rewrite He in Hat. by apply not_elem_of_nil in Hat.
  - apply (try_emplace_repr 62 m P Q); [done..|].
    pose proof (table_pos _ _ _ (repr_ok _ _ _ Hr)).
    change (2 ^ Z.of_nat 63) with (2 ^ 63). lia.
Qed.

(** ** [erase] *)

Lemma trim_spec K P Q0 Q fuel ki s :
  table_ok K P Q0 → Z.of_nat (length Q) = K → 0 ≤ s < Z.of_nat fuel →
  ∃ s', trim fuel Q (u64 (K - 1)) ki s = Ok s' ∧ 0 ≤ s' ≤ s ∧
    (∀ u q, s' ≤ u < s → Q !? ((ki + u) mod K) = Some q → s_index q ≠ ki) ∧
    (0 < s' → ∃ q, Q !? ((ki + s' - 1) mod K) = Some q ∧ s_index q = ki).
Proof.
  intros Hok Hlen. pose proof (table_pos _ _ _ Hok) as HK. revert s.
  induction fuel as [|fuel IH]; intros s Hs; [lia|]. cbn [trim].
  destruct (Z.eqb_spec s 0) as [->|Hs0].
  { exists 0. split_and!; [done|lia|lia|intros; lia|lia]. }
  destruct (zlookup_in_range Q ((ki + s - 1) mod K)) as [q Hq].
  { rewrite Hlen. by apply Z.mod_pos_bound. }
  rewrite (table_mask _ _ _ Hok), (arr_get_Some _ _ _ Hq). step.
  destruct (Z.eqb_spec (s_index q) ki) as [He|He].
  { exists s. split_and!; [done|lia|lia|intros; lia|by exists q]. }
  destruct (IH (s - 1)) as (s' & -> & Hs' & Hno & Htail); [lia|].
  exists s'. split_and!; [done|lia|lia| |done].
  intros u q' Hu Hq'. destruct (decide (u = s - 1)) as [->|]; [|eapply Hno; [|done]; lia].
  rewrite Z.add_sub_assoc, Hq in Hq'. by simplify_eq.
Qed.

Section erase_table.
Context (K : Z) P Q (Hok : table_ok K P Q) (i : Z) (k0 : Key) (v0 : Value) (s : Z).
Context (Hl : plive P i k0 v0 s).

Lemma plive_bounds : 0 ≤ i < K ∧ 0 ≤ s < K ∧ bucket K k0 = i.
Proof using Hok Hl.
  pose proof (table_P_range _ _ _ Hok _ _ Hl).
  destruct (ok_primary _ _ _ Hok _ _ Hl) as [?|(?&?&?&?&?&?)]; by simplify_eq.
Qed.

(** A stored secondary entry: its bucket and its distance from it. *)
Lemma slive_inv j k v i' :
  slive Q j k v i' → bucket K k = i' ∧ 0 ≤ i' < K ∧
    ∃ k' v' s', plive P i' k' v' s' ∧ (j - i') mod K < s'.
Proof using Hok.
  intros Hj. destruct (ok_secondary _ _ _ Hok _ _ Hj)
    as [?|(?&?&?&?&Hb&k' & v' & s' & Hp & Hd)]; simplify_eq.
  split_and!; [done|..]; [apply bucket_range, (table_pos _ _ _ Hok)..|eauto 10].
Qed.

(** Freeing the last slot a bucket owns, with the bucket's extent trimmed. *)
Lemma remove_last_ok kl vl :
  0 < s → slive Q ((i + s - 1) mod K) kl vl i →
  ∃ s', trim (scan_fuel K) Q.[(i + s - 1) mod K := sdead] (u64 (K - 1)) i (s - 1) = Ok s' ∧
    let P' := P.[i := mkPrimary (Some k0) (Some v0) s'] in
    let Q' := Q.[(i + s - 1) mod K := sdead] in
    table_ok K P' Q' ∧ plive P' i k0 v0 s' ∧
    table_entries P Q ≡ₚ (kl, vl) :: table_entries P' Q'.
Proof using Hok Hl.
  intros Hs Hlast. destruct plive_bounds as (Hi & HsK & Hb).
  pose proof (table_pos _ _ _ Hok) as HK. pose proof (zlookup_bounds _ _ _ Hlast) as Hbq.
  pose proof (zlookup_bounds _ _ _ Hl) as Hbp.
  set (last := (i + s - 1) mod K) in *. set (Q' := Q.[last := sdead]).
  destruct (trim_spec K P Q Q' (scan_fuel K) i (s - 1) Hok) as (s' & Ht & Hs' & Hno & Htail).
  { unfold Q'. rewrite length_zinsert. apply Hok. }
  { unfold scan_fuel. lia. }
  exists s'. split; [done|]. intros P' Q''.
  assert (∀ j, Q' !? j = if decide (last = j) then Some sdead else Q !? j) as HQ'
    by (intros; by apply zlookup_zinsert).
  assert (∀ j, P' !? j = if decide (i = j) then Some (mkPrimary (Some k0) (Some v0) s') else P !? j)
    as HP' by (intros; by apply zlookup_zinsert).
  assert (table_entries P Q ≡ₚ (kl, vl) :: table_entries P' Q') as Hperm.
  { pose proof (entries_set_Q P' Q _ _ sdead Hlast) as HA.
    pose proof (entries_set_P P Q _ _ (mkPrimary (Some k0) (Some v0) s') Hl) as HB.
    simpl in HA, HB. apply Permutation_cons_inv in HB.
    etrans; [symmetry; exact HB|symmetry; exact HA]. }
  split_and!; [|by unfold plive; rewrite HP', decide_True|done].
  split.
  - apply Hok.
  - apply Hok.
  - unfold P'. rewrite length_zinsert. apply Hok.
  - unfold Q'', Q'. rewrite length_zinsert. apply Hok.
  - intros j p Hj. rewrite HP' in Hj. case_decide; [|by apply (ok_primary _ _ _ Hok)].
    simplify_eq. right. do 3 eexists. split_and!; [done|done|lia|lia].
  - intros j q Hj. rewrite HQ' in Hj. case_decide as Hjl; [left; congruence|].
    destruct (ok_secondary _ _ _ Hok j q Hj) as [->|(k & v & i' & -> & Hbi & k' & v' & s1 & Hp & Hd)];
      [by left|right].
    exists k, v, i'. split_and!; [done..|].
    destruct (decide (i = i')) as [<-|Hne].
    2:{ exists k', v', s1. split; [|done]. unfold plive. by rewrite HP', decide_False. }
    exists k0, v0, s'. split; [unfold plive; by rewrite HP', decide_True|].
    assert (s1 = s) as -> by (unfold plive in Hp, Hl; congruence).
    pose proof (ring_dist K HK i j (table_Q_range _ _ _ Hok _ _ Hj)) as Hjd.
    set (d := (j - i) mod K) in *. destruct (decide (d < s')); [done|].
    destruct (decide (d = s - 1)) as [Hd1|].
    { destruct Hjl. unfold last. rewrite <- Hjd, Hd1. f_equal. lia. }
    destruct (Hno d (mkSecondary (Some k) (Some v) i)); [lia| |done].
    by rewrite Hjd, HQ', decide_False by done.
  - intros i' k v s1 Hp Hs1. unfold plive in Hp. rewrite HP' in Hp. case_decide; simplify_eq.
    + destruct Htail as (q & Hq & Hqi); [lia|]. unfold slive. change Q'' with Q'. rewrite Hq.
      rewrite HQ' in Hq. case_decide; [simplify_eq; unfold none, size_max in *|].
      { simpl in Hqi. pose proof (ok_max _ _ _ Hok). unfold none, size_max in *. lia. }
      destruct (ok_secondary _ _ _ Hok _ _ Hq) as [->|(k' & v' & i'' & -> & _)].
      { simpl in Hqi. pose proof (ok_max _ _ _ Hok). unfold none, size_max in *. lia. }
      simpl in Hqi. subst i''. eauto.
    + destruct (ok_tail _ _ _ Hok _ _ _ _ Hp Hs1) as (k' & v' & Hq). exists k', v'.
      unfold slive in *. change Q'' with Q'. rewrite HQ', decide_False; [done|].
      intros He. rewrite <- He, Hlast in Hq. simplify_eq.
  - eapply nodup_delete; [done|]. apply Hok.
Qed.
End erase_table.

Lemma nodup_replace P Q P' Q' k0 v0 k v :
  (k0, v0) :: table_entries P' Q' ≡ₚ (k, v) :: table_entries P Q →
  NoDup (table_entries P Q).*1 → k = k0 ∨ k ∉ (table_entries P Q).*1 →
  NoDup (table_entries P' Q').*1.
Proof.
  intros Hperm%(fmap_Permutation fst) Hnd [->|Hnew]; rewrite !fmap_cons in Hperm; simpl in Hperm.
  - apply Permutation_cons_inv in Hperm. by rewrite Hperm.
  - apply NoDup_cons_1_2 with k0. rewrite Hperm. by apply NoDup_cons_2.
Qed.

(** Replacing the pair in a slot by a pair of the same bucket. *)
Lemma overwrite_primary_ok K P Q i k0 v0 s k v :
  table_ok K P Q → plive P i k0 v0 s → bucket K k = i → k = k0 ∨ k ∉ (table_entries P Q).*1 →
  let P' := P.[i := mkPrimary (Some k) (Some v) s] in
  table_ok K P' Q ∧ (k0, v0) :: table_entries P' Q ≡ₚ (k, v) :: table_entries P Q.
Proof.
  intros Hok Hl Hb Hnew P'. destruct (plive_bounds _ _ _ Hok _ _ _ _ Hl) as (Hi & Hs & _).
  pose proof (zlookup_bounds _ _ _ Hl) as Hbp.
  assert (∀ j, P' !? j = if decide (i = j) then Some (mkPrimary (Some k) (Some v) s) else P !? j)
    as HP' by (intros; by apply zlookup_zinsert).
  assert ((k0, v0) :: table_entries P' Q ≡ₚ (k, v) :: table_entries P Q) as Hperm
    by apply (entries_set_P P Q _ _ (mkPrimary (Some k) (Some v) s) Hl).
  split; [split|done].
  - apply Hok.
  - apply Hok.
  - unfold P'. rewrite length_zinsert. apply Hok.
  - apply Hok.
  - intros j p Hj. rewrite HP' in Hj. case_decide; [|by apply (ok_primary _ _ _ Hok)].
    simplify_eq. right. do 3 eexists. split_and!; [done|done|lia|lia].
  - intros j q Hj. destruct (ok_secondary _ _ _ Hok j q Hj)
      as [->|(k1 & v1 & i1 & -> & Hb1 & k2 & v2 & s2 & Hp & Hd)]; [by left|right].
    exists k1, v1, i1. split_and!; [done..|]. unfold plive in *. 
    destruct (decide (i = i1)) as [<-|].
    + rewrite Hl in Hp. simplify_eq. exists k, v, s2. by rewrite HP', decide_True.
    + exists k2, v2, s2. by rewrite HP', decide_False.
  - intros j k1 v1 s1 Hp Hs1. unfold plive in Hp. rewrite HP' in Hp.
    case_decide; simplify_eq; by eapply (ok_tail _ _ _ Hok).
  - eapply nodup_replace; [done|apply Hok|done].
Qed.

Lemma overwrite_secondary_ok K P Q j i k0 v0 k v :
  table_ok K P Q → slive Q j k0 v0 i → bucket K k = i → k = k0 ∨ k ∉ (table_entries P Q).*1 →
  let Q' := Q.[j := mkSecondary (Some k) (Some v) i] in
  table_ok K P Q' ∧ (k0, v0) :: table_entries P Q' ≡ₚ (k, v) :: table_entries P Q.
Proof.
  intros Hok Hl Hb Hnew Q'. pose proof (zlookup_bounds _ _ _ Hl) as Hbq.
  assert (∀ j', Q' !? j' = if decide (j = j') then Some (mkSecondary (Some k) (Some v) i) else Q !? j')
    as HQ' by (intros; by apply zlookup_zinsert).
  assert ((k0, v0) :: table_entries P Q' ≡ₚ (k, v) :: table_entries P Q) as Hperm
    by apply (entries_set_Q P Q _ _ (mkSecondary (Some k) (Some v) i) Hl).
  split; [split|done].
  - apply Hok.
  - apply Hok.
  - apply Hok.
  - unfold Q'. rewrite length_zinsert. apply Hok.
  - apply Hok.
  - intros j' q Hj. rewrite HQ' in Hj. case_decide; [|by apply (ok_secondary _ _ _ Hok)].
    simplify_eq. right. do 3 eexists. split_and!; [done|done|].
    by apply (slive_inv _ _ _ Hok _ _ _ _ Hl).
  - intros i1 k1 v1 s1 Hp Hs1. destruct (ok_tail _ _ _ Hok _ _ _ _ Hp Hs1) as (k2 & v2 & Hq).
    unfold slive in *. rewrite HQ'. case_decide; subst; [|eauto]. rewrite Hl in Hq. simplify_eq.
    eauto.
  - eapply nodup_replace; [done|apply Hok|done].
Qed.

(** A bucket that owns no secondary slot is freed. *)
Lemma free_primary_ok K P Q i k0 v0 :
  table_ok K P Q → plive P i k0 v0 0 →
  table_ok K P.[i := pdead] Q ∧ table_entries P Q ≡ₚ (k0, v0) :: table_entries P.[i := pdead] Q.
Proof.
  intros Hok Hl. pose proof (zlookup_bounds _ _ _ Hl) as Hbp.
  pose proof (table_pos _ _ _ Hok) as HK.
  assert (∀ j, P.[i := pdead] !? j = if decide (i = j) then Some pdead else P !? j)
    as HP' by (intros; by apply zlookup_zinsert).
  assert (table_entries P Q ≡ₚ (k0, v0) :: table_entries P.[i := pdead] Q) as Hperm
    by (symmetry; apply (entries_set_P P Q _ _ pdead Hl)).
  split; [split|done].
  - apply Hok.
  - apply Hok.
  - rewrite length_zinsert. apply Hok.
  - apply Hok.
  - intros j p Hj. rewrite HP' in Hj. case_decide; [left; congruence|].
    by apply (ok_primary _ _ _ Hok).
  - intros j q Hj. destruct (ok_secondary _ _ _ Hok j q Hj)
      as [->|(k1 & v1 & i1 & -> & Hb1 & k2 & v2 & s2 & Hp & Hd)]; [by left|right].
    exists k1, v1, i1. split_and!; [done..|]. exists k2, v2, s2. split; [|done].
    unfold plive in *. rewrite HP'. case_decide as He; [|done]. exfalso.
    rewrite <- He, Hl in Hp. injection Hp as _ _ <-.
    pose proof (Z.mod_pos_bound (j - i1) K HK). lia.
  - intros j k1 v1 s1 Hp Hs1. unfold plive in Hp. rewrite HP' in Hp.
    case_decide; simplify_eq. by eapply (ok_tail _ _ _ Hok).
  - eapply nodup_delete; [done|]. apply Hok.
Qed.

(** ** Iteration *)

(** The iterator is at a stored pair or past the last one.  After [operator++]
    along the secondary array [ki] need not be the bucket of the pair. *)
Definition valid_it P Q it : Prop :=
  match it_v it with
  | Some (InPrimary i) => it_ki it = i ∧ it_vi it = none ∧ ∃ k v s, plive P i k v s
  | Some (InSecondary j) => it_vi it = j ∧ ∃ k v i, slive Q j k v i
  | None => True
  end.

(** The pairs from the iterator on. *)
Definition rest P Q it : list (Key * Value) :=
  match it_v it with
  | Some (InPrimary i) => omap pentry (drop (Z.to_nat i) P) ++ omap sentry Q
  | Some (InSecondary j) => omap sentry (drop (Z.to_nat j) Q)
  | None => []
  end.

Section scan.
Context (K : Z) P Q (Hok : table_ok K P Q).

Lemma drop_all_P : drop (Z.to_nat K) P = [].
Proof using Hok. apply drop_ge. pose proof (ok_lenP _ _ _ Hok). lia. Qed.

Lemma drop_all_Q : drop (Z.to_nat K) Q = [].
Proof using Hok. apply drop_ge. pose proof (ok_lenQ _ _ _ Hok). lia. Qed.

(** A free slot has nothing to visit; a slot in use is where the scan stops. *)
Lemma drop_P_dead i : P !? i = Some pdead →
  omap pentry (drop (Z.to_nat i) P) = omap pentry (drop (Z.to_nat (i + 1)) P).
Proof using. intros Hi. by rewrite (drop_zlookup _ _ _ Hi). Qed.

Lemma drop_Q_dead j : Q !? j = Some sdead →
  omap sentry (drop (Z.to_nat j) Q) = omap sentry (drop (Z.to_nat (j + 1)) Q).
Proof using. intros Hj. by rewrite (drop_zlookup _ _ _ Hj). Qed.

Lemma incr_enter_secondary_spec fuel vi q :
  Q !? vi = Some q → K - vi < Z.of_nat fuel →
  ∃ it, incr_enter_secondary fuel Q K (s_index q) vi = Ok it ∧ valid_it P Q it ∧
    rest P Q it = omap sentry (drop (Z.to_nat vi) Q) ∧
    (∀ i, it_v it ≠ Some (InPrimary i)).
Proof using Hok.
  revert vi q. induction fuel as [|fuel IH]; intros vi q Hq Hf;
    pose proof (table_Q_range _ _ _ Hok _ _ Hq) as Hr; [lia|].
  cbn [incr_enter_secondary].
  destruct (table_sslot _ _ _ _ _ Hok Hq) as [->|(k & v & i & -> & Hi)]; step.
  - change (isNone none) with true. rewrite (drop_Q_dead vi Hq). cbv iota.
    destruct (Z.eqb_spec vi (K - 1)) as [->|Hne].
    + eexists. split_and!; [done..| |done]. rewrite Z.sub_add, drop_all_Q. done.
    + destruct (table_Q_get _ _ _ Hok (vi + 1)) as [q Hq']; [lia|].
      rewrite (arr_get_Some _ _ _ Hq'). step. apply IH; [done|lia].
  - rewrite Hi. eexists. split_and!; [done| |done|done]. split; [done|]. by exists k, v, i.
Qed.

Lemma incr_secondary_spec fuel ki vi :
  0 ≤ vi < K → K - vi < Z.of_nat fuel →
  ∃ it, incr_secondary fuel Q K ki vi = Ok it ∧ valid_it P Q it ∧
    rest P Q it = omap sentry (drop (Z.to_nat (vi + 1)) Q).
Proof using Hok.
  revert vi. induction fuel as [|fuel IH]; intros vi Hr Hf; [lia|].
  cbn [incr_secondary]. destruct (Z.eqb_spec vi (K - 1)) as [->|Hne].
  { eexists. split_and!; [done..|]. rewrite Z.sub_add, drop_all_Q. done. }
  destruct (table_Q_get _ _ _ Hok (vi + 1)) as [q Hq]; [lia|].
  rewrite (arr_get_Some _ _ _ Hq). step.
  destruct (table_sslot _ _ _ _ _ Hok Hq) as [->|(k & v & i & -> & Hi)]; step.
  - change (isNone none) with true. cbv iota. rewrite (drop_Q_dead (vi + 1) Hq). apply IH; lia.
  - rewrite Hi. eexists. split_and!; [done| |done]. split; [done|]. by exists k, v, i.
Qed.

Lemma incr_primary_spec fuel ki :
  0 ≤ ki < K → K - ki < Z.of_nat fuel →
  ∃ it, incr_primary fuel P Q K ki = Ok it ∧ valid_it P Q it ∧
    rest P Q it = omap pentry (drop (Z.to_nat (ki + 1)) P) ++ omap sentry Q ∧
    (∀ i, it_v it = Some (InPrimary i) → ki < i).
Proof using Hok.
  pose proof (table_pos _ _ _ Hok).
  revert ki. induction fuel as [|fuel IH]; intros ki Hr Hf; [lia|].
  cbn [incr_primary]. destruct (Z.eqb_spec ki (K - 1)) as [->|Hne].
  { destruct (table_Q_get _ _ _ Hok 0) as [q Hq]; [lia|].
    rewrite (arr_get_Some _ _ _ Hq). step. rewrite Z.sub_add, drop_all_P. simpl omap.
    destruct (incr_enter_secondary_spec (scan_fuel K) 0 q Hq) as (it & Hit & Hval & Hrest & Hns).
    { unfold scan_fuel. lia. }
    exists it. split_and!; [done..|]. by intros i ?%Hns. }
  destruct (table_P_get _ _ _ Hok (ki + 1)) as [p Hp]; [lia|].
  rewrite (arr_get_Some _ _ _ Hp). step.
  destruct (table_pslot _ _ _ _ _ Hok Hp) as [->|(k & v & s & -> & Hs)]; step.
  - change (isNone none) with true. cbv iota. rewrite (drop_P_dead (ki + 1) Hp).
    destruct (IH (ki + 1)) as (it & ? & ? & ? & Hlt); [lia..|].
    exists it. split_and!; [done..|]. intros i ?%Hlt. lia.
  - rewrite Hs. eexists. split_and!; [done| |done|intros i [= <-]; lia].
    split_and!; [done..|]. by exists k, v, s.
Qed.

Lemma first_secondary_spec fuel i :
  0 ≤ i ≤ K → K - i < Z.of_nat fuel →
  ∃ r, first_secondary fuel Q K i = Ok r ∧
    match r with
    | Some j => (∃ k v i', slive Q j k v i') ∧
        omap sentry (drop (Z.to_nat i) Q) = omap sentry (drop (Z.to_nat j) Q)
    | None => omap sentry (drop (Z.to_nat i) Q) = []
    end.
Proof using Hok.
  revert i. induction fuel as [|fuel IH]; intros i Hr Hf; [lia|]. cbn [first_secondary].
  destruct (Z.eqb_spec i K) as [->|Hne].
  { eexists. split; [done|]. by rewrite drop_all_Q. }
  destruct (table_Q_get _ _ _ Hok i) as [q Hq]; [lia|].
  rewrite (arr_get_Some _ _ _ Hq). step.
  destruct (table_sslot _ _ _ _ _ Hok Hq) as [->|(k & v & i' & -> & Hi)]; step.
  - change (isNone none) with true. cbv iota. rewrite (drop_Q_dead i Hq). apply IH; lia.
  - rewrite Hi. eexists. split; [done|]. split; [by exists k, v, i'|done].
Qed.

Lemma first_primary_spec fuel i :
  0 ≤ i ≤ K → K - i < Z.of_nat fuel →
  ∃ r, first_primary fuel P K i = Ok r ∧
    match r with
    | Some j => (∃ k v s, plive P j k v s) ∧
        omap pentry (drop (Z.to_nat i) P) = omap pentry (drop (Z.to_nat j) P)
    | None => omap pentry (drop (Z.to_nat i) P) = []
    end.
Proof using Hok.
  revert i. induction fuel as [|fuel IH]; intros i Hr Hf; [lia|]. cbn [first_primary].
  destruct (Z.eqb_spec i K) as [->|Hne].
  { eexists. split; [done|]. by rewrite drop_all_P. }
  destruct (table_P_get _ _ _ Hok i) as [p Hp]; [lia|].
  rewrite (arr_get_Some _ _ _ Hp). step.
  destruct (table_pslot _ _ _ _ _ Hok Hp) as [->|(k & v & s & -> & Hs)]; step.
  - change (isNone none) with true. cbv iota. rewrite (drop_P_dead i Hp). apply IH; lia.
  - rewrite Hs. eexists. split; [done|]. split; [by exists k, v, s|done].
Qed.
End scan.

Lemma begin_spec m P Q :
  repr m P Q → ∃ it, begin m = Ok it ∧ valid_it P Q it ∧ rest P Q it = entries m.
Proof.
  intros Hr. destruct (Hr) as [HP HQ Hok _ _]. pose proof (table_pos _ _ _ Hok).
  rewrite (repr_entries _ _ _ Hr). unfold begin, secondary_of, table_entries.
  rewrite HP, HQ. step.
  destruct (first_primary_spec _ _ _ Hok (scan_fuel (ksize m)) 0) as ([i|] & -> & Hi);
    [lia|unfold scan_fuel; lia|..]; step.
  - destruct Hi as (Hl & Hd). change (drop (Z.to_nat 0) P) with P in Hd.
    eexists. split_and!; [done|done|]. unfold rest. step. by rewrite Hd.
  - change (drop (Z.to_nat 0) P) with P in Hi. rewrite Hi.
    destruct (first_secondary_spec _ _ _ Hok (scan_fuel (ksize m)) 0) as ([j|] & -> & Hj);
      [lia|unfold scan_fuel; lia|..]; step.
    + destruct Hj as (Hl & Hd). change (drop (Z.to_nat 0) Q) with Q in Hd.
      eexists. split_and!; [done|done|]. unfold rest. step. by rewrite Hd.
    + change (drop (Z.to_nat 0) Q) with Q in Hj. rewrite Hj. eexists. by split_and!.
Qed.

(** [operator++] drops the first pair that is left, and [operator*] is it. *)
Lemma incr_spec m P Q it :
  repr m P Q → valid_it P Q it → it_v it ≠ None →
  ∃ kv it', deref m it = Ok kv ∧ incr m it = Ok it' ∧ valid_it P Q it' ∧
    rest P Q it = kv :: rest P Q it' ∧
    (∀ i i', it_v it = Some (InPrimary i) → it_v it' = Some (InPrimary i') → i < i').
Proof.
  intros Hr Hval Hne. destruct (Hr) as [HP HQ Hok _ _]. pose proof (ok_max _ _ _ Hok).
  unfold deref, incr, primary_of, secondary_of. rewrite HP, HQ. step.
  unfold valid_it in Hval. unfold rest at 1.
  destruct (it_v it) as [[i|j]|]; [..|done].
  - destruct Hval as (-> & -> & k & v & s & Hl).
    pose proof (table_P_range _ _ _ Hok _ _ Hl) as Hi.
    rewrite (arr_get_Some _ _ _ Hl), (drop_zlookup _ _ _ Hl). step. change (isNone none) with true.
    destruct (incr_primary_spec _ _ _ Hok (scan_fuel (ksize m)) i) as (it' & -> & ? & Hrest & Hlt);
      [done|unfold scan_fuel; lia|].
    exists (k, v), it'. split_and!; [done|done|done|by rewrite Hrest|].
    intros i0 i' [= <-]. apply Hlt.
  - destruct Hval as (-> & k & v & i & Hl).
    pose proof (table_Q_range _ _ _ Hok _ _ Hl) as Hj.
    rewrite (arr_get_Some _ _ _ Hl), (drop_zlookup _ _ _ Hl). step.
    rewrite (none_neq j (ksize m)) by lia.
    destruct (incr_secondary_spec _ _ _ Hok (scan_fuel (ksize m)) (it_ki it) j)
      as (it' & -> & ? & Hrest); [done|unfold scan_fuel; lia|].
    exists (k, v), it'. split_and!; [done|done|done|by rewrite Hrest|]. done.
Qed.

Lemma iterator_eq_end it : iterator_eq it end_ = bool_decide (it_v it = None).
Proof. by apply bool_decide_ext. Qed.

Lemma iterate_loop_spec m P Q fuel it :
  repr m P Q → valid_it P Q it → (length (rest P Q it) < fuel)%nat →
  iterate_loop fuel m it = Ok (rest P Q it).
Proof.
  intros Hr. revert it. induction fuel as [|fuel IH]; intros it Hval Hf; [lia|].
  cbn [iterate_loop]. rewrite iterator_eq_end. case_bool_decide as Hv.
  { unfold rest. by rewrite Hv. }
  destruct (incr_spec m P Q it Hr Hval Hv) as (kv & it' & -> & Hi & Hval' & Hrest & _).
  rewrite Hrest in Hf |- *. simpl in Hf. step. rewrite Hi. step. rewrite IH by (done || lia). done.
Qed.

Lemma iterate_repr m P Q : repr m P Q → iterate m = Ok (entries m).
Proof.
  intros Hr. destruct (begin_spec m P Q Hr) as (it & Hb & Hval & Hrest).
  unfold iterate. rewrite Hb. step. rewrite <- Hrest.
  eapply iterate_loop_spec; [done..|]. rewrite Hrest, (repr_msize_entries _ _ _ Hr). lia.
Qed.

(** ** [erase(iterator)] *)

(** The pair is gone. *)
Definition erased m k v m' P' Q' : Prop :=
  repr m' P' Q' ∧ ksize m' = ksize m ∧ entries m ≡ₚ (k, v) :: entries m'.

Lemma erased_intro m P Q k v P' Q' :
  repr m P Q → table_ok (ksize m) P' Q' →
  table_entries P Q ≡ₚ (k, v) :: table_entries P' Q' →
  erased m k v (mkHashMap (ksize m) (u64 (msize m - 1)) (Some P') (Some Q')) P' Q'.
Proof.
  intros Hr Hok' Hperm. destruct (Hr) as [_ _ Hok Hms Hload].
  pose proof (ok_max _ _ _ Hok). pose proof (Permutation_length Hperm) as Hlen. simpl in Hlen.
  assert (u64 (msize m - 1) = Z.of_nat (length (table_entries P' Q'))) as Hms'
    by (rewrite u64_small; lia).
  split_and!; [split; step; [done..|lia]|done|].
  rewrite (repr_entries _ _ _ Hr). done.
Qed.

(** The bucket's last secondary pair takes the place of its primary pair. *)
Lemma erase_primary_pull m P Q it i k v s :
  repr m P Q → it_v it = Some (InPrimary i) → it_ki it = i → it_vi it = none →
  plive P i k v s → 0 < s →
  ∃ m' kl vl s' Q', erase m it = Ok (it, m') ∧
    let P' := P.[i := mkPrimary (Some kl) (Some vl) s'] in
    erased m k v m' P' Q'.
Proof.
  intros Hr Hv Hki Hvi Hl Hs. destruct (Hr) as [HP HQ Hok _ _].
  destruct (plive_bounds _ _ _ Hok _ _ _ _ Hl) as (Hi & HsK & Hb). pose proof (ok_max _ _ _ Hok).
  destruct (ok_tail _ _ _ Hok _ _ _ _ Hl Hs) as (kl & vl & Hlast).
  destruct (remove_last_ok _ _ _ Hok _ _ _ _ Hl kl vl Hs Hlast) as (s' & Ht & Hok' & Hl' & Hperm).
  destruct (slive_inv _ _ _ Hok _ _ _ _ Hlast) as (Hbl & _).
  assert (kl ∉ (table_entries P.[i := mkPrimary (Some k) (Some v) s']
                  Q.[(i + s - 1) mod ksize m := sdead]).*1) as Hnew.
  { pose proof (ok_nodup _ _ _ Hok) as Hnd. rewrite Hperm in Hnd. by apply NoDup_cons_1_1 in Hnd. }
  destruct (overwrite_primary_ok _ _ _ _ _ _ _ kl vl Hok' Hl' Hbl (or_intror Hnew)) as [Hok'' Hperm'].
  rewrite zinsert_zinsert in Hok'', Hperm'.
  unfold erase, primary_of, secondary_of. rewrite HP, HQ, Hki, Hvi. step.
  rewrite (arr_get_Some _ _ _ Hl). change (isNone none) with true. step.
  replace (s =? 0) with false by lia. cbn [negb].
  rewrite (u64_small (s - 1)) by lia. rewrite (table_mask _ _ _ Hok), Z.add_sub_assoc.
  rewrite (arr_get_Some _ _ _ Hlast). step. rewrite (arr_set_Some _ _ _ _ Hlast). step.
  change (mkSecondary None None none) with (sdead (Key:=Key) (Value:=Value)). rewrite Ht. step.
  rewrite (arr_set_Some _ _ _ _ Hl). step.
  do 5 eexists. split; [done|]. apply erased_intro with P Q; [done..|].
  by rewrite Hperm, Hperm'.
Qed.

(** A bucket with nothing in the secondary array is freed; the iterator moves on. *)
Lemma erase_primary_free m P Q it i k v :
  repr m P Q → it_v it = Some (InPrimary i) → it_ki it = i → it_vi it = none →
  plive P i k v 0 →
  ∃ it' m', erase m it = Ok (it', m') ∧ incr m it = Ok it' ∧ erased m k v m' P.[i := pdead] Q.
Proof.
  intros Hr Hv Hki Hvi Hl. destruct (Hr) as [HP HQ Hok _ _].
  destruct (incr_spec m P Q it Hr) as (kv & it' & _ & Hit & _).
  { unfold valid_it. rewrite Hv. split_and!; [done..|]. by exists k, v, 0. }
  { by rewrite Hv. }
  destruct (free_primary_ok _ _ _ _ _ _ Hok Hl) as [Hok' Hperm].
  unfold erase, primary_of, secondary_of. rewrite HP, HQ, Hki, Hvi. step.
  rewrite (arr_get_Some _ _ _ Hl). change (isNone none) with true. step.
  change (0 =? 0) with true. cbn [negb]. rewrite Hit. step. rewrite (arr_set_Some _ _ _ _ Hl). step.
  do 2 eexists. split_and!; [done..|]. by apply erased_intro with P Q.
Qed.

(** [trim] looks at the indices only. *)
Lemma trim_ext Q1 Q2 fuel mask ki s :
  (∀ j, s_index <$> Q1 !? j = s_index <$> Q2 !? j) →
  trim fuel Q1 mask ki s = trim fuel Q2 mask ki s.
Proof.
  intros HQ. revert s. induction fuel as [|fuel IH]; intros s; [done|]. cbn [trim].
  destruct (s =? 0); [done|]. specialize (HQ (Z.land (u64 (ki + s - 1)) mask)).
  unfold arr_get. destruct (Q1 !? _), (Q2 !? _); try done. simpl in HQ. injection HQ as HQ.
  step. rewrite HQ, IH. done.
Qed.

(** The bucket's last secondary pair takes the place of the erased one. *)
Lemma erase_secondary m P Q it j k v :
  repr m P Q → it_v it = Some (InSecondary j) → it_vi it = j → slive Q j k v (it_ki it) →
  ∃ it' m' P' Q', erase m it = Ok (it', m') ∧ erased m k v m' P' Q'.
Proof.
  intros Hr Hv Hvi Hj. destruct (Hr) as [HP HQ Hok _ _].
  destruct (slive_inv _ _ _ Hok _ _ _ _ Hj) as (Hb & Hi & k0 & v0 & s & Hl & Hd).
  set (i := it_ki it) in *. pose proof (table_pos _ _ _ Hok) as HK. pose proof (ok_max _ _ _ Hok).
  destruct (plive_bounds _ _ _ Hok _ _ _ _ Hl) as (_ & HsK & _).
  pose proof (Z.mod_pos_bound (j - i) (ksize m) HK).
  destruct (ok_tail _ _ _ Hok _ _ _ _ Hl) as (kl & vl & Hlast); [lia|].
  destruct (remove_last_ok _ _ _ Hok _ _ _ _ Hl kl vl) as (s' & Ht & Hok' & Hl' & Hperm); [lia|done|].
  destruct (slive_inv _ _ _ Hok _ _ _ _ Hlast) as (Hbl & _).
  pose proof (table_Q_range _ _ _ Hok _ _ Hj) as Hjr.
  pose proof (table_Q_range _ _ _ Hok _ _ Hlast) as Hlr.
  unfold erase, primary_of, secondary_of. rewrite HP, HQ, Hvi. fold i. step.
  rewrite (none_neq j (ksize m)) by lia. rewrite (arr_get_Some _ _ _ Hj). step.
  rewrite (none_neq i (ksize m)) by lia. rewrite (arr_get_Some _ _ _ Hl). step.
  rewrite (u64_small (s - 1)) by lia. rewrite (table_mask _ _ _ Hok), Z.add_sub_assoc.
  rewrite (arr_get_Some _ _ _ Hlast). step.
  set (last := (i + s - 1) mod ksize m) in *.
  change (mkSecondary None None none) with (sdead (Key:=Key) (Value:=Value)).
  destruct (Z.eqb_spec last j) as [He|He].
  - destruct (incr_spec m P Q it Hr) as (kv & it' & _ & -> & _).
    { unfold valid_it. rewrite Hv. split; [done|]. by exists k, v, i. }
    { by rewrite Hv. }
    step. rewrite (arr_set_Some _ _ _ _ Hlast). step. rewrite Ht. step.
    rewrite (arr_set_Some _ _ _ _ Hl). step.
    do 4 eexists. split; [done|]. apply erased_intro with P Q; [done..|].
    unfold slive in Hj, Hlast. rewrite <- He, Hlast in Hj. by simplify_eq.
  - step. rewrite (arr_set_Some _ _ _ _ Hj). step.
    set (x := mkSecondary (Some kl) (Some vl) i).
    rewrite (arr_set_in Q.[j := x]) by (rewrite length_zinsert, (ok_lenQ _ _ _ Hok); lia). step.
    assert (kl ∉ (table_entries P.[i := mkPrimary (Some k0) (Some v0) s'] Q.[last := sdead]).*1) as Hnew.
    { pose proof (ok_nodup _ _ _ Hok) as Hnd. rewrite Hperm in Hnd. by apply NoDup_cons_1_1 in Hnd. }
    assert (slive Q.[last := sdead] j k v i) as Hj'.
    { unfold slive. rewrite zlookup_zinsert by (rewrite (ok_lenQ _ _ _ Hok); lia).
      by rewrite decide_False. }
    destruct (overwrite_secondary_ok _ _ _ _ _ _ _ kl vl Hok' Hj' Hbl (or_intror Hnew)) as [Hok'' Hperm'].
    fold x in Hok'', Hperm'. rewrite zinsert_comm in Hok'', Hperm' by lia.
    rewrite (trim_ext _ Q.[last := sdead]); [|intros j'].
    2:{ rewrite zinsert_comm by lia. 
        rewrite zlookup_zinsert by (rewrite length_zinsert, (ok_lenQ _ _ _ Hok); lia).
        case_decide as Hjj; [|done]. subst j'. by rewrite Hj'. }
    rewrite Ht. step. rewrite (arr_set_Some _ _ _ _ Hl). step.
    do 4 eexists. split; [done|]. apply erased_intro with P Q; [done..|].
    by rewrite Hperm, Hperm'.
Qed.

Lemma erase_spec m P Q it k v :
  repr m P Q → at_iter P Q it k v →
  ∃ it' m' P' Q', erase m it = Ok (it', m') ∧ erased m k v m' P' Q'.
Proof.
  intros Hr Hat. unfold at_iter in Hat. destruct (it_v it) as [[i|j]|] eqn:Hv; [..|done].
  - destruct Hat as (Hki & Hvi & s & Hl). destruct (repr_ok _ _ _ Hr).
    destruct (plive_bounds _ _ _ (repr_ok _ _ _ Hr) _ _ _ _ Hl) as (_ & Hs & _).
    destruct (decide (s = 0)) as [->|].
    + destruct (erase_primary_free m P Q it i k v) as (it' & m' & ? & _ & ?); [done..|].
      eauto 10.
    + destruct (erase_primary_pull m P Q it i k v s) as (m' & kl & vl & s' & Q' & ? & ?);
        [done..|lia|]. eauto 10.
  - destruct Hat as (Hvi & Hl). eapply erase_secondary; eauto.
Qed.

(** ** [clear] *)

(** Nothing before the iterator, which is at a primary slot or at the end. *)
Definition front P Q it : Prop :=
  valid_it P Q it ∧ length (rest P Q it) = length (table_entries P Q).

(** A live secondary slot has a live primary slot before it. *)
Lemma front_not_secondary K P Q it j :
  table_ok K P Q → front P Q it → it_v it ≠ Some (InSecondary j).
Proof.
  intros Hok [Hval Hlen] Hv. unfold valid_it, rest in *. rewrite Hv in Hval, Hlen.
  destruct Hval as (_ & k & v & i & Hj).
  destruct (slive_inv _ _ _ Hok _ _ _ _ Hj) as (_ & _ & k' & v' & s' & Hl & _).
  pose proof (live_primary_pos _ _ _ _ _ Hl). unfold table_entries in Hlen.
  rewrite <- (take_drop (Z.to_nat j) Q) in Hlen at 2.
  rewrite omap_app, !length_app in Hlen. lia.
Qed.

Lemma drop_zinsert {A} (l : list A) i j x :
  0 ≤ i < j → drop (Z.to_nat j) l.[i := x] = drop (Z.to_nat j) l.
Proof. intros. unfold zinsert. apply drop_insert_lt. lia. Qed.

Lemma drop_live_length P i k v s :
  plive P i k v s →
  length (omap pentry (drop (Z.to_nat i) P)) =
  S (length (omap pentry (drop (Z.to_nat (i + 1)) P))).
Proof. intros Hl. by rewrite (drop_zlookup _ _ _ Hl). Qed.

(** One step of [clear]. *)
Lemma erase_front m P Q it :
  repr m P Q → front P Q it → it_v it ≠ None →
  ∃ it' m' P' Q' k v, erase m it = Ok (it', m') ∧ erased m k v m' P' Q' ∧ front P' Q' it'.
Proof.
  intros Hr Hfr Hne. destruct (it_v it) as [[i|j]|] eqn:Hv; [..|done].
  2:{ by destruct (front_not_secondary _ _ _ _ j (repr_ok _ _ _ Hr) Hfr). }
  destruct Hfr as [Hval Hlen]. pose proof (Hval) as Hval0. unfold valid_it in Hval0.
  rewrite Hv in Hval0. destruct Hval0 as (Hki & Hvi & k & v & s & Hl).
  pose proof (zlookup_bounds _ _ _ Hl) as Hb.
  destruct (plive_bounds _ _ _ (repr_ok _ _ _ Hr) _ _ _ _ Hl) as (_ & Hs & _).
  destruct (decide (s = 0)) as [->|].
  - destruct (erase_primary_free m P Q it i k v) as (it' & m' & He & Hit & Hd); [done..|].
    exists it', m', P.[i := pdead], Q, k, v. split_and!; [done..|].
    destruct (incr_spec m P Q it Hr Hval) as (kv & it'' & _ & Hit' & Hval' & Hrest & Hlt); [congruence|].
    assert (it'' = it') as -> by congruence. destruct (Hd) as (Hr' & _ & Hperm).
    rewrite (repr_entries _ _ _ Hr), (repr_entries _ _ _ Hr') in Hperm.
    apply Permutation_length in Hperm. rewrite Hrest in Hlen. simpl in Hlen, Hperm.
    assert (rest P.[i := pdead] Q it' = rest P Q it') as Hrest'.
    { unfold rest. destruct (it_v it') as [[i'|?]|] eqn:Hv'; [|done..].
      rewrite drop_zinsert; [done|]. specialize (Hlt _ _ Hv eq_refl). lia. }
    split; [|rewrite Hrest'; lia].
    unfold valid_it in *. destruct (it_v it') as [[i'|?]|] eqn:Hv'; [|done..].
    destruct Hval' as (? & ? & k' & v' & s' & Hl'). split_and!; [done..|]. exists k', v', s'.
    specialize (Hlt _ _ Hv eq_refl). unfold plive. by rewrite zlookup_zinsert_ne by lia.
  - destruct (erase_primary_pull m P Q it i k v s) as (m' & kl & vl & s' & Q' & He & Hd); [done..|lia|].
    exists it, m', P.[i := mkPrimary (Some kl) (Some vl) s'], Q', k, v. split_and!; [done..|].
    assert (plive P.[i := mkPrimary (Some kl) (Some vl) s'] i kl vl s') as Hl'
      by (by apply zlookup_zinsert_eq).
    split.
    + unfold valid_it. rewrite Hv. split_and!; [done..|]. by exists kl, vl, s'.
    + destruct Hd as (Hr' & _ & Hperm).
      rewrite (repr_entries _ _ _ Hr), (repr_entries _ _ _ Hr') in Hperm.
      apply Permutation_length in Hperm. simpl in Hperm. pose proof Hlen as Hlen'.
      unfold rest, table_entries in *. rewrite Hv in *. rewrite !length_app in *.
      rewrite (drop_live_length _ _ _ _ _ Hl), (drop_live_length _ _ _ _ _ Hl') in *.
      rewrite drop_zinsert by lia.
      pose proof (Permutation_length (omap_zinsert pentry P i _ (mkPrimary (Some kl) (Some vl) s') Hl)) as Hlp.
      simpl in Hlp. lia.
Qed.

Lemma clear_loop_spec fuel m P Q it :
  repr m P Q → front P Q it → (length (entries m) < fuel)%nat →
  ∃ m' P' Q', clear_loop fuel m it = Ok m' ∧ repr m' P' Q' ∧ ksize m' = ksize m ∧ entries m' = [].
Proof.
  revert m P Q it. induction fuel as [|fuel IH]; intros m P Q it Hr Hfr Hf; [lia|].
  cbn [clear_loop]. rewrite iterator_eq_end. case_bool_decide as Hv.
  { exists m, P, Q. split_and!; [done..|]. destruct Hfr as [_ Hlen].
    rewrite (repr_entries _ _ _ Hr). apply length_zero_iff_nil. rewrite <- Hlen.
    unfold rest. by rewrite Hv. }
  destruct (erase_front m P Q it Hr Hfr Hv)
    as (it' & m' & P' & Q' & k & v & -> & (Hr' & HK & Hperm) & Hfr').
  step. apply Permutation_length in Hperm. simpl in Hperm.
  destruct (IH m' P' Q' it' Hr' Hfr') as (m'' & P'' & Q'' & ? & ? & ? & ?); [lia|].
  exists m'', P'', Q''. split_and!; [done..|congruence|done].
Qed.

Lemma clear_repr m P Q :
  repr m P Q →
  ∃ m' P' Q', clear m = Ok m' ∧ repr m' P' Q' ∧ ksize m' = ksize m ∧ entries m' = [].
Proof.
  intros Hr. destruct (begin_spec m P Q Hr) as (it & Hb & Hval & Hrest).
  unfold clear. rewrite Hb. step. eapply clear_loop_spec; [done|split; [done|]|].
  - by rewrite Hrest, (repr_entries _ _ _ Hr).
  - rewrite (repr_msize_entries _ _ _ Hr). lia.
Qed.

(** ** Assignment through an iterator *)

Lemma assign_at_spec m P Q it k v w :
  repr m P Q → at_iter P Q it k v →
  ∃ m' P' Q', assign_at m it w = Ok m' ∧ repr m' P' Q' ∧ ksize m' = ksize m ∧
    (k, v) :: entries m' ≡ₚ (k, w) :: entries m.
Proof.
  intros Hr Hat. destruct (Hr) as [HP HQ Hok Hms Hload].
  unfold assign_at, at_iter, primary_of, secondary_of in *. rewrite HP, HQ.
  destruct (it_v it) as [[i|j]|]; [..|done]; step.
  - destruct Hat as (_ & _ & s & Hl).
    destruct (plive_bounds _ _ _ Hok _ _ _ _ Hl) as (_ & _ & Hb).
    rewrite (arr_get_Some _ _ _ Hl). step. rewrite (arr_set_Some _ _ _ _ Hl). step.
    destruct (overwrite_primary_ok _ _ _ _ _ _ _ k w Hok Hl Hb (or_introl eq_refl)) as [Hok' Hperm].
    do 3 eexists. split_and!; [done| |done|by rewrite (repr_entries _ _ _ Hr)].
    split; step; [done..| |done]. apply Permutation_length in Hperm. simpl in Hperm. lia.
  - destruct Hat as (_ & Hl). destruct (slive_inv _ _ _ Hok _ _ _ _ Hl) as (Hb & _).
    rewrite (arr_get_Some _ _ _ Hl). step. rewrite (arr_set_Some _ _ _ _ Hl). step.
    destruct (overwrite_secondary_ok _ _ _ _ _ _ _ k w Hok Hl Hb (or_introl eq_refl)) as [Hok' Hperm].
    do 3 eexists. split_and!; [done| |done|by rewrite (repr_entries _ _ _ Hr)].
    split; step; [done..| |done]. apply Permutation_length in Hperm. simpl in Hperm. lia.
Qed.

(** ** The finite map *)

Lemma repr_nodup m P Q : repr m P Q → NoDup (entries m).*1.
Proof. intros Hr. rewrite (repr_entries _ _ _ Hr). apply Hr. Qed.

Lemma wf_nodup m : wf m → NoDup (entries m).*1.
Proof. intros [->|(P & Q & Hr)]; [constructor|by eapply repr_nodup]. Qed.

Lemma to_map_Some m k v : wf m → to_map m !! k = Some v ↔ (k, v) ∈ entries m.
Proof. intros Hwf. symmetry. by apply elem_of_list_to_map, wf_nodup. Qed.

Lemma to_map_None m k : to_map m !! k = None ↔ k ∉ (entries m).*1.
Proof. symmetry. apply not_elem_of_list_to_map. Qed.

Lemma to_map_perm m l :
  wf m → entries m ≡ₚ l → to_map m = list_to_map l.
Proof. intros Hwf Hp. apply list_to_map_proper; [by apply wf_nodup|done]. Qed.

Lemma to_map_erased m k v m' :
  wf m → wf m' → entries m ≡ₚ (k, v) :: entries m' → to_map m' = delete k (to_map m).
Proof.
  intros Hwf Hwf' Hp. rewrite (to_map_perm m _ Hwf Hp). simpl.
  rewrite delete_insert_id; [done|]. apply to_map_None.
  pose proof (wf_nodup m Hwf) as Hnd. rewrite Hp in Hnd. by apply NoDup_cons_1_1 in Hnd.
Qed.

Lemma to_map_assigned m k v w m' :
  wf m → wf m' → (k, v) :: entries m' ≡ₚ (k, w) :: entries m → (k, v) ∈ entries m →
  to_map m' = <[k := w]> (to_map m).
Proof.
  intros Hwf Hwf' Hp Hin. apply elem_of_Permutation in Hin as [l Hl].
  rewrite Hl in Hp. rewrite (perm_swap (k, v) (k, w)) in Hp. apply Permutation_cons_inv in Hp.
  rewrite (to_map_perm m' _ Hwf' Hp), (to_map_perm m _ Hwf Hl). simpl.
  by rewrite insert_insert_eq.
Qed.

Lemma repr_wf m P Q : repr m P Q → wf m.
Proof. right. eauto. Qed.
Hint Resolve repr_wf : core.

Lemma to_map_size m : wf m → msize m = Z.of_nat (base.size (to_map m)).
Proof.
  intros Hwf. unfold to_map. rewrite <- (length_map_to_list (M:=gmap Key)).
  rewrite map_to_list_to_map by (by apply wf_nodup).
  destruct Hwf as [->|(P & Q & Hr)]; [done|by eapply repr_msize_entries].
Qed.

(** [find] on any map: the stored pair, or an iterator equal to [end()]. *)
Lemma find_wf m key :
  wf m → ∃ it, find m key = Ok it ∧
    match to_map m !! key with
    | Some v => ∃ P Q, repr m P Q ∧ at_iter P Q it key v
    | None => it_v it = None
    end.
Proof using Equal_spec.
  intros Hwf. destruct (Hwf) as [->|(P & Q & Hr)].
  { exists end_. split; [done|]. change (to_map hashmap_init) with (∅ : gmap Key Value).
    by rewrite lookup_empty. }
  destruct (repr_find m P Q key Hr) as (it & -> & Hf). exists it. split; [done|].
  destruct (to_map m !! key) as [v|] eqn:Hk.
  - exists P, Q. split; [done|]. destruct (it_v it) as [w|] eqn:Hv.
    + destruct (find_present _ _ _ _ _ Hr Hf) as (v' & Hat & Hin); [congruence|].
      apply (to_map_Some m key v' Hwf) in Hin. congruence.
    + apply (find_None_absent _ _ _ _ _ Hr Hf), to_map_None in Hv. congruence.
  - eapply find_absent; [done..|]. by apply to_map_None.
Qed.

Lemma try_emplace_map m key v :
  wf m → roomy m →
  ∃ it b m' P Q, try_emplace emplace_fuel m key v = Ok (it, b, m') ∧ repr m' P Q ∧
    at_iter P Q it key (default v (to_map m !! key)) ∧
    to_map m' = <[key := default v (to_map m !! key)]> (to_map m) ∧
    b = bool_decide (to_map m !! key = None).
Proof using Equal_spec sizeof_pos.
  intros Hwf Hroom.
  destruct (try_emplace_wf m key v Hwf Hroom) as ([[it b] m'] & -> & P & Q & Hr & _ & HE).
  exists it, b, m', P, Q. split_and!; [done..| | |]; destruct b.
  - destruct HE as (Hnew%to_map_None & _ & Hat). by rewrite Hnew.
  - destruct HE as (-> & v' & Hat). pose proof (at_iter_in _ _ _ _ _ _ Hr Hat) as Hin.
    apply (to_map_Some m key v' Hwf) in Hin. by rewrite Hin.
  - destruct HE as (Hnew%to_map_None & Hperm & _). rewrite Hnew.
    by rewrite (to_map_perm m' _ (repr_wf _ _ _ Hr) Hperm).
  - destruct HE as (-> & v' & Hat). pose proof (at_iter_in _ _ _ _ _ _ Hr Hat) as Hin.
    apply (to_map_Some m key v' Hwf) in Hin. rewrite Hin. simpl. by rewrite insert_id.
  - destruct HE as (Hnew%to_map_None & _). by rewrite bool_decide_true.
  - destruct HE as (-> & v' & Hat). pose proof (at_iter_in _ _ _ _ _ _ Hr Hat) as Hin.
    apply (to_map_Some m key v' Hwf) in Hin. by rewrite bool_decide_false by congruence.
Qed.

Lemma clear_wf m :
  wf m → ∃ m', clear m = Ok m' ∧ wf m' ∧ entries m' = [] ∧ ksize m' = ksize m ∧
    (m' = hashmap_init ∨ densem m').
Proof.
  intros [->|(P & Q & Hr)].
  { exists hashmap_init. split_and!; [done|by left|done|done|by left]. }
  destruct (clear_repr m P Q Hr) as (m' & P' & Q' & -> & Hr' & HK & He).
  exists m'. split_and!; [done|eauto|done|done|]. right. exists P', Q'. split; [done|].
  intros i k v s Hl. exfalso. pose proof (live_primary_pos _ _ _ _ _ Hl) as Hpos.
  rewrite (repr_entries _ _ _ Hr') in He. unfold table_entries in He.
  apply app_eq_nil in He as [He _]. rewrite He in Hpos. simpl in Hpos. lia.
Qed.

Lemma iterate_wf m : wf m → iterate m = Ok (entries m).
Proof. intros [->|(P & Q & Hr)]; [done|by eapply iterate_repr]. Qed.

Lemma insert_all_pairs m l :
  insert_all Hash Equal sizeofPrimaryItem m l = insert_pairs (try_emplace emplace_fuel) l m.
Proof.
  revert m. induction l as [|x l IH]; intros m; [done|]. cbn [insert_all insert_pairs].
  unfold insert_pair. destruct (try_emplace _ m x.1 x.2); step; auto.
Qed.

(** A map made empty receives the pairs of another one. *)
Lemma insert_all_spec m l :
  m = hashmap_init ∨ densem m → entries m = [] → ksize m ≤ 2 ^ 60 → NoDup l.*1 →
  Z.of_nat (length l) ≤ 2 ^ 58 →
  ∃ m', insert_all Hash Equal sizeofPrimaryItem m l = Ok m' ∧ wf m' ∧ entries m' ≡ₚ l.
Proof using Equal_spec sizeof_pos.
  intros Hm He HK Hnd Hlen. rewrite insert_all_pairs.
  assert (∀ m, densem m → entries m = [] → ksize m ≤ 2 ^ 60 →
    ∃ m', insert_pairs (try_emplace emplace_fuel) l m = Ok m' ∧ wf m' ∧ entries m' ≡ₚ l) as Hgo.
  { clear m Hm He HK. intros m Hd He HK. destruct (Hd) as (P & Q & Hr & _).
    pose proof (table_pos _ _ _ (repr_ok _ _ _ Hr)).
    destruct (insert_pairs_spec (try_emplace emplace_fuel) 1 l m) as (m' & ? & (P' & Q' & Hr' & _) & _ & Hp).
    - apply try_emplace_dense; [lia|done].
    - done.
    - lia.
    - by rewrite He, app_nil_r.
    - by rewrite He, app_nil_r.
    - rewrite He, app_nil_r in Hp. eauto. }
  destruct Hm as [->|Hd]; [|by apply Hgo].
  destruct l as [|x l]; [exists hashmap_init; split_and!; [done|by left|done]|].
  assert (is_pow2 16) as H16 by (exists 4; split; [lia|done]).
  destruct (fresh_table_spec 16 H16) as [Hd He']; [lia|].
  destruct (Hgo (fresh_table 16) Hd He') as (m' & Hm' & Hwf & Hp); [cbn; lia|].
  exists m'. split_and!; [|done..]. rewrite <- Hm'. cbn [insert_pairs].
  change emplace_fuel with (S 63). by rewrite try_emplace_null.
Qed.

(** ** The theorems *)

(** C16: [find] refines lookup in the finite map the table stands for.  On every
    well-formed table the search returns (the scan of the secondary array ends
    and reads only constructed keys); its iterator denotes the stored pair, and
    it is [end()] when the key is absent. *)
Theorem find_refines m key :
  wf m → ∃ it, find m key = Ok it ∧
    match to_map m !! key with
    | Some v => deref m it = Ok (key, v)
    | None => iterator_eq it end_ = true
    end.
Proof.
  intros Hwf. destruct (find_wf m key Hwf) as (it & -> & Hf). exists it. split; [done|].
  destruct (to_map m !! key) as [v|].
  - destruct Hf as (P & Q & Hr & Hat). by eapply at_iter_deref.
  - rewrite iterator_eq_end, Hf. done.
Qed.

(** C17: [try_emplace] terminates and refines insertion of an absent key: the
    table grows as often as needed, stays well formed, keeps every other pair,
    never overwrites a stored value, and returns an iterator at the key's pair
    with the flag saying whether it was inserted. *)
Theorem try_emplace_refines m key v :
  wf m → roomy m →
  ∃ it b m', try_emplace emplace_fuel m key v = Ok (it, b, m') ∧ wf m' ∧
    b = bool_decide (to_map m !! key = None) ∧
    to_map m' = <[key := default v (to_map m !! key)]> (to_map m) ∧
    deref m' it = Ok (key, default v (to_map m !! key)) ∧
    size m' = Z.of_nat (base.size (to_map m')).
Proof.
  intros Hwf Hroom.
  destruct (try_emplace_map m key v Hwf Hroom) as (it & b & m' & P & Q & -> & Hr & Hat & Hm & Hb).
  exists it, b, m'. split_and!; [done|eauto|done|done|by eapply at_iter_deref|].
  apply to_map_size. eauto.
Qed.

(** C18: [erase(key)] refines deletion: exactly the pair of the key goes, the
    table stays well formed, and erasing an absent key changes nothing. *)
Theorem erase_key_refines m key :
  wf m → ∃ m', erase_key Hash Equal m key = Ok m' ∧ wf m' ∧ ksize m' = ksize m ∧
    to_map m' = delete key (to_map m).
Proof.
  intros Hwf. destruct (find_wf m key Hwf) as (it & Hf & Hit). unfold erase_key. rewrite Hf. step.
  rewrite iterator_eq_end. destruct (to_map m !! key) as [v|] eqn:Hk.
  - destruct Hit as (P & Q & Hr & Hat).
    rewrite bool_decide_false by (unfold at_iter in Hat; by destruct (it_v it)).
    destruct (erase_spec m P Q it key v Hr Hat) as (it' & m' & P' & Q' & -> & Hr' & HK & Hp).
    step. exists m'. split_and!; [done|eauto|done|]. eapply to_map_erased; eauto.
  - rewrite Hit. exists m. split_and!; [done..|]. by rewrite delete_id.
Qed.

(** [map[key] = w] refines assignment: [operator[]] finds or makes the slot
    and the assignment through the reference it returns changes that key only. *)
Theorem index_assign_refines m key w :
  wf m → roomy m →
  ∃ it m1 m', operator_index Hash Equal value_init sizeofPrimaryItem m key = Ok (it, m1) ∧
    to_map m1 = <[key := default value_init (to_map m !! key)]> (to_map m) ∧
    assign_at m1 it w = Ok m' ∧ wf m' ∧ to_map m' = <[key := w]> (to_map m).
Proof.
  intros Hwf Hroom. unfold operator_index.
  destruct (try_emplace_map m key value_init Hwf Hroom)
    as (it & b & m1 & P & Q & -> & Hr & Hat & Hm & _). step.
  destruct (assign_at_spec m1 P Q it _ _ w Hr Hat) as (m' & P' & Q' & Ha & Hr' & _ & Hp).
  exists it, m1, m'. split_and!; [done|done|done|eauto|].
  rewrite (to_map_assigned m1 key _ w m') by eauto using at_iter_in.
  rewrite Hm. apply insert_insert_eq.
Qed.

(** C19: iteration from [begin()] by [operator++] up to [end()] visits every
    stored pair exactly once. *)
Theorem iterate_visits m :
  wf m → ∃ l, iterate m = Ok l ∧ l ≡ₚ map_to_list (to_map m) ∧
    Z.of_nat (length l) = size m.
Proof.
  intros Hwf. exists (entries m). split_and!; [by apply iterate_wf|..].
  - symmetry. apply map_to_list_to_map. by apply wf_nodup.
  - destruct Hwf as [->|(P & Q & Hr)]; [done|].
    symmetry. by eapply repr_msize_entries.
Qed.

(** C20: [clear] erases every pair through the iterators [erase] returns, ends,
    and leaves an empty well-formed table of the same capacity. *)
Theorem clear_refines m :
  wf m → ∃ m', clear m = Ok m' ∧ wf m' ∧ empty m' = true ∧ to_map m' = ∅ ∧
    bucket_count m' = bucket_count m.
Proof.
  intros Hwf. destruct (clear_wf m Hwf) as (m' & -> & Hwf' & He & HK & _).
  exists m'. assert (to_map m' = ∅) as Hm by (unfold to_map; by rewrite He).
  split_and!; [done|done| |done|done]. unfold empty. rewrite (to_map_size m' Hwf'), Hm. done.
Qed.

(** C21: copy assignment from another map gives a well-formed map with the same
    pairs, whatever the target held and however the pairs are laid out. *)
Theorem copy_assign_refines m n :
  wf m → wf n → ksize m ≤ 2 ^ 60 → size n ≤ 2 ^ 58 →
  ∃ m', copy_assign Hash Equal sizeofPrimaryItem m n = Ok m' ∧ wf m' ∧ to_map m' = to_map n.
Proof.
  intros Hm Hn HK Hsz. unfold copy_assign.
  destruct (clear_wf m Hm) as (m1 & -> & Hwf1 & He & HK1 & Hd). step.
  rewrite (iterate_wf n Hn). step.
  destruct (insert_all_spec m1 (entries n)) as (m' & -> & Hwf' & Hp);
    [done|done|lia|by apply wf_nodup| |].
  { unfold size in Hsz. destruct Hn as [->|(P & Q & Hr)]; [simpl; lia|].
    by rewrite <- (repr_msize_entries _ _ _ Hr). }
  exists m'. split_and!; [done..|]. by rewrite (to_map_perm m' _ Hwf' Hp).
Qed.

(** [at] returns the stored value, and throws [std::out_of_range] exactly
    when the key is absent. *)
Theorem at_refines m key :
  wf m → at_ Hash Equal m key =
    match to_map m !! key with Some v => Ok v | None => Throw OutOfRange end.
Proof.
  intros Hwf. destruct (find_wf m key Hwf) as (it & Hf & Hit). unfold at_. rewrite Hf. step.
  rewrite iterator_eq_end. destruct (to_map m !! key) as [v|].
  - destruct Hit as (P & Q & Hr & Hat).
    rewrite bool_decide_false by (unfold at_iter in Hat; by destruct (it_v it)).
    by rewrite (at_iter_deref _ _ _ _ _ _ Hr Hat).
  - by rewrite Hit.
Qed.
End facts.

(** ** A concrete table

    Keys [0], [13] share bucket 0 and [1], [22] share bucket 9 of 16, so [13] and
    [22] are in the secondary array. *)

Definition ex_pairs : list (Z * Z) := [(0, 100); (13, 113); (1, 101); (22, 122)].

Definition ex_map : HashMap Z Z :=
  match insert_all (λ k, k) Z.eqb 24 hashmap_init ex_pairs with
  | Ok m => m
  | _ => hashmap_init
  end.

Lemma ex_wf : wf (λ k, k) ex_map.
Proof.
  destruct (insert_all_spec (λ k, k) Z.eqb 24 Z.eqb_eq ltac:(lia) hashmap_init ex_pairs)
    as (m & Hm & Hwf & _).
  - by left.
  - done.
  - simpl. lia.
  - apply (bool_decide_unpack _). by vm_compute.
  - vm_compute. done.
  - unfold ex_map. by rewrite Hm.
Qed.

Lemma ex_roomy : roomy ex_map.
Proof. split; vm_compute; done. Qed.

Lemma ex_to_map : to_map ex_map = list_to_map ex_pairs.
Proof. vm_compute. reflexivity. Qed.

Lemma find_refines_witness :
  ∃ it, find (λ k, k) Z.eqb ex_map 22 = Ok it ∧ deref ex_map it = Ok (22, 122).
Proof.
  pose proof (find_refines (λ k, k) Z.eqb Z.eqb_eq ex_map 22 ex_wf) as Hf.
  rewrite ex_to_map in Hf. exact Hf.
Defined.

Lemma try_emplace_refines_witness :
  ∃ it b m', try_emplace (λ k, k) Z.eqb 24 emplace_fuel ex_map 7 107 = Ok (it, b, m') ∧
    b = true ∧ to_map m' = <[7 := 107]> (list_to_map ex_pairs).
Proof.
  destruct (try_emplace_refines (λ k, k) Z.eqb 24 Z.eqb_eq ltac:(lia) ex_map 7 107 ex_wf ex_roomy)
    as (it & b & m' & Hm & _ & Hb & Hmap & _).
  rewrite ex_to_map in Hb, Hmap. exists it, b, m'. split; [exact Hm|]. split; [exact Hb|exact Hmap].
Defined.

Lemma erase_key_refines_witness :
  ∃ m', erase_key (λ k, k) Z.eqb ex_map 0 = Ok m' ∧ to_map m' !! 13 = Some 113.
Proof.
  destruct (erase_key_refines (λ k, k) Z.eqb Z.eqb_eq ex_map 0 ex_wf) as (m' & Hm & _ & _ & Hmap).
  exists m'. split; [exact Hm|]. rewrite Hmap, ex_to_map. reflexivity.
Defined.

Lemma index_assign_refines_witness :
  ∃ it m1 m', operator_index (λ k, k) Z.eqb 0 24 ex_map 13 = Ok (it, m1) ∧
    assign_at m1 it 5 = Ok m' ∧ to_map m' !! 13 = Some 5.
Proof.
  destruct (index_assign_refines (λ k, k) Z.eqb 0 24 Z.eqb_eq ltac:(lia) ex_map 13 5 ex_wf ex_roomy)
    as (it & m1 & m' & Hi & _ & Ha & _ & Hmap).
  exists it, m1, m'. split; [exact Hi|]. split; [exact Ha|]. rewrite Hmap, ex_to_map. reflexivity.
Defined.

Lemma iterate_visits_witness :
  ∃ l, iterate ex_map = Ok l ∧ Z.of_nat (length l) = 4.
Proof.
  destruct (iterate_visits (λ k, k) ex_map ex_wf) as (l & Hl & _ & Hlen).
  exists l. split; [exact Hl|]. rewrite Hlen. vm_compute. reflexivity.
Defined.

Lemma clear_refines_witness : ∃ m', clear ex_map = Ok m' ∧ to_map m' = ∅.
Proof.
  destruct (clear_refines (λ k, k) ex_map ex_wf) as (m' & Hm & _ & _ & He & _). eauto.
Defined.

Lemma copy_assign_refines_witness :
  ∃ m', copy_assign (λ k, k) Z.eqb 24 hashmap_init ex_map = Ok m' ∧
    to_map m' = list_to_map ex_pairs.
Proof.
  destruct (copy_assign_refines (λ k, k) Z.eqb 24 Z.eqb_eq ltac:(lia) hashmap_init ex_map)
    as (m' & Hm & _ & He).
  - by left.
  - exact ex_wf.
  - simpl. lia.
  - vm_compute. discriminate.
  - rewrite ex_to_map in He. eauto.
Defined.

Lemma at_refines_witness : at_ (λ k, k) Z.eqb ex_map 5 = Throw OutOfRange.
Proof. rewrite (at_refines (λ k, k) Z.eqb Z.eqb_eq ex_map 5 ex_wf), ex_to_map. reflexivity. Defined.

(** The iterator reached from [begin()] by [n] increments. *)
Fixpoint advance {Key Value} (n : nat) (m : HashMap Key Value) (it : iterator) : outcome iterator :=
  match n with
  | O => Ok it
  | S n => let! it := incr m it in advance n m it
  end.

