(* ===== verification/Serialization.v ===== *)
(** * Model of core/serialization.h

    The binary format of messages and the two archives that produce it
    ([Serialize<Op>], run once to measure and once to write, and
    [SerializeExpandable], which grows its buffer), and the archive that reads
    it ([Deserialize<checked>]).

    C++ chooses the code for a type at compile time; here a type is a value of
    [ty], and the overload that [operator()] selects is a function of it.  The
    bytes of an object are a [list Z]. *)

From Stdlib Require Import ZArith Lia.
From stdpp Require Import base option list.
From S2P Require Import Prelude.

Local Set Warnings "-register-all".

(** ** Types and values *)

(** Which class template a group of fields comes from: [std::pair],
    [std::tuple], or a struct with a member [serialize] that calls [x(f1, ...)]. *)
Inductive rec_kind := KPair | KTuple | KMember.

Inductive ty :=
  | TPod (size align : Z)           (** scalars and structs without [serialize] *)
  | TString                         (** [std::string] *)
  | TView (esize : Z)               (** [std::basic_string_view<T>], [sizeof(T)] *)
  | TRec (k : rec_kind) (ts : list ty)
  | TOpt (t : ty)
  | TVariant (ts : list ty)
  | TVec (t : ty)                   (** [std::vector], [Vector], [SimpleVector] *)
  | TMap (k v : ty).                (** [std::map], [std::unordered_map], [HashMap] *)

Inductive val :=
  | VPod (b : list Z)
  | VString (b : list Z)
  | VView (esize : Z) (b : list Z)  (** the elements' bytes *)
  | VRec (vs : list val)
  | VOpt (o : option val)
  | VVariant (i : Z) (v : val)
  | VVec (vs : list val)
  | VMap (kvs : list (val * val))   (** the pairs in iteration order *)
  | VRaw (b : list Z).              (** an object overwritten by [memcpy] *)

(** ** What the compiler knows of a type *)

(** [std::is_trivially_copyable_v] of the standard library's templates: a pair
    or tuple has its own assignment operators, an optional or a variant is
    trivially copyable when its alternatives are. *)
Fixpoint trivially_copyable (t : ty) : bool :=
  match t with
  | TPod _ _ | TView _ => true
  | TString | TVec _ | TMap _ _ => false
  | TRec KMember ts => forallb trivially_copyable ts
  | TRec _ _ => false
  | TOpt t => trivially_copyable t
  | TVariant ts => forallb trivially_copyable ts
  end.

(** A member [serialize]. *)
Definition has_serialize (t : ty) : bool :=
  match t with TRec KMember _ => true | _ => false end.

(** An overload of [Deserializer::read]. *)
Definition has_builtin_read (t : ty) : bool :=
  match t with TString | TView _ => true | _ => trivially_copyable t end.

Definition is_string_view (t : ty) : bool :=
  match t with TView _ => true | _ => false end.

Definition copy_trivially (t : ty) : bool :=
  trivially_copyable t && negb (has_serialize t) && has_builtin_read t && negb (is_string_view t).

Definition round_up (x a : Z) : Z := (x + a - 1) / a * a.

Fixpoint alignof (t : ty) : Z :=
  match t with
  | TPod _ a => a
  | TView _ => 8
  | TRec _ ts | TVariant ts => foldr Z.max 1 (map alignof ts)
  | TOpt t => alignof t
  | _ => 8
  end.

(** [sizeof] of the trivially copyable types: an optional adds a flag after its
    payload, a variant an index byte after its largest alternative, a struct
    lays out its members in order.  The size of the others is not used. *)
Fixpoint sizeof (t : ty) : Z :=
  match t with
  | TPod n _ => n
  | TView _ => 16
  | TRec _ ts =>
      round_up (foldl (λ o p, round_up o (snd p) + fst p) 0
                  (map (λ t, (sizeof t, alignof t)) ts))
        (foldr Z.max 1 (map alignof ts))
  | TOpt t => round_up (sizeof t + 1) (alignof t)
  | TVariant ts =>
      round_up (foldr Z.max 0 (map sizeof ts) + 1) (foldr Z.max 1 (map alignof ts))
  | _ => 0
  end.

(** ** Bytes *)

(** The [n] bytes of an unsigned integer, least significant first. *)
Fixpoint le_bytes (n : nat) (x : Z) : list Z :=
  match n with
  | O => []
  | S n => x mod 256 :: le_bytes n (x / 256)
  end.

Fixpoint le_value (b : list Z) : Z :=
  match b with
  | [] => 0
  | x :: b => x + 256 * le_value b
  end.

Definition size_t (x : Z) : list Z := le_bytes 8 (u64 x).

Definition zlength {A} (l : list A) : Z := Z.of_nat (length l).

(** [memcpy] of [len] bytes out of a block. *)
Definition mem_read (mem : list Z) (off len : Z) : outcome (list Z) :=
  if bool_decide (0 ≤ off ∧ 0 ≤ len ∧ off + len ≤ zlength mem)
  then Ok (take (Z.to_nat len) (drop (Z.to_nat off) mem)) else Undef.

(** [memcpy] into a block. *)
Definition mem_write (mem : list Z) (off : Z) (src : list Z) : outcome (list Z) :=
  if bool_decide (0 ≤ off ∧ off + zlength src ≤ zlength mem)
  then Ok (take (Z.to_nat off) mem ++ src ++ drop (Z.to_nat (off + zlength src)) mem)
  else Undef.

(** ** Writing *)

(** What the overloads of [Serializer::write] accept. *)
Inductive builtin :=
  | BTrivial (b : list Z)
  | BString (b : list Z)
  | BView (esize : Z) (b : list Z).

(** [str.size()]. *)
Definition view_size (esize : Z) (b : list Z) : Z := zlength b / esize.

Inductive op := OpSize | OpWrite.

(** [Serialize<Op>]: the destination block and the offset of [dst] in it; the
    measuring pass starts from a null pointer. *)
Record Serialize := mkSerialize {
  w_mem : list Z;
  w_dst : Z
}.

(** [Serializer::write(Op, dst, src, len)]. *)
Definition write_mem (o : op) (st : Serialize) (src : list Z) : outcome Serialize :=
  match o with
  | OpSize => Ok (mkSerialize (w_mem st) (u64 (w_dst st + zlength src)))
  | OpWrite =>
      let! mem := mem_write (w_mem st) (w_dst st) src in
      Ok (mkSerialize mem (w_dst st + zlength src))
  end.

(** The other overloads of [Serializer::write]. *)
Definition write (o : op) (v : builtin) (st : Serialize) : outcome Serialize :=
  match v with
  | BTrivial b => write_mem o st b
  | BString b =>
      let! st := write_mem o st (size_t (zlength b)) in
      write_mem o st b
  | BView esize b =>
      let! st := write_mem o st (size_t (view_size esize b)) in
      write_mem o st b
  end.

(** An output archive: what a call of [operator()] does on a builtin type. *)
Class Archive (X : Type) := x_write : builtin → X → outcome X.

(** The archive template instantiated with an operation. *)
Definition Serialize_archive (o : op) : Archive Serialize := write o.

Section output.
Context {X : Type} `{!Archive X}.

(** A range of values written one after the other. *)
Fixpoint x_each {A} (f : A → X → outcome X) (l : list A) (x : X) : outcome X :=
  match l with
  | [] => Ok x
  | a :: l => let! x := f a x in x_each f l x
  end.

(** [operator()(const T&)] and the free [serialize] functions it selects. *)
Fixpoint x_val (v : val) (x : X) : outcome X :=
  match v with
  | VPod b | VRaw b => x_write (BTrivial b) x
  | VString b => x_write (BString b) x
  | VView esize b => x_write (BView esize b) x
  | VRec vs => x_each x_val vs x
  | VOpt None => x_write (BTrivial [0]) x
  | VOpt (Some v) =>
      let! x := x_write (BTrivial [1]) x in x_val v x
  | VVariant i v =>
      let! x := x_write (BTrivial (size_t i)) x in x_val v x
  | VVec vs =>
      let! x := x_write (BTrivial (size_t (zlength vs))) x in x_each x_val vs x
  | VMap kvs =>
      let! x := x_write (BTrivial (size_t (zlength kvs))) x in
      x_each (λ kv x, let! x := x_val kv.1 x in x_val kv.2 x) kvs x
  end.

(** [(x(v), ...)]. *)
Definition x_vals (vs : list val) (x : X) : outcome X := x_each x_val vs x.
End output.

(** ** The growing archive *)

Section expandable.
(** [sizeof(Buffer)], what [internalAllocSize] reports for an allocation of the
    given size, and the byte fresh memory happens to hold. *)
Context (sizeofBuffer : Z) (internalAllocSize : Z → Z) (fill : Z).

Record SerializeExpandable := mkExpandable {
  x_buffer : list Z;   (** [buffer->data()], [buffer->msize] bytes *)
  x_size : Z
}.

(** [makeBuffer(nbytes)] followed, in [expand], by widening [msize] to the size
    of the allocation. *)
Definition makeBuffer (nbytes : Z) : list Z := replicate (Z.to_nat nbytes) fill.

Definition expand (x : SerializeExpandable) (nreq : Z) : outcome SerializeExpandable :=
  let msize := zlength (x_buffer x) in
  let nbytes := Z.max (u64 (msize * 2)) (u64 (msize + nreq)) in
  let newbuffer := makeBuffer (internalAllocSize (sizeofBuffer + nbytes) - sizeofBuffer) in
  let! old := mem_read (x_buffer x) 0 (x_size x) in
  let! newbuffer := mem_write newbuffer 0 old in
  Ok (mkExpandable newbuffer (x_size x)).

Definition twrite (v : builtin) (x : SerializeExpandable) : outcome SerializeExpandable :=
  let! e := write OpSize v (mkSerialize [] 0) in
  let nreq := w_dst e in
  let! x := if nreq >=? u64 (zlength (x_buffer x) - x_size x) then expand x nreq else Ok x in
  let! w := write OpWrite v (mkSerialize (x_buffer x) (x_size x)) in
  Ok (mkExpandable (w_mem w) (u64 (x_size x + nreq))).

Definition Expandable_archive : Archive SerializeExpandable := twrite.

Definition ensure (x : SerializeExpandable) (n : Z) : outcome SerializeExpandable :=
  if u64 (zlength (x_buffer x) - x_size x) <? n then expand x n else Ok x.

(** [serializeToBufferOneShot]: the [msize] bytes of the buffer returned. *)
Definition serializeToBufferOneShot (vs : list val) : outcome (list Z) :=
  let x := mkExpandable (makeBuffer (0x80 - sizeofBuffer)) 0 in
  let! x := x_vals (Archive0 := Expandable_archive) vs x in
  mem_read (x_buffer x) 0 (x_size x).
End expandable.

(** The measuring pass. *)
Definition serialized_size (vs : list val) : outcome Z :=
  let! x := x_vals (Archive0 := Serialize_archive OpSize) vs (mkSerialize [] 0) in
  Ok (w_dst x).

(** [serializeTo] and [serializeToBuffer]: the block of exactly the size measured. *)
Definition serializeTo (fill : Z) (vs : list val) : outcome (list Z) :=
  let! size := serialized_size vs in
  let! x := x_vals (Archive0 := Serialize_archive OpWrite) vs
              (mkSerialize (replicate (Z.to_nat size) fill) 0) in
  Ok (w_mem x).

(** [serializeToStringView]: into a buffer the caller owns. *)
Definition serializeToStringView (buffer : list Z) (vs : list val) : outcome (list Z) :=
  let! size := serialized_size vs in
  if zlength buffer <? size then Throw SerializationError
  else
    let! x := x_vals (Archive0 := Serialize_archive OpWrite) vs (mkSerialize buffer 0) in
    Ok (w_mem x).

(** [serializeToUnchecked]: the block and how much of it was written. *)
Definition serializeToUnchecked (ptr : list Z) (vs : list val) : outcome (list Z * Z) :=
  let! x := x_vals (Archive0 := Serialize_archive OpWrite) vs (mkSerialize ptr 0) in
  Ok (w_mem x, w_dst x).

(** ** Reading *)

Record Deserializer := mkDeserializer {
  base : list Z;
  offset : Z;
  d_length : Z
}.

(** [Deserializer(buf)]. *)
Definition Deserializer_init (buf : list Z) : Deserializer := mkDeserializer buf 0 (zlength buf).

Section input.
(** The template parameter [checked], and the most elements a container agrees
    to hold: [resize] throws beyond it. *)
Context (checked : bool) (max_elems : Z).

Implicit Types (d : Deserializer) (t : ty).

Definition reader (A : Type) : Type := Deserializer → outcome (A * Deserializer).

Definition eod {A} : outcome A := if checked then Throw SerializationError else Throw CheckFailed.

Definition consume d (len : Z) : Deserializer :=
  mkDeserializer (base d) (u64 (offset d + len)) (d_length d).

(** [buf().size()]. *)
Definition remaining d : Z := u64 (d_length d - offset d).

(** [read(T&)] of a trivially copyable object of [n] bytes. *)
Definition read_bytes (n : Z) : reader (list Z) := λ d,
  if checked && (remaining d <? n) then eod
  else let! b := mem_read (base d) (offset d) n in Ok (b, consume d n).

Definition read_size_t : reader Z := λ d,
  let! '(b, d) := read_bytes 8 d in Ok (le_value b, d).

(** [read<bool>()], as the branch on it tests it. *)
Definition read_bool : reader bool := λ d,
  let! '(b, d) := read_bytes 1 d in Ok (negb (le_value b =? 0), d).

(** [readStringView<T>]: the position and the number of elements of the view. *)
Definition readStringView (esize : Z) : reader (Z * Z) := λ d,
  let! '(len, d) := read_size_t d in
  if checked && (remaining d <? u64 (esize * len)) then eod
  else Ok ((offset d, len), consume d (u64 (esize * len))).

(** The bytes a view of [len] elements denotes. *)
Definition view_bytes (esize : Z) d (view : Z * Z) : outcome (list Z) :=
  mem_read (base d) view.1 (esize * view.2).

Definition readString : reader (list Z) := λ d,
  let! '(len, d) := read_size_t d in
  if checked && (remaining d <? len) then eod
  else let! b := mem_read (base d) (offset d) len in Ok (b, consume d len).

(** [v.resize(n)] of a container. *)
Definition resize (n : Z) : outcome unit := if max_elems <? n then Throw BadAlloc else Ok tt.

(** An object of type [t] whose bytes were copied in. *)
Definition of_object t (b : list Z) : val :=
  match t with TPod _ _ => VPod b | _ => VRaw b end.

(** The bytes of [n] objects of [size] bytes each. *)
Fixpoint chunks (n : nat) (size : Z) (b : list Z) : list (list Z) :=
  match n with
  | O => []
  | S n => take (Z.to_nat size) b :: chunks n size (drop (Z.to_nat size) b)
  end.

(** [Deserializer::read<T>()]. *)
Definition read_builtin t : reader val := λ d,
  match t with
  | TString => let! '(b, d) := readString d in Ok (VString b, d)
  | TView esize =>
      let! '(view, d) := readStringView esize d in
      let! b := view_bytes esize d view in
      Ok (VView esize b, d)
  | _ => let! '(b, d) := read_bytes (sizeof t) d in Ok (of_object t b, d)
  end.

(** The branch of [serializeVector] that reads a view and copies it. *)
Definition read_vector_trivial t : reader val := λ d,
  let! '(view, d) := readStringView (sizeof t) d in
  resize view.2 ;;!
  let! b := mem_read (base d) view.1 (u64 (sizeof t * view.2)) in
  Ok (VVec (of_object t <$> chunks (Z.to_nat view.2) (sizeof t) b), d).

(** [for (i = 0; i != n; ++i) x(v[i])]. *)
Fixpoint read_n {A} (n : nat) (r : reader A) : reader (list A) := λ d,
  match n with
  | O => Ok ([], d)
  | S n =>
      let! '(a, d) := r d in
      let! '(l, d) := read_n n r d in
      Ok (a :: l, d)
  end.

(** [trivialBytes]: the bytes of the leading trivially copied arguments. *)
Fixpoint trivialBytes (ts : list ty) : Z :=
  match ts with
  | [] => 0
  | t :: ts => if copy_trivially t then sizeof t + trivialBytes ts else 0
  end.

(** The [memcpy] of [trivialCopy], which is not checked again. *)
Definition trivial_copy t : reader val := λ d,
  let! b := mem_read (base d) (offset d) (sizeof t) in
  Ok (of_object t b, consume d (sizeof t)).

(** [operator()(A&, T&...)]: a run of trivially copied arguments is checked once
    ([run] is whether we are inside such a run), the others are read one by one. *)
Fixpoint read_batch (r : ty → reader val) (run : bool) (ts : list ty) : reader (list val) := λ d,
  match ts with
  | [] => Ok ([], d)
  | t :: ts' =>
      let cont run (rd : reader val) : outcome (list val * Deserializer) :=
        let! '(v, d) := rd d in
        let! '(vs, d) := read_batch r run ts' d in
        Ok (v :: vs, d) in
      if run && copy_trivially t then cont true (trivial_copy t)
      else
        match ts' with
        | [] => cont false (r t)
        | _ =>
            if copy_trivially t then
              if checked && (remaining d <? trivialBytes ts) then eod
              else cont true (trivial_copy t)
            else cont false (r t)
        end
  end.

(** A value-initialised object. *)
Fixpoint default_val t : val :=
  match t with
  | TPod n _ => VPod (replicate (Z.to_nat n) 0)
  | TString => VString []
  | TView esize => VView esize []
  | TRec _ ts => VRec (map default_val ts)
  | TOpt _ => VOpt None
  | TVariant ts => VVariant 0 (hd (VRaw []) (map default_val ts))
  | TVec _ => VVec []
  | TMap _ _ => VMap []
  end.
End input.

(** Equality of keys. *)
Fixpoint list_eqb {A} (eqb : A → A → bool) (l1 l2 : list A) : bool :=
  match l1, l2 with
  | [], [] => true
  | a :: l1, b :: l2 => eqb a b && list_eqb eqb l1 l2
  | _, _ => false
  end.

Fixpoint val_eqb (v w : val) : bool :=
  match v, w with
  | VPod a, VPod b | VString a, VString b | VRaw a, VRaw b => list_eqb Z.eqb a b
  | VView n a, VView m b => (n =? m) && list_eqb Z.eqb a b
  | VRec vs, VRec ws | VVec vs, VVec ws => list_eqb val_eqb vs ws
  | VOpt None, VOpt None => true
  | VOpt (Some v), VOpt (Some w) => val_eqb v w
  | VVariant i v, VVariant j w => (i =? j) && val_eqb v w
  | VMap vs, VMap ws =>
      list_eqb (λ p q, val_eqb p.1 q.1 && val_eqb p.2 q.2) vs ws
  | _, _ => false
  end.

(** [v.emplace(k, x)]: a key that is present keeps its value. *)
Definition map_emplace (kvs : list (val * val)) (k v : val) : list (val * val) :=
  if existsb (λ kv, val_eqb kv.1 k) kvs then kvs else kvs ++ [(k, v)].

Section deserialize.
Context (checked : bool) (max_elems : Z).

(** [Deserialize::read<T>()]: a member [serialize], else a builtin read, else
    the free [serialize]. *)
Definition read_T (r : ty → reader val) (t : ty) : reader val :=
  if has_serialize t then r t
  else if has_builtin_read t then read_builtin checked t
  else r t.

(** The loop of [serializeMap]. *)
Fixpoint read_map (n : nat) (rk rv : reader val) (kvs : list (val * val)) : reader val := λ d,
  match n with
  | O => Ok (VMap kvs, d)
  | S n =>
      let! '(k, d) := rk d in
      let! '(v, d) := rv d in
      read_map n rk rv (map_emplace kvs k v) d
  end.

(** [deserializeVariantHelper<I, ...>]: the alternative of that index, if any. *)
Fixpoint read_variant (r : ty → reader val) (i index : Z) (ts : list ty) (v : val) : reader val := λ d,
  match ts with
  | [] => Ok (v, d)
  | t :: ts =>
      let! '(v, d) :=
        if index =? i then let! '(w, d) := r t d in Ok (VVariant i w, d) else Ok (v, d) in
      read_variant r (i + 1) index ts v d
  end.

(** [operator()(T&)]: a member [serialize], else a free [serialize], else a
    builtin read. *)
Fixpoint x_read (t : ty) : reader val := λ d,
  match t with
  | TPod _ _ | TString | TView _ => read_builtin checked t d
  | TRec _ ts =>
      let! '(vs, d) := read_batch checked x_read false ts d in Ok (VRec vs, d)
  | TOpt t =>
      let! '(b, d) := read_bool checked d in
      if b then let! '(v, d) := x_read t d in Ok (VOpt (Some v), d) else Ok (VOpt None, d)
  | TVariant ts =>
      let! '(index, d) := read_size_t checked d in
      read_variant x_read 0 index ts (default_val (TVariant ts)) d
  | TVec t =>
      if trivially_copyable t && negb (has_serialize t)
      then read_vector_trivial checked max_elems t d
      else
        let! '(n, d) := read_size_t checked d in
        resize max_elems n ;;!
        let! '(vs, d) := read_n (Z.to_nat n) (x_read t) d in
        Ok (VVec vs, d)
  | TMap k v =>
      let! '(n, d) := read_size_t checked d in
      read_map (Z.to_nat n) (read_T x_read k) (read_T x_read v) [] d
  end.

(** [x(result...)]. *)
Definition x_reads (ts : list ty) : reader (list val) := read_batch checked x_read false ts.

(** [Deserialize::consume(n)]: the position before. *)
Definition x_consume (n : Z) : reader Z := λ d,
  if checked && (remaining d <? n) then eod checked else Ok (offset d, consume d n).
End deserialize.

(** [deserializeBufferPart]: what follows the values read. *)
Definition deserializeBufferPart (max_elems : Z) (buf : list Z) (ts : list ty) :
    outcome (list val * list Z) :=
  let! '(vs, d) := x_reads true max_elems ts (Deserializer_init buf) in
  let! rest := mem_read (base d) (offset d) (remaining d) in
  Ok (vs, rest).

Definition deserializeBuffer (max_elems : Z) (buf : list Z) (ts : list ty) : outcome (list val) :=
  let! '(vs, d) := x_reads true max_elems ts (Deserializer_init buf) in
  if negb (remaining d =? 0) then Throw SerializationError else Ok vs.
