(* ===== verification/SerializationFacts.v ===== *)
(** * Correctness of core/serialization.h

    The bytes each value stands for, that every archive writes exactly those
    bytes inside its buffer, and that reading them back gives the value, while
    input cut short or followed by more is refused. *)

From Stdlib Require Import ZArith Lia.
From stdpp Require Import base option list.
From S2P Require Import Prelude Serialization.

(** ** Bytes *)

Lemma length_le_bytes n x : length (le_bytes n x) = n.
Proof. revert x. induction n as [|n IH]; intros x; [done|]. simpl. by rewrite IH. Qed.

Lemma le_value_bytes n x : 0 ≤ x < 256 ^ Z.of_nat n → le_value (le_bytes n x) = x.
Proof.
  revert x. induction n as [|n IH]; intros x Hx.
  { change (256 ^ Z.of_nat 0) with 1 in Hx. cbn. lia. }
  rewrite Nat2Z.inj_succ, Z.pow_succ_r in Hx by lia. cbn [le_bytes le_value].
  rewrite IH; [pose proof (Z.div_mod x 256); lia|].
  split; [apply Z.div_pos; lia|]. apply Z.div_lt_upper_bound; lia.
Qed.

Lemma le_value_range b : Forall (λ x, 0 ≤ x < 256) b → 0 ≤ le_value b < 256 ^ zlength b.
Proof.
  induction 1 as [|x b Hx _ IH]; [done|]. unfold zlength in *. cbn [le_value length].
  rewrite Nat2Z.inj_succ, Z.pow_succ_r by lia. lia.
Qed.

Lemma length_size_t x : zlength (size_t x) = 8.
Proof. unfold zlength, size_t. by rewrite length_le_bytes. Qed.

Lemma le_value_size_t x : 0 ≤ x < 2 ^ 64 → le_value (size_t x) = x.
Proof.
  intros Hx. unfold size_t. rewrite u64_small by done. apply le_value_bytes.
  change (256 ^ Z.of_nat 8) with (2 ^ 64). done.
Qed.

Lemma zlength_nonneg {A} (l : list A) : 0 ≤ zlength l.
Proof. unfold zlength. lia. Qed.

Lemma zlength_app {A} (l k : list A) : zlength (l ++ k) = zlength l + zlength k.
Proof. unfold zlength. rewrite length_app. lia. Qed.

Lemma zlength_cons {A} (x : A) l : zlength (x :: l) = 1 + zlength l.
Proof. unfold zlength. cbn [length]. lia. Qed.

Lemma to_nat_zlength {A} (l : list A) : Z.to_nat (zlength l) = length l.
Proof. unfold zlength. lia. Qed.

#[export] Hint Rewrite @zlength_app @zlength_cons @length_size_t : moodist.

(** Reading and writing in the middle of a block. *)
Lemma mem_read_app pre b post :
  mem_read (pre ++ b ++ post) (zlength pre) (zlength b) = Ok b.
Proof.
  unfold mem_read. rewrite bool_decide_true.
  - rewrite !to_nat_zlength, drop_app_length, take_app_length. done.
  - pose proof (zlength_nonneg pre). pose proof (zlength_nonneg b).
    pose proof (zlength_nonneg post). rewrite !zlength_app. lia.
Qed.

Lemma mem_read_prefix b post : mem_read (b ++ post) 0 (zlength b) = Ok b.
Proof. apply (mem_read_app []). Qed.

Lemma mem_write_at mem pre b :
  zlength pre + zlength b ≤ zlength mem →
  mem_write (pre ++ drop (length pre) mem) (zlength pre) b =
  Ok ((pre ++ b) ++ drop (length (pre ++ b)) mem).
Proof.
  intros Hle. pose proof (zlength_nonneg pre). pose proof (zlength_nonneg b).
  unfold mem_write. rewrite bool_decide_true.
  - rewrite to_nat_zlength, take_app_length.
    replace (Z.to_nat (zlength pre + zlength b)) with (length pre + length b)%nat
      by (unfold zlength; lia).
    rewrite drop_app_add, drop_drop, length_app, (assoc_L (++)). done.
  - rewrite zlength_app. unfold zlength in *. rewrite length_drop. lia.
Qed.

(** ** The format *)

Definition enc_builtin (v : builtin) : list Z :=
  match v with
  | BTrivial b => b
  | BString b => size_t (zlength b) ++ b
  | BView esize b => size_t (view_size esize b) ++ b
  end.

(** The bytes of a value. *)
Fixpoint enc (v : val) : list Z :=
  match v with
  | VPod b | VRaw b => b
  | VString b => size_t (zlength b) ++ b
  | VView esize b => size_t (view_size esize b) ++ b
  | VRec vs => concat (map enc vs)
  | VOpt None => [0]
  | VOpt (Some v) => 1 :: enc v
  | VVariant i v => size_t i ++ enc v
  | VVec vs => size_t (zlength vs) ++ concat (map enc vs)
  | VMap kvs => size_t (zlength kvs) ++ concat (map (λ kv, enc kv.1 ++ enc kv.2) kvs)
  end.

Definition enc_all (vs : list val) : list Z := concat (map enc vs).

Lemma enc_all_cons v vs : enc_all (v :: vs) = enc v ++ enc_all vs.
Proof. done. Qed.

(** Induction over values, with the hypothesis for every nested value. *)
Section val_induction.
Context (R : val → Prop).
Context (HPod : ∀ b, R (VPod b)) (HString : ∀ b, R (VString b)).
Context (HView : ∀ n b, R (VView n b)) (HRec : ∀ vs, Forall R vs → R (VRec vs)).
Context (HNone : R (VOpt None)) (HSome : ∀ v, R v → R (VOpt (Some v))).
Context (HVariant : ∀ i v, R v → R (VVariant i v)) (HVec : ∀ vs, Forall R vs → R (VVec vs)).
Context (HMap : ∀ kvs, Forall (λ kv, R kv.1 ∧ R kv.2) kvs → R (VMap kvs)).
Context (HRaw : ∀ b, R (VRaw b)).

Fixpoint val_induction (v : val) : R v :=
  match v with
  | VPod b => HPod b
  | VString b => HString b
  | VView n b => HView n b
  | VRec vs =>
      HRec vs ((fix go l : Forall R l :=
        match l with [] => Forall_nil_2 R | x :: l => Forall_cons_2 R x l (val_induction x) (go l) end) vs)
  | VOpt None => HNone
  | VOpt (Some v) => HSome v (val_induction v)
  | VVariant i v => HVariant i v (val_induction v)
  | VVec vs =>
      HVec vs ((fix go l : Forall R l :=
        match l with [] => Forall_nil_2 R | x :: l => Forall_cons_2 R x l (val_induction x) (go l) end) vs)
  | VMap kvs =>
      HMap kvs ((fix go l : Forall (λ kv, R kv.1 ∧ R kv.2) l :=
        match l with
        | [] => Forall_nil_2 _
        | x :: l => Forall_cons_2 _ x l (conj (val_induction x.1) (val_induction x.2)) (go l)
        end) kvs)
  | VRaw b => HRaw b
  end.
End val_induction.

(** ** Writing *)

(** What an output archive promises: after any writes within its capacity, it
    holds the bytes written so far. *)
Class ArchiveSpec (X : Type) `{!Archive X} (holds : X → list Z → Prop) (cap : Z) : Prop :=
  x_write_spec v x w :
    holds x w → zlength w + zlength (enc_builtin v) ≤ cap →
    ∃ x', x_write v x = Ok x' ∧ holds x' (w ++ enc_builtin v).

Section archive.
Context {X : Type} `{!Archive X} (holds : X → list Z → Prop) (cap : Z).
Context `{!ArchiveSpec X holds cap}.

(** Writing [e] in full. *)
Definition writes (f : X → outcome X) (e : list Z) : Prop :=
  ∀ x w, holds x w → zlength w + zlength e ≤ cap → ∃ x', f x = Ok x' ∧ holds x' (w ++ e).

Lemma writes_builtin v : writes (x_write v) (enc_builtin v).
Proof using ArchiveSpec0. intros x w. apply x_write_spec. Qed.

Lemma writes_bind f g e1 e2 :
  writes f e1 → writes g e2 → writes (λ x, let! x := f x in g x) (e1 ++ e2).
Proof using.
  intros Hf Hg x w Hx Hcap. rewrite zlength_app in Hcap. pose proof (zlength_nonneg e2).
  destruct (Hf x w Hx) as (x1 & -> & Hx1); [lia|]. cbn [obind].
  rewrite (assoc_L (++)). apply Hg; [done|]. rewrite zlength_app. lia.
Qed.

Lemma writes_each {A} (f : A → X → outcome X) (e : A → list Z) l :
  Forall (λ a, writes (f a) (e a)) l → writes (x_each f l) (concat (map e l)).
Proof using.
  induction 1 as [|a l Ha _ IH]; cbn [x_each map concat].
  - intros x w Hx _. exists x. by rewrite app_nil_r.
  - by apply writes_bind.
Qed.

(** Any archive writes the bytes of the value. *)
Lemma x_val_writes v : writes (x_val v) (enc v).
Proof using ArchiveSpec0.
  induction v using val_induction; cbn [x_val enc].
  - apply (writes_builtin (BTrivial b)).
  - apply (writes_builtin (BString b)).
  - apply (writes_builtin (BView n b)).
  - by apply writes_each.
  - apply (writes_builtin (BTrivial [0])).
  - apply (writes_bind _ _ [1]); [apply (writes_builtin (BTrivial [1]))|done].
  - apply writes_bind; [apply (writes_builtin (BTrivial (size_t i)))|done].
  - apply writes_bind; [apply (writes_builtin (BTrivial (size_t (zlength vs))))|].
    by apply writes_each.
  - apply writes_bind; [apply (writes_builtin (BTrivial (size_t (zlength kvs))))|].
    apply (writes_each _ (λ kv, enc kv.1 ++ enc kv.2)).
    eapply Forall_impl; [done|]. intros kv [? ?]. by apply writes_bind.
  - apply (writes_builtin (BTrivial b)).
Qed.

Lemma x_vals_writes vs : writes (x_vals vs) (enc_all vs).
Proof using ArchiveSpec0.
  apply writes_each, Forall_true. apply x_val_writes.
Qed.
End archive.

(** The overloads of [Serializer::write] put their pieces one after the other. *)
Lemma write_builtin o (holds : Serialize → list Z → Prop) cap :
  (∀ b, writes holds cap (λ st, write_mem o st b) b) →
  @ArchiveSpec Serialize (Serialize_archive o) holds cap.
Proof.
  intros Hb v. change (writes holds cap (write o v) (enc_builtin v)).
  destruct v as [b|b|esize b]; [apply Hb|..]; exact (writes_bind _ _ _ _ _ _ (Hb _) (Hb b)).
Qed.

(** *** The measuring pass *)

Definition measured (st : Serialize) (w : list Z) : Prop := w_dst st = zlength w.

Lemma measure_spec cap :
  cap < 2 ^ 64 → @ArchiveSpec Serialize (Serialize_archive OpSize) measured cap.
Proof.
  intros Hcap. apply write_builtin. unfold measured. intros b st w Hst Hle.
  eexists. split; [done|]. cbn [w_dst].
  pose proof (zlength_nonneg w). pose proof (zlength_nonneg b).
  rewrite Hst, u64_small, zlength_app; lia.
Qed.

Lemma serialized_size_spec vs :
  zlength (enc_all vs) < 2 ^ 64 → serialized_size vs = Ok (zlength (enc_all vs)).
Proof.
  intros Hlt. unfold serialized_size.
  destruct (x_vals_writes _ _ (ArchiveSpec0 := measure_spec _ Hlt) vs (mkSerialize [] 0) [])
    as (x & -> & Hx); [done|unfold zlength at 1; cbn [length]; lia|].
  cbn [obind]. by rewrite Hx.
Qed.

(** *** The writing pass *)

(** The block [mem0] has been overwritten from its start. *)
Definition overwritten (mem0 : list Z) (st : Serialize) (w : list Z) : Prop :=
  w_dst st = zlength w ∧ w_mem st = w ++ drop (length w) mem0.

Lemma overwrite_spec mem0 :
  @ArchiveSpec Serialize (Serialize_archive OpWrite) (overwritten mem0) (zlength mem0).
Proof.
  apply write_builtin. intros b st w [Hd Hm] Hle. cbn [write_mem].
  rewrite Hd, Hm, mem_write_at by done. eexists. split; [done|].
  split; cbn [w_dst w_mem]; [by rewrite zlength_app|done].
Qed.

Lemma x_vals_overwrite mem0 vs :
  zlength (enc_all vs) ≤ zlength mem0 →
  x_vals (Archive0 := Serialize_archive OpWrite) vs (mkSerialize mem0 0) =
  Ok (mkSerialize (enc_all vs ++ drop (length (enc_all vs)) mem0) (zlength (enc_all vs))).
Proof.
  intros Hle. destruct (x_vals_writes _ _ (ArchiveSpec0 := overwrite_spec mem0) vs (mkSerialize mem0 0) [])
    as ([m d] & -> & Hd & Hm); [done|done|]. cbn [w_dst w_mem app] in *. by subst.
Qed.

(** *** The growing archive *)

(** What [internalAllocSize] promises: at least what was asked for, and at most
    twice that. *)
Class AllocSize (sizeofBuffer : Z) (internalAllocSize : Z → Z) : Prop := {
  sizeofBuffer_range : 8 ≤ sizeofBuffer < 0x80;
  alloc_size_ge n : 8 ≤ n < 2 ^ 63 → n ≤ internalAllocSize n;
  alloc_size_le n : 8 ≤ n < 2 ^ 63 → internalAllocSize n ≤ 2 * n
}.

Section expandable.
Context (sizeofBuffer : Z) (internalAllocSize : Z → Z) (fill : Z).
Context `{!AllocSize sizeofBuffer internalAllocSize}.

Local Abbreviation expand := (expand sizeofBuffer internalAllocSize fill).
Local Abbreviation twrite := (twrite sizeofBuffer internalAllocSize fill).

Definition collected (cap : Z) (x : SerializeExpandable) (w : list Z) : Prop :=
  x_size x = zlength w ∧ (∃ rest, x_buffer x = w ++ rest) ∧
  zlength (x_buffer x) ≤ 4 * cap + 256.

Lemma expand_spec cap x w nreq :
  collected cap x w → 0 ≤ nreq → zlength w + nreq ≤ cap → cap ≤ 2 ^ 60 →
  zlength (x_buffer x) ≤ zlength w + nreq →
  ∃ x', expand x nreq = Ok x' ∧ collected cap x' w ∧ zlength w + nreq ≤ zlength (x_buffer x').
Proof using AllocSize0.
  intros (Hs & (rest & Hb) & Hcap) Hn Hw Hmax Hfull. unfold Serialization.expand. rewrite Hs.
  pose proof (zlength_nonneg w). pose proof (zlength_nonneg rest).
  pose proof sizeofBuffer_range as HsB.
  assert (zlength w ≤ zlength (x_buffer x)) by (rewrite Hb, zlength_app; lia).
  set (msize := zlength (x_buffer x)) in *.
  rewrite (u64_small (msize * 2)), (u64_small (msize + nreq)) by lia.
  set (n := Z.max (msize * 2) (msize + nreq)).
  pose proof (alloc_size_ge (sizeofBuffer + n)) as Hge. pose proof (alloc_size_le (sizeofBuffer + n)) as Hle.
  set (sz := internalAllocSize (sizeofBuffer + n)) in *.
  rewrite Hb, mem_read_prefix. cbn [obind].
  assert (zlength (makeBuffer fill (sz - sizeofBuffer)) = sz - sizeofBuffer) as Hlen
    by (unfold zlength, makeBuffer; rewrite length_replicate; lia).
  pose proof (mem_write_at (makeBuffer fill (sz - sizeofBuffer)) [] w) as Hwr.
  cbn [app length] in Hwr. rewrite drop_0 in Hwr.
  change (zlength []) with 0 in Hwr. rewrite Hwr by lia. cbn [obind].
  eexists. split; [done|].
  assert (zlength (w ++ drop (length w) (makeBuffer fill (sz - sizeofBuffer))) = sz - sizeofBuffer) as Hlen'
    by (rewrite zlength_app; unfold zlength in *; rewrite length_drop; lia).
  cbn [x_buffer x_size]. split_and!; [split_and!; cbn [x_buffer x_size]; [done|eauto|lia]|lia].
Qed.

Lemma twrite_spec cap :
  cap ≤ 2 ^ 60 →
  @ArchiveSpec SerializeExpandable (Expandable_archive sizeofBuffer internalAllocSize fill)
    (collected cap) cap.
Proof using AllocSize0.
  intros Hmax v x w Hx Hle.
  change (x_write v x) with (twrite v x). unfold Serialization.twrite.
  set (e := enc_builtin v) in *. pose proof (zlength_nonneg e). pose proof (zlength_nonneg w).
  destruct (measure_spec (2 ^ 60) ltac:(lia) v (mkSerialize [] 0) []) as (st & Hst & Hd);
    [done|change (zlength []) with 0; fold e; lia|].
  change (write OpSize v (mkSerialize [] 0) = Ok st) in Hst. rewrite Hst. cbn [obind].
  unfold measured in Hd. cbn [app] in Hd. fold e in Hd. rewrite Hd.
  assert (∃ x', (if zlength e >=? u64 (zlength (x_buffer x) - x_size x) then expand x (zlength e) else Ok x)
    = Ok x' ∧ collected cap x' w ∧ zlength w + zlength e ≤ zlength (x_buffer x')) as (x' & -> & Hx' & Hroom).
  { destruct (Hx) as (Hs & (rest & Hb) & Hcap). pose proof (zlength_nonneg rest).
    assert (zlength (x_buffer x) = zlength w + zlength rest) as Hbl by (by rewrite Hb, zlength_app).
    rewrite Hs, u64_small by lia.
    destruct (Z.geb_spec (zlength e) (zlength (x_buffer x) - zlength w)).
    - apply expand_spec; [done|lia..].
    - exists x. split_and!; [done..|lia]. }
  cbn [obind]. destruct Hx' as (Hs & (rest & Hb) & Hcap). rewrite Hs, Hb in *.
  destruct (overwrite_spec (w ++ rest) v (mkSerialize (w ++ rest) (zlength w)) w)
    as (st' & Hw & _ & Hm); [split; cbn [w_dst w_mem]; [done|by rewrite drop_app_length]|done|].
  change (write OpWrite v (mkSerialize (w ++ rest) (zlength w)) = Ok st') in Hw. rewrite Hw. cbn [obind].
  eexists. split; [done|]. fold e in Hm. rewrite Hm.
  split_and!; cbn [x_buffer x_size]; [|eauto|].
  - rewrite u64_small, zlength_app by lia. done.
  - rewrite zlength_app in Hroom, Hcap |- *. unfold zlength in *. rewrite length_drop, !length_app. lia.
Qed.
End expandable.

(** ** Reading *)

(** [b] is what is left to read. *)
Definition feeds (d : Deserializer) (b : list Z) : Prop :=
  ∃ pre, base d = pre ++ b ∧ offset d = zlength pre ∧ d_length d = zlength (base d) ∧
    zlength (base d) < 2 ^ 64.

Lemma feeds_init buf : zlength buf < 2 ^ 64 → feeds (Deserializer_init buf) buf.
Proof. intros. by exists []. Qed.

Lemma feeds_remaining d b : feeds d b → remaining d = zlength b.
Proof.
  intros (pre & Hb & Ho & Hl & Hlt). unfold remaining. rewrite Hl, Hb, Ho, zlength_app in *.
  pose proof (zlength_nonneg pre). pose proof (zlength_nonneg b). rewrite u64_small; lia.
Qed.

Lemma feeds_read d b r : feeds d (b ++ r) → mem_read (base d) (offset d) (zlength b) = Ok b.
Proof. intros (pre & -> & -> & _). apply mem_read_app. Qed.

Lemma feeds_consume d b r : feeds d (b ++ r) → feeds (consume d (zlength b)) r.
Proof.
  intros (pre & Hb & Ho & Hl & Hlt). exists (pre ++ b). unfold consume. cbn [base offset d_length].
  pose proof (zlength_nonneg pre). pose proof (zlength_nonneg b). pose proof (zlength_nonneg r).
  split_and!; [by rewrite Hb, (assoc_L (++))| |done|done].
  rewrite Hb, !zlength_app in Hlt. rewrite Ho, u64_small, zlength_app; lia.
Qed.

(** Input that ends inside [e]. *)
Definition cut (b e : list Z) : Prop := ∃ z, e = b ++ z ∧ z ≠ [].

Lemma cut_length b e : cut b e → zlength b < zlength e.
Proof.
  intros ([|x z] & -> & Hz); [done|]. rewrite zlength_app, zlength_cons.
  pose proof (zlength_nonneg z). lia.
Qed.

Lemma cut_app b e1 e2 :
  cut b (e1 ++ e2) → cut b e1 ∨ ∃ b', b = e1 ++ b' ∧ cut b' e2.
Proof.
  intros (z & Hz & Hne). apply app_eq_inv in Hz as [(k & -> & ->)|(k & -> & ->)].
  - destruct k as [|x k]; [right|left; exists (x :: k); done].
    exists []. rewrite !app_nil_r in *. split; [done|]. by exists e2.
  - right. exists k. split; [done|]. by exists z.
Qed.

(** [rd] reads [a] from the bytes [e], and refuses input cut inside [e]; it may
    rely on at least [m] bytes being left. *)
Definition reads_if {A} (m : Z) (rd : reader A) (e : list Z) (a : A) : Prop :=
  ∀ d b, feeds d b → m ≤ zlength b →
    (∀ r, b = e ++ r → ∃ d', rd d = Ok (a, d') ∧ feeds d' r) ∧
    (cut b e → rd d = Throw SerializationError).

Abbreviation reads := (reads_if 0).

Lemma reads_ret {A} (a : A) : reads (λ d, Ok (a, d)) [] a.
Proof.
  intros d b Hf _. split; [intros r ->; eauto|].
  intros (z & Hz & Hne). by destruct b, z.
Qed.

Section combinators.
Context {A B : Type}.

Lemma reads_weaken m m' (rd : reader A) e a : m ≤ m' → reads_if m rd e a → reads_if m' rd e a.
Proof. intros Hm Hr d b Hf Hb. apply Hr; [done|lia]. Qed.

(** A read, then another that depends on it; the second may need [m2] bytes. *)
Lemma reads_bind_if m m2 (rd : reader A) (k : A → reader B) e1 e2 a c :
  reads_if m rd e1 a → reads_if m2 (k a) e2 c → m2 + zlength e1 ≤ m ∨ m2 ≤ 0 →
  reads_if m (λ d, let! '(x, d) := rd d in k x d) (e1 ++ e2) c.
Proof.
  intros H1 H2 Hm d b Hf Hb. destruct (H1 d b Hf Hb) as [Hok1 Hcut1].
  assert (∀ b', b = e1 ++ b' → m2 ≤ zlength b') as Hroom.
  { intros b' ->. rewrite zlength_app in Hb. pose proof (zlength_nonneg b'). lia. }
  split.
  - intros r Hr. rewrite <- (assoc_L (++)) in Hr. destruct (Hok1 _ Hr) as (d1 & -> & Hf1). cbn [obind].
    apply (H2 d1 _ Hf1); [by apply Hroom|done].
  - intros [Hc|(b' & -> & Hc)]%cut_app; [by rewrite Hcut1|].
    destruct (Hok1 _ eq_refl) as (d1 & -> & Hf1). cbn [obind].
    apply (H2 d1 _ Hf1); [by apply Hroom|done].
Qed.

Lemma reads_bind (rd : reader A) (k : A → reader B) e1 e2 a c :
  reads rd e1 a → reads (k a) e2 c →
  reads (λ d, let! '(x, d) := rd d in k x d) (e1 ++ e2) c.
Proof. intros H1 H2. apply (reads_bind_if 0 0 rd k e1 e2 a c); [done|done|lia]. Qed.

(** A result wrapped up. *)
Lemma reads_map (rd : reader A) (f : A → B) e a :
  reads rd e a → reads (λ d, let! '(x, d) := rd d in Ok (f x, d)) e (f a).
Proof.
  intros H1. rewrite <- (app_nil_r e).
  exact (reads_bind rd (λ x d, Ok (f x, d)) e [] a (f a) H1 (reads_ret (f a))).
Qed.
End combinators.

(** *** Builtin reads *)

Lemma reads_bytes b : reads (read_bytes true (zlength b)) b b.
Proof.
  intros d b' Hf _. unfold read_bytes. rewrite (feeds_remaining d b' Hf). cbn [andb]. split.
  - intros r ->. rewrite zlength_app. pose proof (zlength_nonneg r).
    destruct (Z.ltb_spec (zlength b + zlength r) (zlength b)); [lia|].
    rewrite (feeds_read _ _ _ Hf). cbn [obind]. eexists. split; [done|]. by apply feeds_consume.
  - intros Hc%cut_length. destruct (Z.ltb_spec (zlength b') (zlength b)); [done|lia].
Qed.

Lemma reads_bytes_n n b : zlength b = n → reads (read_bytes true n) b b.
Proof. intros <-. apply reads_bytes. Qed.

Lemma reads_size_t x : 0 ≤ x < 2 ^ 64 → reads (read_size_t true) (size_t x) x.
Proof.
  intros Hx. rewrite <- (le_value_size_t x Hx) at 2.
  apply (reads_map (read_bytes true 8) le_value). apply reads_bytes_n, length_size_t.
Qed.

Lemma reads_bool (b : bool) : reads (read_bool true) [if b then 1 else 0] b.
Proof.
  replace b with (negb (le_value [if b then 1 else 0] =? 0)) at 2 by (by destruct b).
  apply (reads_map (read_bytes true 1) (λ l, negb (le_value l =? 0))). by apply reads_bytes_n.
Qed.

Lemma reads_ext {A} m (rd rd' : reader A) e a :
  (∀ d, rd d = rd' d) → reads_if m rd' e a → reads_if m rd e a.
Proof. intros Hrd Hr d b Hf Hm. rewrite Hrd. by apply Hr. Qed.

Lemma readStringView_bind {A} esize (k : Z * Z → reader A) d :
  (let! '(view, d) := readStringView true esize d in k view d) =
  (let! '(len, d) := read_size_t true d in
   if remaining d <? u64 (esize * len) then Throw SerializationError
   else k (offset d, len) (consume d (u64 (esize * len)))).
Proof.
  unfold readStringView. destruct (read_size_t true d) as [[len d']|e| | |]; try done.
  cbn [obind andb eod]. by destruct (_ <? _).
Qed.

(** A view of [n] elements of [esize] bytes, and what is made of the bytes [b]
    it denotes. *)
Lemma reads_view {A} esize n b (k : Z * Z → reader A) a :
  0 ≤ n < 2 ^ 64 → esize * n = zlength b → zlength b < 2 ^ 64 →
  (∀ d r, feeds d (b ++ r) →
     k (offset d, n) (consume d (zlength b)) = Ok (a, consume d (zlength b))) →
  reads (λ d, let! '(view, d) := readStringView true esize d in k view d) (size_t n ++ b) a.
Proof.
  intros Hn Hb Hlt Hk. pose proof (zlength_nonneg b).
  eapply reads_ext; [intros d; apply readStringView_bind|].
  eapply (reads_bind _ _ _ _ n); [by apply reads_size_t|]. intros d b' Hf _.
  rewrite (feeds_remaining d b' Hf), Hb, u64_small by lia. split.
  - intros r ->. rewrite zlength_app. pose proof (zlength_nonneg r).
    destruct (Z.ltb_spec (zlength b + zlength r) (zlength b)); [lia|].
    rewrite (Hk d r Hf). eexists. split; [done|]. by apply feeds_consume.
  - intros Hc%cut_length. destruct (Z.ltb_spec (zlength b') (zlength b)); [done|lia].
Qed.

Lemma feeds_read_after d b r :
  feeds d (b ++ r) → mem_read (base (consume d (zlength b))) (offset d) (zlength b) = Ok b.
Proof. intros Hf. exact (feeds_read _ _ _ Hf). Qed.

Lemma reads_string b : zlength b < 2 ^ 64 → reads (readString true) (size_t (zlength b) ++ b) b.
Proof.
  intros Hlt. unfold readString. pose proof (zlength_nonneg b).
  eapply (reads_bind _ _ _ _ (zlength b)); [by apply reads_size_t|]. intros d b' Hf Hm.
  cbn [andb eod]. exact (reads_bytes b d b' Hf Hm).
Qed.

(** *** Well-typed values *)

Section typing.
Context (max_elems : Z).

(** [P] of the alternative of index [i], counting from [j]. *)
Fixpoint alternative (P : ty → Prop) (i j : Z) (ts : list ty) : Prop :=
  match ts with
  | [] => False
  | t :: ts => if j =? i then P t else alternative P i (j + 1) ts
  end.

Fixpoint fields (P : ty → val → Prop) (ts : list ty) (vs : list val) : Prop :=
  match ts, vs with
  | [], [] => True
  | t :: ts, v :: vs => P t v ∧ fields P ts vs
  | _, _ => False
  end.

(** The type and the value agree, and every length fits its field. *)
Fixpoint has_ty (t : ty) (v : val) : Prop :=
  match t, v with
  | TPod n _, VPod b => zlength b = n
  | TString, VString b => zlength b < 2 ^ 64
  | TView e, VView e' b => e = e' ∧ 0 < e ∧ zlength b = e * view_size e b ∧ zlength b < 2 ^ 64
  | TRec _ ts, VRec vs => fields has_ty ts vs
  | TOpt t, VOpt o => match o with Some v => has_ty t v | None => True end
  | TVariant ts, VVariant i v =>
      0 ≤ i < 2 ^ 64 ∧ alternative (λ t, has_ty t v) i 0 ts
  | TVec t, VVec vs =>
      Forall (has_ty t) vs ∧ zlength vs ≤ max_elems ∧ zlength (enc_all vs) < 2 ^ 64
  | TMap k v, VMap kvs =>
      Forall (λ kv, has_ty k kv.1 ∧ has_ty v kv.2) kvs ∧ zlength kvs < 2 ^ 64 ∧
      NoDup kvs.*1
  | _, _ => False
  end.

(** Either copied as a scalar or not copied in bulk. *)
Definition scalar_or_slow (t : ty) : bool :=
  match t with
  | TPod _ _ | TString | TView _ => true
  | _ => negb (trivially_copyable t) || has_serialize t
  end.

(** Types whose bulk copies meet only scalars: the fast paths of the reader
    copy an optional, a variant or a view as the object it is in memory, which
    is not what the writer put there. *)
Fixpoint plain (t : ty) : bool :=
  match t with
  | TPod _ _ | TString | TView _ => true
  | TRec _ ts => forallb plain ts && forallb scalar_or_slow ts
  | TOpt t => plain t
  | TVariant ts => forallb plain ts
  | TVec t => plain t && scalar_or_slow t && negb (is_string_view t)
  | TMap k v => plain k && plain v && scalar_or_slow k && scalar_or_slow v
  end.
End typing.

Section ty_induction.
Context (R : ty → Prop).
Context (HPod : ∀ n a, R (TPod n a)) (HString : R TString) (HView : ∀ e, R (TView e)).
Context (HRec : ∀ k ts, Forall R ts → R (TRec k ts)) (HOpt : ∀ t, R t → R (TOpt t)).
Context (HVariant : ∀ ts, Forall R ts → R (TVariant ts)) (HVec : ∀ t, R t → R (TVec t)).
Context (HMap : ∀ k v, R k → R v → R (TMap k v)).

Fixpoint ty_induction (t : ty) : R t :=
  let go := fix go l : Forall R l :=
    match l with [] => Forall_nil_2 R | x :: l => Forall_cons_2 R x l (ty_induction x) (go l) end in
  match t with
  | TPod n a => HPod n a
  | TString => HString
  | TView e => HView e
  | TRec k ts => HRec k ts (go ts)
  | TOpt t => HOpt t (ty_induction t)
  | TVariant ts => HVariant ts (go ts)
  | TVec t => HVec t (ty_induction t)
  | TMap k v => HMap k v (ty_induction k) (ty_induction v)
  end.
End ty_induction.

(** *** Key equality *)

Lemma list_eqb_eq {A} (eqb : A → A → bool) l1 l2 :
  Forall (λ a, ∀ b, eqb a b = true → a = b) l1 → list_eqb eqb l1 l2 = true → l1 = l2.
Proof.
  intros Hall. revert l2. induction Hall as [|a l1 Ha _ IH]; intros [|b l2] Heq; try done.
  cbn [list_eqb] in Heq. apply andb_true_iff in Heq as [Hab Hl]. f_equal; auto.
Qed.

Lemma bytes_eqb_eq l1 l2 : list_eqb Z.eqb l1 l2 = true → l1 = l2.
Proof. apply list_eqb_eq, Forall_true. intros a b. apply Z.eqb_eq. Qed.

Lemma val_eqb_eq v w : val_eqb v w = true → v = w.
Proof.
  revert w. induction v using val_induction; intros w Heq; destruct w; try done;
    cbn [val_eqb] in Heq.
  - f_equal. by apply bytes_eqb_eq.
  - f_equal. by apply bytes_eqb_eq.
  - apply andb_true_iff in Heq as [?%Z.eqb_eq ?%bytes_eqb_eq]. by subst.
  - f_equal. by apply (list_eqb_eq val_eqb).
  - by destruct o.
  - destruct o; [|done]. do 2 f_equal. auto.
  - apply andb_true_iff in Heq as [?%Z.eqb_eq ?]. f_equal; auto.
  - f_equal. by apply (list_eqb_eq val_eqb).
  - f_equal. eapply list_eqb_eq; [|done]. eapply Forall_impl; [done|].
    intros [k v] [Hk Hv] [k' v'] [? ?]%andb_true_iff. f_equal; auto.
  - f_equal. by apply bytes_eqb_eq.
Qed.

Lemma map_emplace_new kvs k v : k ∉ kvs.*1 → map_emplace kvs k v = kvs ++ [(k, v)].
Proof.
  intros Hk. unfold map_emplace. destruct (existsb _ kvs) eqn:He; [|done]. exfalso.
  apply existsb_exists in He as ([k' v'] & Hin & Heq). apply val_eqb_eq in Heq. simpl in Heq. subst.
  apply Hk, list_elem_of_fmap. exists (k, v'). split; [done|]. by apply list_elem_of_In.
Qed.

(** *** Round trips, part by part *)

Lemma reads_n {A} (r : reader A) (e : A → list Z) l :
  Forall (λ a, reads r (e a) a) l → reads (read_n (length l) r) (concat (map e l)) l.
Proof.
  induction 1 as [|a l Ha _ IH]; cbn [length read_n map concat]; [apply reads_ret|].
  eapply reads_bind; [done|]. by apply (reads_map _ (cons a)).
Qed.

Lemma reads_map_loop rk rv acc kvs :
  Forall (λ kv, reads rk (enc kv.1) kv.1 ∧ reads rv (enc kv.2) kv.2) kvs →
  NoDup (acc ++ kvs).*1 →
  reads (read_map (length kvs) rk rv acc) (concat (map (λ kv, enc kv.1 ++ enc kv.2) kvs))
    (VMap (acc ++ kvs)).
Proof.
  intros Hall. revert acc. induction Hall as [|[k v] kvs [Hk Hv] _ IH]; intros acc Hnd;
    cbn [length read_map map concat].
  { rewrite app_nil_r. apply reads_ret. }
  rewrite <- (assoc_L (++)). eapply reads_bind; [exact Hk|]. eapply reads_bind; [exact Hv|].
  cbn [fst snd]. rewrite cons_middle, (assoc_L (++)) in Hnd |- *.
  rewrite map_emplace_new; [by apply IH|].
  rewrite !fmap_app in Hnd. apply NoDup_app in Hnd as [Hnd _].
  apply NoDup_app in Hnd as (_ & Hd & _). intros Hin. apply (Hd k Hin). by left.
Qed.

Lemma chunks_concat n bs :
  Forall (λ b, zlength b = n) bs → chunks (length bs) n (concat bs) = bs.
Proof.
  induction 1 as [|b bs Hb _ IH]; [done|]. cbn [length chunks concat].
  assert (Z.to_nat n = length b) as -> by (unfold zlength in Hb; lia).
  rewrite take_app_length, drop_app_length. by rewrite IH.
Qed.

Lemma alternative_impl (P P' : ty → Prop) i j ts :
  Forall (λ t, P t → P' t) ts → alternative P i j ts → alternative P' i j ts.
Proof.
  intros Hall. revert j. induction Hall as [|t ts Ht _ IH]; intros j Hj; [done|].
  cbn [alternative] in *. destruct (j =? i); auto.
Qed.

Lemma fields_Forall2 (P P' : ty → val → Prop) ts vs :
  Forall (λ t, ∀ v, P t v → P' t v) ts → fields P ts vs → Forall2 P' ts vs.
Proof.
  intros Hall. revert vs. induction Hall as [|t ts Ht _ IH]; intros [|v vs] Hf; try done.
  destruct Hf as [? ?]. constructor; auto.
Qed.

Lemma forallb_Forall {A} (f : A → bool) l : forallb f l = true → Forall (λ a, f a = true) l.
Proof.
  induction l as [|a l IH]; [by constructor|]. cbn [forallb].
  intros [? ?]%andb_true_iff. constructor; auto.
Qed.

Lemma reads_variant (r : ty → reader val) j i ts v v0 :
  alternative (λ t, reads (r t) (enc v) v) i j ts →
  reads (read_variant r j i ts v0) (enc v) (VVariant i v).
Proof.
  assert (∀ ts j w, i < j → ∀ d, read_variant r j i ts w d = Ok (w, d)) as Hskip.
  { clear. induction ts as [|t ts IH]; intros j w Hj d; [done|]. cbn [read_variant].
    destruct (Z.eqb_spec i j); [lia|]. cbn [obind]. apply IH. lia. }
  revert j v0. induction ts as [|t ts IH]; intros j v0 Hgo; [done|].
  cbn [read_variant alternative] in *. rewrite (Z.eqb_sym i j). destruct (Z.eqb_spec j i) as [->|Hne].
  - eapply (reads_ext _ _ (λ d, let! '(w, d) := r t d in Ok (VVariant i w, d))).
    { intros d. destruct (r t d) as [[w d']|e| | |]; try done. cbn [obind]. apply Hskip. lia. }
    by apply reads_map.
  - eapply reads_ext; [|by apply IH]. done.
Qed.

(** *** Several arguments at once *)

Section batch.
Context (max_elems : Z) (r : ty → reader val).

(** An argument of a batch that can be read by itself. *)
Definition batch_ok (t : ty) (v : val) : Prop :=
  scalar_or_slow t = true ∧ has_ty max_elems t v ∧ reads (r t) (enc v) v.

Lemma copy_trivially_pod t v :
  copy_trivially t = true → batch_ok t v →
  ∃ n a b, t = TPod n a ∧ v = VPod b ∧ zlength b = n.
Proof.
  intros Hc (Hs & Hty & _). unfold copy_trivially in Hc.
  apply andb_true_iff in Hc as [Hc Hv]. apply andb_true_iff in Hc as [Hc Hb].
  apply andb_true_iff in Hc as [Ht Hm].
  destruct t; try done; [|unfold scalar_or_slow in Hs; rewrite Ht in Hs; cbn in Hs; try done..].
  - destruct v; try done. eauto 10.
  - by destruct k.
Qed.

Lemma trivialBytes_le ts vs :
  Forall2 batch_ok ts vs → 0 ≤ trivialBytes ts ≤ zlength (enc_all vs).
Proof.
  induction 1 as [|t v ts vs Hb _ IH]; [done|]. cbn [trivialBytes].
  rewrite enc_all_cons, zlength_app. pose proof (zlength_nonneg (enc v)).
  destruct (copy_trivially t) eqn:Hc; [|lia].
  destruct (copy_trivially_pod t v Hc Hb) as (n & a & b & -> & -> & Hn). cbn [sizeof enc] in *. lia.
Qed.

Lemma reads_trivial_copy n a b :
  zlength b = n → reads_if n (trivial_copy (TPod n a)) b (VPod b).
Proof.
  intros <- d b' Hf Hm. unfold trivial_copy. cbn [sizeof]. split.
  - intros q ->. rewrite (feeds_read _ _ _ Hf). cbn [obind]. eexists. split; [done|].
    by apply feeds_consume.
  - intros ?%cut_length. lia.
Qed.

(** The length check in front of a run. *)
Lemma reads_guard {A} m (rd : reader A) e a :
  reads_if m rd e a → m ≤ zlength e →
  reads (λ d, if true && (remaining d <? m) then eod true else rd d) e a.
Proof.
  intros Hr Hm d b Hf _. rewrite (feeds_remaining d b Hf). cbn [andb].
  destruct (Z.ltb_spec (zlength b) m); [|by apply Hr].
  split; [|done]. intros q ->. rewrite zlength_app in *. pose proof (zlength_nonneg q). lia.
Qed.

Lemma reads_cons m m2 (rd : reader val) (k : reader (list val)) v vs :
  reads_if m rd (enc v) v → reads_if m2 k (enc_all vs) vs →
  m2 + zlength (enc v) ≤ m ∨ m2 ≤ 0 →
  reads_if m (λ d, let! '(v, d) := rd d in let! '(vs, d) := k d in Ok (v :: vs, d))
    (enc_all (v :: vs)) (v :: vs).
Proof.
  intros H1 H2 Hm. rewrite enc_all_cons.
  refine (reads_bind_if m m2 rd (λ v d, let! '(vs, d) := k d in Ok (v :: vs, d)) _ _ v _ H1 _ Hm).
  rewrite <- (app_nil_r (enc_all vs)).
  refine (reads_bind_if m2 0 k (λ vs d, Ok (v :: vs, d)) _ [] vs _ H2 (reads_ret _) _). by right.
Qed.

Lemma reads_batch (run : bool) ts vs :
  Forall2 batch_ok ts vs →
  reads_if (if run then trivialBytes ts else 0) (read_batch true r run ts) (enc_all vs) vs.
Proof.
  intros Hall. revert run. induction Hall as [|t v ts vs Hb Hall IH]; intros run.
  { apply (reads_weaken 0); [by destruct run|]. apply reads_ret. }
  pose proof (trivialBytes_le _ _ Hall) as Htb. destruct (Hb) as (_ & _ & Hr).
  assert (copy_trivially t = true → reads_if (trivialBytes (t :: ts))
    (λ d, let! '(v, d) := trivial_copy t d in
          let! '(vs, d) := read_batch true r true ts d in Ok (v :: vs, d))
    (enc_all (v :: vs)) (v :: vs)) as Hrun.
  { intros Hc. destruct (copy_trivially_pod t v Hc Hb) as (n & a & b & -> & -> & Hn).
    cbn [trivialBytes]. rewrite Hc. cbn [sizeof].
    apply (reads_cons _ (trivialBytes ts)); [|apply (IH true)|cbn [enc]; lia].
    apply (reads_weaken n); [lia|]. by apply reads_trivial_copy. }
  assert (reads (λ d, let! '(v, d) := r t d in
          let! '(vs, d) := read_batch true r false ts d in Ok (v :: vs, d))
    (enc_all (v :: vs)) (v :: vs)) as Hone.
  { apply (reads_cons _ 0); [done|apply (IH false)|by right]. }
  assert (Forall2 batch_ok (t :: ts) (v :: vs)) as Hall' by (by constructor).
  pose proof (trivialBytes_le _ _ Hall') as Htb'.
  cbn [read_batch]. destruct (copy_trivially t) eqn:Hc; [destruct run; cbn [andb]|].
  - by apply Hrun.
  - destruct ts as [|t' ts]; [done|]. apply reads_guard; [by apply Hrun|lia].
  - rewrite andb_false_r. apply (reads_weaken 0); [destruct run; lia|]. by destruct ts.
Qed.
End batch.

(** *** The round trip *)

Section roundtrip.
Context (max_elems : Z).
Local Abbreviation x_read := (x_read true max_elems).

Lemma read_T_slow t d : scalar_or_slow t = true → read_T true x_read t d = x_read t d.
Proof.
  intros Hs. unfold read_T. destruct (has_serialize t) eqn:Hm; [done|].
  destruct (has_builtin_read t) eqn:Hb; [|done].
  destruct t; try done; cbn [has_builtin_read scalar_or_slow] in *;
    rewrite Hb, ?Hm in Hs; done.
Qed.

Lemma reads_vector_trivial n a vs :
  Forall (has_ty max_elems (TPod n a)) vs → zlength vs ≤ max_elems →
  zlength vs < 2 ^ 64 → zlength (enc_all vs) < 2 ^ 64 →
  reads (read_vector_trivial true max_elems (TPod n a)) (enc (VVec vs)) (VVec vs).
Proof.
  intros Hty Hmax Hlen Hlt. cbn [enc]. fold (enc_all vs).
  assert (∃ bs, vs = VPod <$> bs ∧ Forall (λ b, zlength b = n) bs) as (bs & -> & Hbs).
  { clear Hmax Hlen Hlt. induction Hty as [|v vs Hv _ (bs & -> & Hbs)]; [by exists []|].
    destruct v; try done. exists (b :: bs). split; [done|]. by constructor. }
  assert (enc_all (VPod <$> bs) = concat bs) as He.
  { unfold enc_all. f_equal. clear. induction bs as [|b bs IH]; [done|]. cbn. by f_equal. }
  assert (zlength (VPod <$> bs) = zlength bs) as Hl by (unfold zlength; by rewrite length_fmap).
  assert (n * zlength bs = zlength (concat bs)) as Hn.
  { clear -Hbs. induction Hbs as [|b bs Hb _ IH]; [unfold zlength; simpl; lia|].
    cbn [concat]. rewrite zlength_app, zlength_cons. lia. }
  rewrite He, Hl in *. pose proof (zlength_nonneg bs).
  apply reads_view; [lia|done|done|]. intros d r Hf. cbn [fst snd]. unfold resize.
  destruct (Z.ltb_spec max_elems (zlength bs)); [lia|]. cbn [obind sizeof].
  rewrite Hn, u64_small by (pose proof (zlength_nonneg (concat bs)); lia).
  rewrite (feeds_read_after _ _ _ Hf). cbn [obind]. rewrite to_nat_zlength, chunks_concat by done.
  done.
Qed.

Lemma x_read_reads t v :
  plain t = true → has_ty max_elems t v → max_elems < 2 ^ 64 → reads (x_read t) (enc v) v.
Proof.
  intros Hp Hty Hmax. revert v Hp Hty.
  induction t as [n a| |e|k ts IH|t IH|ts IH|t IH|k IHk w IHv] using ty_induction;
    intros v Hp Hty; cbn [Serialization.x_read].
  - destruct v; try done. cbn [has_ty] in Hty.
    apply (reads_map (read_bytes true n) VPod). by apply reads_bytes_n.
  - destruct v; try done. by apply (reads_map (readString true) VString), reads_string.
  - destruct v as [| |e' b| | | | | |]; try done. destruct Hty as (-> & He & Hb & Hlt).
    cbn [enc read_builtin]. unfold view_size in *.
    apply reads_view; [|done|done|].
    + split; [apply Z.div_pos; [apply zlength_nonneg|done]|].
      pose proof (zlength_nonneg b). apply Z.div_lt_upper_bound; nia.
    + intros d r Hf. unfold view_bytes. cbn [fst snd]. rewrite <- Hb.
      by rewrite (feeds_read_after _ _ _ Hf).
  - destruct v as [| | |vs| | | | |]; try done. cbn [enc]. fold (enc_all vs).
    apply (reads_map _ VRec). apply (reads_batch max_elems x_read false).
    cbn [plain] in Hp. apply andb_true_iff in Hp as [Hp%forallb_Forall Hs%forallb_Forall].
    eapply fields_Forall2; [|exact Hty]. rewrite Forall_forall in IH, Hp, Hs.
    apply Forall_forall. intros t Hin v Hv. split_and!; auto.
  - destruct v as [| | | |o| | | |]; try done. destruct o as [v|]; cbn [enc].
    + apply (reads_bind (read_bool true) _ [1] _ true); [exact (reads_bool true)|].
      apply (reads_map _ (λ v, VOpt (Some v))). by apply IH.
    + change [0] with ([0] ++ []). eapply (reads_bind (read_bool true) _ _ _ false); [exact (reads_bool false)|].
      apply reads_ret.
  - destruct v as [| | | | |i v| | |]; try done. destruct Hty as [Hi Hgo]. cbn [enc].
    eapply reads_bind; [by apply reads_size_t|]. apply reads_variant.
    cbn [plain] in Hp. apply forallb_Forall in Hp.
    eapply alternative_impl; [|exact Hgo]. rewrite Forall_forall in IH, Hp.
    apply Forall_forall. auto.
  - destruct v as [| | | | | |vs| |]; try done. destruct Hty as (Hty & Hlen & Hlt).
    cbn [plain] in Hp. apply andb_true_iff in Hp as [Hp Hview]. apply andb_true_iff in Hp as [Hp Hs].
    destruct (trivially_copyable t && negb (has_serialize t)) eqn:Hfast.
    + apply andb_true_iff in Hfast as [Hf Hm]. destruct t; try done;
        try (unfold scalar_or_slow in Hs; rewrite Hf in Hs; cbn in Hs; done).
      * apply reads_vector_trivial; [done|done|lia|done].
      * by destruct k.
    + cbn [enc]. eapply reads_bind; [apply reads_size_t; pose proof (zlength_nonneg vs); lia|].
      eapply (reads_ext _ _ (λ d, let! '(l, d) := read_n (length vs) (x_read t) d in Ok (VVec l, d))).
      { intros d. unfold resize. destruct (Z.ltb_spec max_elems (zlength vs)); [lia|].
        by rewrite to_nat_zlength. }
      apply (reads_map _ VVec), reads_n. eapply Forall_impl; [exact Hty|]. auto.
  - destruct v as [| | | | | | |kvs|]; try done. destruct Hty as (Hty & Hlen & Hnd).
    cbn [plain] in Hp. apply andb_true_iff in Hp as [Hp Hs2]. apply andb_true_iff in Hp as [Hp Hs1].
    apply andb_true_iff in Hp as [Hp1 Hp2]. cbn [enc].
    eapply reads_bind; [apply reads_size_t; pose proof (zlength_nonneg kvs); lia|].
    rewrite to_nat_zlength. apply (reads_map_loop _ _ []); [|done].
    eapply Forall_impl; [exact Hty|]. intros [k' v'] [Hk Hv].
    split; (eapply reads_ext; [intros d; by apply read_T_slow|]); auto.
Qed.
End roundtrip.

(** ** Arbitrary input *)

(** A reader within its buffer. *)
Definition d_ok (d : Deserializer) : Prop :=
  0 ≤ offset d ≤ d_length d ∧ d_length d = zlength (base d) ∧ d_length d < 2 ^ 64 ∧
  Forall (λ x, 0 ≤ x < 256) (base d).

(** Nothing was read outside the buffer: there is a result and a position inside
    it, or an exception. *)
Definition safe {A} (d : Deserializer) (o : outcome (A * Deserializer)) : Prop :=
  match o with
  | Ok (_, d') => d_ok d' ∧ base d' = base d ∧ offset d ≤ offset d'
  | Throw _ => True
  | _ => False
  end.

Definition safe_reader {A} (rd : reader A) : Prop := ∀ d, d_ok d → safe d (rd d).

Lemma safe_ret {A} (a : A) : safe_reader (λ d, Ok (a, d)).
Proof. intros d Hd. split_and!; [done|done|lia]. Qed.

Lemma safe_bind {A B} d (o : outcome (A * Deserializer)) (k : A → reader B) :
  safe d o → (∀ a d', d_ok d' → base d' = base d → offset d ≤ offset d' → safe d' (k a d')) →
  safe d (let! '(x, d) := o in k x d).
Proof.
  intros Ho Hk. destruct o as [[a d']|e| | |]; try done. destruct Ho as (Hd & Hb & Hle).
  cbn [obind]. specialize (Hk a d' Hd Hb Hle). unfold safe in *.
  destruct (k a d') as [[b d'']|e| | |]; try done. destruct Hk as (? & ? & ?).
  split_and!; [done|congruence|lia].
Qed.

Lemma d_ok_remaining d : d_ok d → remaining d = d_length d - offset d.
Proof. intros (? & ? & ? & _). unfold remaining. apply u64_small. lia. Qed.

Lemma d_ok_consume d n : d_ok d → 0 ≤ n ≤ remaining d →
  d_ok (consume d n) ∧ offset (consume d n) = offset d + n.
Proof.
  intros Hd Hn. rewrite (d_ok_remaining d Hd) in Hn. destruct Hd as (? & ? & ? & ?).
  unfold d_ok, consume. cbn [offset d_length base]. rewrite u64_small by lia.
  split_and!; [lia..|done|done].
Qed.

Lemma d_ok_read d n : d_ok d → 0 ≤ n ≤ remaining d →
  ∃ b, mem_read (base d) (offset d) n = Ok b ∧ zlength b = n ∧ Forall (λ x, 0 ≤ x < 256) b.
Proof.
  intros Hd Hn. rewrite (d_ok_remaining d Hd) in Hn. destruct Hd as (? & ? & ? & ?).
  unfold mem_read. rewrite bool_decide_true by lia. eexists. split; [done|]. split.
  - unfold zlength in *. rewrite length_take, length_drop. lia.
  - by apply Forall_take, Forall_drop.
Qed.

Lemma safe_take {A} d n (f : list Z → A) :
  d_ok d → 0 ≤ n ≤ remaining d →
  safe d (let! b := mem_read (base d) (offset d) n in Ok (f b, consume d n)).
Proof.
  intros Hd Hn. destruct (d_ok_read d n Hd Hn) as (b & -> & _). cbn [obind].
  destruct (d_ok_consume d n Hd Hn) as [Hd' Ho]. split_and!; [done|done|lia].
Qed.

Lemma safe_bytes n : 0 ≤ n → safe_reader (read_bytes true n).
Proof.
  intros Hn d Hd. unfold read_bytes. cbn [andb].
  destruct (Z.ltb_spec (remaining d) n); [done|]. by apply (safe_take d n (λ b, b)).
Qed.

(** The value of a length field. *)
Lemma safe_size_t d : d_ok d →
  match read_size_t true d with
  | Ok (n, d') => d_ok d' ∧ base d' = base d ∧ offset d ≤ offset d' ∧ 0 ≤ n < 2 ^ 64
  | Throw _ => True
  | _ => False
  end.
Proof.
  intros Hd. unfold read_size_t, read_bytes. cbn [andb].
  destruct (Z.ltb_spec (remaining d) 8); [done|].
  destruct (d_ok_read d 8 Hd) as (b & -> & Hl & Hb); [lia|]. cbn [obind].
  destruct (d_ok_consume d 8 Hd) as [Hd' Ho]; [lia|].
  apply le_value_range in Hb. rewrite Hl in Hb. split_and!; [done|done|lia|lia|].
  change (256 ^ 8) with (2 ^ 64) in Hb. lia.
Qed.

Lemma safe_size_bind {B} d (k : Z → reader B) :
  d_ok d →
  (∀ n d', d_ok d' → base d' = base d → 0 ≤ n < 2 ^ 64 → safe d' (k n d')) →
  safe d (let! '(n, d) := read_size_t true d in k n d).
Proof.
  intros Hd Hk. pose proof (safe_size_t d Hd) as Hs.
  destruct (read_size_t true d) as [[n d']|e| | |]; try done. cbn [obind].
  destruct Hs as (Hd' & Hb & Hle & Hn). specialize (Hk n d' Hd' Hb Hn). unfold safe in *.
  destruct (k n d') as [[b d'']|e| | |]; try done. destruct Hk as (? & ? & ?).
  split_and!; [done|congruence|lia].
Qed.

Lemma safe_string : safe_reader (readString true).
Proof.
  intros d Hd. apply safe_size_bind; [done|]. intros n d' Hd' _ Hn. cbn [andb].
  destruct (Z.ltb_spec (remaining d') n); [done|]. apply (safe_take d' n (λ b, b)); [done|lia].
Qed.

(** The length check of a view is exact when the number of bytes does not wrap. *)
Lemma safe_view1 : safe_reader (read_builtin true (TView 1)).
Proof.
  intros d Hd. unfold read_builtin. rewrite readStringView_bind.
  apply safe_size_bind; [done|]. intros n d' Hd' _ Hn. rewrite Z.mul_1_l, u64_small by lia.
  destruct (Z.ltb_spec (remaining d') n); [done|]. unfold view_bytes. cbn [fst snd].
  rewrite Z.mul_1_l. apply (safe_take d' n (VView 1)); [done|lia].
Qed.

Lemma safe_vector_trivial max_elems t :
  0 ≤ sizeof t → sizeof t * max_elems < 2 ^ 64 →
  safe_reader (read_vector_trivial true max_elems t).
Proof.
  intros Hs Hmax d Hd. unfold read_vector_trivial. rewrite readStringView_bind.
  apply safe_size_bind; [done|]. intros n d' Hd' _ Hn.
  destruct (Z.ltb_spec (remaining d') (u64 (sizeof t * n))); [done|]. unfold resize. cbn [fst snd].
  destruct (Z.ltb_spec max_elems n); [done|]. cbn [obind].
  assert (0 ≤ sizeof t * n < 2 ^ 64) by nia. rewrite u64_small in * by lia.
  apply (safe_take d' (sizeof t * n)
    (λ b, VVec (of_object t <$> chunks (Z.to_nat n) (sizeof t) b))); [done|lia].
Qed.

Section safety.
Context (max_elems : Z).
Local Abbreviation x_read := (x_read true max_elems).

(** Sizes make sense, a container refuses lengths whose byte count would wrap,
    and views are of bytes. *)
Fixpoint safe_ty (t : ty) : bool :=
  match t with
  | TPod n a => (0 <=? n) && (0 <? a)
  | TString => true
  | TView e => e =? 1
  | TRec _ ts | TVariant ts => forallb safe_ty ts
  | TOpt t => safe_ty t
  | TVec t => safe_ty t && (sizeof t * max_elems <? 2 ^ 64)
  | TMap k v => safe_ty k && safe_ty v
  end.

Lemma round_up_nonneg x a : 0 ≤ x → 0 < a → 0 ≤ round_up x a.
Proof. intros. unfold round_up. apply Z.mul_nonneg_nonneg; [apply Z.div_pos; lia|lia]. Qed.

Lemma layout_nonneg ts :
  Forall (λ t, 0 ≤ sizeof t ∧ 0 < alignof t) ts →
  0 < foldr Z.max 1 (map alignof ts) ∧ 0 ≤ foldr Z.max 0 (map sizeof ts) ∧
  ∀ o, 0 ≤ o → 0 ≤ foldl (λ o p, round_up o (snd p) + fst p) o (map (λ t, (sizeof t, alignof t)) ts).
Proof.
  induction 1 as [|t ts [Ht Ha] _ (IH1 & IH2 & IH3)]; [done|]. cbn [map foldr foldl fst snd].
  split_and!; [lia|lia|]. intros o Ho. apply IH3. pose proof (round_up_nonneg o (alignof t)). lia.
Qed.

Lemma sizeof_nonneg t : safe_ty t = true → 0 ≤ sizeof t ∧ 0 < alignof t.
Proof.
  induction t as [n a| |e|k ts IH|t IH|ts IH|t IH|k v _ _] using ty_induction;
    intros Hs; cbn [sizeof alignof safe_ty] in *; try lia.
  - apply forallb_Forall in Hs. rewrite Forall_forall in IH, Hs.
    destruct (layout_nonneg ts) as (? & _ & Hf); [apply Forall_forall; auto|].
    split; [|done]. apply round_up_nonneg; [by apply Hf|done].
  - destruct (IH Hs). split; [apply round_up_nonneg; lia|done].
  - apply forallb_Forall in Hs. rewrite Forall_forall in IH, Hs.
    destruct (layout_nonneg ts) as (? & ? & _); [apply Forall_forall; auto|].
    split; [apply round_up_nonneg; lia|done].
Qed.

Lemma safe_read_n {A} n (r : reader A) : safe_reader r → safe_reader (read_n n r).
Proof.
  intros Hr. induction n as [|n IH]; cbn [read_n]; [apply safe_ret|].
  intros d Hd. apply safe_bind; [by apply Hr|]. intros a d' Hd' _ _.
  apply safe_bind; [by apply IH|]. intros. by apply safe_ret.
Qed.

Lemma safe_read_map n rk rv kvs :
  safe_reader rk → safe_reader rv → safe_reader (read_map n rk rv kvs).
Proof.
  intros Hk Hv. revert kvs. induction n as [|n IH]; intros kvs; cbn [read_map]; [apply safe_ret|].
  intros d Hd. apply safe_bind; [by apply Hk|]. intros a d' Hd' _ _.
  apply safe_bind; [by apply Hv|]. intros. by apply IH.
Qed.

Lemma safe_read_variant (r : ty → reader val) i index ts v :
  Forall (λ t, safe_reader (r t)) ts → safe_reader (read_variant r i index ts v).
Proof.
  intros Hall. revert i v. induction Hall as [|t ts Ht _ IH]; intros i v; [apply safe_ret|].
  intros d Hd. cbn [read_variant]. apply (safe_bind d _ (λ v d, read_variant r (i + 1) index ts v d)).
  - destruct (index =? i); [|by apply safe_ret]. apply safe_bind; [by apply Ht|].
    intros. by apply safe_ret.
  - intros. by apply IH.
Qed.

Lemma safe_builtin t : safe_ty t = true → safe_reader (read_builtin true t).
Proof.
  intros Hs. pose proof (sizeof_nonneg t Hs) as [Hn _].
  assert (safe_reader (λ d, let! '(b, d) := read_bytes true (sizeof t) d in Ok (of_object t b, d))) as Hb.
  { intros d Hd. apply safe_bind; [by apply safe_bytes|]. intros. by apply safe_ret. }
  destruct t; try exact Hb.
  - intros d Hd. apply safe_bind; [by apply safe_string|]. intros. by apply safe_ret.
  - cbn [safe_ty] in Hs. apply Z.eqb_eq in Hs as ->. apply safe_view1.
Qed.

(** The single check in front of a run covers its copies. *)
Lemma safe_batch r run ts d :
  Forall (λ t, safe_ty t = true ∧ safe_reader (r t)) ts → d_ok d →
  (run = true → trivialBytes ts ≤ remaining d) → safe d (read_batch true r run ts d).
Proof.
  intros Hall. revert run d. induction Hall as [|t ts [Ht Hr] Hall IH]; intros run d Hd Hrun;
    [by apply safe_ret|].
  pose proof (sizeof_nonneg t Ht) as [Hsz _].
  assert (0 ≤ trivialBytes ts) as Htb.
  { clear -Hall. induction Hall as [|t ts [Ht _] _ IH]; [done|]. cbn [trivialBytes].
    pose proof (sizeof_nonneg t Ht). destruct (copy_trivially t); lia. }
  assert (∀ run v d', d_ok d' → (run = true → trivialBytes ts ≤ remaining d') →
    safe d' (let! '(vs, d) := read_batch true r run ts d' in Ok (v :: vs, d))) as Hk.
  { intros run' v d' Hd' Hrun'. apply safe_bind; [by apply IH|]. intros. by apply safe_ret. }
  assert (copy_trivially t = true → trivialBytes (t :: ts) ≤ remaining d →
    safe d (let! '(v, d) := trivial_copy t d in
            let! '(vs, d) := read_batch true r true ts d in Ok (v :: vs, d))) as Htriv.
  { intros Hc Hrem. cbn [trivialBytes] in Hrem. rewrite Hc in Hrem. unfold trivial_copy.
    destruct (d_ok_read d (sizeof t) Hd) as (b & -> & _); [lia|]. cbn [obind].
    destruct (d_ok_consume d (sizeof t) Hd) as [Hd' Ho]; [lia|].
    assert (trivialBytes ts ≤ remaining (consume d (sizeof t))) as Hrem'.
    { rewrite (d_ok_remaining _ Hd'), Ho. rewrite (d_ok_remaining _ Hd) in Hrem.
      cbn [consume d_length]. lia. }
    specialize (Hk true (of_object t b) _ Hd' (λ _, Hrem')). unfold safe in *.
    destruct (read_batch true r true ts (consume d (sizeof t))) as [[vs d'']|e| | |]; try done.
    cbn [obind] in *. destruct Hk as (? & ? & ?). split_and!; [done|done|lia]. }
  assert (safe d (let! '(v, d) := r t d in
            let! '(vs, d) := read_batch true r false ts d in Ok (v :: vs, d))) as Hone.
  { apply safe_bind; [by apply Hr|]. intros. by apply Hk. }
  cbn [read_batch]. destruct (copy_trivially t) eqn:Hc; [destruct run; cbn [andb]|].
  - by apply Htriv, Hrun.
  - destruct ts as [|t' ts]; [done|]. destruct (Z.ltb_spec (remaining d) (trivialBytes (t :: t' :: ts)));
      [done|]. by apply Htriv.
  - rewrite andb_false_r. by destruct ts.
Qed.

Lemma x_read_safe t : safe_ty t = true → safe_reader (x_read t).
Proof.
  induction t as [n a| |e|k ts IH|t IH|ts IH|t IH|k v IHk IHv] using ty_induction;
    intros Hs d Hd; cbn [Serialization.x_read].
  - by apply safe_builtin.
  - by apply safe_builtin.
  - by apply safe_builtin.
  - cbn [safe_ty] in Hs. apply forallb_Forall in Hs. rewrite Forall_forall in IH, Hs.
    apply safe_bind; [|intros; by apply safe_ret]. apply safe_batch; [|done|done].
    apply Forall_forall. auto.
  - apply safe_bind; [|intros b d' Hd' _ _; destruct b; [|by apply safe_ret]].
    + apply safe_bind; [by apply safe_bytes|]. intros. by apply safe_ret.
    + apply safe_bind; [by apply IH|]. intros. by apply safe_ret.
  - apply safe_size_bind; [done|]. intros n d' Hd' _ _. apply safe_read_variant; [|done].
    cbn [safe_ty] in Hs. apply forallb_Forall in Hs. rewrite Forall_forall in IH, Hs.
    apply Forall_forall. auto.
  - cbn [safe_ty] in Hs. apply andb_true_iff in Hs as [Hs Hmax].
    destruct (_ && _); [apply safe_vector_trivial; [by apply sizeof_nonneg|lia|done]|].
    apply safe_size_bind; [done|]. intros n d' Hd' _ _. unfold resize.
    destruct (max_elems <? n); [done|]. cbn [obind].
    apply safe_bind; [by apply safe_read_n; [apply IH|]|]. intros. by apply safe_ret.
  - cbn [safe_ty] in Hs. apply andb_true_iff in Hs as [Hs1 Hs2].
    apply safe_size_bind; [done|]. intros n d' Hd' _ _.
    apply safe_read_map; [..|done]; unfold read_T; repeat case_match; eauto using safe_builtin.
Qed.
End safety.

Lemma serializeTo_enc fill vs :
  zlength (enc_all vs) < 2 ^ 64 → serializeTo fill vs = Ok (enc_all vs).
Proof.
  intros Hlt. unfold serializeTo. rewrite (serialized_size_spec vs Hlt). cbn [obind].
  assert (zlength (replicate (Z.to_nat (zlength (enc_all vs))) fill) = zlength (enc_all vs)) as Hl
    by (unfold zlength; rewrite length_replicate; lia).
  rewrite x_vals_overwrite by lia. cbn [obind w_mem]. f_equal.
  rewrite drop_ge, app_nil_r; [done|]. rewrite length_replicate, to_nat_zlength. lia.
Qed.

(** Several values at once, read back from what was written. *)
Lemma x_reads_enc max_elems ts vs :
  plain (TRec KTuple ts) = true → has_ty max_elems (TRec KTuple ts) (VRec vs) → max_elems < 2 ^ 64 →
  reads (x_reads true max_elems ts) (enc_all vs) vs.
Proof.
  intros Hp Hty Hmax d b Hf Hm. destruct (x_read_reads max_elems _ _ Hp Hty Hmax d b Hf Hm) as [Hok Hcut].
  cbn [Serialization.x_read enc] in Hok, Hcut. unfold x_reads.
  destruct (read_batch _ _ _ _ d) as [[l d']|e| | |] eqn:Hb; cbn [obind] in *; split;
    try (intros r Hr; destruct (Hok r Hr) as (d'' & Heq & Hf'')); try intros Hc; try specialize (Hcut Hc);
    simplify_eq; eauto.
Qed.

Lemma deserializeBufferPart_enc max_elems ts vs more :
  plain (TRec KTuple ts) = true → has_ty max_elems (TRec KTuple ts) (VRec vs) → max_elems < 2 ^ 64 →
  zlength (enc_all vs ++ more) < 2 ^ 64 → deserializeBufferPart max_elems (enc_all vs ++ more) ts = Ok (vs, more).
Proof.
  intros Hp Hty Hmax Hl. destruct (x_reads_enc max_elems ts vs Hp Hty Hmax _ _ (feeds_init _ Hl) (zlength_nonneg _)) as [Hok _].
  unfold deserializeBufferPart. destruct (Hok _ eq_refl) as (d' & -> & Hf). cbn [obind]. rewrite (feeds_remaining _ _ Hf).
  rewrite <- (app_nil_r more) in Hf. by rewrite (feeds_read _ _ _ Hf).
Qed.

Lemma deserializeBufferPart_cut max_elems ts vs buf :
  plain (TRec KTuple ts) = true → has_ty max_elems (TRec KTuple ts) (VRec vs) → max_elems < 2 ^ 64 →
  zlength (enc_all vs) < 2 ^ 64 → cut buf (enc_all vs) → deserializeBufferPart max_elems buf ts = Throw SerializationError.
Proof.
  intros Hp Hty Hmax Hl Hc. pose proof (cut_length _ _ Hc).
  destruct (x_reads_enc max_elems ts vs Hp Hty Hmax _ _ (feeds_init buf ltac:(lia)) (zlength_nonneg _)) as [_ Hcut].
  unfold deserializeBufferPart. by rewrite Hcut.
Qed.

(** ** The theorems *)

(** C27: [serializeTo] and [serializeToBuffer]: the measuring pass gives exactly
    the number of bytes the writing pass stores, so the second pass fills the
    buffer it was given, never writes outside it, and the result is the encoding
    of the values in order. *)
Theorem serializeTo_exact fill vs :
  zlength (enc_all vs) < 2 ^ 64 → serializeTo fill vs = Ok (enc_all vs).
Proof.
  apply serializeTo_enc.
Qed.

(** C28: the one-pass archive, which starts from a small buffer and grows it as
    values arrive, produces the same bytes as the two-pass one for any allocator
    that honours [AllocSize]. *)
Theorem one_shot_agrees sizeofBuffer internalAllocSize fill vs :
  AllocSize sizeofBuffer internalAllocSize → zlength (enc_all vs) ≤ 2 ^ 60 →
  serializeToBufferOneShot sizeofBuffer internalAllocSize fill vs = Ok (enc_all vs).
Proof.
  intros HA Hlt. unfold serializeToBufferOneShot. pose proof (sizeofBuffer_range (AllocSize := HA)).
  pose proof (zlength_nonneg (enc_all vs)).
  assert (zlength (makeBuffer fill (0x80 - sizeofBuffer)) = 0x80 - sizeofBuffer) as Hl
    by (unfold zlength, makeBuffer; rewrite length_replicate; lia).
  destruct (x_vals_writes _ _ (ArchiveSpec0 := twrite_spec sizeofBuffer internalAllocSize fill _ Hlt) vs
    (mkExpandable (makeBuffer fill (0x80 - sizeofBuffer)) 0) []) as (x & -> & Hs & (rest & Hb) & _).
  - split_and!; cbn [x_size x_buffer]; [done|by eexists|lia].
  - change (zlength []) with 0. lia.
  - cbn [obind app] in *. rewrite Hs, Hb. apply mem_read_prefix.
Qed.

(** [serializeToStringView] refuses a buffer that is too small and otherwise
    overwrites exactly the encoding at its start. *)
Theorem serializeToStringView_spec buffer vs :
  zlength (enc_all vs) < 2 ^ 64 →
  serializeToStringView buffer vs =
    if zlength buffer <? zlength (enc_all vs) then Throw SerializationError
    else Ok (enc_all vs ++ drop (length (enc_all vs)) buffer).
Proof.
  intros Hlt. unfold serializeToStringView. rewrite (serialized_size_spec vs Hlt). cbn [obind].
  destruct (Z.ltb_spec (zlength buffer) (zlength (enc_all vs))); [done|].
  by rewrite x_vals_overwrite by lia.
Qed.

(** C23: round trip.  Values written by [serializeTo] are read back by
    [deserializeBuffer]; with bytes missing at the end, or with bytes added, it
    throws [SerializationError] instead of returning anything. *)
Theorem deserializeBuffer_roundtrip max_elems ts vs fill :
  plain (TRec KTuple ts) = true → has_ty max_elems (TRec KTuple ts) (VRec vs) →
  max_elems < 2 ^ 64 → zlength (enc_all vs) < 2 ^ 64 →
  ∃ buf, serializeTo fill vs = Ok buf ∧
    deserializeBuffer max_elems buf ts = Ok vs ∧
    (∀ buf', cut buf' buf → deserializeBuffer max_elems buf' ts = Throw SerializationError) ∧
    (∀ x more, zlength (buf ++ x :: more) < 2 ^ 64 →
       deserializeBuffer max_elems (buf ++ x :: more) ts = Throw SerializationError ∧
       deserializeBufferPart max_elems (buf ++ x :: more) ts = Ok (vs, x :: more)).
Proof.
  intros Hp Hty Hmax Hlt.
  pose proof (x_reads_enc max_elems ts vs Hp Hty Hmax) as Hr.
  exists (enc_all vs).
  split; [by apply serializeTo_enc|]. unfold deserializeBuffer, deserializeBufferPart. split_and!.
  - destruct (Hr _ _ (feeds_init (enc_all vs) Hlt) (zlength_nonneg _)) as [Hok _].
    destruct (Hok []) as (d' & -> & Hf); [by rewrite app_nil_r|]. cbn [obind].
    by rewrite (feeds_remaining _ _ Hf).
  - intros buf' Hc. assert (zlength buf' < 2 ^ 64) as Hl by (apply cut_length in Hc; lia).
    destruct (Hr _ _ (feeds_init buf' Hl) (zlength_nonneg _)) as [_ Hcut].
    by rewrite Hcut.
  - intros x more Hl. destruct (Hr _ _ (feeds_init _ Hl) (zlength_nonneg _)) as [Hok _].
    destruct (Hok _ eq_refl) as (d' & -> & Hf). cbn [obind]. rewrite (feeds_remaining _ _ Hf). split.
    + rewrite zlength_cons. pose proof (zlength_nonneg more).
      destruct (Z.eqb_spec (1 + zlength more) 0); [lia|done].
    + rewrite <- (app_nil_r (x :: more)) in Hf. by rewrite (feeds_read _ _ _ Hf).
Qed.

(** Hostile input.  Whatever bytes arrive, the checked reader stays inside
    the buffer: it returns or throws, for every type whose views are of bytes
    and whose containers refuse lengths that would wrap. *)
Theorem x_read_in_bounds max_elems t buf :
  safe_ty max_elems t = true → Forall (λ x, 0 ≤ x < 256) buf → zlength buf < 2 ^ 64 →
  match x_read true max_elems t (Deserializer_init buf) with
  | Ok (_, d) => 0 ≤ offset d ≤ zlength buf
  | Throw _ => True
  | Abort | Undef | NoFuel => False
  end.
Proof.
  intros Hs Hb Hlt. pose proof (zlength_nonneg buf).
  assert (d_ok (Deserializer_init buf)) as Hd by (by split_and!).
  pose proof (x_read_safe max_elems t Hs (Deserializer_init buf) Hd) as Hsafe. unfold safe in Hsafe.
  destruct (x_read true max_elems t _) as [[v d]|e| | |]; try done.
  destruct Hsafe as ((Ho & Hl & _) & Hbase & _). cbn [base Deserializer_init] in Hbase.
  rewrite Hbase in Hl. lia.
Qed.



(** ** A concrete message *)

Definition ex_ts : list ty :=
  [TPod 4 4; TPod 8 8; TString; TVec (TPod 4 4); TMap TString (TPod 8 8); TOpt TString].

Definition ex_vs : list val :=
  [VPod [1; 0; 0; 0]; VPod (size_t 77); VString [104; 105];
   VVec [VPod [1; 2; 3; 4]; VPod [5; 6; 7; 8]];
   VMap [(VString [97], VPod (size_t 1)); (VString [98], VPod (size_t 2))];
   VOpt (Some (VString [120]))].

Lemma ex_has_ty : has_ty (2 ^ 32) (TRec KTuple ex_ts) (VRec ex_vs).
Proof.
  cbn [has_ty fields ex_ts ex_vs]. split_and!;
    lazymatch goal with
    | |- Forall _ _ => repeat constructor
    | |- NoDup _ => apply NoDup_cons_2; [|apply NoDup_singleton]
    | |- _ => by vm_compute
    end.
  intros Hin. by apply list_elem_of_singleton in Hin.
Qed.

Lemma ex_size : zlength (enc_all ex_vs) < 2 ^ 60.
Proof. vm_compute. reflexivity. Qed.

Lemma serializeTo_exact_witness : serializeTo 0 ex_vs = Ok (enc_all ex_vs).
Proof. apply (serializeTo_exact 0 ex_vs). pose proof ex_size. lia. Defined.

(** An allocator that hands out exactly what is asked for. *)
Lemma exact_alloc_size : AllocSize 32 (λ n, n).
Proof. split; lia. Qed.

Lemma one_shot_agrees_witness :
  serializeToBufferOneShot 32 (λ n, n) 0 ex_vs = Ok (enc_all ex_vs).
Proof. apply (one_shot_agrees 32 (λ n, n) 0 ex_vs exact_alloc_size). pose proof ex_size. lia. Defined.

Lemma serializeToStringView_spec_witness :
  serializeToStringView [] ex_vs = Throw SerializationError.
Proof.
  rewrite (serializeToStringView_spec [] ex_vs); [reflexivity|]. pose proof ex_size. lia.
Defined.

Lemma deserializeBuffer_roundtrip_witness :
  ∃ buf, serializeTo 0 ex_vs = Ok buf ∧ deserializeBuffer (2 ^ 32) buf ex_ts = Ok ex_vs.
Proof.
  destruct (deserializeBuffer_roundtrip (2 ^ 32) ex_ts ex_vs 0) as (buf & Hs & Hd & _).
  - reflexivity.
  - exact ex_has_ty.
  - lia.
  - pose proof ex_size. lia.
  - eauto.
Defined.

Lemma x_read_in_bounds_witness :
  match x_read true (2 ^ 32) (TVec (TPod 4 4)) (Deserializer_init (size_t (2 ^ 62))) with
  | Ok (_, d) => 0 ≤ offset d ≤ 8
  | Throw _ => True
  | Abort | Undef | NoFuel => False
  end.
Proof.
  apply (x_read_in_bounds (2 ^ 32) (TVec (TPod 4 4)) (size_t (2 ^ 62))).
  - reflexivity.
  - vm_compute. repeat constructor; discriminate.
  - reflexivity.
Defined.
