(* ===== verification/SerializationTyping.v ===== *)
(** * Types of what is read

    Whatever bytes arrive, a value that the checked reader returns is a value of
    the type that was asked for. *)

From Stdlib Require Import ZArith Lia.
From stdpp Require Import base option list.
From S2P Require Import Prelude Serialization SerializationFacts.

Definition byte (x : Z) : Prop := 0 ≤ x < 256.

Section typing.
Context (max_elems : Z).

(** [v] is an object of type [t]: the fields and the alternative that the type
    has, containers within their bound, and no key twice. *)
Fixpoint well_typed (t : ty) (v : val) : Prop :=
  match t, v with
  | TPod n _, VPod b => zlength b = n ∧ Forall byte b
  | TString, VString b => zlength b < 2 ^ 64 ∧ Forall byte b
  | TView e, VView e' b => e = e' ∧ zlength b = e * view_size e b ∧ Forall byte b
  | TRec _ ts, VRec vs => fields well_typed ts vs
  | TOpt t, VOpt o => match o with Some v => well_typed t v | None => True end
  | TVariant ts, VVariant i v => alternative (λ t, well_typed t v) i 0 ts
  | TVec t, VVec vs => Forall (well_typed t) vs ∧ zlength vs ≤ max_elems
  | TMap k v, VMap kvs => Forall (λ kv, well_typed k kv.1 ∧ well_typed v kv.2) kvs ∧ NoDup kvs.*1
  | _, _ => False
  end.
End typing.

(** Every variant has an alternative. *)
Fixpoint inhabited (t : ty) : bool :=
  match t with
  | TPod _ _ | TString | TView _ => true
  | TRec _ ts => forallb inhabited ts
  | TVariant ts => negb (bool_decide (ts = [])) && forallb inhabited ts
  | TOpt t | TVec t => inhabited t
  | TMap k v => inhabited k && inhabited v
  end.

(** ** Readers *)

Definition buf_ok (d : Deserializer) : Prop := zlength (base d) < 2 ^ 64 ∧ Forall byte (base d).

(** What [rd] returns satisfies [P], and it throws only when the input ends too early or is too large. *)
Definition yields {A} (rd : reader A) (P : A → Prop) : Prop :=
  ∀ d, buf_ok d →
    match rd d with
    | Ok (a, d') => base d' = base d ∧ P a
    | Throw e => e = SerializationError ∨ e = BadAlloc
    | _ => True
    end.

Lemma yields_ret {A} (a : A) (P : A → Prop) : P a → yields (λ d, Ok (a, d)) P.
Proof. by intros Ha d _. Qed.

Lemma yields_bind {A B} (rd : reader A) (k : A → reader B) (P : A → Prop) (Q : B → Prop) :
  yields rd P → (∀ a, P a → yields (k a) Q) → yields (λ d, let! '(a, d) := rd d in k a d) Q.
Proof.
  intros Hr Hk d Hd. specialize (Hr d Hd). destruct (rd d) as [[a d1]| | | |]; try done. cbn [obind]. destruct Hr as [Hb Ha].
  unfold buf_ok in Hd. rewrite <- Hb in Hd. specialize (Hk a Ha d1 Hd). destruct (k a d1) as [[b d']| | | |]; try done. by rewrite <- Hb.
Qed.

Lemma yields_ext {A} (rd rd' : reader A) (P : A → Prop) : (∀ d, rd d = rd' d) → yields rd' P → yields rd P.
Proof. intros E Hr d Hd. rewrite E. by apply Hr. Qed.

Lemma yields_weaken {A} (rd : reader A) (P Q : A → Prop) : yields rd P → (∀ a, P a → Q a) → yields rd Q.
Proof. intros Hr H d Hd. specialize (Hr d Hd). destruct (rd d) as [[a d']| | | |]; try done. destruct Hr. auto. Qed.

Lemma yields_guard {A} (g : Deserializer → bool) e (rd : reader A) (P : A → Prop) :
  e = SerializationError ∨ e = BadAlloc → yields rd P → yields (λ d, if g d then Throw e else rd d) P.
Proof. intros He Hr d Hd. destruct (g d); [done|by apply Hr]. Qed.

Lemma mem_read_typed mem off len b : mem_read mem off len = Ok b → Forall byte mem → zlength b = len ∧ 0 ≤ len ≤ zlength mem ∧ Forall byte b.
Proof.
  unfold mem_read. case_bool_decide as H; [|done]. intros [= <-] Hm. destruct H as (? & ? & ?). split_and!; [|lia|lia|by apply Forall_take, Forall_drop].
  unfold zlength in *. rewrite length_take, length_drop. lia.
Qed.

(** Bytes that are copied out of the buffer. *)
Lemma yields_copy {A} off len (f : list Z → A) (g : Deserializer → Deserializer) (P : A → Prop) :
  (∀ d, base (g d) = base d) → (∀ b, zlength b = len → len < 2 ^ 64 → Forall byte b → P (f b)) →
  yields (λ d, let! b := mem_read (base d) (off d) len in Ok (f b, g d)) P.
Proof.
  intros Hg HP d [Hl Hb]. destruct (mem_read _ _ _) as [b|e| | |] eqn:Em; try done; [|unfold mem_read in Em; by case_bool_decide].
  destruct (mem_read_typed _ _ _ _ Em Hb) as (? & ? & ?). cbn [obind]. split; [done|]. apply HP; [done|lia|done].
Qed.

Lemma yields_bytes n : yields (read_bytes true n) (λ b, zlength b = n ∧ n < 2 ^ 64 ∧ Forall byte b).
Proof. apply yields_guard; [by left|]. by apply (yields_copy offset n (λ b, b) (λ d, consume d n)). Qed.

Lemma yields_size_t : yields (read_size_t true) (λ n, 0 ≤ n < 2 ^ 64).
Proof.
  unfold read_size_t. eapply yields_bind; [apply yields_bytes|]. intros b (Hl & _ & Hb). apply yields_ret.
  pose proof (le_value_range b Hb) as H. rewrite Hl in H. exact H.
Qed.

Lemma yields_string : yields (readString true) (λ b, zlength b < 2 ^ 64 ∧ Forall byte b).
Proof.
  unfold readString. eapply yields_bind; [apply yields_size_t|]. intros len _. apply yields_guard; [by left|].
  apply (yields_copy offset len (λ b, b) (λ d, consume d len)); [done|]. intros b -> ? ?. done.
Qed.

Lemma yields_view e : yields (readStringView true e) (λ _, True).
Proof. unfold readStringView. eapply yields_bind; [apply yields_size_t|]. intros n _. apply yields_guard; [by left|]. by intros d _. Qed.

Section types.
Context (max_elems : Z).
Local Abbreviation well_typed := (well_typed max_elems).
Local Abbreviation safe_ty := (safe_ty max_elems).

Lemma yields_builtin t : scalar_or_slow t = true → has_builtin_read t = true → has_serialize t = false → safe_ty t = true →
  yields (read_builtin true t) (well_typed t).
Proof.
  intros Hs Hb Hn Hsafe. unfold read_builtin. destruct t as [| | |k ts| | | |]; try done; try (unfold scalar_or_slow in Hs; cbn [has_builtin_read] in Hb; rewrite Hb, Hn in Hs; discriminate Hs).
  - eapply yields_bind; [apply yields_bytes|]. intros b (Hl & _ & ?). by apply yields_ret.
  - eapply yields_bind; [apply yields_string|]. intros b [? ?]. by apply yields_ret.
  - cbn [SerializationFacts.safe_ty] in Hsafe. apply Z.eqb_eq in Hsafe as ->. eapply yields_bind; [apply yields_view|]. intros vw _.
    apply (yields_copy (λ _, vw.1) _ _ (λ d, d)); [done|]. intros b Hl _ ?. cbn. split_and!; [done|unfold view_size; rewrite Z.div_1_r; lia|done].
Qed.

Lemma scalar_copy t : scalar_or_slow t = true → trivially_copyable t = true → has_serialize t = false → is_string_view t = false →
  ∃ n a, t = TPod n a.
Proof.
  intros Hs Ht Hm Hv. destruct t; try done; [by eexists _, _|unfold scalar_or_slow in Hs; rewrite Ht, Hm in Hs; done..].
Qed.

Lemma chunks_typed k n b : 0 ≤ n → zlength b = n * Z.of_nat k → Forall byte b →
  Forall (λ c, zlength c = n ∧ Forall byte c) (chunks k n b) ∧ length (chunks k n b) = k.
Proof.
  intros Hn. revert b. induction k as [|k IH]; intros b Hl Hb; cbn [chunks]; [done|]. destruct (IH (drop (Z.to_nat n) b)) as [H1 H2].
  - unfold zlength in *. rewrite length_drop. nia.
  - by apply Forall_drop.
  - split; [constructor; [|done]|cbn; by rewrite H2]. assert (n ≤ zlength b) by nia. split; [unfold zlength in *; rewrite length_take; lia|by apply Forall_take].
Qed.

Lemma yields_vector n a : 0 ≤ n → n * max_elems < 2 ^ 64 → yields (read_vector_trivial true max_elems (TPod n a)) (well_typed (TVec (TPod n a))).
Proof.
  intros Hn Hmax. eapply yields_ext; [intros d; apply readStringView_bind|]. cbn [sizeof].
  eapply yields_bind; [apply yields_size_t|]. intros k [Hk Hk2]. apply yields_guard; [by left|]. unfold resize. cbn [fst snd].
  destruct (Z.ltb_spec max_elems k) as [|Hle]; [by right|]. cbn [obind]. pose proof (Z.mul_le_mono_nonneg_l k max_elems n Hn Hle).
  pose proof (Z.mul_nonneg_nonneg n k Hn Hk). rewrite u64_small by lia.
  apply (yields_copy (λ d, offset d) _ _ (λ d, consume d (n * k))); [done|]. intros b Hl _ Hb. destruct (chunks_typed (Z.to_nat k) n b) as [Hc1 Hc2]; [done|by rewrite Z2Nat.id by lia|done|].
  cbn [SerializationTyping.well_typed of_object]. split; [|unfold zlength; rewrite length_fmap, Hc2; lia].
  apply Forall_fmap. eapply Forall_impl; [exact Hc1|]. by intros c [? ?].
Qed.

Lemma yields_n {A} n (r : reader A) (P : A → Prop) : yields r P → yields (read_n n r) (λ l, Forall P l ∧ length l = n).
Proof.
  intros Hr. induction n as [|n IH]; cbn [read_n]; [by apply yields_ret|]. eapply yields_bind; [done|]. intros a Ha.
  eapply yields_bind; [exact IH|]. intros l [Hl Hn]. apply yields_ret. split; [by constructor|cbn; by rewrite Hn].
Qed.

Lemma yields_trivial_copy n a : yields (trivial_copy (TPod n a)) (well_typed (TPod n a)).
Proof. apply (yields_copy (λ d, offset d) _ _ (λ d, consume d n)); [done|]. by intros b Hl _ Hb. Qed.

Lemma yields_cons (rd : reader val) (k : reader (list val)) t ts :
  yields rd (well_typed t) → yields k (fields well_typed ts) →
  yields (λ d, let! '(v, d) := rd d in let! '(vs, d) := k d in Ok (v :: vs, d)) (fields well_typed (t :: ts)).
Proof.
  intros Hr Hk. eapply yields_bind; [exact Hr|]. intros v Hv. eapply yields_bind; [exact Hk|]. intros vs Hvs. by apply yields_ret.
Qed.

Lemma yields_batch (r : ty → reader val) ts : Forall (λ t, yields (r t) (well_typed t)) ts → Forall (λ t, scalar_or_slow t = true) ts →
  ∀ run, yields (read_batch true r run ts) (fields well_typed ts).
Proof.
  intros Hr. induction Hr as [|t ts Ht _ IH]; intros Hs run; cbn [read_batch]; [by apply yields_ret|]. apply Forall_cons in Hs as [Hst Hs]. specialize (IH Hs).
  assert (copy_trivially t = true → ∀ b, yields (λ d, let! '(v, d) := trivial_copy t d in let! '(vs, d) := read_batch true r b ts d in Ok (v :: vs, d)) (fields well_typed (t :: ts))) as Hc.
  { intros Hc b. unfold copy_trivially in Hc. rewrite !andb_true_iff, !negb_true_iff in Hc. destruct Hc as [[[H1 H2] _] H3]. destruct (scalar_copy t Hst H1 H2 H3) as (n & a & ->).
    apply yields_cons; [apply yields_trivial_copy|apply IH]. }
  destruct (run && copy_trivially t) eqn:E; [apply andb_true_iff in E as [_ E]; by apply Hc|].
  destruct ts as [|t' ts']; [by apply yields_cons|]. destruct (copy_trivially t) eqn:Ec; [|by apply yields_cons].
  apply yields_guard; [by left|]. by apply Hc.
Qed.
Lemma val_eqb_refl v : val_eqb v v = true.
Proof.
  assert (∀ l, list_eqb Z.eqb l l = true) as Hl by (induction l; [done|]; cbn; rewrite Z.eqb_refl; auto).
  assert (∀ l, Forall (λ v, val_eqb v v = true) l → list_eqb val_eqb l l = true) as Hf by (induction 1 as [|? ? E ? IH]; [done|]; cbn; by rewrite E, IH).
  induction v as [| | | | | | | |kvs IH|] using val_induction; cbn [val_eqb]; rewrite ?Z.eqb_refl; cbn [andb]; auto.
  clear - IH. induction IH as [|kv l [E1 E2] _ IHl]; [done|]. cbn [list_eqb]. by rewrite E1, E2, IHl.
Qed.

Lemma map_emplace_typed kt vt kvs k v :
  Forall (λ kv, well_typed kt kv.1 ∧ well_typed vt kv.2) kvs → NoDup kvs.*1 → well_typed kt k → well_typed vt v →
  Forall (λ kv, well_typed kt kv.1 ∧ well_typed vt kv.2) (map_emplace kvs k v) ∧ NoDup (map_emplace kvs k v).*1.
Proof.
  intros Hf Hn Hk Hv. unfold map_emplace. destruct (existsb _ kvs) eqn:E; [done|]. split; [by apply Forall_app; split; [|by constructor]|].
  rewrite fmap_app. apply NoDup_app. split_and!; [done| |by apply NoDup_singleton]. intros x Hx Hxk. apply list_elem_of_singleton in Hxk. cbn in Hxk. subst x.
  apply list_elem_of_fmap in Hx as (kv & Hkv & Hin). assert (existsb (λ kv', val_eqb kv'.1 k) kvs = true); [|congruence].
  apply existsb_exists. exists kv. split; [by apply list_elem_of_In|]. rewrite <- Hkv. apply val_eqb_refl.
Qed.

Lemma yields_map n rk rv kt vt kvs : yields rk (well_typed kt) → yields rv (well_typed vt) →
  Forall (λ kv, well_typed kt kv.1 ∧ well_typed vt kv.2) kvs → NoDup kvs.*1 → yields (read_map n rk rv kvs) (well_typed (TMap kt vt)).
Proof.
  intros Hk Hv. revert kvs. induction n as [|n IH]; intros kvs Hf Hn; cbn [read_map]; [by apply yields_ret|].
  eapply yields_bind; [exact Hk|]. intros k Hkt. eapply yields_bind; [exact Hv|]. intros v Hvt. destruct (map_emplace_typed kt vt kvs k v Hf Hn Hkt Hvt). by apply IH.
Qed.

(** The alternatives of a variant from number [i] on. *)
Lemma yields_variant (r : ty → reader val) index ts (P : val → Prop) i :
  (∀ j t, ts !! j = Some t → yields (r t) (λ w, P (VVariant (i + Z.of_nat j) w))) →
  ∀ v, P v → yields (read_variant r i index ts v) P.
Proof.
  revert i. induction ts as [|t ts IH]; intros i Hr v Hv; cbn [read_variant]; [by apply yields_ret|]. apply (yields_bind _ _ P).
  - destruct (index =? i); [|by apply yields_ret]. eapply yields_bind; [exact (Hr 0%nat t eq_refl)|]. intros w Hw. apply yields_ret. by rewrite Z.add_0_r in Hw.
  - intros w Hw. apply IH; [|done]. intros j t' Hj. eapply yields_weaken; [exact (Hr (S j) t' Hj)|]. intros x. by replace (i + 1 + Z.of_nat j) with (i + Z.of_nat (S j)) by lia.
Qed.

Lemma alternative_lookup (P : ty → Prop) ts j t i : ts !! j = Some t → P t → alternative P (i + Z.of_nat j) i ts.
Proof.
  revert i j. induction ts as [|t' ts IH]; intros i [|j] Hj Ht; try done; cbn [alternative].
  - injection Hj as ->. by rewrite Z.add_0_r, Z.eqb_refl.
  - destruct (Z.eqb_spec i (i + Z.of_nat (S j))); [lia|]. replace (i + Z.of_nat (S j)) with (i + 1 + Z.of_nat j) by lia. by apply IH.
Qed.

Lemma default_typed t : safe_ty t = true → inhabited t = true → 0 ≤ max_elems → well_typed t (default_val t).
Proof.
  intros Hs Hi Hm. induction t as [n a| |e|k ts IH|t IH|ts IH|t IH|k v IHk IHv] using ty_induction; cbn [default_val SerializationTyping.well_typed].
  - cbn in Hs. split; [unfold zlength; rewrite length_replicate; lia|]. apply Forall_replicate. unfold byte. lia.
  - done.
  - by rewrite Z.mul_0_r.
  - cbn in Hs, Hi. induction IH as [|t ts Ht _ IHt]; [done|]. cbn in *. apply andb_true_iff in Hs as [? ?], Hi as [? ?]. auto.
  - done.
  - cbn in Hs, Hi. destruct IH as [|t ts Ht _]; [done|]. cbn [forallb] in Hs, Hi. apply andb_true_iff in Hs as [? _], Hi as [_ [? _]%andb_true_iff]. change (well_typed t (default_val t)). auto.
  - done.
  - split; [done|by apply NoDup_nil].
Qed.
Lemma x_read_types t : plain t = true → safe_ty t = true → inhabited t = true → 0 ≤ max_elems → yields (x_read true max_elems t) (well_typed t).
Proof.
  intros Hp Hs Hi Hm. induction t as [n a| |e|k ts IH|t IH|ts IH|t IH|k v IHk IHv] using ty_induction; cbn [x_read].
  - by apply yields_builtin.
  - by apply yields_builtin.
  - by apply yields_builtin.
  - cbn [plain SerializationFacts.safe_ty inhabited] in *. apply andb_true_iff in Hp as [Hp Hq]. apply forallb_Forall in Hp, Hq, Hs, Hi.
    eapply yields_bind; [apply yields_batch; [|done]|intros vs Hvs; by apply yields_ret].
    apply Forall_forall. intros t Ht. rewrite Forall_forall in IH, Hp, Hs, Hi. auto.
  - unfold read_bool. eapply (yields_bind _ _ (λ _, True)); [eapply yields_bind; [apply yields_bytes|]; intros b _; by apply yields_ret|].
    intros [] _; [|by apply yields_ret]. eapply yields_bind; [by apply IH|]. intros v Hv. by apply yields_ret.
  - eapply yields_bind; [apply yields_size_t|]. intros i _. apply yields_variant; [|by apply (default_typed (TVariant ts))].
    cbn [plain SerializationFacts.safe_ty inhabited] in *. apply andb_true_iff in Hi as [_ Hi]. apply forallb_Forall in Hp, Hs, Hi.
    intros j t Hj. pose proof (list_elem_of_lookup_2 _ _ _ Hj) as Ht. rewrite Forall_forall in IH, Hp, Hs, Hi.
    eapply yields_weaken; [by apply IH; auto|]. intros w Hw. by apply (alternative_lookup (λ t, well_typed t w) ts j t 0).
  - cbn [plain SerializationFacts.safe_ty inhabited] in *. apply andb_true_iff in Hp as [[Hp Hq]%andb_true_iff Hv%negb_true_iff], Hs as [Hs Hmax].
    destruct (trivially_copyable t && negb (has_serialize t)) eqn:E.
    + apply andb_true_iff in E as [E1 E2%negb_true_iff]. destruct (scalar_copy t Hq E1 E2 Hv) as (n & a & ->). cbn in Hs, Hmax. apply yields_vector; lia.
    + eapply yields_bind; [apply yields_size_t|]. intros n [Hn _]. unfold resize. destruct (Z.ltb_spec max_elems n); [by right|].
      eapply yields_bind; [apply yields_n; by apply IH|]. intros vs [Hvs Hl]. apply yields_ret. split; [done|]. unfold zlength. rewrite Hl. lia.
  - cbn [plain SerializationFacts.safe_ty inhabited] in *. apply andb_true_iff in Hp as [[[Hpk Hpv]%andb_true_iff Hqk]%andb_true_iff Hqv], Hs as [Hsk Hsv], Hi as [Hik Hiv].
    eapply yields_bind; [apply yields_size_t|]. intros n _. apply yields_map; [| |done|by apply NoDup_nil].
    + eapply yields_ext; [intros d; by apply read_T_slow|auto].
    + eapply yields_ext; [intros d; by apply read_T_slow|auto].
Qed.
End types.


