(* ===== verification/IntrusiveList.v ===== *)
(** * Model of core/intrusive_list.h and of IntrusiveList2 (core/moo_allocator_impl.h)

    Circular doubly linked lists threaded through the objects they hold.  The
    links live in a heap that all lists share; a list is the address of its
    head.  The operations are written once over the interface [LinkHeap], which
    the two classes implement: [IntrusiveList] with typed member pointers, and
    [IntrusiveList2] with addresses and the byte offset of the link. *)

From Stdlib Require Import ZArith Lia.
From stdpp Require Import base gmap option list.
From S2P Require Import Prelude.

(** ** The interface to the links *)

Class LinkHeap (H : Type) := {
  get_next : H → Z → outcome Z;
  get_prev : H → Z → outcome Z;
  set_next : H → Z → Z → outcome H;
  set_prev : H → Z → Z → outcome H
}.

Section operations.
Context {H : Type} `{!LinkHeap H}.
Implicit Types (h : H) (hd pos item : Z).

(** [clear()], which is also what the constructor does. *)
Definition clear h hd : outcome H :=
  let! h := set_prev h hd hd in
  set_next h hd hd.

Definition empty h hd : outcome bool :=
  let! n := get_next h hd in Ok (n =? hd).

Definition begin h hd : outcome Z := get_next h hd.
Definition end_ hd : Z := hd.

(** [insert(at, item)]: in front of [at]. *)
Definition insert h pos item : outcome H :=
  let nextItem := pos in
  let! prevItem := get_prev h pos in
  let! h := set_prev h nextItem item in
  let! h := set_next h prevItem item in
  let! h := set_next h item nextItem in
  set_prev h item prevItem.

(** [erase(at)]: the item after, and null links in the one removed. *)
Definition erase h pos : outcome (Z * H) :=
  let! nextItem := get_next h pos in
  let! prevItem := get_prev h pos in
  let! h := set_prev h nextItem prevItem in
  let! h := set_next h prevItem nextItem in
  let! h := set_prev h pos 0 in
  let! h := set_next h pos 0 in
  Ok (nextItem, h).

Definition push_front h hd item : outcome H :=
  let! b := begin h hd in insert h b item.
Definition push_back h hd item : outcome H := insert h (end_ hd) item.

Definition pop_front h hd : outcome H :=
  let! b := begin h hd in
  let! r := erase h b in Ok r.2.
Definition pop_back h hd : outcome H :=
  let! p := get_prev h hd in
  let! r := erase h p in Ok r.2.

Definition front h hd : outcome Z := get_next h hd.
Definition back h hd : outcome Z := get_prev h hd.

(** [operator=(IntrusiveList&& n)]. *)
Definition move_assign h hd n : outcome H :=
  let! e := empty h n in
  if e : bool then clear h hd
  else
    let! hp := get_prev h n in
    let! hn := get_next h n in
    let! h := set_prev h hn hd in
    let! h := set_next h hp hd in
    let! h := set_prev h hd hp in
    let! h := set_next h hd hn in
    clear h n.

(** [for (auto& x : list)]: at most [fuel] items. *)
Fixpoint iterate (fuel : nat) h hd pos : outcome (list Z) :=
  if pos =? end_ hd then Ok []
  else
    match fuel with
    | O => NoFuel
    | S fuel =>
        let! n := get_next h pos in
        let! l := iterate fuel h hd n in
        Ok (pos :: l)
    end.
End operations.

(** ** IntrusiveList: the members [prev] and [next] of each object *)

Record links := mkLinks {
  l_prev : gmap Z Z;
  l_next : gmap Z Z
}.

#[export] Instance links_heap : LinkHeap links := {
  get_next h a := of_option (l_next h !! a);
  get_prev h a := of_option (l_prev h !! a);
  set_next h a x :=
    let! _ := of_option (l_next h !! a) in
    Ok (mkLinks (l_prev h) (<[a := x]> (l_next h)));
  set_prev h a x :=
    let! _ := of_option (l_prev h !! a) in
    Ok (mkLinks (<[a := x]> (l_prev h)) (l_next h))
}.

(** ** IntrusiveList2: words of memory at [item + offset] *)

Module List2.
Section list2.
(** [offset()], the position of the [Link] in the object. *)
Context (offset : Z).

(** A [Link] is two 8-byte words, [prev] and then [next]. *)
Definition prev_addr (pos : Z) : Z := pos + offset.
Definition next_addr (pos : Z) : Z := pos + offset + 8.

Definition load (mem : gmap Z Z) (a : Z) : outcome Z := of_option (mem !! a).
Definition store (mem : gmap Z Z) (a x : Z) : outcome (gmap Z Z) :=
  let! _ := of_option (mem !! a) in Ok (<[a := x]> mem).

#[local] Instance memory_heap : LinkHeap (gmap Z Z) := {
  get_next mem a := load mem (next_addr a);
  get_prev mem a := load mem (prev_addr a);
  set_next mem a x := store mem (next_addr a) x;
  set_prev mem a x := store mem (prev_addr a) x
}.

(** The head is a [Link] of its own; [headvalue] is the object it would be in. *)
Definition headvalue (head : Z) : Z := head - offset.

Implicit Types (mem : gmap Z Z) (head item pos : Z).

Definition begin2 mem head : outcome Z := begin mem (headvalue head).
Definition empty2 mem head : outcome bool := empty mem (headvalue head).
Definition clear2 mem head : outcome (gmap Z Z) :=
  let! mem := set_next mem (headvalue head) (headvalue head) in
  set_prev mem (headvalue head) (headvalue head).
Definition insert2 mem pos item : outcome (gmap Z Z) := insert mem pos item.
Definition erase2 mem pos : outcome (Z * gmap Z Z) := erase mem pos.
Definition push_front2 mem head item : outcome (gmap Z Z) :=
  let! n := get_next mem (headvalue head) in insert2 mem n item.
Definition push_back2 mem head item : outcome (gmap Z Z) := insert2 mem (headvalue head) item.
Definition pop_front2 mem head : outcome (gmap Z Z) :=
  let! n := get_next mem (headvalue head) in
  let! r := erase2 mem n in Ok r.2.
Definition pop_back2 mem head : outcome (gmap Z Z) :=
  let! p := get_prev mem (headvalue head) in
  let! r := erase2 mem p in Ok r.2.
Definition front2 mem head : outcome Z := get_next mem (headvalue head).
Definition back2 mem head : outcome Z := get_prev mem (headvalue head).
End list2.
End List2.
