(* ===== verification/IntrusiveListFacts.v ===== *)
(** * Correctness of the intrusive lists

    Each operation on the shared links acts on the sequence of items of one
    list, and leaves every other list alone. *)

From Stdlib Require Import ZArith Lia.
From stdpp Require Import base gmap option list.
From S2P Require Import Prelude IntrusiveList.

Local Set Warnings "-clear-no-such-hyp".

(** ** What a link heap promises *)

(** [valid h a]: the links of the object at [a] are in the heap.  Writing one
    link changes that link only. *)
Class LinkHeapLaws (H : Type) `{!LinkHeap H} (valid : H → Z → Prop) : Prop := {
  get_next_total h a : valid h a → ∃ x, get_next h a = Ok x;
  get_prev_total h a : valid h a → ∃ x, get_prev h a = Ok x;
  set_next_law h a x : valid h a →
    ∃ h', set_next h a x = Ok h' ∧ (∀ b, valid h' b ↔ valid h b) ∧
      (∀ b, valid h b → get_next h' b = if decide (b = a) then Ok x else get_next h b) ∧
      (∀ b, valid h b → get_prev h' b = get_prev h b);
  set_prev_law h a x : valid h a →
    ∃ h', set_prev h a x = Ok h' ∧ (∀ b, valid h' b ↔ valid h b) ∧
      (∀ b, valid h b → get_next h' b = get_next h b) ∧
      (∀ b, valid h b → get_prev h' b = if decide (b = a) then Ok x else get_prev h b)
}.

(** The links as members of the objects. *)
Definition links_valid (h : links) (a : Z) : Prop :=
  is_Some (l_prev h !! a) ∧ is_Some (l_next h !! a).

Lemma is_Some_insert (mem : gmap Z Z) (a b x y : Z) :
  mem !! a = Some y → is_Some (<[a := x]> mem !! b) ↔ is_Some (mem !! b).
Proof.
  intros Hy. destruct (decide (a = b)) as [<-|].
  - rewrite lookup_insert_eq, Hy. split; eauto.
  - by rewrite lookup_insert_ne.
Qed.

Lemma lookup_insert_if (mem : gmap Z Z) (a b x : Z) :
  <[a := x]> mem !! b = if decide (b = a) then Some x else mem !! b.
Proof. case_decide; subst; [apply lookup_insert_eq|by apply lookup_insert_ne]. Qed.

Ltac unfold_links :=
  cbn [get_next get_prev set_next set_prev links_heap List2.memory_heap l_prev l_next of_option obind].

#[export] Instance links_laws : LinkHeapLaws links links_valid.
Proof.
  split; unfold links_valid.
  - intros h a [_ [x Hx]]. exists x. unfold_links. by rewrite Hx.
  - intros h a [[x Hx] _]. exists x. unfold_links. by rewrite Hx.
  - intros h a x [_ [y Hy]]. unfold_links. rewrite Hy. unfold_links. eexists. split_and!; [done|..].
    + intros b. unfold_links. by rewrite (is_Some_insert _ _ _ _ _ Hy).
    + intros b _. unfold_links. rewrite lookup_insert_if. by case_decide.
    + done.
  - intros h a x [[y Hy] _]. unfold_links. rewrite Hy. unfold_links. eexists. split_and!; [done|..].
    + intros b. unfold_links. by rewrite (is_Some_insert _ _ _ _ _ Hy).
    + done.
    + intros b _. unfold_links. rewrite lookup_insert_if. by case_decide.
Qed.

(** The links as words of memory: each [Link] is on a 16-byte boundary. *)
Definition mem_valid (offset : Z) (mem : gmap Z Z) (a : Z) : Prop :=
  (a + offset) mod 16 = 0 ∧
  is_Some (mem !! List2.prev_addr offset a) ∧ is_Some (mem !! List2.next_addr offset a).

Lemma next_prev_ne offset a b :
  (a + offset) mod 16 = 0 → (b + offset) mod 16 = 0 →
  List2.next_addr offset a ≠ List2.prev_addr offset b.
Proof.
  unfold List2.next_addr, List2.prev_addr. intros Ha Hb Heq.
  assert ((a + offset + 8) mod 16 = 0) as H8 by (by rewrite Heq).
  rewrite <- Zplus_mod_idemp_l, Ha in H8. done.
Qed.

Lemma memory_laws offset :
  @LinkHeapLaws (gmap Z Z) (List2.memory_heap offset) (mem_valid offset).
Proof.
  split; unfold mem_valid; unfold_links; unfold List2.load, List2.store.
  - intros mem a (_ & _ & x & Hx). exists x. by rewrite Hx.
  - intros mem a (_ & [x Hx] & _). exists x. by rewrite Hx.
  - intros mem a x (Ha & _ & y & Hy). rewrite Hy. unfold_links. eexists. split_and!; [done|..].
    + intros b. by rewrite !(is_Some_insert _ _ _ _ _ Hy).
    + intros b (Hb & _). rewrite lookup_insert_if. unfold List2.next_addr.
      repeat case_decide; try done; lia.
    + intros b (Hb & _). rewrite lookup_insert_ne; [done|]. by apply next_prev_ne.
  - intros mem a x (Ha & [y Hy] & _). rewrite Hy. unfold_links. eexists. split_and!; [done|..].
    + intros b. by rewrite !(is_Some_insert _ _ _ _ _ Hy).
    + intros b (Hb & _). rewrite lookup_insert_ne; [done|]. apply not_eq_sym. by apply next_prev_ne.
    + intros b (Hb & _). rewrite lookup_insert_if. unfold List2.prev_addr.
      repeat case_decide; try done; lia.
Qed.

(** ** Lists *)

(** A cut of the cycle: [p] before it, [q] after it. *)
Record cut (hd : Z) (l1 l2 c1 : list Z) (p q : Z) (c2 : list Z) : Prop := {
  cut_before : hd :: l1 = c1 ++ [p];
  cut_after : l2 ++ [hd] = q :: c2
}.

Lemma cut_exists (hd : Z) (l1 l2 : list Z) : ∃ c1 p q c2, cut hd l1 l2 c1 p q c2.
Proof.
  destruct (@exists_last _ (hd :: l1)) as (c1 & p & Hp); [done|].
  destruct (l2 ++ [hd]) as [|q c2] eqn:Hq; [by destruct l2|].
  exists c1, p, q, c2. by split.
Qed.

Section cut.
Context (hd : Z) (l1 l2 c1 : list Z) (p q : Z) (c2 : list Z).
Context (Hcut : cut hd l1 l2 c1 p q c2) (Hnd : NoDup (hd :: l1 ++ l2)).

Lemma cut_p : p ∈ hd :: l1.
Proof using Hcut Hnd. rewrite (cut_before _ _ _ _ _ _ _ Hcut). set_solver. Qed.

Lemma cut_q : q ∈ l2 ++ [hd].
Proof using Hcut Hnd. rewrite (cut_after _ _ _ _ _ _ _ Hcut). set_solver. Qed.

Lemma cut_p_all : p ∈ hd :: l1 ++ l2.
Proof using Hcut Hnd. pose proof cut_p. set_solver. Qed.

Lemma cut_q_all : q ∈ hd :: l1 ++ l2.
Proof using Hcut Hnd. pose proof cut_q. set_solver. Qed.

Lemma cut_c1 a : a ∈ c1 → a ∈ hd :: l1 ∧ a ≠ p.
Proof using Hcut Hnd.
  intros Ha. assert (NoDup (c1 ++ [p])) as Hn.
  { rewrite <- (cut_before _ _ _ _ _ _ _ Hcut). rewrite app_comm_cons in Hnd.
    by apply NoDup_app in Hnd as [? _]. }
  split; [rewrite (cut_before _ _ _ _ _ _ _ Hcut); set_solver|].
  intros ->. apply NoDup_app in Hn as (_ & Hd & _). apply (Hd p Ha). by left.
Qed.

Lemma cut_c2 a : a ∈ c2 → a ∈ l2 ++ [hd] ∧ a ≠ q.
Proof using Hcut Hnd.
  intros Ha. assert (NoDup (q :: c2)) as Hn.
  { rewrite <- (cut_after _ _ _ _ _ _ _ Hcut), <- Permutation_cons_append.
    apply NoDup_cons in Hnd as [Hhd Hnd']. apply NoDup_app in Hnd' as (_ & _ & ?).
    apply NoDup_cons. split; [set_solver|done]. }
  split; [rewrite (cut_after _ _ _ _ _ _ _ Hcut); by right|].
  intros ->. by apply NoDup_cons_1_1 in Hn.
Qed.

Lemma cut_l1 a : a ∈ l1 → a ≠ q.
Proof using Hcut Hnd.
  intros Ha ->. pose proof cut_q as Hq. apply NoDup_cons in Hnd as [Hhd Hnd'].
  apply NoDup_app in Hnd' as (_ & Hd & _). specialize (Hd q Ha). set_solver.
Qed.

Lemma cut_l2 a : a ∈ l2 → a ≠ p.
Proof using Hcut Hnd.
  intros Ha ->. pose proof cut_p as Hp. apply NoDup_cons in Hnd as [Hhd Hnd'].
  apply NoDup_app in Hnd' as (_ & Hd & _). apply elem_of_cons in Hp as [->|Hp]; [set_solver|].
  by apply (Hd p Hp).
Qed.

End cut.

Section lists.
Context {H : Type} `{!LinkHeap H} (valid : H → Z → Prop) `{!LinkHeapLaws H valid}.
Implicit Types (h : H) (hd item : Z) (l c : list Z).

(** Neighbours in [c] point at each other. *)
Fixpoint edges h c : Prop :=
  match c with
  | x :: ((y :: _) as c') => get_next h x = Ok y ∧ get_prev h y = Ok x ∧ edges h c'
  | _ => True
  end.

(** The list headed at [hd] holds the items [l]. *)
Record is_list h hd l : Prop := {
  list_nodup : NoDup (hd :: l);
  list_valid : Forall (valid h) (hd :: l);
  list_edges : edges h (hd :: l ++ [hd])
}.

Lemma edges_app h c1 x c2 : edges h (c1 ++ x :: c2) ↔ edges h (c1 ++ [x]) ∧ edges h (x :: c2).
Proof.
  induction c1 as [|y c1 IH]; [cbn [app edges]; tauto|].
  destruct c1 as [|z c1]; cbn [app edges] in *; [tauto|]. rewrite IH. tauto.
Qed.

(** [edges] looks at [next] of all but the last and [prev] of all but the first. *)
Lemma edges_frame h h' c :
  (∀ a, a ∈ removelast c → get_next h' a = get_next h a) →
  (∀ a, a ∈ tail c → get_prev h' a = get_prev h a) →
  edges h c → edges h' c.
Proof.
  induction c as [|x c IH]; intros Hn Hp He; [done|].
  destruct c as [|y c]; [done|]. cbn [tail] in *.
  change (removelast (x :: y :: c)) with (x :: removelast (y :: c)) in Hn.
  destruct He as (? & ? & He). cbn [edges]. rewrite (Hn x), (Hp y) by (by left).
  split_and!; [done..|]. apply IH; [|intros a Ha; apply Hp; by right|done].
  intros a Ha. apply Hn. by right.
Qed.

Section cut_heap.
Context hd l1 l2 c1 p q c2 (Hcut : cut hd l1 l2 c1 p q c2) (Hnd : NoDup (hd :: l1 ++ l2)).

(** The cycle is its two arcs and the link between them. *)
Lemma cut_edges h :
  edges h (hd :: (l1 ++ l2) ++ [hd]) ↔
  edges h (c1 ++ [p]) ∧ get_next h p = Ok q ∧ get_prev h q = Ok p ∧ edges h (q :: c2).
Proof using Hcut.
  destruct Hcut as [Hb Ha].
  rewrite <- (assoc_L (++)), app_comm_cons, Hb, Ha, <- (assoc_L (++)). cbn [app].
  rewrite edges_app. cbn [edges]. tauto.
Qed.

(** The arcs survive changes of [next] at [p] and of [prev] at [q], and of
    objects outside the list. *)
Lemma cut_arcs h h' :
  edges h (c1 ++ [p]) → edges h (q :: c2) →
  (∀ a, a ∈ hd :: l1 ++ l2 → a ≠ p → get_next h' a = get_next h a) →
  (∀ a, a ∈ hd :: l1 ++ l2 → a ≠ q → get_prev h' a = get_prev h a) →
  edges h' (c1 ++ [p]) ∧ edges h' (q :: c2).
Proof using Hcut Hnd LinkHeapLaws0.
  intros He1 He2 Hn Hp. destruct (Hcut) as [Hb Ha].
  split; (eapply edges_frame; [..|done]).
  - rewrite removelast_last. intros a Hin. apply (cut_c1 _ _ _ _ _ _ _ Hcut Hnd) in Hin as [? ?].
    apply Hn; [set_solver|done].
  - rewrite <- Hb. cbn [tail]. intros a Hin.
    apply Hp; [set_solver|by apply (cut_l1 _ _ _ _ _ _ _ Hcut Hnd)].
  - rewrite <- Ha, removelast_last. intros a Hin.
    apply Hn; [set_solver|by apply (cut_l2 _ _ _ _ _ _ _ Hcut Hnd)].
  - cbn [tail]. intros a Hin. apply (cut_c2 _ _ _ _ _ _ _ Hcut Hnd) in Hin as [? ?].
    apply Hp; [set_solver|done].
Qed.
End cut_heap.

(** [h'] differs from [h] in the links of the objects of [l] only. *)
Definition touches h h' l : Prop :=
  (∀ b, valid h' b ↔ valid h b) ∧
  ∀ b, valid h b → b ∉ l → get_next h' b = get_next h b ∧ get_prev h' b = get_prev h b.

Lemma is_list_frame h h' hd l ts :
  touches h h' ts → is_list h hd l → (∀ b, b ∈ ts → b ∉ hd :: l) → is_list h' hd l.
Proof using LinkHeapLaws0.
  intros [Hv Hf] [Hnd Hval He] Hdis. rewrite Forall_forall in Hval.
  assert (∀ b, b ∈ hd :: l → get_next h' b = get_next h b ∧ get_prev h' b = get_prev h b) as Hf'.
  { intros b Hb. apply Hf; [by apply Hval|]. intros Ht. by apply (Hdis b). }
  split; [done|..].
  - apply Forall_forall. intros b Hb. by apply Hv, Hval.
  - eapply edges_frame; [..|done].
    + rewrite app_comm_cons, removelast_last. intros a Ha. by apply Hf'.
    + cbn [tail]. intros a Ha. apply Hf'. set_solver.
Qed.

Lemma insert_spec h hd l1 l2 pos c2 item :
  is_list h hd (l1 ++ l2) → l2 ++ [hd] = pos :: c2 → valid h item → item ∉ hd :: l1 ++ l2 →
  ∃ h', insert h pos item = Ok h' ∧ is_list h' hd (l1 ++ item :: l2) ∧
    touches h h' (item :: hd :: l1 ++ l2).
Proof using LinkHeapLaws0.
  intros [Hnd Hval He] Hpos Hvi Hnew. rewrite Forall_forall in Hval.
  destruct (cut_exists hd l1 l2) as (c1 & p & q & c2' & Hcut).
  assert (pos = q) as ->.
  { destruct Hcut as [_ Ha]. rewrite Hpos in Ha. by simplify_eq. }
  destruct (proj1 (cut_edges _ _ _ _ _ _ _ Hcut h) He) as (He1 & _ & Hq & He2).
  pose proof (cut_p_all _ _ _ _ _ _ _ Hcut Hnd) as Hpin.
  pose proof (cut_q_all _ _ _ _ _ _ _ Hcut Hnd) as Hqin.
  assert (p ≠ item ∧ q ≠ item) as [Hpi Hqi] by (split; intros ->; done).
  pose proof (Hval p Hpin) as Hvp. pose proof (Hval q Hqin) as Hvq.
  unfold insert. rewrite Hq. cbn [obind].
  destruct (set_prev_law h q item Hvq) as (h1 & -> & V1 & N1 & P1). cbn [obind].
  destruct (set_next_law h1 p item) as (h2 & -> & V2 & N2 & P2); [by apply V1|]. cbn [obind].
  destruct (set_next_law h2 item q) as (h3 & -> & V3 & N3 & P3); [by apply V2, V1|]. cbn [obind].
  destruct (set_prev_law h3 item p) as (h4 & -> & V4 & N4 & P4); [by apply V3, V2, V1|].
  assert (∀ b, valid h4 b ↔ valid h b) as HV by (intros b; by rewrite V4, V3, V2, V1).
  assert (∀ b, valid h b → get_next h4 b =
    if decide (b = item) then Ok q else if decide (b = p) then Ok item else get_next h b) as HN.
  { intros b Hb. rewrite N4, N3, N2, N1; [done|..]; by rewrite ?V3, ?V2, ?V1. }
  assert (∀ b, valid h b → get_prev h4 b =
    if decide (b = item) then Ok p else if decide (b = q) then Ok item else get_prev h b) as HP.
  { intros b Hb. rewrite P4, P3, P2, P1; [done|..]; by rewrite ?V3, ?V2, ?V1. }
  exists h4. split_and!; [done|split|split].
  - assert (hd :: l1 ++ item :: l2 ≡ₚ item :: hd :: l1 ++ l2) as ->
      by (by rewrite <- Permutation_middle, perm_swap).
    by apply NoDup_cons_2.
  - apply Forall_forall. intros b Hb. apply HV.
    destruct (decide (b = item)) as [->|]; [done|]. apply Hval. set_solver.
  - destruct (cut_arcs _ _ _ _ _ _ _ Hcut Hnd h h4 He1 He2) as [Ha1 Ha2].
    { intros a Ha Hap. rewrite HN by auto. by rewrite !decide_False by (done || intros ->; done). }
    { intros a Ha Haq. rewrite HP by auto. by rewrite !decide_False by (done || intros ->; done). }
    destruct Hcut as [Hb Ha].
    replace (hd :: (l1 ++ item :: l2) ++ [hd]) with (c1 ++ p :: item :: q :: c2')
      by (rewrite <- (assoc_L (++)); cbn [app]; rewrite Ha, app_comm_cons, Hb, <- (assoc_L (++)); done).
    apply edges_app. split; [done|]. cbn [edges]. split_and!; [..|done].
    + rewrite HN, decide_False, decide_True by done. done.
    + rewrite HP, decide_True by done. done.
    + rewrite HN, decide_True by done. done.
    + rewrite HP, decide_False, decide_True by done. done.
  - done.
  - intros b Hvb Hb. rewrite HN, HP by done.
    rewrite !decide_False by (intros ->; set_solver). done.
Qed.

Lemma list_erase_spec h hd l1 x l2 :
  is_list h hd (l1 ++ x :: l2) →
  ∃ h' n, erase h x = Ok (n, h') ∧ (∃ c, l2 ++ [hd] = n :: c) ∧ is_list h' hd (l1 ++ l2) ∧
    get_next h' x = Ok 0 ∧ get_prev h' x = Ok 0 ∧ touches h h' (hd :: l1 ++ x :: l2).
Proof using LinkHeapLaws0.
  intros [Hnd Hval He]. rewrite Forall_forall in Hval.
  assert (hd :: l1 ++ x :: l2 ≡ₚ x :: hd :: l1 ++ l2) as Hperm
    by (by rewrite <- Permutation_middle, perm_swap).
  assert ((x ∉ hd :: l1 ++ l2) ∧ NoDup (hd :: l1 ++ l2)) as [Hx Hnd'].
  { rewrite Hperm in Hnd. by apply NoDup_cons in Hnd. }
  destruct (cut_exists hd l1 l2) as (c1 & p & q & c2 & Hcut).
  pose proof (cut_p_all _ _ _ _ _ _ _ Hcut Hnd') as Hpin.
  pose proof (cut_q_all _ _ _ _ _ _ _ Hcut Hnd') as Hqin.
  assert (p ≠ x ∧ q ≠ x) as [Hpx Hqx] by (split; intros ->; done).
  assert (∀ b, b ∈ hd :: l1 ++ l2 → valid h b) as Hval'.
  { intros b Hb. apply Hval. rewrite Hperm. by right. }
  assert (valid h x) as Hvx by (apply Hval; rewrite Hperm; by left).
  pose proof (Hval' p Hpin) as Hvp. pose proof (Hval' q Hqin) as Hvq.
  destruct (Hcut) as [Hb Ha].
  assert (edges h (c1 ++ [p]) ∧ (get_next h p = Ok x ∧ get_prev h x = Ok p) ∧
          (get_next h x = Ok q ∧ get_prev h q = Ok x) ∧ edges h (q :: c2)) as (He1 & [_ Hpx'] & [Hxq _] & He2).
  { rewrite <- (assoc_L (++)) in He. cbn [app] in He. rewrite Ha, app_comm_cons, Hb, <- (assoc_L (++)) in He.
    cbn [app] in He. apply edges_app in He as [? He]. cbn [edges] in He. tauto. }
  unfold erase. rewrite Hxq. cbn [obind]. rewrite Hpx'. cbn [obind].
  destruct (set_prev_law h q p Hvq) as (h1 & -> & V1 & N1 & P1). cbn [obind].
  destruct (set_next_law h1 p q) as (h2 & -> & V2 & N2 & P2); [by apply V1|]. cbn [obind].
  destruct (set_prev_law h2 x 0) as (h3 & -> & V3 & N3 & P3); [by apply V2, V1|]. cbn [obind].
  destruct (set_next_law h3 x 0) as (h4 & -> & V4 & N4 & P4); [by apply V3, V2, V1|].
  assert (∀ b, valid h4 b ↔ valid h b) as HV by (intros b; by rewrite V4, V3, V2, V1).
  assert (∀ b, valid h b → get_next h4 b =
    if decide (b = x) then Ok 0 else if decide (b = p) then Ok q else get_next h b) as HN.
  { intros b Hb'. rewrite N4, N3, N2, N1; [done|..]; by rewrite ?V3, ?V2, ?V1. }
  assert (∀ b, valid h b → get_prev h4 b =
    if decide (b = x) then Ok 0 else if decide (b = q) then Ok p else get_prev h b) as HP.
  { intros b Hb'. rewrite P4, P3, P2, P1; [done|..]; by rewrite ?V3, ?V2, ?V1. }
  cbn [obind]. exists h4, q. split_and!; [done|eauto|split|..].
  - done.
  - apply Forall_forall. intros b Hb'. by apply HV, Hval'.
  - apply (cut_edges _ _ _ _ _ _ _ Hcut).
    destruct (cut_arcs _ _ _ _ _ _ _ Hcut Hnd' h h4 He1 He2) as [Ha1 Ha2].
    { intros a Hin Hap. rewrite HN by auto. by rewrite !decide_False by (done || intros ->; done). }
    { intros a Hin Haq. rewrite HP by auto. by rewrite !decide_False by (done || intros ->; done). }
    split_and!; [done|..|done].
    + rewrite HN, decide_False, decide_True by done. done.
    + rewrite HP, decide_False, decide_True by done. done.
  - rewrite HN, decide_True by done. done.
  - rewrite HP, decide_True by done. done.
  - split; [done|]. intros b Hvb Hb'. rewrite Hperm in Hb'. rewrite HN, HP by done.
    rewrite !decide_False by (intros ->; set_solver). done.
Qed.

(** ** The operations on the sequence of items *)

Lemma is_list_next h hd l : is_list h hd l → get_next h hd = Ok (default hd (head l)).
Proof using LinkHeapLaws0. intros [_ _ He]. destruct l as [|x l]; cbn in He; by destruct He as (? & _). Qed.

Lemma is_list_prev h hd l : is_list h hd l → get_prev h hd = Ok (default hd (last l)).
Proof using LinkHeapLaws0.
  intros [_ _ He]. destruct l as [|x l _] using rev_ind; [by destruct He as (_ & ? & _)|].
  rewrite last_snoc. rewrite <- (assoc_L (++)), app_comm_cons in He.
  apply edges_app in He as [_ He]. by destruct He as (_ & ? & _).
Qed.

Lemma empty_spec h hd l : is_list h hd l → empty h hd = Ok (bool_decide (l = [])).
Proof using LinkHeapLaws0.
  intros Hl. unfold empty. rewrite (is_list_next _ _ _ Hl). cbn [obind]. f_equal.
  destruct l as [|x l]; cbn; [by rewrite Z.eqb_refl|].
  apply Z.eqb_neq. intros ->. pose proof (list_nodup _ _ _ Hl) as Hnd.
  apply NoDup_cons_1_1 in Hnd. set_solver.
Qed.

Lemma clear_spec h hd :
  valid h hd → ∃ h', clear h hd = Ok h' ∧ is_list h' hd [] ∧ touches h h' [hd].
Proof using LinkHeapLaws0.
  intros Hv. unfold clear.
  destruct (set_prev_law h hd hd Hv) as (h1 & -> & V1 & N1 & P1). cbn [obind].
  destruct (set_next_law h1 hd hd) as (h2 & -> & V2 & N2 & P2); [by apply V1|].
  assert (∀ b, valid h2 b ↔ valid h b) as HV by (intros b; by rewrite V2, V1).
  exists h2. split_and!; [done|split|split].
  - apply NoDup_singleton.
  - apply Forall_singleton. by apply HV.
  - cbn [edges app]. rewrite N2, P2, P1, !decide_True by (done || by apply V1). done.
  - done.
  - intros b Hb Hbn. rewrite N2, P2, N1, P1 by (done || by apply V1).
    rewrite !decide_False by (intros ->; set_solver). done.
Qed.

Lemma push_front_spec h hd l item :
  is_list h hd l → valid h item → item ∉ hd :: l →
  ∃ h', push_front h hd item = Ok h' ∧ is_list h' hd (item :: l) ∧ touches h h' (item :: hd :: l).
Proof using LinkHeapLaws0.
  intros Hl Hv Hnew. unfold push_front, begin. rewrite (is_list_next _ _ _ Hl). cbn [obind].
  destruct l as [|x l].
  - by apply (insert_spec h hd [] [] _ []).
  - by apply (insert_spec h hd [] (x :: l) _ (l ++ [hd])).
Qed.

Lemma push_back_spec h hd l item :
  is_list h hd l → valid h item → item ∉ hd :: l →
  ∃ h', push_back h hd item = Ok h' ∧ is_list h' hd (l ++ [item]) ∧ touches h h' (item :: hd :: l).
Proof using LinkHeapLaws0.
  intros Hl Hv Hnew. rewrite <- (app_nil_r l) in Hl, Hnew.
  destruct (insert_spec h hd l [] hd [] item Hl eq_refl Hv Hnew) as (h' & ? & ? & ?).
  rewrite app_nil_r in *. eauto.
Qed.

Lemma pop_front_spec h hd x l :
  is_list h hd (x :: l) →
  ∃ h', pop_front h hd = Ok h' ∧ is_list h' hd l ∧ touches h h' (hd :: x :: l).
Proof using LinkHeapLaws0.
  intros Hl. unfold pop_front, begin. rewrite (is_list_next _ _ _ Hl). cbn [obind head from_option id].
  destruct (list_erase_spec h hd [] x l Hl) as (h' & n & -> & _ & ? & _ & _ & ?). eauto.
Qed.

Lemma pop_back_spec h hd l x :
  is_list h hd (l ++ [x]) →
  ∃ h', pop_back h hd = Ok h' ∧ is_list h' hd l ∧ touches h h' (hd :: l ++ [x]).
Proof using LinkHeapLaws0.
  intros Hl. unfold pop_back. rewrite (is_list_prev _ _ _ Hl), last_snoc. cbn [obind from_option id].
  destruct (list_erase_spec h hd l x [] Hl) as (h' & n & -> & _ & Hl' & _ & _ & ?).
  rewrite app_nil_r in Hl'. eauto.
Qed.

Lemma iterate_spec h hd l : is_list h hd l → iterate (length l) h hd (default hd (head l)) = Ok l.
Proof using LinkHeapLaws0.
  intros [Hnd _ He]. apply NoDup_cons_1_1 in Hnd.
  assert (∀ x, edges h (x :: l ++ [hd]) → iterate (length l) h hd (default hd (head l)) = Ok l) as Hgo;
    [|by eapply Hgo].
  clear He. induction l as [|y l IH]; intros x He; cbn [length iterate head from_option id].
  - unfold end_. by rewrite Z.eqb_refl.
  - cbn [app edges] in He. destruct He as (_ & _ & He).
    destruct (Z.eqb_spec y (end_ hd)) as [->|]; [set_solver|].
    assert (get_next h y = Ok (default hd (head l))) as ->
      by (destruct l; by destruct He as (? & _)).
    cbn [obind]. rewrite (IH ltac:(set_solver) y He). done.
Qed.

(** The links of a nonempty list and its head, one by one. *)
Lemma edges_ends h x y a m z :
  a :: m = removelast (a :: m) ++ [z] →
  edges h (x :: (a :: m) ++ [y]) ↔
  get_next h x = Ok a ∧ get_prev h a = Ok x ∧ edges h (a :: m) ∧
  get_next h z = Ok y ∧ get_prev h y = Ok z.
Proof using LinkHeapLaws0.
  intros Hz.
  change (edges h (x :: (a :: m) ++ [y])) with
    (get_next h x = Ok a ∧ get_prev h a = Ok x ∧ edges h ((a :: m) ++ [y])).
  assert (edges h ((a :: m) ++ [y]) ↔
    edges h (a :: m) ∧ get_next h z = Ok y ∧ get_prev h y = Ok z) as ->; [|tauto].
  rewrite Hz, <- (assoc_L (++)). cbn [app]. rewrite edges_app. cbn [edges]. tauto.
Qed.

Lemma move_assign_spec h hd n l :
  is_list h n l → valid h hd → hd ∉ n :: l →
  ∃ h', move_assign h hd n = Ok h' ∧ is_list h' hd l ∧ is_list h' n [] ∧
    touches h h' (hd :: n :: l).
Proof using LinkHeapLaws0.
  intros Hl Hv Hnew. unfold move_assign. rewrite (empty_spec _ _ _ Hl). cbn [obind].
  destruct l as [|a m].
  { destruct (clear_spec h hd Hv) as (h' & -> & Hl' & Ht). exists h'. rewrite bool_decide_true by done.
    split_and!; [done|done| |].
    - eapply is_list_frame; [done..|]. intros b Hb. apply list_elem_of_singleton in Hb as ->. done.
    - destruct Ht as [? Hf]. split; [done|]. intros b ? Hb. apply Hf; [done|set_solver]. }
  rewrite bool_decide_false by done. destruct (Hl) as [Hnd Hval He]. rewrite Forall_forall in Hval.
  rewrite (is_list_prev _ _ _ Hl), (is_list_next _ _ _ Hl). cbn [obind head from_option id].
  destruct (@exists_last _ (a :: m)) as (m' & z & Hz); [done|].
  assert (last (a :: m) = Some z) as -> by (rewrite Hz; apply last_snoc). cbn [from_option id].
  assert (a :: m = removelast (a :: m) ++ [z]) as Hz' by (by rewrite Hz, removelast_last).
  assert (z ∈ a :: m) as Hzin by (rewrite Hz; set_solver).
  assert (a ∈ a :: m) as Hain by (by left).
  assert (∀ b, b ∈ a :: m → valid h b ∧ b ≠ hd ∧ b ≠ n) as Hin.
  { intros b Hb. split_and!; [apply Hval; by right|intros ->; apply Hnew; by right|].
    intros ->. by apply NoDup_cons_1_1 in Hnd. }
  destruct (Hin a Hain) as (Hva & Hah & Han). destruct (Hin z Hzin) as (Hvz & Hzh & Hzn).
  assert (hd ≠ n) as Hhn by (intros ->; apply Hnew; by left).
  assert (valid h n) as Hvn by (apply Hval; by left).
  apply (edges_ends h n n a m z Hz') in He as (_ & _ & He & _ & _).
  destruct (set_prev_law h a hd Hva) as (h1 & -> & V1 & N1 & P1). cbn [obind].
  destruct (set_next_law h1 z hd) as (h2 & -> & V2 & N2 & P2); [by apply V1|]. cbn [obind].
  destruct (set_prev_law h2 hd z) as (h3 & -> & V3 & N3 & P3); [by apply V2, V1|]. cbn [obind].
  destruct (set_next_law h3 hd a) as (h4 & -> & V4 & N4 & P4); [by apply V3, V2, V1|]. cbn [obind].
  assert (∀ b, valid h4 b ↔ valid h b) as HV by (intros b; by rewrite V4, V3, V2, V1).
  assert (∀ b, valid h b → get_next h4 b =
    if decide (b = hd) then Ok a else if decide (b = z) then Ok hd else get_next h b) as HN.
  { intros b Hb'. rewrite N4, N3, N2, N1; [done|..]; by rewrite ?V3, ?V2, ?V1. }
  assert (∀ b, valid h b → get_prev h4 b =
    if decide (b = hd) then Ok z else if decide (b = a) then Ok hd else get_prev h b) as HP.
  { intros b Hb'. rewrite P4, P3, P2, P1; [done|..]; by rewrite ?V3, ?V2, ?V1. }
  assert (is_list h4 hd (a :: m)) as Hl4.
  { apply NoDup_cons_1_2 in Hnd. split.
    - apply NoDup_cons_2; [|done]. intros Hh. apply Hnew. by right.
    - apply Forall_forall. intros b [->|Hb]%elem_of_cons; apply HV; [done|by apply Hin].
    - apply (edges_ends h4 hd hd a m z Hz').
      rewrite (HN hd), (HP hd), (HP a), (HN z) by done.
      rewrite (decide_True (P := hd = hd)), (decide_True (P := hd = hd)) by done.
      rewrite (decide_False (P := a = hd)), (decide_True (P := a = a)) by done.
      rewrite (decide_False (P := z = hd)), (decide_True (P := z = z)) by done.
      split_and!; [done|done| |done|done]. eapply edges_frame; [..|done].
      + intros b Hb. assert (b ∈ a :: m) as Hb' by (rewrite Hz'; set_solver).
        destruct (Hin b Hb') as (? & ? & _). rewrite HN, !decide_False; [done| |done|done].
        intros ->. rewrite Hz' in Hnd. apply NoDup_app in Hnd as (_ & Hd & _).
        apply (Hd z Hb). by left.
      + cbn [tail]. intros b Hb. destruct (Hin b) as (? & ? & _); [by right|].
        rewrite HP, !decide_False; [done| |done|done]. intros ->. by apply NoDup_cons_1_1 in Hnd. }
  destruct (clear_spec h4 n) as (h5 & -> & Hl5 & Ht5); [by apply HV|].
  exists h5. split_and!; [done| |done|].
  - eapply is_list_frame; [done..|]. intros b Hb. apply list_elem_of_singleton in Hb as ->.
    intros [->|Hb]%elem_of_cons; [done|]. by apply (Hin n Hb).
  - destruct Ht5 as [V5 F5]. split; [intros b; by rewrite V5, HV|].
    intros b Hb Hnb. destruct (F5 b) as [-> ->]; [by apply HV|set_solver|].
    rewrite HN, HP by done. rewrite !decide_False; [done|..]; intros ->; apply Hnb; set_solver.
Qed.
End lists.

(** ** The theorems *)

(** C37: [erase] unlinks exactly the given item: the list keeps its other items
    in order, the item's links become null, the iterator returned is the item
    that followed, and every other list threaded through the same heap is
    unchanged. *)
Theorem intrusive_erase_refines (h : links) hd l1 x l2 hd' l' :
  is_list links_valid h hd (l1 ++ x :: l2) → is_list links_valid h hd' l' →
  (∀ b, b ∈ hd :: l1 ++ x :: l2 → b ∉ hd' :: l') →
  ∃ h' n, erase h x = Ok (n, h') ∧ n = default hd (head l2) ∧
    is_list links_valid h' hd (l1 ++ l2) ∧ is_list links_valid h' hd' l' ∧
    l_next h' !! x = Some 0 ∧ l_prev h' !! x = Some 0.
Proof.
  intros Hl Hl' Hdis.
  destruct (list_erase_spec links_valid h hd l1 x l2 Hl) as (h' & n & He & [c Hn] & Hl1 & Hx & Hp & Ht).
  exists h', n.
  split_and!; [done| |done|exact (is_list_frame links_valid h h' hd' l' _ Ht Hl' Hdis)| |].
  - destruct l2; simplify_eq/=; done.
  - cbn in Hx. by destruct (l_next h' !! x); simplify_eq/=.
  - cbn in Hp. by destruct (l_prev h' !! x); simplify_eq/=.
Qed.

(** Move assignment hands all items over in order, leaves the source empty
    and usable, and the moved list can be traversed. *)
Theorem intrusive_move_assign_refines (h : links) hd n l :
  is_list links_valid h n l → links_valid h hd → hd ∉ n :: l →
  ∃ h', move_assign h hd n = Ok h' ∧ is_list links_valid h' hd l ∧ is_list links_valid h' n [] ∧
    empty h' n = Ok true ∧ (let! b := begin h' hd in iterate (length l) h' hd b) = Ok l.
Proof.
  intros Hl Hv Hnew.
  destruct (move_assign_spec links_valid h hd n l Hl Hv Hnew) as (h' & Hm & H1 & H2 & _).
  exists h'. split_and!; [done..| |].
  - by rewrite (empty_spec links_valid _ _ _ H2).
  - unfold begin. rewrite (is_list_next links_valid _ _ _ H1). cbn [obind].
    by apply (iterate_spec links_valid).
Qed.

(** C38: [IntrusiveList2], on words of memory: [push_back], [push_front] and
    [pop_front] of a list whose head is a bare [Link] act on its sequence of
    items, and lists that share no object with it are unchanged. *)
Theorem list2_deque_refines offset (mem : gmap Z Z) head l item hd' l' :
  let V := mem_valid offset in
  let L := @is_list (gmap Z Z) (List2.memory_heap offset) V in
  let hd := List2.headvalue offset head in
  L mem hd l → V mem item → item ∉ hd :: l → L mem hd' l' →
  (∀ b, b ∈ item :: hd :: l → b ∉ hd' :: l') →
  (∃ mem', List2.push_back2 offset mem head item = Ok mem' ∧ L mem' hd (l ++ [item]) ∧ L mem' hd' l') ∧
  (∃ mem', List2.push_front2 offset mem head item = Ok mem' ∧ L mem' hd (item :: l) ∧ L mem' hd' l') ∧
  (∀ x l0, l = x :: l0 →
     ∃ mem', List2.front2 offset mem head = Ok x ∧
       List2.pop_front2 offset mem head = Ok mem' ∧ L mem' hd l0 ∧ L mem' hd' l').
Proof.
  intros V L hd Hl Hv Hnew Hl' Hdis.
  pose proof (memory_laws offset) as Laws.
  split_and!.
  - destruct (push_back_spec (LinkHeapLaws0 := Laws) V mem hd l item Hl Hv Hnew) as (m & ? & ? & Ht).
    exists m. split_and!; [done..|].
    exact (is_list_frame (LinkHeapLaws0 := Laws) V mem m hd' l' _ Ht Hl' Hdis).
  - destruct (push_front_spec (LinkHeapLaws0 := Laws) V mem hd l item Hl Hv Hnew) as (m & ? & ? & Ht).
    exists m. split_and!; [done..|].
    exact (is_list_frame (LinkHeapLaws0 := Laws) V mem m hd' l' _ Ht Hl' Hdis).
  - intros x l0 ->.
    destruct (pop_front_spec (LinkHeapLaws0 := Laws) V mem hd x l0 Hl) as (m & ? & ? & Ht).
    exists m. split_and!; [|done|done|].
    + apply (is_list_next (LinkHeapLaws0 := Laws) V mem hd (x :: l0) Hl).
    + refine (is_list_frame (LinkHeapLaws0 := Laws) V mem m hd' l' _ Ht Hl' _).
      intros b Hb. apply Hdis. by right.
Qed.

(** ** Concrete lists *)

(** The list [1; 2; 3] headed at 100, the list [4] headed at 200, and an object
    300 of no list. *)
Definition ex_links : links := {|
  l_next := list_to_map [(100, 1); (1, 2); (2, 3); (3, 100); (200, 4); (4, 200); (300, 0)];
  l_prev := list_to_map [(1, 100); (2, 1); (3, 2); (100, 3); (4, 200); (200, 4); (300, 0)]
|}.

Ltac list_by_computation :=
  split; [apply (bool_decide_unpack _); by vm_compute
         |repeat constructor; vm_compute; eauto
         |vm_compute; tauto].

Lemma ex_list1 : is_list links_valid ex_links 100 [1; 2; 3].
Proof. list_by_computation. Qed.

Lemma ex_list2 : is_list links_valid ex_links 200 [4].
Proof. list_by_computation. Qed.

Lemma intrusive_erase_refines_witness :
  ∃ h' n, erase ex_links 2 = Ok (n, h') ∧ n = 3 ∧ is_list links_valid h' 100 [1; 3].
Proof.
  destruct (intrusive_erase_refines ex_links 100 [1] 2 [3] 200 [4]) as (h' & n & He & Hn & Hl & _).
  - exact ex_list1.
  - exact ex_list2.
  - set_solver.
  - eauto.
Defined.

Lemma intrusive_move_assign_refines_witness :
  ∃ h', move_assign ex_links 300 100 = Ok h' ∧ is_list links_valid h' 300 [1; 2; 3].
Proof.
  destruct (intrusive_move_assign_refines ex_links 300 100 [1; 2; 3]) as (h' & Hm & Hl & _).
  - exact ex_list1.
  - vm_compute. eauto.
  - set_solver.
  - eauto.
Defined.

(** The same with links at byte 16 of each object and bare heads. *)
Definition ex_mem : gmap Z Z :=
  list_to_map [(1024 + 16, 4096); (1024 + 24, 4096); (4096 + 16, 1024); (4096 + 24, 1024);
               (2048 + 16, 0); (2048 + 24, 0); (8192 + 16, 8192); (8192 + 24, 8192)].

Lemma list2_deque_refines_witness :
  ∃ mem', List2.push_back2 16 ex_mem (4096 + 16) 2048 = Ok mem' ∧
    @is_list _ (List2.memory_heap 16) (mem_valid 16) mem' 4096 [1024; 2048].
Proof.
  destruct (list2_deque_refines 16 ex_mem (4096 + 16) [1024] 2048 8192 []) as ((mem' & Hm & Hl & _) & _).
  - split; [apply (bool_decide_unpack _); by vm_compute
         |repeat constructor; vm_compute; eauto
         |vm_compute; tauto].
  - vm_compute. eauto.
  - set_solver.
  - split; [apply (bool_decide_unpack _); by vm_compute
         |repeat constructor; vm_compute; eauto
         |vm_compute; tauto].
  - set_solver.
  - eauto.
Defined.
