(* ===== verification/Vector.v ===== *)
(** * Model of core/vector.h, core/simple_vector.h and of the allocator's Vector

    The vectors manage raw storage by hand: they construct, move, assign and
    destroy objects in it.  A block of storage is a list of cells that says
    where an object is alive; using an object that is not there is undefined. *)

From Stdlib Require Import ZArith Lia.
From stdpp Require Import base option list.
From S2P Require Import Prelude.

(** ** Object lifetimes *)

(** A cell is raw memory or holds an object; an object that was moved from is
    alive but has no value of its own. *)
Inductive cell (T : Type) := Raw | Obj (o : option T).
Arguments Raw {T}.
Arguments Obj {T} o.

Section cells.
Context {T : Type}.
Implicit Types (m : list (cell T)) (i : Z) (v : T).

(** [new (p) T(v)]. *)
Definition construct m i v : outcome (list (cell T)) := arr_set m i (Obj (Some v)).

(** [p->~T()]. *)
Definition destroy m i : outcome (list (cell T)) :=
  let! c := arr_get m i in
  match c with Obj _ => arr_set m i Raw | Raw => Undef end.

(** Reading [*p]. *)
Definition get m i : outcome T :=
  let! c := arr_get m i in
  match c with Obj (Some v) => Ok v | _ => Undef end.

(** [*p = v]: only an object can be assigned to. *)
Definition assign m i v : outcome (list (cell T)) :=
  let! c := arr_get m i in
  match c with Obj _ => arr_set m i (Obj (Some v)) | Raw => Undef end.

(** [std::move( *p)]: the value, and the object left without it. *)
Definition move_out m i : outcome (T * list (cell T)) :=
  let! v := get m i in
  let! m := arr_set m i (Obj None) in Ok (v, m).

(** [*dst = std::move( *src)]. *)
Definition move_assign_cell m (dst src : Z) : outcome (list (cell T)) :=
  let! '(v, m) := move_out m src in assign m dst v.

(** [new (dst) T(std::move( *src))]. *)
Definition move_construct_cell m (dst src : Z) : outcome (list (cell T)) :=
  let! '(v, m) := move_out m src in construct m dst v.

(** [for (i = b; i != e; ++i) i->~T()] over [n] cells. *)
Fixpoint destroy_range (n : nat) m (b : Z) : outcome (list (cell T)) :=
  match n with
  | O => Ok m
  | S n => let! m := destroy m b in destroy_range n m (b + 1)
  end.

(** The loop that destroys from the end down. *)
Fixpoint destroy_down (n : nat) m (e : Z) : outcome (list (cell T)) :=
  match n with
  | O => Ok m
  | S n => let! m := destroy m (e - 1) in destroy_down n m (e - 1)
  end.

(** [memmove] or [memcpy] of [n] cells within or between blocks. *)
Definition copy_cells (src : list (cell T)) (from : Z) (n : nat) (dst : list (cell T)) (to : Z) :
    outcome (list (cell T)) :=
  if bool_decide (0 ≤ from ∧ from + Z.of_nat n ≤ Z.of_nat (length src) ∧
                  0 ≤ to ∧ to + Z.of_nat n ≤ Z.of_nat (length dst))
  then Ok (take (Z.to_nat to) dst ++ take n (drop (Z.to_nat from) src)
             ++ drop (Z.to_nat to + n) dst)
  else Undef.

(** The two loops of [move], over [n] objects. *)
Fixpoint move_forward (n : nat) m (dst i : Z) : outcome (list (cell T)) :=
  match n with
  | O => Ok m
  | S n => let! m := move_assign_cell m dst i in move_forward n m (dst + 1) (i + 1)
  end.

Fixpoint move_backward (n : nat) m (dsti i : Z) : outcome (list (cell T)) :=
  match n with
  | O => Ok m
  | S n => let! m := move_assign_cell m (dsti - 1) (i - 1) in move_backward n m (dsti - 1) (i - 1)
  end.

(** Value-initialised objects, [new (i) T()], over [n] cells. *)
Fixpoint construct_range (init : T) (n : nat) m (b : Z) : outcome (list (cell T)) :=
  match n with
  | O => Ok m
  | S n => let! m := construct m b init in construct_range init n m (b + 1)
  end.

(** Objects constructed from those of another block, which are moved from. *)
Fixpoint move_construct_range (n : nat) (src dst : list (cell T)) (i d : Z) :
    outcome (list (cell T) * list (cell T)) :=
  match n with
  | O => Ok (src, dst)
  | S n =>
      let! '(v, src) := move_out src i in
      let! dst := construct dst d v in
      move_construct_range n src dst (i + 1) (d + 1)
  end.

(** Objects constructed as copies of [l]. *)
Fixpoint construct_list m (b : Z) (l : list T) : outcome (list (cell T)) :=
  match l with
  | [] => Ok m
  | v :: l => let! m := construct m b v in construct_list m (b + 1) l
  end.
End cells.

(** A distance between pointers used as a loop count. *)
Definition count (b e : Z) : outcome nat := if b <=? e then Ok (Z.to_nat (e - b)) else Undef.

(** ** [InternalAllocator] (core/commondefs.h) *)

Section allocator.
Context {T : Type} (sizeofT alloc_max : Z).

(** [allocate(n)]: the number of bytes is computed in 64 bits; [internalAlloc]
    returns null for more than [alloc_max] of them. *)
Definition allocate (n : Z) : outcome (list (cell T)) :=
  let bytes := u64 (sizeofT * n) in
  if alloc_max <? bytes then Throw BadAlloc
  else Ok (replicate (Z.to_nat (bytes / sizeofT)) Raw).
End allocator.

(** ** [Vector] *)

Section vector.
(** [std::is_trivially_copyable_v<T>], [sizeof(T)], the allocator's limit and
    the value of [T()]. *)
Context {T : Type} (trivial : bool) (sizeofT alloc_max : Z) (init : T).

(** The pointers are offsets from [storagebegin], which is null when there is no
    storage. *)
Record Vector := mkVector {
  storage : option (list (cell T));
  storageend : Z;
  beginptr : Z;
  endptr : Z;
  msize : Z
}.

Implicit Types (v n : Vector).

Definition vector_init : Vector := mkVector None 0 0 0 0.

Definition cells v : list (cell T) := default [] (storage v).

Definition with_cells v (m : list (cell T)) : Vector :=
  mkVector (match storage v with Some _ => Some m | None => None end)
    (storageend v) (beginptr v) (endptr v) (msize v).

Definition size v : Z := msize v.
Definition empty v : bool := msize v =? 0.
Definition capacity v : Z := u64 (storageend v - beginptr v).

(** [operator[]] as an rvalue, and [at]. *)
Definition index v (i : Z) : outcome T := get (cells v) (beginptr v + i).
Definition at_ v (i : Z) : outcome T :=
  if i >=? msize v then Throw OutOfRange else index v i.
Definition front v : outcome T := get (cells v) (beginptr v).
Definition back v : outcome T := get (cells v) (endptr v - 1).

Definition clear v : outcome Vector :=
  let! n := count (beginptr v) (endptr v) in
  let! m := destroy_range n (cells v) (beginptr v) in
  let v := with_cells v m in
  Ok (mkVector (storage v) (storageend v) 0 0 0).

(** [move(dst, begin, end)]. *)
Definition move (m : list (cell T)) (dst begin end_ : Z) : outcome (list (cell T)) :=
  let! n := count begin end_ in
  if trivial then copy_cells m begin n m dst
  else if dst <=? begin then move_forward n m dst begin
  else move_backward n m (dst + (end_ - begin)) end_.

(** The loop of [erase] that moves into the storage before [beginptr]. *)
Fixpoint compact (fuel : nat) (m : list (cell T)) (sbi bi b e : Z) :
    outcome (list (cell T) * Z * Z) :=
  if (sbi =? b) || (bi =? e) then Ok (m, sbi, bi)
  else
    match fuel with
    | O => NoFuel
    | S fuel =>
        let! m := move_construct_cell m sbi bi in
        compact fuel m (sbi + 1) (bi + 1) b e
    end.

(** [erase(begin, end)]. *)
Definition erase v (begin end_ : Z) : outcome Vector :=
  let! n := count begin end_ in
  let msize' := u64 (msize v - Z.of_nat n) in
  let! v :=
    if begin =? beginptr v then
      let! m := destroy_range n (cells v) begin in
      let b := end_ in
      let e := endptr v in
      let unused := u64 b in
      if negb (b =? e) && ((unused >? msize') && (unused >=? 1024 * 512 / sizeofT)) then
        let! m :=
          if trivial then move m 0 b e
          else
            let! '(m, sbi, bi) := compact (Z.to_nat (e - b)) m 0 b b e in
            let! m := move m sbi bi e in
            let! k := count bi e in
            destroy_range k m bi in
        Ok (mkVector (storage (with_cells v m)) (storageend v) 0 msize' msize')
      else Ok (mkVector (storage (with_cells v m)) (storageend v) b e msize')
    else
      let! m := move (cells v) begin end_ (endptr v) in
      let! m := destroy_range n m (endptr v - Z.of_nat n) in
      Ok (mkVector (storage (with_cells v m)) (storageend v) (beginptr v)
            (endptr v - Z.of_nat n) msize') in
  if beginptr v =? endptr v
  then Ok (mkVector (storage v) (storageend v) 0 0 (msize v))
  else Ok v.

(** [erase(at)]: the offset of the element after. *)
Definition erase_at v (pos : Z) : outcome (Z * Vector) :=
  let i := pos - beginptr v in
  let! v := erase v pos (pos + 1) in
  Ok (beginptr v + i, v).

Definition reserveImpl v (n : Z) : outcome Vector :=
  let! newptr := allocate sizeofT alloc_max n in
  let! newptr :=
    match storage v with
    | None => Ok newptr
    | Some m =>
        if trivial then copy_cells m (beginptr v) (Z.to_nat (msize v)) newptr 0
        else
          let! k := count (beginptr v) (endptr v) in
          let! '(m, newptr) := move_construct_range k m newptr (beginptr v) 0 in
          let! m := destroy_range k m (beginptr v) in
          Ok newptr
    end in
  Ok (mkVector (Some newptr) n 0 (msize v) (msize v)).

Definition reserve v (n : Z) : outcome Vector :=
  if n <=? capacity v then Ok v else reserveImpl v n.

Definition expand v : outcome Vector := reserveImpl v (Z.max (u64 (capacity v * 2)) 16).

Definition resize v (n : Z) : outcome Vector :=
  let! v :=
    if msize v >? n then
      let! k := count (beginptr v + n) (endptr v) in
      let! m := destroy_down k (cells v) (endptr v) in
      Ok (with_cells v m)
    else if n >? msize v then
      let! v := reserve v n in
      let! k := count (endptr v) (beginptr v + n) in
      let! m := construct_range init k (cells v) (endptr v) in
      Ok (with_cells v m)
    else Ok v in
  Ok (mkVector (storage v) (storageend v) (beginptr v) (beginptr v + n) n).

(** [emplace_back] and [push_back]; the branch that assumes a full vector is
    full is undefined otherwise. *)
Definition make_room v : outcome Vector :=
  if endptr v =? storageend v then
    if negb (capacity v =? size v) then Undef else expand v
  else Ok v.

Definition emplace_back v (x : T) : outcome Vector :=
  let! v := make_room v in
  let! m := construct (cells v) (endptr v) x in
  Ok (mkVector (storage (with_cells v m)) (storageend v) (beginptr v) (endptr v + 1)
        (u64 (msize v + 1))).

Definition push_back v (x : T) : outcome Vector := emplace_back v x.

Definition pop_back v : outcome Vector :=
  let! m := destroy (cells v) (endptr v - 1) in
  Ok (mkVector (storage (with_cells v m)) (storageend v) (beginptr v) (endptr v - 1)
        (u64 (msize v - 1))).

Definition pop_front v : outcome Vector := erase v (beginptr v) (beginptr v + 1).

(** [pop_front_value] and [pop_back_value]. *)
Definition pop_front_value v : outcome (T * Vector) :=
  let! '(r, m) := move_out (cells v) (beginptr v) in
  let! v := pop_front (with_cells v m) in Ok (r, v).
Definition pop_back_value v : outcome (T * Vector) :=
  let! '(r, m) := move_out (cells v) (endptr v - 1) in
  let! v := pop_back (with_cells v m) in Ok (r, v).

(** [insert(at, value)] and [emplace(at, value)]: the offset of the new element. *)
Definition insert v (pos : Z) (x : T) : outcome (Z * Vector) :=
  if pos =? endptr v then
    let! v := push_back v x in Ok (endptr v - 1, v)
  else
    let i := pos - beginptr v in
    let! v' := make_room v in
    let pos := if endptr v =? storageend v then beginptr v' + i else pos in
    let! m := construct (cells v') (endptr v') init in
    let e := endptr v' + 1 in
    let! m := move m (pos + 1) pos (e - 1) in
    let! m := assign m pos x in
    Ok (pos, mkVector (storage (with_cells v' m)) (storageend v') (beginptr v') e
               (u64 (msize v' + 1))).

(** The elements of a range, as the copy loops read them. *)
Fixpoint read_range (n : nat) (m : list (cell T)) (b : Z) : outcome (list T) :=
  match n with
  | O => Ok []
  | S n => let! x := get m b in let! l := read_range n m (b + 1) in Ok (x :: l)
  end.

(** Copy assignment from another vector. *)
Definition copy_assign v n : outcome Vector :=
  let! v := clear v in
  let! v := reserve v (size n) in
  let! l := read_range (Z.to_nat (size n)) (cells n) (beginptr n) in
  let! m := construct_list (cells v) (endptr v) l in
  Ok (mkVector (storage (with_cells v m)) (storageend v) (beginptr v)
        (endptr v + size n) (u64 (msize v + size n))).

(** [operator==]. *)
Definition vector_eq (eqb : T → T → bool) v n : outcome bool :=
  if negb (msize v =? msize n) then Ok false
  else
    let! l := read_range (Z.to_nat (msize v)) (cells v) (beginptr v) in
    let! k := read_range (Z.to_nat (msize v)) (cells n) (beginptr n) in
    Ok (forallb (λ p, eqb p.1 p.2) (zip l k)).

(** [Vector(begin, end)]. *)
Fixpoint of_range v (l : list T) : outcome Vector :=
  match l with
  | [] => Ok v
  | x :: l => let! v := push_back v x in of_range v l
  end.

(** Move assignment exchanges the two vectors. *)
Definition move_assign v n : Vector * Vector := (n, v).

(** [~Vector()]: what is left in the storage when it is given back. *)
Definition destruct_ v : outcome (list (cell T)) :=
  let! v := if negb (beginptr v =? endptr v) then clear v else Ok v in
  Ok (cells v).
End vector.

Arguments Vector : clear implicits.

(** ** [SimpleVector]

    It owns one block of the allocator at a time, and forgets which one when it
    is cleared, so the allocator's blocks are part of the state. *)

Module SimpleVector.
Section simple_vector.
Context {T : Type} (trivial : bool) (sizeofT alloc_max : Z) (init : T).

(** The blocks allocated so far; [None] for one that was given back. *)
Definition heap : Type := list (option (list (cell T))).

Record SimpleVector := mkSimple {
  sv_begin : option nat;   (** the block, or null *)
  sv_msize : Z
}.

Implicit Types (h : heap) (v n : SimpleVector).

Definition simple_init : SimpleVector := mkSimple None 0.

(** The cells of a live block. *)
Definition block h (p : option nat) : outcome (list (cell T)) :=
  let! p := of_option p in
  let! b := of_option (h !! p) in
  of_option b.

Definition set_block h (p : option nat) (m : list (cell T)) : outcome heap :=
  let! p := of_option p in
  let! b := of_option (h !! p) in
  let! _ := of_option b in
  Ok (<[p := Some m]> h).

(** [deallocate(p)], that is [internalFree]: null is ignored, a block that is
    not allocated must not be freed. *)
Definition deallocate h (p : option nat) : outcome heap :=
  match p with
  | None => Ok h
  | Some p =>
      let! b := of_option (h !! p) in
      let! _ := of_option b in
      Ok (<[p := None]> h)
  end.

Definition sv_size v : Z := sv_msize v.
Definition sv_empty v : bool := sv_msize v =? 0.

Definition sv_index h v (i : Z) : outcome T := let! m := block h (sv_begin v) in get m i.
Definition sv_at h v (i : Z) : outcome T :=
  if i >=? sv_msize v then Throw OutOfRange else sv_index h v i.

Definition sv_clear h v : outcome (heap * SimpleVector) :=
  if negb (sv_msize v =? 0) then
    let! m := block h (sv_begin v) in
    let! m := destroy_down (Z.to_nat (sv_msize v)) m (sv_msize v) in
    let! h := set_block h (sv_begin v) m in
    let! h := deallocate h (sv_begin v) in
    Ok (h, mkSimple (sv_begin v) 0)
  else Ok (h, v).

(** [move(dst, begin, end)] from one block into another: [memmove], or move
    assignment object by object. *)
Fixpoint move_assign_range (n : nat) (src dst : list (cell T)) (i d : Z) :
    outcome (list (cell T) * list (cell T)) :=
  match n with
  | O => Ok (src, dst)
  | S n =>
      let! '(x, src) := move_out src i in
      let! dst := assign dst d x in
      move_assign_range n src dst (i + 1) (d + 1)
  end.

Definition sv_move (src dst : list (cell T)) (n : nat) :
    outcome (list (cell T) * list (cell T)) :=
  if trivial then let! dst := copy_cells src 0 n dst 0 in Ok (src, dst)
  else move_assign_range n src dst 0 0.

(** [resize(n)]; shrinking destroys and then fails a [CHECK]. *)
Definition sv_resize h v (n : Z) : outcome (heap * SimpleVector) :=
  if sv_msize v >? n then
    let! m := block h (sv_begin v) in
    let! _ := destroy_down (Z.to_nat (sv_msize v - n)) m (sv_msize v) in
    Throw CheckFailed
  else if n >? sv_msize v then
    let! new := allocate sizeofT alloc_max n in
    let! src := if sv_msize v =? 0 then Ok [] else block h (sv_begin v) in
    let! '(src, new) := sv_move src new (Z.to_nat (sv_msize v)) in
    let! h := if sv_msize v =? 0 then Ok h else set_block h (sv_begin v) src in
    let! h := deallocate h (sv_begin v) in
    let! new := construct_range init (Z.to_nat (n - sv_msize v)) new (sv_msize v) in
    Ok (h ++ [Some new], mkSimple (Some (length h)) n)
  else Ok (h, mkSimple (sv_begin v) n).

(** Assignments from the last element down. *)
Fixpoint assign_down (k : nat) (m : list (cell T)) (l : list T) : outcome (list (cell T)) :=
  match k with
  | O => Ok m
  | S k =>
      let! x := of_option (l !! k) in
      let! m := assign m (Z.of_nat k) x in
      assign_down k m l
  end.

(** Copy assignment from a vector that holds [l]. *)
Definition sv_copy_assign h v (l : list T) : outcome (heap * SimpleVector) :=
  let! '(h, v) := sv_resize h v (Z.of_nat (length l)) in
  match l with
  | [] => Ok (h, v)
  | _ =>
      let! m := block h (sv_begin v) in
      let! m := assign_down (length l) m l in
      let! h := set_block h (sv_begin v) m in
      Ok (h, v)
  end.

(** [~SimpleVector()]. *)
Definition sv_destruct h v : outcome heap :=
  let! '(h, _) := sv_clear h v in Ok h.
End simple_vector.
End SimpleVector.

(** ** The allocator's own [Vector] (core/moo_allocator_impl.h), on [mmap]ed memory *)

Module Bootstrap.
Section bootstrap.
Context {T : Type} (trivial : bool).

(** [data_] is null when there is no block; [bootstrap_alloc] succeeds. *)
Record BVector := mkB {
  data_ : option (list (cell T));
  size_ : Z;
  capacity_ : Z
}.

Implicit Types (v : BVector).

Definition b_init : BVector := mkB None 0 0.
Definition b_cells v : list (cell T) := default [] (data_ v).
Definition b_set v (m : list (cell T)) (n : Z) : BVector :=
  mkB (match data_ v with Some _ => Some m | None => None end) n (capacity_ v).

Definition b_clear v : outcome BVector :=
  let! m := destroy_range (Z.to_nat (size_ v)) (b_cells v) 0 in Ok (b_set v m 0).

(** Each object is moved and then destroyed. *)
Fixpoint relocate (n : nat) (src dst : list (cell T)) (i : Z) :
    outcome (list (cell T) * list (cell T)) :=
  match n with
  | O => Ok (src, dst)
  | S n =>
      let! '(x, src) := move_out src i in
      let! dst := construct dst i x in
      let! src := destroy src i in
      relocate n src dst (i + 1)
  end.

Definition b_reserve v (n : Z) : outcome BVector :=
  if n <=? capacity_ v then Ok v
  else
    let newData := replicate (Z.to_nat n) Raw in
    let! newData :=
      match data_ v with
      | None => Ok newData
      | Some m =>
          if trivial then copy_cells m 0 (Z.to_nat (size_ v)) newData 0
          else let! '(_, newData) := relocate (Z.to_nat (size_ v)) m newData 0 in Ok newData
      end in
    Ok (mkB (Some newData) (size_ v) n).

Definition b_push_back v (x : T) : outcome BVector :=
  let! v :=
    if size_ v =? capacity_ v then
      let newCap := u64 (capacity_ v * 2) in
      let newCap := if newCap <? 16 then 16 else newCap in
      b_reserve v newCap
    else Ok v in
  let! m := construct (b_cells v) (size_ v) x in
  Ok (b_set v m (size_ v + 1)).

(** [for (i = size_; i > idx; --i)]: the first move constructs, the others assign. *)
Fixpoint shift_up (n : nat) (m : list (cell T)) (i size : Z) : outcome (list (cell T)) :=
  match n with
  | O => Ok m
  | S n =>
      let! m := if i =? size then move_construct_cell m i (i - 1) else move_assign_cell m i (i - 1) in
      shift_up n m (i - 1) size
  end.

Definition b_insert v (idx : Z) (x : T) : outcome (Z * BVector) :=
  let! v :=
    if size_ v =? capacity_ v then b_reserve v (Z.max (u64 (capacity_ v * 2)) 16) else Ok v in
  let! m := shift_up (Z.to_nat (size_ v - idx)) (b_cells v) (size_ v) (size_ v) in
  let! m := if idx <? size_ v then assign m idx x else construct m idx x in
  Ok (idx, b_set v m (size_ v + 1)).

(** [for (i = idx; i + 1 < size_; ++i)]: construct from the next, destroy it. *)
Fixpoint shift_down (n : nat) (m : list (cell T)) (i : Z) : outcome (list (cell T)) :=
  match n with
  | O => Ok m
  | S n =>
      let! m := move_construct_cell m i (i + 1) in
      let! m := destroy m (i + 1) in
      shift_down n m (i + 1)
  end.

Definition b_erase v (idx : Z) : outcome (Z * BVector) :=
  let! m := destroy (b_cells v) idx in
  let! m := shift_down (Z.to_nat (size_ v - 1 - idx)) m idx in
  Ok (idx, b_set v m (size_ v - 1)).
End bootstrap.
End Bootstrap.
