(* ===== verification/VectorFacts.v ===== *)
(** * Correctness of the vectors

    Every operation keeps track of which cells hold objects, and acts on the
    sequence of elements as the corresponding list operation. *)

From Stdlib Require Import ZArith Lia.
From stdpp Require Import base option list.
From S2P Require Import Prelude Vector.

Local Set Warnings "-clear-no-such-hyp".

(** ** Cells in the middle of a block *)

Definition len {A} (l : list A) : Z := Z.of_nat (length l).

Lemma len_app {A} (l k : list A) : len (l ++ k) = len l + len k.
Proof. unfold len. rewrite length_app. lia. Qed.

Lemma len_cons {A} (x : A) l : len (x :: l) = 1 + len l.
Proof. unfold len. cbn [length]. lia. Qed.

Lemma len_nonneg {A} (l : list A) : 0 ≤ len l.
Proof. unfold len. lia. Qed.

Lemma len_fmap {A B} (f : A → B) l : len (f <$> l) = len l.
Proof. unfold len. by rewrite length_fmap. Qed.

(** Shifting the view of a block by one cell. *)
Lemma len_snoc {A} (l : list A) x : len l + 1 = len (l ++ [x]).
Proof. rewrite len_app, len_cons. unfold len. simpl. lia. Qed.

Lemma cons_snoc {A} (l : list A) x k : l ++ x :: k = (l ++ [x]) ++ k.
Proof. by rewrite <- (assoc_L (++)). Qed.

Section cells.
Context {T : Type}.
Implicit Types (pre post m : list (cell T)) (c : cell T) (v : T) (o : option T) (l : list T).

(** Objects with these values. *)
Definition live l : list (cell T) := (λ v, Obj (Some v)) <$> l.

Lemma live_app l k : live (l ++ k) = live l ++ live k.
Proof. apply fmap_app. Qed.

Lemma live_cons v l : live (v :: l) = Obj (Some v) :: live l.
Proof. done. Qed.

Lemma len_live l : len (live l) = len l.
Proof. apply len_fmap. Qed.

Lemma get_cell_mid pre c post : arr_get (pre ++ c :: post) (len pre) = Ok c.
Proof. apply arr_get_mid. Qed.

Lemma set_cell_mid pre c post x : arr_set (pre ++ c :: post) (len pre) x = Ok (pre ++ x :: post).
Proof. apply arr_set_mid. Qed.

Lemma construct_mid pre c post v :
  construct (pre ++ c :: post) (len pre) v = Ok (pre ++ Obj (Some v) :: post).
Proof. apply set_cell_mid. Qed.

Lemma destroy_mid pre o post :
  destroy (pre ++ Obj o :: post) (len pre) = Ok (pre ++ Raw :: post).
Proof. unfold destroy. rewrite get_cell_mid. cbn [obind]. apply set_cell_mid. Qed.

Lemma get_mid pre v post : get (pre ++ Obj (Some v) :: post) (len pre) = Ok v.
Proof. unfold get. by rewrite get_cell_mid. Qed.

Lemma assign_mid pre o post v :
  assign (pre ++ Obj o :: post) (len pre) v = Ok (pre ++ Obj (Some v) :: post).
Proof. unfold assign. rewrite get_cell_mid. cbn [obind]. apply set_cell_mid. Qed.

Lemma move_out_mid pre v post :
  move_out (pre ++ Obj (Some v) :: post) (len pre) = Ok (v, pre ++ Obj None :: post).
Proof. unfold move_out. rewrite get_mid. cbn [obind]. by rewrite set_cell_mid. Qed.

Lemma destroy_range_mid pre (os : list (option T)) post :
  destroy_range (length os) (pre ++ (Obj <$> os) ++ post) (len pre) =
  Ok (pre ++ replicate (length os) Raw ++ post).
Proof.
  revert pre. induction os as [|o os IH]; intros pre; [done|].
  cbn [length destroy_range fmap list_fmap app replicate].
  rewrite destroy_mid. cbn [obind]. rewrite (cons_snoc pre), (len_snoc pre Raw), IH.
  by rewrite <- (assoc_L (++)).
Qed.

Lemma destroy_down_mid pre (os : list (option T)) post :
  destroy_down (length os) (pre ++ (Obj <$> os) ++ post) (len pre + len os) =
  Ok (pre ++ replicate (length os) Raw ++ post).
Proof.
  revert post. induction os as [|o os IH] using rev_ind; intros post; [done|].
  rewrite length_app. cbn [length]. rewrite Nat.add_1_r. cbn [destroy_down].
  rewrite fmap_app, <- (assoc_L (++)). cbn [fmap list_fmap app].
  assert (len pre + len (os ++ [o]) - 1 = len (pre ++ (Obj <$> os))) as ->
    by (rewrite !len_app, len_fmap, len_cons; unfold len; simpl; lia).
  rewrite (assoc_L (++) pre), destroy_mid. cbn [obind].
  rewrite len_app, len_fmap, <- (assoc_L (++)), IH, replicate_S_end, <- (assoc_L (++)). done.
Qed.

Lemma construct_range_mid init pre m post :
  construct_range init (length m) (pre ++ m ++ post) (len pre) =
  Ok (pre ++ live (replicate (length m) init) ++ post).
Proof.
  revert pre. induction m as [|c m IH]; intros pre; [done|].
  cbn [length construct_range app replicate]. rewrite construct_mid. cbn [obind].
  rewrite (cons_snoc pre), (len_snoc pre (Obj (Some init))), IH, <- (assoc_L (++)). done.
Qed.

Lemma construct_list_mid pre l m post :
  length l = length m →
  construct_list (pre ++ m ++ post) (len pre) l = Ok (pre ++ live l ++ post).
Proof.
  revert pre m. induction l as [|v l IH]; intros pre [|c m] Hl; try done.
  cbn [construct_list app]. rewrite construct_mid. cbn [obind].
  rewrite (cons_snoc pre), (len_snoc pre (Obj (Some v))), IH by (by injection Hl).
  by rewrite <- (assoc_L (++)).
Qed.

Lemma move_construct_range_mid preS l postS preD m postD :
  length l = length m →
  move_construct_range (length l) (preS ++ live l ++ postS) (preD ++ m ++ postD) (len preS) (len preD) =
  Ok (preS ++ (Obj <$> replicate (length l) None) ++ postS, preD ++ live l ++ postD).
Proof.
  revert preS preD m. induction l as [|v l IH]; intros preS preD [|c m] Hl; try done.
  cbn [length move_construct_range]. rewrite live_cons. cbn [app].
  rewrite move_out_mid. cbn [obind]. rewrite construct_mid. cbn [obind].
  rewrite (cons_snoc preS), (cons_snoc preD).
  rewrite (len_snoc preS (Obj None)), (len_snoc preD (Obj (Some v))).
  rewrite IH by (by injection Hl). by rewrite <- !(assoc_L (++)).
Qed.

Lemma move_forward_mid pre (hole : list (option T)) l post :
  hole ≠ [] →
  ∃ os, length os = length hole ∧
    move_forward (length l) (pre ++ (Obj <$> hole) ++ live l ++ post) (len pre) (len pre + len hole) =
    Ok (pre ++ live l ++ (Obj <$> os) ++ post).
Proof.
  revert pre hole. induction l as [|v l IH]; intros pre [|h hole] Hne; try done.
  - by exists (h :: hole).
  - cbn [length move_forward]. unfold move_assign_cell. rewrite live_cons.
    rewrite (assoc_L (++) pre). cbn [app].
    assert (len pre + len (h :: hole) = len (pre ++ (Obj <$> h :: hole))) as Hl
      by (by rewrite len_app, len_fmap).
    rewrite Hl, move_out_mid. cbn [obind].
    rewrite <- (assoc_L (++)). cbn [fmap list_fmap app]. rewrite assign_mid. cbn [obind].
    destruct (IH (pre ++ [Obj (Some v)]) (hole ++ [None])) as (os & Hos & Hm); [by destruct hole|].
    exists os. split; [rewrite Hos, length_app; simpl; lia|].
    rewrite fmap_app, <- (assoc_L (++) (Obj <$> hole)), <- (assoc_L (++) pre) in Hm.
    rewrite <- (assoc_L (++) pre) in Hm. cbn [fmap list_fmap app] in Hm.
    rewrite (len_snoc pre (Obj (Some v))).
    replace (len (pre ++ Obj h :: (Obj <$> hole)) + 1)
      with (len (pre ++ [Obj (Some v)]) + len (hole ++ [None : option T])); [done|].
    rewrite !len_app, !len_cons, len_fmap. unfold len. simpl. lia.
Qed.

Lemma move_backward_mid pre l o post :
  ∃ o', move_backward (length l) (pre ++ live l ++ Obj o :: post)
          (len pre + len l + 1) (len pre + len l) =
        Ok (pre ++ Obj o' :: live l ++ post).
Proof.
  revert o post. induction l as [|v l IH] using rev_ind; intros o post; [by exists o|].
  rewrite length_app. cbn [length]. rewrite Nat.add_1_r. cbn [move_backward]. unfold move_assign_cell.
  rewrite live_app, <- (assoc_L (++)). cbn [live fmap list_fmap app].
  replace (len pre + len (l ++ [v]) - 1) with (len (pre ++ live l))
    by (rewrite !len_app, len_live, len_cons; unfold len; simpl; lia).
  rewrite (assoc_L (++) pre), move_out_mid. cbn [obind].
  replace (len pre + len (l ++ [v]) + 1 - 1) with (len ((pre ++ live l) ++ [@Obj T None]))
    by (rewrite !len_app, len_live, !len_cons; unfold len; simpl; lia).
  rewrite (cons_snoc (pre ++ live l)), assign_mid. cbn [obind].
  destruct (IH None (Obj (Some v) :: post)) as [o' Hm]. exists o'.
  rewrite <- !(assoc_L (++)). cbn [app].
  replace (len (pre ++ live l ++ [@Obj T None])) with (len pre + len l + 1)
    by (rewrite !len_app, len_live, len_cons; unfold len; simpl; lia).
  replace (len (pre ++ live l)) with (len pre + len l) by (by rewrite len_app, len_live).
  exact Hm.
Qed.

(** [memmove] between segments of two blocks. *)
Lemma copy_cells_mid preS m postS preD m' postD :
  length m = length m' →
  copy_cells (preS ++ m ++ postS) (len preS) (length m) (preD ++ m' ++ postD) (len preD) =
  Ok (preD ++ m ++ postD).
Proof.
  intros Hl. unfold copy_cells, len. rewrite bool_decide_true.
  - rewrite !Nat2Z.id, drop_app_length, !take_app_length, Hl, drop_app_add, drop_app_length. done.
  - rewrite !length_app. lia.
Qed.
End cells.

(** ** What a [Vector] holds *)

Lemma len_replicate {A} n (x : A) : len (replicate n x) = Z.of_nat n.
Proof. unfold len. by rewrite length_replicate. Qed.

(** Arithmetic on lengths. *)
Ltac lens :=
  repeat match goal with
  | H : _ = Ok _ |- _ => clear H
  | H : _ → Forall _ _ |- _ => clear H
  end;
  unfold len, live in *;
  repeat first
    [ progress rewrite ?length_cons, ?length_app, ?length_fmap, ?length_replicate, ?length_drop, ?length_take
    | match goal with
      | H : context [length (_ :: _)] |- _ => rewrite length_cons in H
      | H : context [length (_ ++ _)] |- _ => rewrite length_app in H
      | H : context [length (_ <$> _)] |- _ => rewrite length_fmap in H
      | H : context [length (replicate _ _)] |- _ => rewrite length_replicate in H
      end ];
  cbn [length] in *; lia.

(** Compute on the fields of a vector. *)
Ltac vred :=
  cbn [cells with_cells storage storageend beginptr endptr msize default from_option id obind
       capacity size empty fst snd].

Section vector.
Context {T : Type} (trivial : bool) (sizeofT alloc_max : Z) (init : T).
Hypothesis sizeofT_pos : 1 ≤ sizeofT.
Hypothesis alloc_max_lt : alloc_max < 2 ^ 64.
Implicit Types (pre post m : list (cell T)) (c : cell T) (x : T) (l k : list T) (v : Vector T).

(** No object with a value lives in the cell. *)
Definition dead c : Prop := match c with Obj (Some _) => False | _ => True end.

(** The vector holds the elements [l]: they are alive between its pointers, and
    outside of them no object is left behind (a trivial type has no lifetimes). *)
Inductive vrep : Vector T → list T → Prop :=
  | vrep_null : vrep vector_init []
  | vrep_block pre l post :
      (trivial = false → Forall dead (pre ++ post)) →
      sizeofT * (len pre + len l + len post) < 2 ^ 64 →
      vrep (mkVector (Some (pre ++ live l ++ post)) (len pre + len l + len post)
              (len pre) (len pre + len l) (len l)) l.

Lemma vrep_mk pre post m l se b e s :
  m = pre ++ live l ++ post →
  se = len pre + len l + len post → b = len pre → e = len pre + len l → s = len l →
  (trivial = false → Forall dead (pre ++ post)) →
  sizeofT * se < 2 ^ 64 →
  vrep (mkVector (Some m) se b e s) l.
Proof. intros -> -> -> -> -> ??. by apply vrep_block. Qed.

Lemma live_obj l : live l = Obj <$> (Some <$> l).
Proof. unfold live. by rewrite <- list_fmap_compose. Qed.

Lemma destroy_live pre l post :
  destroy_range (length l) (pre ++ live l ++ post) (len pre) =
  Ok (pre ++ replicate (length l) Raw ++ post).
Proof. rewrite live_obj. pose proof (destroy_range_mid pre (Some <$> l) post) as H. by rewrite length_fmap in H. Qed.

Lemma destroy_down_live pre l post :
  destroy_down (length l) (pre ++ live l ++ post) (len pre + len l) =
  Ok (pre ++ replicate (length l) Raw ++ post).
Proof.
  rewrite live_obj. pose proof (destroy_down_mid pre (Some <$> l) post) as H.
  by rewrite len_fmap, length_fmap in H.
Qed.

Lemma dead_raw n : Forall dead (replicate n Raw).
Proof. by apply Forall_replicate. Qed.

Lemma dead_none n : Forall dead (Obj <$> replicate n None).
Proof. rewrite fmap_replicate. by apply Forall_replicate. Qed.

Lemma count_nat b e n : e = b + Z.of_nat n → count b e = Ok n.
Proof.
  intros ->. unfold count. rewrite (proj2 (Z.leb_le _ _)) by lia. f_equal. lia.
Qed.

Lemma len_lt l pre post : sizeofT * (len pre + len l + len post) < 2 ^ 64 →
  0 ≤ len pre ∧ 0 ≤ len l ∧ 0 ≤ len post ∧ len pre + len l + len post < 2 ^ 64.
Proof. pose proof (len_nonneg pre). pose proof (len_nonneg l). pose proof (len_nonneg post). nia. Qed.

(** Allocation of a number of bytes that does not wrap. *)
Lemma allocate_ok n :
  0 ≤ n → sizeofT * n ≤ alloc_max →
  allocate sizeofT alloc_max n = Ok (replicate (Z.to_nat n) (@Raw T)).
Proof.
  intros Hn Hm. unfold allocate. rewrite u64_small by nia.
  rewrite (proj2 (Z.ltb_ge _ _)) by lia. by rewrite Z.mul_comm, Z.div_mul by lia.
Qed.

Lemma clear_ok v l : vrep v l → ∃ v', clear v = Ok v' ∧ vrep v' [] ∧ storageend v' = storageend v.
Proof.
  intros [|pre l' post Hd Hs]; unfold clear; vred.
  - eexists. split; [reflexivity|]. split; [constructor|done].
  - rewrite (count_nat _ _ (length l')) by lens. cbn [obind].
    rewrite destroy_live. vred.
    eexists. split; [reflexivity|]. split; [|done].
    apply (vrep_mk [] (pre ++ replicate (length l') Raw ++ post)); try lens; [done|].
    intros Ht. specialize (Hd Ht). apply Forall_app in Hd as [??]. cbn [app].
    apply Forall_app; split; [done|]. apply Forall_app; split; [apply dead_raw|done].
Qed.

Lemma compact_mid pre m l post B :
  len l ≤ len m → len pre + len l ≤ B →
  ∃ t, length t = length m ∧ (Forall dead m → Forall dead t) ∧
    compact (length l) (pre ++ m ++ live l ++ post) (len pre) (len pre + len m) B
      (len pre + len m + len l) =
    Ok (pre ++ live l ++ t ++ post, len pre + len l, len pre + len m + len l).
Proof.
  revert pre m. induction l as [|x l IH]; intros pre m Hm HB.
  - exists m. cbn [length compact]. rewrite (proj2 (Z.eqb_eq (len pre + len m) _)) by lens.
    rewrite orb_true_r. split; [done|]. split; [done|]. f_equal; f_equal; [f_equal|]; lens.
  - destruct m as [|c m]; [lens|]. cbn [length compact].
    rewrite (proj2 (Z.eqb_neq (len pre) B)) by (pose proof (len_nonneg l); lens).
    rewrite (proj2 (Z.eqb_neq (len pre + _) _)) by (pose proof (len_nonneg l); lens). cbn [orb].
    unfold move_construct_cell. rewrite live_cons, (assoc_L (++) pre). cbn [app].
    rewrite <- (len_app pre), move_out_mid. cbn [obind].
    rewrite <- (assoc_L (++)). cbn [app]. rewrite construct_mid. cbn [obind].
    destruct (IH (pre ++ [Obj (Some x)]) (m ++ [Obj None])) as (t & Ht & Hd & E); [lens..|].
    exists t. split; [lens|]. split.
    { intros [? ?]%Forall_cons. apply Hd, Forall_app. by repeat constructor. }
    rewrite <- !(assoc_L (++)) in E. cbn [app] in E.
    rewrite (len_snoc pre (Obj (Some x))).
    replace (len (pre ++ c :: m) + 1) with (len (pre ++ [Obj (Some x)]) + len (m ++ [Obj None])) by lens.
    replace (len (pre ++ c :: m) + len (x :: l))
      with (len (pre ++ [Obj (Some x)]) + len (m ++ [Obj None]) + len l) by lens.
    rewrite E. f_equal; f_equal; try f_equal; lens.
Qed.

(** [memmove] of [l] to the front of what lies before it. *)
Lemma copy_forward_mid pre m l post :
  copy_cells (pre ++ m ++ live l ++ post) (len pre + len m) (length l)
    (pre ++ m ++ live l ++ post) (len pre) =
  Ok (pre ++ live l ++ drop (length l) (m ++ live l) ++ post).
Proof.
  unfold copy_cells. rewrite bool_decide_true by lens. f_equal.
  replace (Z.to_nat (len pre + len m)) with (length (pre ++ m)) by lens.
  replace (Z.to_nat (len pre)) with (length pre) by lens.
  rewrite drop_app_add, take_app_length, (assoc_L (++) m), (drop_app_le (m ++ _)) by lens.
  rewrite <- (assoc_L (++) m), (assoc_L (++) pre m), drop_app_length.
  rewrite take_app_length' by lens. done.
Qed.

(** The objects of [move] that slide over the erased ones. *)
Lemma move_left_mid pre k l post :
  k ≠ [] →
  ∃ os, length os = length k ∧
    move trivial (pre ++ live k ++ live l ++ post) (len pre) (len pre + len k)
      (len pre + len k + len l) = Ok (pre ++ live l ++ (Obj <$> os) ++ post).
Proof.
  intros Hk. unfold move. rewrite (count_nat _ _ (length l)) by lens. vred.
  destruct trivial.
  - exists (drop (length l) ((Some <$> k) ++ (Some <$> l))). split; [lens|].
    rewrite <- (len_live k), copy_forward_mid, fmap_drop, fmap_app, <- !live_obj. done.
  - rewrite (proj2 (Z.leb_le _ _)) by lens.
    destruct (move_forward_mid pre (Some <$> k) l post) as (os & Hos & E); [by destruct k|].
    exists os. split; [lens|]. by rewrite <- live_obj, len_fmap in E.
Qed.

(** The objects of [move] that make room for one. *)
Lemma move_right_mid pre l x post :
  ∃ o, move trivial (pre ++ live l ++ Obj (Some x) :: post) (len pre + 1) (len pre) (len pre + len l)
       = Ok (pre ++ Obj o :: live l ++ post).
Proof.
  unfold move. rewrite (count_nat _ _ (length l)) by lens. vred. destruct trivial.
  - destruct (live l ++ [Obj (Some x)]) as [|c m] eqn:Hm; [by destruct l|].
    assert (∃ o, c = Obj o) as [o ->] by (destruct l; naive_solver). exists o.
    unfold copy_cells. rewrite bool_decide_true by lens. f_equal.
    replace (Z.to_nat (len pre + 1)) with (length pre + 1)%nat by lens.
    replace (Z.to_nat (len pre)) with (length pre) by lens.
    rewrite drop_app_length, take_app_add, <- Nat.add_assoc, drop_app_add.
    rewrite (take_app_length' (live l) _ (length l)) by lens.
    rewrite (cons_snoc (live l)), Hm. cbn [app]. rewrite <- (assoc_L (++)). cbn [app].
    assert (length m = length l) by (apply (f_equal length) in Hm; lens).
    cbn [take drop Nat.add]. rewrite take_0, drop_app_length' by lens. done.
  - rewrite (proj2 (Z.leb_gt _ _)) by lia.
    destruct (move_backward_mid pre l (Some x) post) as [o E]. exists o.
    replace (len pre + 1 + (len pre + len l - len pre)) with (len pre + len l + 1) by lia. done.
Qed.

Lemma reserveImpl_ok v l n :
  vrep v l → len l ≤ n → sizeofT * n ≤ alloc_max →
  ∃ post, reserveImpl trivial sizeofT alloc_max v n =
          Ok (mkVector (Some (live l ++ post)) n 0 (len l) (len l)) ∧
          len l + len post = n ∧ Forall dead post.
Proof.
  intros Hv Hn Ha. unfold reserveImpl.
  pose proof (len_nonneg l). rewrite allocate_ok by lia. vred.
  exists (replicate (Z.to_nat (n - len l)) Raw). split; [|split; [lens|apply dead_raw]].
  destruct Hv as [|pre l post Hd Hs]; vred.
  { by rewrite Z.sub_0_r. }
  replace (Z.to_nat n) with (length l + Z.to_nat (n - len l))%nat by lens. rewrite replicate_add.
  destruct trivial.
  - replace (Z.to_nat (len l)) with (length (live l)) by lens.
    pose proof (copy_cells_mid pre (live l) post [] (replicate (length l) Raw)
                  (replicate (Z.to_nat (n - len l)) Raw)) as E.
    cbn [app] in E. change (@len (cell T) []) with 0 in E. rewrite E by lens. done.
  - rewrite (count_nat _ _ (length l)) by lens. vred.
    pose proof (move_construct_range_mid pre l post [] (replicate (length l) Raw)
                  (replicate (Z.to_nat (n - len l)) Raw)) as E.
    cbn [app] in E. change (@len (cell T) []) with 0 in E. rewrite E by lens. vred.
    pose proof (destroy_range_mid pre (replicate (length l) None) post) as D.
    rewrite length_replicate in D. rewrite D. done.
Qed.

(** The allocator can double the storage. *)
Definition room v : Prop := sizeofT * Z.max (2 * storageend v) 16 ≤ alloc_max.

(** After [make_room] there is a cell after the last element. *)
Lemma make_room_ok v l :
  vrep v l → room v →
  ∃ pre c post, make_room trivial sizeofT alloc_max v =
      Ok (mkVector (Some (pre ++ live l ++ c :: post)) (len pre + len l + (1 + len post)) (len pre)
            (len pre + len l) (len l)) ∧
    (trivial = false → Forall dead (pre ++ post)) ∧
    sizeofT * (len pre + len l + (1 + len post)) < 2 ^ 64 ∧
    len pre = (if endptr v =? storageend v then 0 else beginptr v).
Proof.
  intros Hv Hr. unfold make_room, room in *. destruct (Z.eqb_spec (endptr v) (storageend v)) as [He|He].
  - assert (capacity v = len l ∧ size v = len l ∧ len l ≤ storageend v) as (Hc & Hz & Hle).
    { destruct Hv as [|pre l post Hd Hs]; [done|]. revert He. unfold capacity. vred. intros.
      apply len_lt in Hs. rewrite u64_small by lia. lia. }
    rewrite Hc, Hz, Z.eqb_refl. cbn [negb]. unfold expand. rewrite Hc.
    pose proof (len_nonneg l). rewrite u64_small by nia.
    destruct (reserveImpl_ok v l (Z.max (len l * 2) 16)) as (post & E & Hl & Hd); [done|lia|nia|].
    destruct post as [|c post]; [change (@len (cell T) []) with 0 in Hl; lia|].
    exists [], c, post. change (@len (cell T) []) with 0. cbn [app].
    rewrite len_cons in Hl. apply Forall_cons in Hd as [_ Hd].
    rewrite E, !Z.add_0_l, Hl. split; [done|]. split; [done|]. split; [nia|done].
  - destruct Hv as [|pre l post Hd Hs]; [done|]. revert He. vred. intros He.
    destruct post as [|c post]; [destruct He; lens|]. exists pre, c, post.
    rewrite len_cons in *. split; [done|]. split; [|done].
    intros Ht. specialize (Hd Ht). apply Forall_app in Hd as [? [??]%Forall_cons].
    by apply Forall_app.
Qed.

Lemma push_back_ok v l x :
  vrep v l → room v →
  ∃ v', push_back trivial sizeofT alloc_max v x = Ok v' ∧ vrep v' (l ++ [x]) ∧
        endptr v' = beginptr v' + len l + 1.
Proof.
  intros Hv Hr. destruct (make_room_ok v l Hv Hr) as (pre & c & post & E & Hd & Hs & _).
  unfold push_back, emplace_back. rewrite E. vred.
  rewrite (assoc_L (++)), <- (len_live l), <- (len_app pre), construct_mid. vred.
  eexists. split; [reflexivity|]. split.
  - apply (vrep_mk pre post); rewrite ?live_app; try lens; [by rewrite <- !(assoc_L (++))| |done].
    rewrite u64_small; lens.
  - vred. lens.
Qed.

(** Where the pointers of a vector are. *)
Lemma vrep_fields v l :
  vrep v l → 0 ≤ beginptr v ∧ endptr v = beginptr v + len l ∧ msize v = len l ∧
             endptr v ≤ storageend v < 2 ^ 64.
Proof.
  intros [|pre l' post Hd Hs]; vred; [by vm_compute|]. apply len_lt in Hs. lia.
Qed.

Lemma insert_ok v l k x :
  vrep v (l ++ k) → room v →
  ∃ p v', insert trivial sizeofT alloc_max init v (beginptr v + len l) x = Ok (p, v') ∧
          p = beginptr v' + len l ∧ vrep v' (l ++ x :: k).
Proof.
  intros Hv Hr. destruct (vrep_fields _ _ Hv) as (Hb & He & Hz & _).
  unfold insert. destruct k as [|y k].
  - rewrite app_nil_r in *. rewrite He, Z.eqb_refl.
    destruct (push_back_ok v l x Hv Hr) as (v' & E & Hv' & He'). rewrite E. vred.
    eexists _, v'. split; [reflexivity|]. split; [lia|done].
  - rewrite (proj2 (Z.eqb_neq _ _)) by (rewrite He; pose proof (len_nonneg k); lens).
    destruct (make_room_ok v _ Hv Hr) as (pre & c & post & E & Hd & Hs & Hp).
    rewrite E. vred.
    rewrite live_app, <- (assoc_L (++)), (assoc_L (++)), (assoc_L (++) (pre ++ live l)).
    replace (len pre + len (l ++ y :: k)) with (len ((pre ++ live l) ++ live (y :: k))) by lens.
    rewrite construct_mid. vred.
    replace (if endptr v =? storageend v then len pre + (beginptr v + len l - beginptr v)
             else beginptr v + len l) with (len (pre ++ live l))
      by (rewrite len_app, len_live, Hp; case_match; lia).
    destruct (move_right_mid (pre ++ live l) (y :: k) init post) as [o Em].
    rewrite <- (len_live (y :: k)), <- (len_app (pre ++ live l)), (assoc_L (++)) in Em.
    rewrite Z.add_simpl_r, Em. vred. rewrite assign_mid. vred.
    eexists _, _. split; [reflexivity|]. split; [vred; lens|].
    apply (vrep_mk pre post); rewrite ?live_app, ?live_cons; try lens; [|rewrite u64_small; lens|done].
    by rewrite <- !(assoc_L (++)).
Qed.

Lemma pop_back_ok v l x :
  vrep v (l ++ [x]) → ∃ v', pop_back v = Ok v' ∧ vrep v' l.
Proof.
  intros Hv. inversion Hv as [Hn|pre l' post Hd Hs]; subst; [by destruct l|]. apply len_lt in Hs as Hs'.
  unfold pop_back. vred. rewrite live_app, <- (assoc_L (++)), (assoc_L (++)). cbn [live fmap list_fmap app].
  replace (len pre + len (l ++ [x]) - 1) with (len (pre ++ live l)) by lens.
  rewrite destroy_mid. vred. eexists. split; [reflexivity|].
  apply (vrep_mk pre (Raw :: post)); try lens; [by rewrite <- (assoc_L (++))|rewrite u64_small; lens|].
  intros Ht. specialize (Hd Ht). apply Forall_app in Hd as [??]. apply Forall_app. by repeat constructor.
Qed.

Lemma obind_assoc_Ok {A} (c : outcome A) : (let! m := c in Ok m) = c.
Proof. by destruct c. Qed.

Lemma if_Ok {A} (b : bool) (x y : A) : (if b then Ok x else Ok y) = Ok (if b then x else y).
Proof. by destruct b. Qed.

(** The last step of [erase] rewinds the pointers of an empty vector. *)
Lemma rewind_ok st se b e s l :
  vrep (mkVector st se b e s) l →
  vrep (if b =? e then mkVector st se 0 0 s else mkVector st se b e s) l.
Proof.
  intros Hv. destruct (vrep_fields _ _ Hv) as (_ & He & _). cbn [beginptr endptr] in He.
  destruct (Z.eqb_spec b e) as [Hbe|]; [|done].
  assert (l = []) as -> by (destruct l; [done|]; pose proof (len_nonneg l); lens).
  inversion Hv as [Hn|pre l' post Hd Hs]; subst; [done|].
  apply (vrep_mk [] (pre ++ post)); try done; lens.
Qed.

(** The two ways in which the front of the storage is given up. *)
Lemma compaction_ok pre l post :
  (trivial = false → Forall dead (pre ++ post)) → len l < len pre →
  ∃ t, (let! m :=
          if trivial then move trivial (pre ++ live l ++ post) 0 (len pre) (len pre + len l)
          else
            let! '(m, sbi, bi) := compact (Z.to_nat (len pre + len l - len pre)) (pre ++ live l ++ post)
                                    0 (len pre) (len pre) (len pre + len l) in
            let! m := move trivial m sbi bi (len pre + len l) in
            let! k := count bi (len pre + len l) in
            destroy_range k m bi in Ok m) = Ok (live l ++ t ++ post) ∧
       length t = length pre ∧ (trivial = false → Forall dead (t ++ post)).
Proof.
  intros Hd Hl. unfold move. destruct trivial.
  - rewrite (count_nat _ _ (length l)) by lens. vred.
    pose proof (copy_forward_mid [] pre l post) as E.
    change (@len (cell T) []) with 0 in E. cbn [app] in E. rewrite Z.add_0_l in E. rewrite E. vred.
    eexists. split; [done|]. split; [lens|done].
  - destruct (compact_mid [] pre l post (len pre)) as (t & Ht & Hdt & E); [lia|lens|].
    change (@len (cell T) []) with 0 in E. cbn [app] in E. rewrite !Z.add_0_l in E.
    replace (Z.to_nat (len pre + len l - len pre)) with (length l) by lens. rewrite E. vred.
    rewrite (count_nat _ _ 0) by lia. vred. rewrite (proj2 (Z.leb_le _ _)) by lens.
    cbn [move_forward obind destroy_range].
    exists t. split; [done|]. split; [done|]. intros _. specialize (Hd eq_refl).
    apply Forall_app in Hd as [??]. apply Forall_app. auto.
Qed.

Lemma erase_middle_ok pre a k l post :
  a ≠ [] → k ≠ [] → 
  (trivial = false → Forall dead (pre ++ post)) →
  let v := mkVector (Some (pre ++ live (a ++ k ++ l) ++ post)) (len pre + len (a ++ k ++ l) + len post)
             (len pre) (len pre + len (a ++ k ++ l)) (len (a ++ k ++ l)) in
  sizeofT * storageend v < 2 ^ 64 →
  ∃ v', erase trivial sizeofT v (len pre + len a) (len pre + len a + len k) = Ok v' ∧ vrep v' (a ++ l).
Proof.
  intros Ha Hk Hd v Hs. apply len_lt in Hs as Hs'. unfold erase. subst v. vred.
  rewrite (count_nat _ _ (length k)) by lens. vred.
  rewrite (proj2 (Z.eqb_neq _ _)) by (destruct a; [done|lens]).
  destruct (move_left_mid (pre ++ live a) k l post Hk) as (os & Hos & E).
  rewrite <- !(assoc_L (++)) in E. rewrite !live_app, <- !(assoc_L (++)).
  replace (len pre + len a) with (len (pre ++ live a)) by lens.
  replace (len pre + len (a ++ k ++ l)) with (len (pre ++ live a) + len k + len l) by lens.
  rewrite E. vred. replace (length k) with (length os).
  replace (len (pre ++ live a) + len k + len l - Z.of_nat (length os))
    with (len (pre ++ live a ++ live l)) by lens.
  pose proof (destroy_range_mid (pre ++ live a ++ live l) os post) as D.
  rewrite <- !(assoc_L (++)) in D. rewrite D. vred.
  rewrite if_Ok. eexists. split; [reflexivity|].
  apply rewind_ok.
  apply (vrep_mk pre (replicate (length os) Raw ++ post)); rewrite ?live_app; try lens.
  - by rewrite <- !(assoc_L (++)).
  - rewrite u64_small; lens.
  - intros Ht. specialize (Hd Ht). apply Forall_app in Hd as [??].
    rewrite !Forall_app. auto using dead_raw.
  - replace (_ + len post) with (len pre + len (a ++ k ++ l) + len post) by lens. done.
Qed.

Lemma erase_front_ok pre k l post :
  (trivial = false → Forall dead (pre ++ post)) →
  let v := mkVector (Some (pre ++ live (k ++ l) ++ post)) (len pre + len (k ++ l) + len post)
             (len pre) (len pre + len (k ++ l)) (len (k ++ l)) in
  sizeofT * storageend v < 2 ^ 64 →
  ∃ v', erase trivial sizeofT v (len pre) (len pre + len k) = Ok v' ∧ vrep v' l.
Proof.
  intros Hd v Hs. apply len_lt in Hs as Hs'. unfold erase. subst v. vred. revert Hs. vred. intros Hs.
  rewrite (count_nat _ _ (length k)) by lens. vred. rewrite Z.eqb_refl.
  rewrite live_app, <- (assoc_L (++)), destroy_live. vred.
  assert (trivial = false → Forall dead ((pre ++ replicate (length k) Raw) ++ post)) as Hd'.
  { intros Ht. specialize (Hd Ht). apply Forall_app in Hd as [??]. rewrite !Forall_app. auto using dead_raw. }
  rewrite (assoc_L (++) pre).
  replace (len pre + len k) with (len (pre ++ replicate (length k) (@Raw T))) by lens.
  replace (len pre + len (k ++ l)) with (len (pre ++ replicate (length k) (@Raw T)) + len l) in * by lens.
  replace (len (k ++ l) - Z.of_nat (length k)) with (len l) by lens.
  set (pre' := pre ++ replicate (length k) (@Raw T)) in *.
  assert (0 ≤ len pre' ∧ 0 ≤ len l) as [??] by lens.
  rewrite (u64_small (len l)), (u64_small (len pre')) by lia.
  destruct (_ && _) eqn:Hc.
  - apply andb_true_iff in Hc as [_ [Hc _]%andb_true_iff].
    destruct (compaction_ok pre' l post) as (t & E & Ht & Hdt); [done|lia|].
    rewrite obind_assoc_Ok in E. rewrite E. vred. rewrite if_Ok. eexists. split; [reflexivity|].
    apply rewind_ok, (vrep_mk [] (t ++ post)); try done; lens.
  - vred. rewrite if_Ok. eexists. split; [reflexivity|].
    apply rewind_ok, (vrep_mk pre' post); done.
Qed.

(** [reserve(n)] makes room for [n] elements from the first one on. *)
Lemma reserve_ok v l n :
  vrep v l → len l ≤ n → sizeofT * n ≤ alloc_max →
  ∃ v', reserve trivial sizeofT alloc_max v n = Ok v' ∧ vrep v' l ∧ beginptr v' + n ≤ storageend v'.
Proof.
  intros Hv Hn Ha. unfold reserve, capacity. destruct (vrep_fields _ _ Hv) as (? & ? & ? & ?).
  pose proof (len_nonneg l). rewrite u64_small by lia.
  destruct (Z.leb_spec n (storageend v - beginptr v)); [exists v; split; [done|]; split; [done|lia]|].
  destruct (reserveImpl_ok v l n Hv Hn Ha) as (post & E & Hp & Hd). rewrite E.
  eexists. split; [done|]. split; [|vred; lia].
  apply (vrep_mk [] post); try done; lens.
Qed.

Lemma shrink_ok v l k :
  vrep v (l ++ k) →
  ∃ m, destroy_down (length k) (cells v) (endptr v) = Ok m ∧
    vrep (mkVector (storage (with_cells v m)) (storageend v) (beginptr v) (beginptr v + len l) (len l)) l.
Proof.
  intros Hv. remember (l ++ k) as lk eqn:Hlk. destruct Hv as [|pre lk post Hd Hs]; subst; vred.
  { symmetry in Hlk. apply app_eq_nil in Hlk as [-> ->]. eexists. split; [done|constructor]. }
  rewrite live_app, <- (assoc_L (++)), (assoc_L (++)).
  replace (len pre + len (l ++ k)) with (len (pre ++ live l) + len k) by lens.
  rewrite destroy_down_live. eexists. split; [done|].
  apply (vrep_mk pre (replicate (length k) Raw ++ post)); try lens; [by rewrite <- (assoc_L (++))|].
  intros Ht. specialize (Hd Ht). apply Forall_app in Hd as [??]. rewrite !Forall_app. auto using dead_raw.
Qed.

(** Objects constructed after the last element. *)
Lemma grow_ok v l k f :
  vrep v l → beginptr v + len l + len k ≤ storageend v →
  (∀ pre m post, length m = length k → f (pre ++ m ++ post) (len pre) = Ok (pre ++ live k ++ post)) →
  ∃ m, f (cells v) (endptr v) = Ok m ∧
    vrep (mkVector (storage (with_cells v m)) (storageend v) (beginptr v)
            (beginptr v + len l + len k) (len l + len k)) (l ++ k).
Proof.
  intros Hv Hle Hf. destruct Hv as [|pre l post Hd Hs]; revert Hle; vred; intros Hle.
  { destruct k; [|cbn in Hle; lens]. exists []. split; [by apply (Hf [] [] [])|constructor]. }
  rewrite <- (take_drop (length k) post), (assoc_L (++) pre).
  replace (len pre + len l) with (len (pre ++ live l)) by lens.
  rewrite Hf by lens. eexists. split; [done|].
  apply (vrep_mk pre (drop (length k) post)); try lens.
  - by rewrite live_app, <- !(assoc_L (++)).
  - intros Ht. specialize (Hd Ht). apply Forall_app in Hd as [??]. apply Forall_app. auto using Forall_drop.
Qed.

Lemma resize_ok v l n :
  vrep v l → 0 ≤ n → sizeofT * n ≤ alloc_max →
  ∃ v', resize trivial sizeofT alloc_max init v n = Ok v' ∧
        vrep v' (take (Z.to_nat n) l ++ replicate (Z.to_nat (n - len l)) init).
Proof.
  intros Hv Hn Ha. unfold resize. destruct (vrep_fields _ _ Hv) as (? & He & Hz & _). rewrite Hz.
  rewrite !Z.gtb_ltb. destruct (Z.ltb_spec n (len l)).
  - replace (Z.to_nat (n - len l)) with 0%nat by lia. rewrite app_nil_r.
    rewrite <- (take_drop (Z.to_nat n) l) in Hv.
    destruct (shrink_ok _ _ _ Hv) as (m & E & Hm).
    rewrite (count_nat _ _ (length (drop (Z.to_nat n) l))) by lens.
    vred. rewrite E. vred. eexists. split; [done|].
    replace (len (take (Z.to_nat n) l)) with n in Hm by lens. done.
  - rewrite take_ge by lens. destruct (Z.ltb_spec (len l) n).
    + destruct (reserve_ok v l n Hv) as (v' & E & Hv' & Hle); [lia|done|]. rewrite E. vred.
      destruct (vrep_fields _ _ Hv') as (_ & He' & _).
      destruct (grow_ok v' l (replicate (Z.to_nat (n - len l)) init)
                  (construct_range init (Z.to_nat (n - len l)))) as (m & Em & Hm);
        [done|lens| |].
      { intros pre m post Hm. rewrite length_replicate in Hm. rewrite <- Hm at 1.
        rewrite construct_range_mid. by rewrite Hm. }
      rewrite (count_nat _ _ (Z.to_nat (n - len l))) by lens. vred. rewrite Em. vred.
      eexists. split; [done|]. replace (len l + len (replicate (Z.to_nat (n - len l)) init)) with n in Hm by lens.
      replace (_ + len l + _) with (beginptr v' + n) in Hm by lens. done.
    + replace (Z.to_nat (n - len l)) with 0%nat by lia. rewrite app_nil_r.
      replace n with (len l) by lia. vred. eexists. split; [done|].
      destruct v as [st se b e z]. cbn [storage storageend beginptr endptr msize] in *. by rewrite <- He, <- Hz.
Qed.

Lemma read_range_mid pre l post : read_range (length l) (pre ++ live l ++ post) (len pre) = Ok l.
Proof.
  revert pre. induction l as [|x l IH]; intros pre; [done|]. cbn [length read_range].
  rewrite live_cons. cbn [app]. rewrite get_mid. cbn [obind].
  rewrite (cons_snoc pre), (len_snoc pre (Obj (Some x))), IH. done.
Qed.

Lemma read_all v l : vrep v l → read_range (Z.to_nat (msize v)) (cells v) (beginptr v) = Ok l.
Proof.
  intros [|pre l' post Hd Hs]; [done|]. vred.
  replace (Z.to_nat (len l')) with (length l') by lens. apply read_range_mid.
Qed.

Lemma copy_assign_ok v n l k :
  vrep v l → vrep n k → sizeofT * len k ≤ alloc_max →
  ∃ v', copy_assign trivial sizeofT alloc_max v n = Ok v' ∧ vrep v' k.
Proof.
  intros Hv Hn Ha. unfold copy_assign, size. rewrite (read_all n k Hn).
  destruct (vrep_fields _ _ Hn) as (_ & _ & -> & _).
  destruct (clear_ok v l Hv) as (v1 & -> & Hv1 & _). vred.
  destruct (reserve_ok v1 [] (len k) Hv1) as (v2 & -> & Hv2 & Hle); [apply len_nonneg|done|]. vred.
  destruct (vrep_fields _ _ Hv2) as (_ & He & Hz & Hs).
  destruct (grow_ok v2 [] k (λ m b, construct_list m b k)) as (m & -> & Hm); [done|lens| |].
  { intros. by apply construct_list_mid. }
  vred. eexists. split; [done|]. rewrite He, Hz, u64_small by lens. done.
Qed.

Lemma at_ok v l i :
  vrep v l → 0 ≤ i →
  at_ v i = match l !? i with Some x => Ok x | None => Throw OutOfRange end.
Proof.
  intros Hv Hi. unfold at_. destruct (vrep_fields _ _ Hv) as (_ & _ & -> & _). rewrite Z.geb_leb.
  rewrite zlookup_nonneg by done. destruct (Z.leb_spec (len l) i).
  { by rewrite lookup_ge_None_2 by lens. }
  destruct (lookup_lt_is_Some_2 l (Z.to_nat i)) as [x Hx]; [lens|]. rewrite Hx.
  apply list_elem_of_split_length in Hx as (l1 & l2 & -> & Hi').
  unfold index. remember (l1 ++ x :: l2) as l eqn:El.
  destruct Hv as [|pre l post Hd Hs]; [by destruct l1|]. subst. vred.
  rewrite live_app, live_cons, <- (assoc_L (++)), (assoc_L (++)). cbn [app].
  replace (len pre + i) with (len (pre ++ live l1)) by lens. apply get_mid.
Qed.
End vector.

(** ** The allocator's own vector *)

(** Compute on the fields of a vector of the allocator. *)
Ltac bred :=
  cbn [obind Bootstrap.size_ Bootstrap.b_cells Bootstrap.data_ default from_option id Bootstrap.b_set
       Bootstrap.capacity_].

Section bootstrap.
Import Bootstrap.
Context {T : Type} (trivial : bool).
Implicit Types (pre post m : list (cell T)) (x : T) (l k : list T) (v : BVector (T := T)).

(** It holds [l], in the first cells of its block. *)
Inductive brep : BVector → list T → Prop :=
  | brep_null : brep b_init []
  | brep_block l post :
      (trivial = false → Forall dead post) → len l + len post < 2 ^ 63 →
      brep (mkB (Some (live l ++ post)) (len l) (len l + len post)) l.

Lemma brep_mk l m n c post :
  m = live l ++ post → n = len l → c = len l + len post →
  (trivial = false → Forall dead post) → c < 2 ^ 63 → brep (mkB (Some m) n c) l.
Proof. intros -> -> -> ??. by constructor. Qed.

Lemma relocate_mid pre l post pre' m post' :
  length l = length m → len pre = len pre' →
  relocate (length l) (pre ++ live l ++ post) (pre' ++ m ++ post') (len pre) =
  Ok (pre ++ replicate (length l) Raw ++ post, pre' ++ live l ++ post').
Proof.
  revert pre pre' m. induction l as [|x l IH]; intros pre pre' [|c m] Hl Hp; try done.
  cbn [length relocate]. rewrite live_cons. cbn [app].
  rewrite move_out_mid. cbn [obind]. rewrite Hp, construct_mid. cbn [obind].
  rewrite <- Hp, destroy_mid. cbn [obind].
  rewrite (cons_snoc pre), (cons_snoc pre'), (len_snoc pre Raw), IH by lens.
  by rewrite <- !(assoc_L (++)).
Qed.

Lemma b_reserve_ok v l n :
  brep v l → capacity_ v < n → n < 2 ^ 63 →
  ∃ post, b_reserve trivial v n = Ok (mkB (Some (live l ++ post)) (len l) n) ∧
          len l + len post = n ∧ Forall dead post.
Proof.
  intros Hv Hn Hb. unfold b_reserve. rewrite (proj2 (Z.leb_gt _ _)) by lia.
  assert (len l ≤ capacity_ v) by (destruct Hv; cbn [capacity_]; [done|lens]).
  exists (replicate (Z.to_nat (n - len l)) Raw). split; [|split; [lens|apply dead_raw]].
  destruct Hv as [|l post Hd Hs]; cbn [data_ size_ b_init obind capacity_] in *.
  { by rewrite Z.sub_0_r. }
  replace (Z.to_nat n) with (length l + Z.to_nat (n - len l))%nat by lens. rewrite replicate_add.
  replace (Z.to_nat (len l)) with (length l) by lens. destruct trivial.
  - pose proof (copy_cells_mid [] (live l) post [] (replicate (length l) Raw)
                  (replicate (Z.to_nat (n - len l)) Raw)) as E.
    cbn [app] in E. change (@len (cell T) []) with 0 in E.
    replace (length (live l)) with (length l) in E by lens. rewrite E by lens. done.
  - pose proof (relocate_mid [] l post [] (replicate (length l) Raw)
                  (replicate (Z.to_nat (n - len l)) Raw)) as E.
    cbn [app] in E. change (@len (cell T) []) with 0 in E. rewrite E by lens. done.
Qed.

(** The growth that [push_back] and [insert] start with. *)
Lemma b_grow_ok v l :
  brep v l → len l < 2 ^ 61 →
  ∃ c post, (if size_ v =? capacity_ v then b_reserve trivial v (Z.max (u64 (capacity_ v * 2)) 16) else Ok v)
    = Ok (mkB (Some (live l ++ c :: post)) (len l) (len l + (1 + len post))) ∧
    (trivial = false → Forall dead post) ∧ len l + (1 + len post) < 2 ^ 63.
Proof.
  intros Hv Hl. destruct (Z.eqb_spec (size_ v) (capacity_ v)) as [He|He].
  - assert (capacity_ v = len l) as Hc by (rewrite <- He; by destruct Hv).
    pose proof (len_nonneg l). rewrite Hc, u64_small by lia.
    destruct (b_reserve_ok v l (Z.max (len l * 2) 16) Hv) as (post & E & Hp & Hd); [lia..|].
    destruct post as [|c post]; [change (@len (cell T) []) with 0 in Hp; lia|].
    exists c, post. rewrite len_cons in Hp. apply Forall_cons in Hd as [_ Hd].
    rewrite E, Hp. split; [done|]. split; [done|lia].
  - destruct Hv as [|l post Hd Hs]; [done|]. cbn [size_ capacity_] in He.
    destruct post as [|c post]; [destruct He; lens|]. exists c, post. rewrite len_cons in *.
    split; [done|]. split; [|done]. intros Ht. specialize (Hd Ht). by apply Forall_cons in Hd as [_ ?].
Qed.

Lemma shift_up_assign pre l o post size :
  len pre + len l < size →
  ∃ o', shift_up (length l) (pre ++ live l ++ Obj o :: post) (len pre + len l) size =
        Ok (pre ++ Obj o' :: live l ++ post).
Proof.
  revert o post. induction l as [|v l IH] using rev_ind; intros o post Hs; [by exists o|].
  rewrite length_app. cbn [length]. rewrite Nat.add_1_r. cbn [shift_up].
  rewrite (proj2 (Z.eqb_neq _ _)) by lia. unfold move_assign_cell.
  rewrite live_app, <- (assoc_L (++)), (assoc_L (++) pre). cbn [live fmap list_fmap app].
  replace (len pre + len (l ++ [v]) - 1) with (len (pre ++ live l)) by lens.
  rewrite move_out_mid. cbn [obind].
  replace (len pre + len (l ++ [v])) with (len ((pre ++ live l) ++ [@Obj T None])) by lens.
  rewrite (cons_snoc (pre ++ live l)), assign_mid. cbn [obind].
  destruct (IH None (Obj (Some v) :: post)) as [o' Hm]; [lens|]. exists o'.
  rewrite <- !(assoc_L (++)). cbn [app]. rewrite len_app, len_live. exact Hm.
Qed.

Lemma shift_up_ok pre l x c post :
  ∃ o, shift_up (length (l ++ [x])) (pre ++ live (l ++ [x]) ++ c :: post)
         (len pre + len (l ++ [x])) (len pre + len (l ++ [x])) =
       Ok (pre ++ Obj o :: live (l ++ [x]) ++ post).
Proof.
  rewrite length_app. cbn [length]. rewrite Nat.add_1_r. cbn [shift_up]. rewrite Z.eqb_refl.
  unfold move_construct_cell.
  rewrite live_app, <- (assoc_L (++)), (assoc_L (++) pre). cbn [live fmap list_fmap app].
  replace (len pre + len (l ++ [x]) - 1) with (len (pre ++ live l)) by lens.
  rewrite move_out_mid. cbn [obind].
  replace (len pre + len (l ++ [x])) with (len ((pre ++ live l) ++ [@Obj T None])) by lens.
  rewrite (cons_snoc (pre ++ live l)), construct_mid. cbn [obind].
  destruct (shift_up_assign pre l None (Obj (Some x) :: post)
              (len ((pre ++ live l) ++ [@Obj T None]))) as [o E]; [lens|].
  exists o. rewrite <- !(assoc_L (++)). cbn [app]. rewrite (len_app pre (live l)), len_live.
  rewrite <- !(assoc_L (++)) in E. exact E.
Qed.

Lemma b_insert_ok v l k x :
  brep v (l ++ k) → len (l ++ k) < 2 ^ 61 →
  ∃ v', b_insert trivial v (len l) x = Ok (len l, v') ∧ brep v' (l ++ x :: k).
Proof.
  intros Hv Hl. unfold b_insert.
  destruct (b_grow_ok v (l ++ k) Hv Hl) as (c & post & E & Hd & Hc). rewrite E.
  bred.
  replace (Z.to_nat (len (l ++ k) - len l)) with (length k) by lens.
  destruct k as [|y k' _] using rev_ind.
  - rewrite app_nil_r in *. cbn [length shift_up obind]. rewrite (proj2 (Z.ltb_ge _ _)) by lia.
    rewrite <- (len_live l), construct_mid. bred. rewrite len_live. eexists. split; [done|].
    eapply (brep_mk _ _ _ _ post); bred; try done; try lens. by rewrite live_app, <- (assoc_L (++)).
  - rewrite live_app, <- (assoc_L (++)).
    destruct (shift_up_ok (live l) k' y c post) as [o Es].
    replace (len (live l) + len (k' ++ [y])) with (len (l ++ k' ++ [y])) in Es by lens.
    rewrite Es. cbn [obind]. rewrite (proj2 (Z.ltb_lt _ _)) by lens.
    rewrite <- (len_live l), assign_mid. bred. rewrite len_live. eexists. split; [done|].
    eapply (brep_mk _ _ _ _ post); bred; try done; try lens. by rewrite (live_app l), <- (assoc_L (++)).
Qed.

Lemma shift_down_ok pre l post :
  shift_down (length l) (pre ++ Raw :: live l ++ post) (len pre) = Ok (pre ++ live l ++ Raw :: post).
Proof.
  revert pre. induction l as [|x l IH]; intros pre; [done|]. cbn [length shift_down].
  unfold move_construct_cell. rewrite live_cons. cbn [app].
  rewrite (len_snoc pre Raw), (cons_snoc pre), move_out_mid. cbn [obind].
  rewrite <- (assoc_L (++)). cbn [app]. rewrite construct_mid. cbn [obind].
  rewrite <- (len_snoc pre Raw), (len_snoc pre (Obj (Some x))), (cons_snoc pre), destroy_mid. cbn [obind].
  rewrite IH. by rewrite <- (assoc_L (++)).
Qed.

Lemma b_erase_ok v l x k :
  brep v (l ++ x :: k) → ∃ v', b_erase v (len l) = Ok (len l, v') ∧ brep v' (l ++ k).
Proof.
  intros Hv. remember (l ++ x :: k) as a eqn:Ea. destruct Hv as [|a post Hd Hs]; [by destruct l|]. subst.
  unfold b_erase. bred.
  rewrite live_app, live_cons, <- (assoc_L (++)), <- (len_live l). cbn [app].
  rewrite destroy_mid. cbn [obind].
  replace (Z.to_nat (len (l ++ x :: k) - 1 - len (live l))) with (length k) by lens.
  rewrite shift_down_ok. bred. rewrite len_live. eexists. split; [done|].
  eapply (brep_mk _ _ _ _ (Raw :: post)); bred; try lens; [by rewrite live_app, <- (assoc_L (++))|].
  intros Ht. constructor; [done|auto].
Qed.

Lemma b_push_back_insert v x :
  b_push_back trivial v x = (let! '(_, v) := b_insert trivial v (size_ v) x in Ok v).
Proof.
  unfold b_push_back, b_insert.
  replace (if u64 (capacity_ v * 2) <? 16 then 16 else u64 (capacity_ v * 2))
    with (Z.max (u64 (capacity_ v * 2)) 16) by (destruct (Z.ltb_spec (u64 (capacity_ v * 2)) 16); lia).
  assert (∀ n w, b_reserve trivial v n = Ok w → size_ w = size_ v) as Hz.
  { intros n w. unfold b_reserve. case_match; [congruence|]. case_match.
    - by destruct (if trivial then _ else _); cbn [obind]; intros; simplify_ok.
    - cbn [obind]. intros. by simplify_ok. }
  destruct (if size_ v =? capacity_ v then _ else _) as [w| | | |] eqn:Ew; try done. cbn [obind].
  assert (size_ w = size_ v) as -> by (case_match; [by apply Hz in Ew|congruence]).
  rewrite Z.sub_diag. cbn [shift_up obind Z.to_nat].
  rewrite Z.ltb_irrefl. change (Z.to_nat 0) with 0%nat. cbn [shift_up obind]. by destruct (construct _ _ _).
Qed.
End bootstrap.

(** ** The theorems *)

Section claims.
Context {T : Type} (trivial : bool) (sizeofT alloc_max : Z) (init : T).


(** C32: [Vector::erase] of a non-empty range removes exactly its elements and
    keeps the others in order, in each of its cases: a range in the middle, at
    the front, the whole vector, and at the front when the space given up is
    reclaimed by moving the elements to the start of the storage. *)
Theorem vector_erase_refines (v : Vector T) (a k l : list T) :
  1 ≤ sizeofT → k ≠ [] →
  vrep trivial sizeofT v (a ++ k ++ l) →
  ∃ v', erase trivial sizeofT v (beginptr v + len a) (beginptr v + len a + len k) = Ok v' ∧
        vrep trivial sizeofT v' (a ++ l).
Proof.
  intros Hsz Hk Hv. remember (a ++ k ++ l) as b eqn:Hb. destruct Hv as [|pre b post Hd Hs].
  { symmetry in Hb. apply app_eq_nil in Hb as [_ [? _]%app_eq_nil]. done. }
  subst. vred. destruct a as [|y a].
  - change (@len T []) with 0. rewrite Z.add_0_r. cbn [app] in *. by apply erase_front_ok.
  - by apply erase_middle_ok.
Qed.

(** C33: [Vector::resize(n)] keeps the first [n] elements and fills up with
    value-initialised ones, and copy assignment makes the vector hold the
    elements of the other one, when the allocator can provide the memory. *)
Theorem vector_resize_refines (v w : Vector T) (l k : list T) (n : Z) :
  1 ≤ sizeofT → alloc_max < 2 ^ 64 →
  vrep trivial sizeofT v l → vrep trivial sizeofT w k →
  0 ≤ n → sizeofT * n ≤ alloc_max → sizeofT * len k ≤ alloc_max →
  (∃ v', resize trivial sizeofT alloc_max init v n = Ok v' ∧
         vrep trivial sizeofT v' (take (Z.to_nat n) l ++ replicate (Z.to_nat (n - len l)) init)) ∧
  (∃ v', copy_assign trivial sizeofT alloc_max v w = Ok v' ∧ vrep trivial sizeofT v' k).
Proof.
  intros. split; [by apply resize_ok|]. eapply copy_assign_ok; eauto.
Qed.

(** C34: the vector that the allocator keeps its tables in: [insert] at an
    index and [erase] at an index are insertion and removal in the sequence,
    within the lifetimes of its objects, and [push_back] is [insert] at the end. *)
Theorem bootstrap_vector_refines (v : Bootstrap.BVector (T := T)) (l k : list T) (x : T) :
  brep trivial v (l ++ k) → len (l ++ k) < 2 ^ 61 →
  (∃ v', Bootstrap.b_insert trivial v (len l) x = Ok (len l, v') ∧ brep trivial v' (l ++ x :: k)) ∧
  (∀ y k', k = y :: k' →
     ∃ v', Bootstrap.b_erase v (len l) = Ok (len l, v') ∧ brep trivial v' (l ++ k')) ∧
  Bootstrap.b_push_back trivial v x =
    (let! '(_, v) := Bootstrap.b_insert trivial v (Bootstrap.size_ v) x in Ok v).
Proof.
  intros Hv Hl. split; [by apply b_insert_ok|]. split; [|apply b_push_back_insert].
  intros y k' ->. by eapply b_erase_ok.
Qed.
End claims.

Definition ex_vec : Vector Z :=
  mkVector (Some ([Raw; Raw] ++ live [10; 20; 30] ++ [])) 5 2 5 3.

Lemma ex_vec_rep : vrep false 8 ex_vec [10; 20; 30].
Proof. apply (vrep_block false 8 [Raw; Raw] [10; 20; 30] []); [by repeat constructor|done]. Qed.

Definition ex_vec2 : Vector Z := mkVector (Some ([] ++ live [7] ++ [Raw])) 2 0 1 1.

Lemma ex_vec2_rep : vrep false 8 ex_vec2 [7].
Proof. apply (vrep_block false 8 [] [7] [Raw]); [by repeat constructor|done]. Qed.


Lemma vector_erase_refines_witness :
  ∃ v', erase false 8 ex_vec (beginptr ex_vec + len [10]) (beginptr ex_vec + len [10] + len [20]) = Ok v' ∧
        vrep false 8 v' ([10] ++ [30]).
Proof.
  apply (vector_erase_refines false 8 ex_vec [10] [20] [30]); [lia|discriminate|apply ex_vec_rep].
Defined.

Lemma vector_resize_refines_witness :
  (∃ v', resize false 8 (2 ^ 40) 0 ex_vec 5 = Ok v' ∧
         vrep false 8 v' (take (Z.to_nat 5) [10; 20; 30] ++ replicate (Z.to_nat (5 - len [10; 20; 30])) 0)) ∧
  (∃ v', copy_assign false 8 (2 ^ 40) ex_vec ex_vec2 = Ok v' ∧ vrep false 8 v' [7]).
Proof.
  apply (vector_resize_refines false 8 (2 ^ 40) 0 ex_vec ex_vec2 [10; 20; 30] [7] 5);
    [lia|lia|apply ex_vec_rep|apply ex_vec2_rep|lia|lia|vm_compute; discriminate].
Defined.

Lemma ex_bvec_rep : brep false (Bootstrap.mkB (Some (live [1; 2] ++ [])) 2 2) [1; 2].
Proof. by apply (brep_block false [1; 2] []); [repeat constructor|]. Qed.

Lemma bootstrap_vector_refines_witness :
  ∃ v', Bootstrap.b_insert false (Bootstrap.mkB (Some (live [1; 2] ++ [])) 2 2) (len [1]) 7 = Ok (len [1], v') ∧
        brep false v' ([1] ++ 7 :: [2]).
Proof.
  apply (bootstrap_vector_refines false (Bootstrap.mkB (Some (live [1; 2] ++ [])) 2 2) [1] [2] 7).
  - apply ex_bvec_rep.
  - by vm_compute.
Defined.

(** ** What the vectors do not handle *)

Section simple.
Import SimpleVector.
Context {T : Type} (trivial : bool) (sizeofT alloc_max : Z) (init : T).

(** A vector that holds [l] in a block of the allocator. *)
Definition srep (h : heap (T := T)) (v : SimpleVector) (l : list T) : Prop :=
  sv_msize v = len l ∧ ∃ p, sv_begin v = Some p ∧ h !! p = Some (Some (live l)).

Lemma sv_move_0 (m : list (cell T)) : sv_move trivial [] m (Z.to_nat 0) = Ok ([], m).
Proof.
  unfold sv_move. change (Z.to_nat 0) with 0%nat. destruct trivial; [|done].
  unfold copy_cells. rewrite bool_decide_true by lens. done.
Qed.

(** Growing a vector that was never used. *)
Lemma sv_resize_fresh h n :
  1 ≤ sizeofT → alloc_max < 2 ^ 64 → 0 < n → sizeofT * n ≤ alloc_max →
  ∃ h' v', sv_resize trivial sizeofT alloc_max init h simple_init n = Ok (h', v') ∧
           srep h' v' (replicate (Z.to_nat n) init).
Proof.
  intros Hs Ha Hn Hm. unfold sv_resize, simple_init. cbn [sv_msize sv_begin].
  rewrite !Z.gtb_ltb, (proj2 (Z.ltb_ge n 0)), (proj2 (Z.ltb_lt 0 n)) by lia.
  rewrite allocate_ok by (done || lia). cbn [obind]. rewrite Z.eqb_refl. cbn [obind].
  rewrite sv_move_0. cbn [obind deallocate]. rewrite Z.sub_0_r.
  pose proof (construct_range_mid init [] (replicate (Z.to_nat n) Raw) []) as E.
  rewrite !app_nil_r, length_replicate in E. cbn [app] in E. change (@len (cell T) []) with 0 in E.
  rewrite E. cbn [obind]. eexists _, _. split; [done|]. split; [cbn [sv_msize]; lens|].
  exists (length h). split; [done|]. by apply list_lookup_middle.
Qed.

Lemma sv_clear_ok h v l :
  srep h v l → l ≠ [] →
  ∃ h' p, sv_clear h v = Ok (h', mkSimple (Some p) 0) ∧ h' !! p = Some None.
Proof.
  intros (Hz & p & Hp & Hh) Hl. unfold sv_clear. rewrite Hz, Hp.
  rewrite (proj2 (Z.eqb_neq _ 0)) by (destruct l; [done|lens]). cbn [negb].
  unfold block. cbn [of_option obind]. rewrite Hh. cbn [of_option obind].
  pose proof (destroy_down_live [] l []) as E. rewrite !app_nil_r in E. cbn [app] in E.
  change (@len (cell T) []) with 0 in E. rewrite Z.add_0_l in E.
  replace (Z.to_nat (len l)) with (length l) by lens. rewrite E.
  assert (p < length h)%nat by (apply lookup_lt_Some in Hh; done).
  unfold set_block, deallocate, heap in *. cbn [of_option obind]. rewrite Hh. cbn [of_option obind].
  rewrite list_lookup_insert_eq by done. cbn [of_option obind]. eexists _, p. split; [done|].
  rewrite list_insert_insert_eq. by apply list_lookup_insert_eq.
Qed.

(** C35: [SimpleVector] works when it is sized once; but [clear] keeps the pointer
    to the block it frees, so that the first [resize] after a [clear] frees that
    block a second time. *)
Theorem simple_vector_clear_resize_double_free (h : heap (T := T)) (v : SimpleVector) (l : list T) (n : Z) :
  1 ≤ sizeofT → alloc_max < 2 ^ 64 → 0 < n → sizeofT * n ≤ alloc_max → srep h v l → l ≠ [] →
  (∃ h' v', sv_resize trivial sizeofT alloc_max init h simple_init n = Ok (h', v') ∧
            srep h' v' (replicate (Z.to_nat n) init)) ∧
  ∃ h' v', sv_clear h v = Ok (h', v') ∧ sv_resize trivial sizeofT alloc_max init h' v' n = Undef.
Proof.
  intros Hs Ha Hn Hm Hv Hl. split; [by apply sv_resize_fresh|].
  destruct (sv_clear_ok h v l Hv Hl) as (h' & p & E & Hp). exists h', (mkSimple (Some p) 0).
  split; [done|]. unfold sv_resize. cbn [sv_msize sv_begin].
  rewrite !Z.gtb_ltb, (proj2 (Z.ltb_ge n 0)), (proj2 (Z.ltb_lt 0 n)) by lia.
  rewrite allocate_ok by (done || lia). cbn [obind]. rewrite Z.eqb_refl. cbn [obind].
  rewrite sv_move_0. cbn [obind deallocate]. rewrite Hp. done.
Qed.
End simple.

Lemma simple_vector_clear_resize_double_free_witness :
  ∃ h' v', SimpleVector.sv_clear [Some (live [1; 2])] (SimpleVector.mkSimple (Some 0%nat) 2) = Ok (h', v') ∧
           SimpleVector.sv_resize false 8 (2 ^ 40) 0 h' v' 4 = Undef.
Proof.
  apply (simple_vector_clear_resize_double_free false 8 (2 ^ 40) 0
           [Some (live [1; 2])] (SimpleVector.mkSimple (Some 0%nat) 2) [1; 2] 4).
  - lia.
  - lia.
  - lia.
  - lia.
  - split; [done|]. by exists 0%nat.
  - discriminate.
Defined.

