(* ===== verification/Moo.v ===== *)
(** * Model of core/moo_allocator_impl.h: the internal allocator

    Memory is mapped in spans of 2 MiB multiples.  A thread carves regions out
    of them, a region serves one size class from bins, and a bin hands out its
    slots by bumping a pointer and by reusing freed ones.  The current bin of a
    size class is driven through the thread-local [FastThread].

    The intrusive lists of regions and bins are sequences of addresses and bin
    numbers here: file IntrusiveListFacts proves that the pointers implement
    them.  A freelist is the sequence of its blocks; the links are stored in the
    free blocks themselves, which nobody else may touch. *)

From Stdlib Require Import ZArith Lia.
From stdpp Require Import base gmap option list.
From S2P Require Import Prelude.

(** ** Sizes *)

Definition alignment : Z := 1024 * 1024 * 2.
Definition standardBinSize : Z := 1024 * 16.

(** Sizes of the headers, from the layout of the structs on a 64-bit machine. *)
Definition sizeof_Bin : Z := 64.
Definition sizeof_Region : Z := 192.
Definition regionSize : Z := (sizeof_Region + 16 - 1) / 16 * 16.

Definition STACK_CAPACITY : Z := 8.

(** [lzcnt64] of a non-zero word. *)
Definition lzcnt64 (x : Z) : Z := 63 - Z.log2 x.

Definition getSizeClass (bytes : Z) : Z :=
  let bytes := if bytes =? 0 then 1 else bytes in
  lzcnt64 (Z.lor (u64 (bytes - 1)) 7).

(** [1ul << (64 - index)]: shifting by 64 bits is undefined. *)
Definition class_bytes (index : Z) : outcome Z :=
  if (0 <? index) && (index <=? 64) then Ok (2 ^ (64 - index)) else Undef.

(** [p & ~(alignment - 1)]: the region that a block lies in. *)
Definition region_of (p : Z) : Z := Z.ldiff p (alignment - 1).

(** ** Spans *)

Record Span := mkSpan { sbegin : Z; send : Z }.

#[global] Instance Span_eq_dec : EqDecision Span.
Proof. solve_decision. Defined.

(** The binary search of [add_span]. *)
Fixpoint span_search (fuel : nat) (s : list Span) (begin a b : Z) : outcome Z :=
  if a <? b then
    match fuel with
    | O => NoFuel
    | S fuel =>
        let mid := u64 (a + b) / 2 in
        let! v := arr_get s mid in
        if sbegin v <=? begin then span_search fuel s begin (mid + 1) b
        else span_search fuel s begin a mid
    end
  else Ok a.

(** [rspans.erase] and [rspans.insert] at an index. *)
Definition vec_erase {A} (l : list A) (i : Z) : outcome (list A) :=
  if (0 <=? i) && (i <? Z.of_nat (length l)) then Ok (delete (Z.to_nat i) l) else Undef.
Definition vec_insert {A} (l : list A) (i : Z) (x : A) : outcome (list A) :=
  if (0 <=? i) && (i <=? Z.of_nat (length l))
  then Ok (take (Z.to_nat i) l ++ x :: drop (Z.to_nat i) l) else Undef.

Definition add_span (s : list Span) (begin end_ : Z) : outcome (list Span) :=
  CHECK (end_ >? begin) ;;!
  let e := Z.of_nat (length s) in
  if negb (e =? 0) then
    let! a := span_search (length s) s begin 0 e in
    CHECK (a <=? e) ;;!
    let! left := if a =? 0 then Ok None else let! v := arr_get s (a - 1) in Ok (Some v) in
    let! right := if a =? e then Ok None else let! v := arr_get s a in Ok (Some v) in
    match left, right with
    | Some l, Some r =>
        if send l =? begin then
          if sbegin r =? end_ then
            let! s := arr_set s (a - 1) (mkSpan (sbegin l) (send r)) in vec_erase s a
          else arr_set s (a - 1) (mkSpan (sbegin l) end_)
        else if sbegin r =? end_ then arr_set s a (mkSpan begin (send r))
        else CHECK (a <=? e) ;;! vec_insert s a (mkSpan begin end_)
    | Some l, None =>
        if send l =? begin then arr_set s (a - 1) (mkSpan (sbegin l) end_)
        else CHECK (a <=? e) ;;! vec_insert s a (mkSpan begin end_)
    | None, Some r =>
        if sbegin r =? end_ then arr_set s a (mkSpan begin (send r))
        else CHECK (a <=? e) ;;! vec_insert s a (mkSpan begin end_)
    | None, None => CHECK (a <=? e) ;;! vec_insert s a (mkSpan begin end_)
    end
  else vec_insert s 0 (mkSpan begin end_).

(** ** State *)

Record Bin := mkBin {
  freelist : list Z;
  capacity : Z;
  remainingFrees : Z;
  bfreearea : Z;
  bend : Z;
  full : bool;
  active : bool;
  idle : bool;
  orphaned : bool;
  orphan_outstanding : Z;
  bindex : Z
}.

(** The bins of a region are those created so far, in the order of their headers. *)
Record Region := mkRegion {
  databegin : Z;
  binshift : Z;
  rindex : Z;
  rfull : bool;
  rempty : bool;
  rthread : bool;          (** [thread] is not null *)
  rbins : list Bin;
  activebins : list nat;
  idlebins : list nat;
  numIdleBins : Z;
  minIdleBins : Z;
  numCreatedBins : Z;
  numEmptyBins : Z;
  freebinarea : Z;
  rfreearea : Z;
  rend : Z
}.

Record Slot := mkSlot { bump : Z; slot_end : Z; slot_freelist : list Z; slotSize : Z }.

(** The stack of an index is [stackEntries] with the top first; [stackCounts] is
    its length.  A bin is identified by its region and its number. *)
Record FastThread := mkFast {
  stack : Z → list Z;
  fbins : Z → option (Z * nat);
  slots : Z → Slot
}.

(** A thread with the regions that it owns ([Region::thread], [Region::fast]). *)
Record Thread := mkThread {
  regions : gmap Z Region;
  activeRegions : Z → list Z;
  allRegions : list Z;
  emptyRegions : Z → list Z;
  numEmptyRegions : Z → Z;
  remoteFreeList : list Z;
  exited : bool;
  fast : FastThread
}.

(** What the threads share; [mmaps] counts the calls of [mmap]. *)
Record Globals := mkGlobals {
  spans : list Span;
  allMappedRegions : list Span;
  publishedRegions : option (list Span);
  nextAddr : Z;
  mmappedBytes : Z;
  rngState : Z;
  mmaps : nat
}.

Record state := mkState { glob : Globals; thr : Thread }.

(** Arrays indexed by the size class. *)
Definition upd {A} (f : Z → A) (i : Z) (x : A) : Z → A := λ j, if j =? i then x else f j.

(** *** Updates of fields *)

Definition set_bin_free (b : Bin) (fl : list Z) (remaining area : Z) : Bin :=
  mkBin fl (capacity b) remaining area (bend b) (full b) (active b) (idle b)
    (orphaned b) (orphan_outstanding b) (bindex b).
Definition set_bin_flags (b : Bin) (full active idle : bool) : Bin :=
  mkBin (freelist b) (capacity b) (remainingFrees b) (bfreearea b) (bend b) full active idle
    (orphaned b) (orphan_outstanding b) (bindex b).
Definition set_bin_orphan (b : Bin) (o : bool) (n : Z) : Bin :=
  mkBin (freelist b) (capacity b) (remainingFrees b) (bfreearea b) (bend b) (full b) (active b) (idle b)
    o n (bindex b).

Definition set_bins (r : Region) (bins : list Bin) : Region :=
  mkRegion (databegin r) (binshift r) (rindex r) (rfull r) (rempty r) (rthread r) bins (activebins r)
    (idlebins r) (numIdleBins r) (minIdleBins r) (numCreatedBins r) (numEmptyBins r)
    (freebinarea r) (rfreearea r) (rend r).
Definition set_binlists (r : Region) (act idl : list nat) (n : Z) : Region :=
  mkRegion (databegin r) (binshift r) (rindex r) (rfull r) (rempty r) (rthread r) (rbins r) act
    idl n (minIdleBins r) (numCreatedBins r) (numEmptyBins r) (freebinarea r) (rfreearea r) (rend r).
Definition set_counts (r : Region) (created empty : Z) : Region :=
  mkRegion (databegin r) (binshift r) (rindex r) (rfull r) (rempty r) (rthread r) (rbins r)
    (activebins r) (idlebins r) (numIdleBins r) (minIdleBins r) created empty
    (freebinarea r) (rfreearea r) (rend r).
Definition set_areas (r : Region) (binarea area : Z) : Region :=
  mkRegion (databegin r) (binshift r) (rindex r) (rfull r) (rempty r) (rthread r) (rbins r)
    (activebins r) (idlebins r) (numIdleBins r) (minIdleBins r) (numCreatedBins r) (numEmptyBins r)
    binarea area (rend r).
Definition set_rflags (r : Region) (full empty thread : bool) : Region :=
  mkRegion (databegin r) (binshift r) (rindex r) full empty thread (rbins r) (activebins r)
    (idlebins r) (numIdleBins r) (minIdleBins r) (numCreatedBins r) (numEmptyBins r)
    (freebinarea r) (rfreearea r) (rend r).

Definition set_regions (t : Thread) (m : gmap Z Region) : Thread :=
  mkThread m (activeRegions t) (allRegions t) (emptyRegions t) (numEmptyRegions t)
    (remoteFreeList t) (exited t) (fast t).
Definition set_active (t : Thread) (index : Z) (l : list Z) : Thread :=
  mkThread (regions t) (upd (activeRegions t) index l) (allRegions t) (emptyRegions t)
    (numEmptyRegions t) (remoteFreeList t) (exited t) (fast t).
Definition set_all (t : Thread) (l : list Z) : Thread :=
  mkThread (regions t) (activeRegions t) l (emptyRegions t) (numEmptyRegions t)
    (remoteFreeList t) (exited t) (fast t).
Definition set_empties (t : Thread) (index : Z) (l : list Z) (n : Z) : Thread :=
  mkThread (regions t) (activeRegions t) (allRegions t) (upd (emptyRegions t) index l)
    (upd (numEmptyRegions t) index n) (remoteFreeList t) (exited t) (fast t).
Definition set_remote (t : Thread) (l : list Z) : Thread :=
  mkThread (regions t) (activeRegions t) (allRegions t) (emptyRegions t) (numEmptyRegions t)
    l (exited t) (fast t).
Definition set_exited (t : Thread) (b : bool) : Thread :=
  mkThread (regions t) (activeRegions t) (allRegions t) (emptyRegions t) (numEmptyRegions t)
    (remoteFreeList t) b (fast t).
Definition set_fast (t : Thread) (f : FastThread) : Thread :=
  mkThread (regions t) (activeRegions t) (allRegions t) (emptyRegions t) (numEmptyRegions t)
    (remoteFreeList t) (exited t) f.

Definition set_stack (f : FastThread) (index : Z) (l : list Z) : FastThread :=
  mkFast (upd (stack f) index l) (fbins f) (slots f).
Definition set_fbin (f : FastThread) (index : Z) (b : option (Z * nat)) : FastThread :=
  mkFast (stack f) (upd (fbins f) index b) (slots f).
Definition set_slot (f : FastThread) (index : Z) (s : Slot) : FastThread :=
  mkFast (stack f) (fbins f) (upd (slots f) index s).

Definition set_spans (g : Globals) (s : list Span) : Globals :=
  mkGlobals s (allMappedRegions g) (publishedRegions g) (nextAddr g) (mmappedBytes g) (rngState g) (mmaps g).

Definition set_thr (s : state) (t : Thread) : state := mkState (glob s) t.
Definition set_glob (s : state) (g : Globals) : state := mkState g (thr s).

(** *** Access to regions and bins *)

Definition get_region (s : state) (a : Z) : outcome Region := of_option (regions (thr s) !! a).
Definition put_region (s : state) (a : Z) (r : Region) : state :=
  set_thr s (set_regions (thr s) (<[a := r]> (regions (thr s)))).

Definition get_bin (s : state) (b : Z * nat) : outcome Bin :=
  let! r := get_region s b.1 in of_option (rbins r !! b.2).
Definition put_bin (s : state) (b : Z * nat) (x : Bin) : outcome state :=
  let! r := get_region s b.1 in
  let! _ := of_option (rbins r !! b.2) in
  Ok (put_region s b.1 (set_bins r (<[b.2 := x]> (rbins r)))).

(** [IntrusiveList2::erase] of an element of the list. *)
Definition list_erase {A} `{EqDecision A} (x : A) (l : list A) : outcome (list A) :=
  if decide (x ∈ l) then Ok (filter (λ y, y ≠ x) l) else Undef.

(** ** Regions that have no allocations *)

Definition getEmptyRegionThreshold (size : Z) : Z :=
  if size <=? 2 * 1024 * 1024 then 4
  else if size <=? 4 * 1024 * 1024 then 2
  else 1.

Definition markRegionEmpty (s : state) (a : Z) : outcome state :=
  let! r := get_region s a in
  if rempty r then Ok s
  else
    let s := put_region s a (set_rflags r (rfull r) true (rthread r)) in
    let i := rindex r in
    Ok (set_thr s (set_empties (thr s) i (emptyRegions (thr s) i ++ [a])
                     ((numEmptyRegions (thr s) i + 1) mod 2 ^ 16))).

Definition markRegionNonEmpty (s : state) (a : Z) : outcome state :=
  let! r := get_region s a in
  if negb (rempty r) then Ok s
  else
    let s := put_region s a (set_rflags r (rfull r) false (rthread r)) in
    let i := rindex r in
    let! l := list_erase a (emptyRegions (thr s) i) in
    Ok (set_thr s (set_empties (thr s) i l ((numEmptyRegions (thr s) i - 1) mod 2 ^ 16))).

(** [reclaimSingleRegion]: the memory goes back to the spans. *)
Definition reclaimSingleRegion (s : state) (a e : Z) : outcome state :=
  let! sp := add_span (spans (glob s)) a e in
  Ok (set_glob s (set_spans (glob s) sp)).

Definition handleBinBecameNonEmpty (s : state) (b : Z * nat) : outcome state :=
  let! r := get_region s b.1 in
  let s := put_region s b.1 (set_counts r (numCreatedBins r) ((numEmptyBins r - 1) mod 2 ^ 16)) in
  if rempty r then markRegionNonEmpty s b.1 else Ok s.

(** The body of the loop of [maybeReclaimEmptyRegions]. *)
Definition reclaim_front (s : state) (index : Z) : outcome state :=
  match emptyRegions (thr s) index with
  | [] => Undef
  | a :: rest =>
      let! r := get_region s a in
      let t := set_empties (thr s) index rest ((numEmptyRegions (thr s) index - 1) mod 2 ^ 16) in
      let! t :=
        if negb (rfull r) then
          let! l := list_erase a (activeRegions t index) in Ok (set_active t index l)
        else Ok t in
      let f := fast t in
      let f :=
        match fbins f index with
        | Some (a', _) =>
            if a' =? a then
              let sl := slots f index in
              set_fbin (set_slot (set_stack f index []) index (mkSlot 0 0 [] (slotSize sl))) index None
            else f
        | None => f
        end in
      let t := set_fast t f in
      let! l := list_erase a (allRegions t) in
      let t := set_all t l in
      (** the region is not accessed any more *)
      let t := set_regions t (delete a (regions t)) in
      reclaimSingleRegion (set_thr s t) a (rend r)
  end.

Fixpoint reclaim_loop (fuel : nat) (s : state) (index threshold : Z) : outcome state :=
  if numEmptyRegions (thr s) index >=? threshold then
    match fuel with
    | O => NoFuel
    | S fuel => let! s := reclaim_front s index in reclaim_loop fuel s index threshold
    end
  else Ok s.

Definition maybeReclaimEmptyRegions (s : state) (index : Z) : outcome state :=
  let count := numEmptyRegions (thr s) index in
  if count =? 0 then Ok s
  else
    match emptyRegions (thr s) index with
    | [] => Undef
    | a :: _ =>
        let! oldest := get_region s a in
        let threshold := getEmptyRegionThreshold (u64 (rend oldest - a)) in
        if count <? threshold then Ok s
        else reclaim_loop (Z.to_nat count) s index threshold
    end.

Definition handleBinBecameEmpty (s : state) (a : Z) : outcome state :=
  let! r := get_region s a in
  let n := (numEmptyBins r + 1) mod 2 ^ 16 in
  let s := put_region s a (set_counts r (numCreatedBins r) n) in
  if n =? numCreatedBins r then
    let! s := markRegionEmpty s a in
    maybeReclaimEmptyRegions s (rindex r)
  else Ok s.

(** ** Freeing *)

(** The bin that a block belongs to. *)
Definition bin_of (r : Region) (p : Z) : nat := Z.to_nat (u64 (p - databegin r) / 2 ^ binshift r).

(** [--bin->remainingFrees == 0]. *)
Definition dec_remaining (s : state) (b : Z * nat) : outcome state :=
  let! x := get_bin s b in
  let n := u32 (remainingFrees x - 1) in
  let! s := put_bin s b (set_bin_free x (freelist x) n (bfreearea x)) in
  if n =? 0 then handleBinBecameEmpty s b.1 else Ok s.

(** [moo_free2] for a block of the thread itself. *)
Definition moo_free2 (s : state) (p : Z) (b : Z * nat) : outcome state :=
  let! x := get_bin s b in
  let wasEmpty := match freelist x with [] => true | _ => false end in
  let x := set_bin_free x (p :: freelist x) (remainingFrees x) (bfreearea x) in
  let! s := put_bin s b x in
  let! s :=
    if idle x && wasEmpty then
      let! s := put_bin s b (set_bin_flags x false true false) in
      let! r := get_region s b.1 in
      let! idl := list_erase b.2 (idlebins r) in
      let r := set_binlists r (activebins r ++ [b.2]) idl ((numIdleBins r - 1) mod 2 ^ 16) in
      let s := put_region s b.1 r in
      if rfull r then
        let s := put_region s b.1 (set_rflags r false (rempty r) (rthread r)) in
        Ok (set_thr s (set_active (thr s) (bindex x) (activeRegions (thr s) (bindex x) ++ [b.1])))
      else Ok s
    else Ok s in
  dec_remaining s b.

(** [moo_free] of a block of the thread itself. *)
Definition moo_free (s : state) (p : Z) : outcome state :=
  let a := region_of p in
  if a =? 0 then Ok s
  else
    let! r := get_region s a in
    let b := (a, bin_of r p) in
    let! _ := get_bin s b in
    let index := rindex r in
    let f := fast (thr s) in
    if bool_decide (fbins f index = Some b) &&
       (Z.of_nat (length (stack f index)) <? STACK_CAPACITY) then
      let s := set_thr s (set_fast (thr s) (set_stack f index (p :: stack f index))) in
      dec_remaining s b
    else moo_free2 s p b.

(** The loop of [drainRemoteFrees]. *)
Fixpoint free_all (s : state) (l : list Z) : outcome state :=
  match l with
  | [] => Ok s
  | p :: l => let! s := moo_free s p in free_all s l
  end.

Definition drainRemoteFrees (s : state) : outcome state :=
  let l := remoteFreeList (thr s) in
  free_all (set_thr s (set_remote (thr s) [])) l.

(** ** New memory *)

Section allocation.
(** [mmap] of [bytes] at a fixed address, or anywhere when it is 0; and the seed
    of the random addresses. *)
Context (mmap : Globals → Z → Z → option Z) (rngSeed : Z).

Definition rng (g : Globals) : Z * Globals :=
  let st := if rngState g =? 0 then rngSeed else rngState g in
  let st := u64 (st * 2862933555777941757 + 1) in
  (Z.lor (Z.land (Z.shiftr st 16) 0xfff) (u64 (Z.shiftl st 16)),
   mkGlobals (spans g) (allMappedRegions g) (publishedRegions g) (nextAddr g) (mmappedBytes g) st (mmaps g)).

Definition random_addr (g : Globals) : Z * Globals :=
  let '(x, g) := rng g in ((0x100000000000 + x mod 0x600000000000) / alignment * alignment, g).

Definition call_mmap (g : Globals) (addr bytes : Z) : option Z * Globals :=
  (mmap g addr bytes,
   mkGlobals (spans g) (allMappedRegions g) (publishedRegions g) (nextAddr g) (mmappedBytes g)
     (rngState g) (S (mmaps g))).

Definition set_nextAddr (g : Globals) (a : Z) : Globals :=
  mkGlobals (spans g) (allMappedRegions g) (publishedRegions g) a (mmappedBytes g) (rngState g) (mmaps g).

(** The loop that looks for an address, [n] attempts. *)
Fixpoint find_address (n : nat) (g : Globals) (addr bytes : Z) : option Z * Globals :=
  match n with
  | O => (None, g)
  | S n =>
      let '(rv, g) := if addr =? 0 then (None, g) else call_mmap g addr bytes in
      match rv with
      | Some a =>
          let g := set_nextAddr g (u64 (addr + bytes)) in
          if negb (a =? addr) then
            let '(x, g) := random_addr g in (Some a, set_nextAddr g x)
          else (Some a, g)
      | None => let '(x, g) := random_addr g in find_address n g x bytes
      end
  end.

(** Creation of a bin: the common part of [initRegion] and [moo_alloc_medium]. *)
Definition new_bin (a : Z) (r : Region) (index nbytes binsize : Z) : outcome Region :=
  let rv := rfreearea r in
  CHECK (rv / alignment * alignment =? a) ;;!
  CHECK (freebinarea r mod 64 =? 0) ;;!
  let binarea := u64 (freebinarea r + sizeof_Bin) in
  CHECK (binarea <=? rend r) ;;!
  let bin := mkBin [] (binsize / nbytes) 0 rv (u64 (rv + binsize)) false true false false 0 index in
  let area := u64 (rfreearea r + binsize) in
  let r := set_counts (set_bins r (rbins r ++ [bin]))
             ((numCreatedBins r + 1) mod 2 ^ 16) ((numEmptyBins r + 1) mod 2 ^ 16) in
  let r := set_binlists r (activebins r ++ [(length (rbins r) - 1)%nat]) (idlebins r) (numIdleBins r) in
  let r := set_areas r binarea area in
  CHECK (area <=? rend r) ;;!
  Ok r.

(** [initRegion]: the loop over the bins stops after the first one. *)
Definition initRegion (s : state) (a e index nbytes : Z) : outcome state :=
  let area := u64 (a + sizeof_Region) in
  let t := set_active (thr s) index (a :: activeRegions (thr s) index) in
  let t := set_all t (allRegions t ++ [a]) in
  let binsize := Z.max standardBinSize nbytes in
  let shift := Z.log2 binsize in
  let numBins := u64 (e - area) / 2 ^ shift in
  let binarea := area in
  let area := u64 (area + sizeof_Bin * numBins) in
  let align := Z.min 4096 nbytes in
  let area := Z.ldiff (u64 (area + align - 1)) (align - 1) in
  let r := mkRegion area shift index false false true [] [] [] 0 (Z.max (numBins / 8) 1 mod 2 ^ 16) 0 0
             binarea area e in
  CHECK (u64 (e - area) >=? binsize) ;;!
  let! r :=
    if u64 (area + binsize) <=? e then
      CHECK (nbytes * (binsize / nbytes) =? binsize) ;;! new_bin a r index nbytes binsize
    else Ok r in
  CHECK (match activebins r with [] => false | _ => true end) ;;!
  Ok (set_thr s (set_regions t (<[a := r]> (regions t)))).

(** The loop over the spans: the region taken, if one is large enough. *)
Fixpoint take_span (sp : list Span) (minbytes alignedminbytes : Z) :
    outcome (option (Z * Z * list Span)) :=
  match sp with
  | [] => Ok None
  | v :: sp =>
      if u64 (send v - sbegin v) >=? minbytes then
        CHECK (sbegin v mod alignment =? 0) ;;!
        if u64 (send v - sbegin v) <=? alignedminbytes then Ok (Some (sbegin v, send v, sp))
        else
          let b := u64 (sbegin v + alignedminbytes) in
          CHECK (b <? send v) ;;!
          Ok (Some (sbegin v, b, mkSpan b (send v) :: sp))
      else
        let! r := take_span sp minbytes alignedminbytes in
        Ok (match r with Some (a, e, sp) => Some (a, e, v :: sp) | None => None end)
  end.

Definition round_up_alignment (x : Z) : Z := u64 (x + alignment - 1) / alignment * alignment.

(** [publishRegionSnapshot]. *)
Definition publishRegionSnapshot (g : Globals) : Globals :=
  mkGlobals (spans g) (allMappedRegions g) (Some (allMappedRegions g)) (nextAddr g) (mmappedBytes g)
    (rngState g) (mmaps g).

(** The part of [allocate_memory] that maps new memory. *)
Definition map_memory (g : Globals) (nbytes : Z) : outcome Globals :=
  let bytes := Z.max alignment
                 (u64 (alignment + regionSize + nbytes * (if nbytes <? alignment then 8 else 2))) in
  let bytes := Z.max bytes (round_up_alignment (mmappedBytes g / 4)) in
  let bytes := round_up_alignment bytes in
  let '(rv, g) := find_address 0x1000 g (nextAddr g) bytes in
  let '(rv, g) := match rv with Some a => (Some a, g) | None => call_mmap g 0 bytes end in
  match rv with
  | None => Throw BadAlloc
  | Some rv =>
      let mapped := u64 (mmappedBytes g + bytes) in
      let e := u64 (rv + bytes) / alignment * alignment in
      let rv := round_up_alignment rv in
      let bytes := u64 (e - rv) in
      CHECK (bytes >? 0) ;;!
      let! sp := add_span (spans g) rv (u64 (rv + bytes)) in
      let! all := add_span (allMappedRegions g) rv (u64 (rv + bytes)) in
      Ok (publishRegionSnapshot
            (mkGlobals sp all (publishedRegions g) (nextAddr g) mapped (rngState g) (mmaps g)))
  end.

(** [allocate_memory] calls itself after mapping memory. *)
Fixpoint allocate_memory (fuel : nat) (s : state) (index : Z) : outcome state :=
  CHECK (negb (index =? 0)) ;;!
  let! c := class_bytes index in
  let nbytes := Z.max c 8 in
  let minbytes := u64 (regionSize + nbytes) in
  let alignedminbytes := Z.max alignment (round_up_alignment minbytes) in
  let! r := take_span (spans (glob s)) minbytes alignedminbytes in
  match r with
  | Some (a, e, sp) => initRegion (set_glob s (set_spans (glob s) sp)) a e index nbytes
  | None =>
      let! g := map_memory (glob s) nbytes in
      match fuel with
      | O => NoFuel
      | S fuel => allocate_memory fuel (set_glob s g) index
      end
  end.
End allocation.

(** ** Allocating *)

(** [bin->remainingFrees++ == 0]: the bin stops being empty. *)
Definition inc_remaining (s : state) (b : Z * nat) : outcome state :=
  let! x := get_bin s b in
  let! s := put_bin s b (set_bin_free x (freelist x) (u32 (remainingFrees x + 1)) (bfreearea x)) in
  if remainingFrees x =? 0 then handleBinBecameNonEmpty s b else Ok s.

(** Taking the first block of the freelist of a bin. *)
Definition pop_freelist (s : state) (b : Z * nat) : outcome (Z * state) :=
  let! x := get_bin s b in
  match freelist x with
  | [] => Undef
  | p :: fl =>
      let! s := put_bin s b (set_bin_free x fl (remainingFrees x) (bfreearea x)) in
      let! s := inc_remaining s b in
      Ok (p, s)
  end.

Definition set_current (s : state) (index : Z) (b : option (Z * nat)) : state :=
  set_thr s (set_fast (thr s) (set_fbin (fast (thr s)) index b)).

(** One round of the loop of [moo_alloc_medium] for the first bin of the region:
    a block, or the bin turned out to be exhausted. *)
Definition alloc_from_bin (s : state) (a : Z) (i : nat) (index nbytes : Z) : outcome (option Z * state) :=
  let b := (a, i) in
  let! x := get_bin s b in
  CHECK (active x) ;;!
  let x :=
    if (remainingFrees x =? 0) && match freelist x with [] => false | _ => true end
    then set_bin_free x [] (remainingFrees x) (u64 (bend x - nbytes * capacity x))
    else x in
  let! s := put_bin s b x in
  if u64 (bfreearea x + nbytes) <=? bend x then
    let rv := bfreearea x in
    let area := u64 (bfreearea x + nbytes) in
    let! s := put_bin s b (set_bin_free x (freelist x) (remainingFrees x) area) in
    CHECK (area <=? bend x) ;;!
    let s := set_current s index (Some b) in
    let! s := inc_remaining s b in
    Ok (Some rv, s)
  else
    match freelist x with
    | _ :: _ =>
        let s := set_current s index (Some b) in
        let! '(rv, s) := pop_freelist s b in
        Ok (Some rv, s)
    | [] =>
        let! s := put_bin s b (set_bin_flags x true false true) in
        let! r := get_region s a in
        let! act := list_erase i (activebins r) in
        let s := put_region s a
                   (set_binlists r act (idlebins r ++ [i]) ((numIdleBins r + 1) mod 2 ^ 16)) in
        let s := if bool_decide (fbins (fast (thr s)) index = Some b)
                 then set_current s index None else s in
        Ok (None, s)
    end.

(** The loop of [moo_alloc_medium] in region [a]: [None] when no region is left. *)
Fixpoint medium_loop (fuel : nat) (s : state) (a index nbytes : Z) : outcome (option Z * state) :=
  match fuel with
  | O => NoFuel
  | S fuel =>
      let! r := get_region s a in
      match activebins r with
      | i :: _ =>
          let! '(rv, s) := alloc_from_bin s a i index nbytes in
          match rv with
          | Some p => Ok (Some p, s)
          | None => medium_loop fuel s a index nbytes
          end
      | [] =>
          let binsize := 2 ^ binshift r in
          if u64 (rfreearea r + binsize) <=? rend r then
            let! r := new_bin a r index nbytes binsize in
            let s := put_region s a r in
            let s := set_current s index (Some (a, (length (rbins r) - 1)%nat)) in
            medium_loop fuel s a index nbytes
          else
            let s := put_region s a (set_rflags r true (rempty r) (rthread r)) in
            let! l := list_erase a (activeRegions (thr s) index) in
            let s := set_thr s (set_active (thr s) index l) in
            match l with
            | [] => Ok (None, s)
            | a :: _ => medium_loop fuel s a index nbytes
            end
      end
  end.

(** Rounds of that loop: the bins of the active regions, and for each region one
    to create a bin and one to use it. *)
Definition medium_fuel (s : state) (index : Z) : nat :=
  S (sum_list ((λ a, match regions (thr s) !! a with
                     | Some r => length (activebins r) + 3
                     | None => 0
                     end) <$> activeRegions (thr s) index))%nat.

(** The blocks of a list pushed one by one on a freelist. *)
Fixpoint push_all (l fl : list Z) : list Z :=
  match l with [] => fl | p :: l => push_all l (p :: fl) end.

Section one_thread.
Context (mmap : Globals → Z → Z → option Z) (rngSeed : Z).

(** The four functions call each other: [moo_alloc_slow] calls [moo_alloc] again
    after draining the remote frees or mapping memory. *)
Section rec.
Context (moo_alloc : state → Z → outcome (Z * state)).

Definition moo_alloc_slow (s : state) (index : Z) : outcome (Z * state) :=
  let! bytes := class_bytes index in
  CHECK (match activeRegions (thr s) index with [] => true | _ => false end) ;;!
  match remoteFreeList (thr s) with
  | _ :: _ =>
      let! s := drainRemoteFrees s in
      moo_alloc s bytes
  | [] =>
      let! s := allocate_memory mmap rngSeed 1 s index in
      moo_alloc s bytes
  end.

Definition moo_alloc_medium (s : state) (index : Z) : outcome (Z * state) :=
  let! nbytes := class_bytes index in
  match activeRegions (thr s) index with
  | a :: _ =>
      let! '(rv, s) := medium_loop (medium_fuel s index) s a index nbytes in
      match rv with
      | Some p => Ok (p, s)
      | None => moo_alloc_slow s index
      end
  | [] => moo_alloc_slow s index
  end.

(** The current bin is exhausted: it becomes idle. *)
Definition retire_bin (s : state) (b : Z * nat) (index : Z) : outcome state :=
  let! x := get_bin s b in
  let f := fast (thr s) in
  let sl := slots f index in
  let fl := push_all (slot_freelist sl) (push_all (stack f index) (freelist x)) in
  let f := set_fbin (set_slot (set_stack f index []) index
             (mkSlot (bump sl) (slot_end sl) [] (slotSize sl))) index None in
  let s := set_thr s (set_fast (thr s) f) in
  let x := set_bin_flags (set_bin_free x fl (remainingFrees x) (bump sl)) true false true in
  let! s := put_bin s b x in
  let! r := get_region s b.1 in
  let! act := list_erase b.2 (activebins r) in
  Ok (put_region s b.1
        (set_binlists r act (idlebins r ++ [b.2]) ((numIdleBins r + 1) mod 2 ^ 16))).

Definition moo_alloc2 (s : state) (index : Z) : outcome (Z * state) :=
  CHECK (negb (index =? 0) && (index <? 64)) ;;!
  let refill (s : state) : outcome (Z * state) :=
    let! bytes := class_bytes index in
    let! '(rv, s) := moo_alloc_medium s index in
    match fbins (fast (thr s)) index with
    | Some b =>
        let! x := get_bin s b in
        let f := fast (thr s) in
        let sl := slots f index in
        Ok (rv, set_thr s (set_fast (thr s)
                  (set_slot f index (mkSlot (bfreearea x) (u64 (bend x + 1)) (slot_freelist sl) bytes))))
    | None => Ok (rv, s)
    end in
  match fbins (fast (thr s)) index with
  | Some b =>
      let! x := get_bin s b in
      match freelist x with
      | _ :: _ => pop_freelist s b
      | [] => let! s := retire_bin s b index in refill s
      end
  | None => refill s
  end.
End rec.

(** Fuel 3 is enough: one call may drain, the next one map memory. *)
Fixpoint moo_alloc (fuel : nat) (s : state) (bytes : Z) : outcome (Z * state) :=
  let index := getSizeClass bytes in
  let f := fast (thr s) in
  let sl := slots f index in
  match stack f index with
  | p :: st =>
      let s := set_thr s (set_fast (thr s) (set_stack f index st)) in
      let! b := of_option (fbins f index) in
      let! s := inc_remaining s b in
      Ok (p, s)
  | [] =>
      match slot_freelist sl with
      | p :: fl =>
          let s := set_thr s (set_fast (thr s)
                     (set_slot f index (mkSlot (bump sl) (slot_end sl) fl (slotSize sl)))) in
          let a := region_of p in
          let! r := get_region s a in
          let! s := inc_remaining s (a, bin_of r p) in
          Ok (p, s)
      | [] =>
          let newBump := u64 (bump sl + slotSize sl) in
          if newBump <? slot_end sl then
            let s := set_thr s (set_fast (thr s)
                       (set_slot f index (mkSlot newBump (slot_end sl) [] (slotSize sl)))) in
            let! b := of_option (fbins f index) in
            let! s := inc_remaining s b in
            Ok (bump sl, s)
          else
            match fuel with
            | O => NoFuel
            | S fuel => moo_alloc2 (moo_alloc fuel) s index
            end
      end
  end.
End one_thread.

Definition moo_alloc_size (t : Thread) (p : Z) : outcome Z :=
  let a := region_of p in
  if a =? 0 then Ok 0
  else
    let! r := of_option (regions t !! a) in
    let! c := class_bytes (rindex r) in
    Ok (Z.max c 8).

(** ** Looking up addresses *)

Fixpoint region_search (l : list Span) (address : Z) : Z * Z :=
  match l with
  | [] => (0, 0)
  | v :: l =>
      if (address >=? sbegin v) && (address <? send v) then (sbegin v, send v - sbegin v)
      else region_search l address
  end.

Definition regionAt (g : Globals) (address : Z) : Z * Z :=
  match publishedRegions g with
  | None => (0, 0)
  | Some snap => region_search snap address
  end.

Definition owns (g : Globals) (address : Z) : bool := negb ((regionAt g address).2 =? 0).
