(* ===== verification/MooSystem.v ===== *)
(** * Model of core/moo_allocator_impl.h: several threads

    Threads that start and exit, blocks that one thread frees for another, and
    the regions of exited threads, which are taken back when their last block
    is freed.

    A thread object stands for the pair of [Thread] and [FastThread]; the
    functions run one after the other, which is what the mutexes and the atomic
    exchange of [remoteFreeList] give. *)

From Stdlib Require Import ZArith Lia.
From stdpp Require Import base gmap option list.
From S2P Require Import Prelude Moo.

(** ** Counting the blocks of a bin *)

Definition countFreelist (head : list Z) : Z := Z.of_nat (length head).

Definition computeBinOutstanding (bin : Bin) (regionIndex : Z) : outcome Z :=
  let! slot_size := class_bytes regionIndex in
  let data_start := u64 (bend bin - u64 (capacity bin * slot_size)) in
  let allocated := u64 (bfreearea bin - data_start) / slot_size in
  let freed := countFreelist (freelist bin) in
  Ok (u64 (allocated - freed)).

(** ** Frees for a thread that has exited *)

Definition get_block_bin (t : Thread) (p : Z) : outcome (Z * Region * nat * Bin) :=
  let a := region_of p in
  let! r := of_option (regions t !! a) in
  let i := bin_of r p in
  let! x := of_option (rbins r !! i) in
  Ok (a, r, i, x).

Definition put_block_bin (t : Thread) (a : Z) (r : Region) (i : nat) (x : Bin) : Thread :=
  set_regions t (<[a := set_bins r (<[i := x]> (rbins r))]> (regions t)).

(** The block goes on the freelist; a full bin becomes idle.  The bin is linked
    into [idlebins] once more although it is in that list: nothing reads the
    list of an exited thread. *)
Definition push_block (r : Region) (i : nat) (x : Bin) (p : Z) : Region * Bin :=
  let x := set_bin_free x (p :: freelist x) (remainingFrees x) (bfreearea x) in
  if full x then
    (set_binlists r (activebins r) (idlebins r ++ [i]) ((numIdleBins r + 1) mod 2 ^ 16),
     set_bin_flags x false (active x) true)
  else (r, x).

Definition pushToFreelist (t : Thread) (p : Z) : outcome Thread :=
  let! '(a, r, i, x) := get_block_bin t p in
  let '(r, x) := push_block r i x p in
  Ok (put_block_bin t a r i x).

(** The flag says that the region became empty. *)
Definition processOrphanFree (t : Thread) (p : Z) : outcome (bool * Thread) :=
  let! '(a, r, i, x) := get_block_bin t p in
  let '(r, x) := push_block r i x p in
  if orphaned x then
    let n := (orphan_outstanding x - 1) mod 2 ^ 16 in
    let x := set_bin_orphan x true n in
    if n =? 0 then
      let x := set_bin_orphan x false n in
      let e := (numEmptyBins r + 1) mod 2 ^ 16 in
      let r := set_counts r (numCreatedBins r) e in
      if e =? numCreatedBins r then
        Ok (true, put_block_bin t a (set_rflags r (rfull r) (rempty r) false) i x)
      else Ok (false, put_block_bin t a r i x)
    else Ok (false, put_block_bin t a r i x)
  else Ok (false, put_block_bin t a r i x).

(** The loop over [allRegions]: the regions that are taken back, in order, and
    the regions that stay. *)
Fixpoint collect_empty (t : Thread) (l : list Z) : outcome (list Z * list Z) :=
  match l with
  | [] => Ok ([], [])
  | a :: l =>
      let! r := of_option (regions t !! a) in
      let! '(out, stay) := collect_empty t l in
      Ok (if rthread r then (out, a :: stay) else (a :: out, stay))
  end.

(** The loop over the regions that are taken back. *)
Fixpoint add_spans (sp : list Span) (t : Thread) (l : list Z) : outcome (list Span) :=
  match l with
  | [] => Ok sp
  | a :: l =>
      let! r := of_option (regions t !! a) in
      let! sp := add_span sp a (rend r) in
      add_spans sp t l
  end.

(** The flag says that the thread object is put on [freeThreads]. *)
Definition reclaimEmptyRegions (g : Globals) (t : Thread) : outcome (Globals * Thread * bool) :=
  let! '(toReclaim, stay) := collect_empty t (allRegions t) in
  match toReclaim with
  | [] => Ok (g, t, false)
  | _ :: _ =>
      let! sp := add_spans (spans g) t toReclaim in
      (** the regions are not accessed any more *)
      let t' := set_regions (set_all t stay) (foldr delete (regions t) toReclaim) in
      Ok (set_spans g sp, t', match stay with [] => true | _ => false end)
  end.

Fixpoint process_all (t : Thread) (l : list Z) : outcome Thread :=
  match l with
  | [] => Ok t
  | p :: l => let! '(_, t) := processOrphanFree t p in process_all t l
  end.

Definition drainOrphanFrees (g : Globals) (owner : Thread) : outcome (Globals * Thread * bool) :=
  if negb (exited owner) then Ok (g, owner, false)
  else
    let l := remoteFreeList owner in
    let! t := process_all (set_remote owner []) l in
    reclaimEmptyRegions g t.

(** ** Exit of a thread *)

(** The slot's own freelist: each block goes back to its bin. *)
Fixpoint return_blocks (t : Thread) (l : list Z) : outcome Thread :=
  match l with
  | [] => Ok t
  | p :: l =>
      let! '(a, r, i, x) := get_block_bin t p in
      return_blocks (put_block_bin t a r i (set_bin_free x (p :: freelist x) (remainingFrees x) (bfreearea x))) l
  end.

(** One round of the loop over the size classes. *)
Definition leave_class (t : Thread) (index : Z) : outcome Thread :=
  let f := fast t in
  let sl := slots f index in
  let! t :=
    match fbins f index with
    | Some (a, i) =>
        let! r := of_option (regions t !! a) in
        let! x := of_option (rbins r !! i) in
        let x := set_bin_free x (push_all (stack f index) (freelist x)) (remainingFrees x) (bump sl) in
        Ok (set_fast (put_block_bin t a r i x) (set_stack f index []))
    | None => Ok t
    end in
  let! t := return_blocks t (slot_freelist sl) in
  let f := fast t in
  Ok (set_fast t (set_fbin (set_slot f index (mkSlot (bump sl) (slot_end sl) [] (slotSize sl))) index None)).

Fixpoint leave_classes (t : Thread) (l : list Z) : outcome Thread :=
  match l with
  | [] => Ok t
  | index :: l => let! t := leave_class t index in leave_classes t l
  end.

(** The bins of a region when its thread exits. *)
Fixpoint orphan_bins (bins : list Bin) (index : Z) : outcome (list Bin * Z) :=
  match bins with
  | [] => Ok ([], 0)
  | x :: bins =>
      let! outstanding := computeBinOutstanding x index in
      let! '(bins, n) := orphan_bins bins index in
      Ok (if outstanding =? 0 then (set_bin_orphan x false (orphan_outstanding x) :: bins, n + 1)
          else (set_bin_orphan x true (outstanding mod 2 ^ 16) :: bins, n))
  end.

Definition orphan_region (a : Z) (r : Region) : outcome Region :=
  let created := (u64 (freebinarea r - u64 (a + sizeof_Region)) / sizeof_Bin) mod 2 ^ 16 in
  if created =? Z.of_nat (length (rbins r)) then
    let! '(bins, n) := orphan_bins (rbins r) (rindex r) in
    let n := n mod 2 ^ 16 in
    let r := set_counts (set_bins r bins) created n in
    Ok (if (n =? created) && (created >? 0) then set_rflags r (rfull r) (rempty r) false else r)
  else Undef.

Fixpoint orphan_regions (t : Thread) (l : list Z) : outcome Thread :=
  match l with
  | [] => Ok t
  | a :: l =>
      let! r := of_option (regions t !! a) in
      let! r := orphan_region a r in
      orphan_regions (set_regions t (<[a := r]> (regions t))) l
  end.

Fixpoint push_remote (t : Thread) (l : list Z) : outcome Thread :=
  match l with
  | [] => Ok t
  | p :: l => let! t := pushToFreelist t p in push_remote t l
  end.

(** [destroyThread] up to the lock: the thread gives its bins back and takes the
    frees of other threads. *)
Definition leaveThread (s : state) : outcome state :=
  let! t := leave_classes (thr s) (seqZ 0 64) in
  drainRemoteFrees (set_thr s t).

(** [destroyThread] with the lock held: frees may have arrived in between. *)
Definition orphanThread (g : Globals) (t : Thread) : outcome (Globals * Thread * bool) :=
  let l := remoteFreeList t in
  let t := set_remote (set_exited t true) [] in
  let! t := push_remote t l in
  let! t := orphan_regions t (allRegions t) in
  reclaimEmptyRegions g t.

(** ** The process *)

Record System := mkSystem {
  sglob : Globals;
  threads : gmap nat Thread;
  freeThreads : list nat
}.

(** Thread-local storage starts out as zeros. *)
Definition new_fast : FastThread := mkFast (λ _, []) (λ _, None) (λ _, mkSlot 0 0 [] 0).

Definition clear_thread (t : Thread) : Thread :=
  mkThread (regions t) (λ _, []) [] (λ _, []) (λ _, 0) [] false new_fast.

Definition new_thread : Thread := mkThread ∅ (λ _, []) [] (λ _, []) (λ _, 0) [] false new_fast.

(** The new thread object, at an address that is not in use, or the last one of
    [freeThreads]. *)
Definition createThread (y : System) : outcome (nat * System) :=
  match last (freeThreads y) with
  | Some i =>
      let! t := of_option (threads y !! i) in
      Ok (i, mkSystem (sglob y) (<[i := clear_thread t]> (threads y))
               (take (length (freeThreads y) - 1) (freeThreads y)))
  | None =>
      let i := fresh (dom (threads y)) in
      Ok (i, mkSystem (sglob y) (<[i := new_thread]> (threads y)) (freeThreads y))
  end.

(** [Region::thread] of the region at an address. *)
Definition region_thread (y : System) (a : Z) : option nat :=
  fst <$> head (filter (λ it : nat * Thread, is_Some (regions it.2 !! a)) (map_to_list (threads y))).

Definition put_thread (y : System) (i : nat) (g : Globals) (t : Thread) (free : bool) : System :=
  mkSystem g (<[i := t]> (threads y)) (if free then freeThreads y ++ [i] else freeThreads y).

(** [moo_free_remote]. *)
Definition moo_free_remote (y : System) (owner : nat) (p : Z) : outcome System :=
  let! t := of_option (threads y !! owner) in
  let t := set_remote t (p :: remoteFreeList t) in
  if exited t then
    let! '(g, t, free) := drainOrphanFrees (sglob y) t in
    Ok (put_thread y owner g t free)
  else Ok (put_thread y owner (sglob y) t false).

(** [free] called by thread [i]. *)
Definition sys_free (y : System) (i : nat) (p : Z) : outcome System :=
  if region_of p =? 0 then Ok y
  else
    let! owner := of_option (region_thread y (region_of p)) in
    if decide (owner = i) then
      let! t := of_option (threads y !! i) in
      let! s := moo_free (mkState (sglob y) t) p in
      Ok (put_thread y i (glob s) (thr s) false)
    else moo_free_remote y owner p.

(** [alloc] called by thread [i]. *)
Definition sys_alloc (mmap : Globals → Z → Z → option Z) (rngSeed : Z) (y : System) (i : nat) (bytes : Z) :
    outcome (Z * System) :=
  let! t := of_option (threads y !! i) in
  let! '(p, s) := moo_alloc mmap rngSeed 3 (mkState (sglob y) t) bytes in
  Ok (p, put_thread y i (glob s) (thr s) false).

(** The two halves of [destroyThread] of thread [i]. *)
Definition sys_leave (y : System) (i : nat) : outcome System :=
  let! t := of_option (threads y !! i) in
  let! s := leaveThread (mkState (sglob y) t) in
  Ok (put_thread y i (glob s) (thr s) false).

Definition sys_orphan (y : System) (i : nat) : outcome System :=
  let! t := of_option (threads y !! i) in
  let! '(g, t, free) := orphanThread (sglob y) t in
  Ok (put_thread y i g t free).
