(* ===== verification/MooSpanFacts.v ===== *)
(** * Size classes and spans of the internal allocator

    The size class of a request is the smallest power of two that holds it, and
    the table of free spans stays sorted, disjoint and merged. *)

From Stdlib Require Import ZArith Lia.
From stdpp Require Import base gmap option list.
From S2P Require Import Prelude Moo.

Local Set Warnings "-clear-no-such-hyp".

(** ** Size classes *)

Lemma lor_7_log2 x : 0 ≤ x → Z.log2 (Z.lor x 7) = Z.max (Z.log2 x) 2.
Proof. intros. by rewrite Z.log2_lor by lia. Qed.

Lemma getSizeClass_log bytes :
  0 ≤ bytes → bytes ≤ 2 ^ 64 →
  getSizeClass bytes = 63 - Z.max (Z.log2 (Z.max bytes 1 - 1)) 2.
Proof.
  intros ??. unfold getSizeClass, lzcnt64. destruct (Z.eqb_spec bytes 0) as [->|].
  - by vm_compute.
  - rewrite u64_small, lor_7_log2 by lia. by rewrite (Z.max_l bytes 1) by lia.
Qed.

(** The slots of the class hold the request, and waste less than half. *)
Lemma getSizeClass_spec bytes :
  0 ≤ bytes ≤ 2 ^ 63 →
  1 ≤ getSizeClass bytes ≤ 61 ∧ bytes ≤ 2 ^ (64 - getSizeClass bytes) ∧
  (8 < bytes → 2 ^ (64 - getSizeClass bytes) < 2 * bytes).
Proof.
  intros Hb. rewrite getSizeClass_log by lia. set (m := Z.max bytes 1 - 1).
  pose proof (Z.log2_nonneg m).
  assert (Z.log2 m ≤ 62).
  { destruct (Z.eq_dec m 0) as [->|]; [by vm_compute|]. apply Z.lt_succ_r, Z.log2_lt_pow2; simpl; lia. }
  split; [lia|]. replace (64 - (63 - Z.max (Z.log2 m) 2)) with (Z.succ (Z.max (Z.log2 m) 2)) by lia.
  split.
  - destruct (Z.eq_dec m 0) as [E|E].
    { apply Z.le_trans with 1; [lia|]. apply Z.lt_pred_le, Z.pow_pos_nonneg; lia. }
    apply Z.le_trans with (2 ^ Z.succ (Z.log2 m)); [|apply Z.pow_le_mono_r; lia].
    pose proof (Z.log2_spec m). lia.
  - intros. assert (3 ≤ Z.log2 m).
    { change 3 with (Z.log2 8). apply Z.log2_le_mono. lia. }
    rewrite Z.max_l, Z.pow_succ_r by lia. pose proof (Z.log2_spec m). lia.
Qed.

Lemma class_bytes_ok index : 1 ≤ index ≤ 64 → class_bytes index = Ok (2 ^ (64 - index)).
Proof.
  intros. unfold class_bytes. by rewrite (proj2 (Z.ltb_lt _ _)), (proj2 (Z.leb_le _ _)) by lia.
Qed.

(** ** Spans *)

(** The address lies in one of the spans. *)
Definition covers (l : list Span) (x : Z) : Prop := Exists (λ v, sbegin v ≤ x < send v) l.

(** Sorted, not empty, disjoint, and no two that could be merged. *)
Fixpoint spans_from (lo : Z) (l : list Span) : Prop :=
  match l with
  | [] => True
  | v :: l => lo < sbegin v ∧ sbegin v < send v ∧ spans_from (send v) l
  end.

Definition spans_ok (l : list Span) : Prop := spans_from (-1) l.

Lemma covers_nil x : covers [] x ↔ False.
Proof. apply Exists_nil. Qed.

Lemma covers_cons v l x : covers (v :: l) x ↔ sbegin v ≤ x < send v ∨ covers l x.
Proof. apply Exists_cons. Qed.

Lemma covers_app l k x : covers (l ++ k) x ↔ covers l x ∨ covers k x.
Proof. apply Exists_app. Qed.

(** The end of the last span, if there is one. *)
Definition top (lo : Z) (l : list Span) : Z := from_option send lo (last l).

Lemma top_cons lo v l : top lo (v :: l) = top (send v) l.
Proof. unfold top. rewrite last_cons. by destruct (last l). Qed.

Lemma top_snoc lo l v : top lo (l ++ [v]) = send v.
Proof. unfold top. by rewrite last_snoc. Qed.

Lemma spans_from_app lo l k : spans_from lo (l ++ k) ↔ spans_from lo l ∧ spans_from (top lo l) k.
Proof.
  revert lo. induction l as [|v l IH]; intros lo; [simpl; tauto|].
  rewrite top_cons. simpl. rewrite IH. tauto.
Qed.

Lemma spans_from_weaken lo lo' l : lo' ≤ lo → spans_from lo l → spans_from lo' l.
Proof. destruct l as [|v l]; simpl; [done|]. intros ? (? & ? & ?). split_and!; [lia|done..]. Qed.

Lemma spans_from_begin lo l i v : spans_from lo l → l !! i = Some v → lo < sbegin v ∧ sbegin v < send v.
Proof.
  revert lo i. induction l as [|w l IH]; intros lo [|i] Hl Hi; simplify_eq/=; [tauto|].
  destruct Hl as (? & ? & Hl). specialize (IH _ _ Hl Hi). lia.
Qed.

Lemma spans_from_lookup lo l i j u v :
  spans_from lo l → l !! i = Some u → l !! j = Some v → (i < j)%nat → send u < sbegin v.
Proof.
  revert lo i j. induction l as [|w l IH]; intros lo [|i] [|j] Hl Hi Hj Hij; simplify_eq/=; try lia.
  - destruct Hl as (? & ? & Hl). by apply (spans_from_begin _ _ _ _ Hl) in Hj as [].
  - destruct Hl as (? & ? & Hl). apply (IH _ _ _ Hl Hi Hj). lia.
Qed.

(** The table cannot be longer than the addresses it covers. *)
Lemma spans_from_length lo hi l :
  spans_from lo l → Forall (λ v, send v ≤ hi) l → lo ≤ hi → Z.of_nat (length l) ≤ hi - lo.
Proof.
  revert lo. induction l as [|v l IH]; intros lo Hl Hh Hlo; [simpl; lia|].
  destruct Hl as (? & ? & Hl). apply Forall_cons in Hh as [? Hh].
  specialize (IH _ Hl Hh). cbn [length]. lia.
Qed.

(** *** The binary search *)

Lemma span_search_spec fuel s begin a b :
  spans_ok s → Z.of_nat (length s) < 2 ^ 62 →
  0 ≤ a ≤ b → b ≤ Z.of_nat (length s) → b - a ≤ Z.of_nat fuel →
  (∀ i v, s !? i = Some v → i < a → sbegin v ≤ begin) →
  (∀ i v, s !? i = Some v → b ≤ i → begin < sbegin v) →
  ∃ c, span_search fuel s begin a b = Ok c ∧ 0 ≤ c ≤ Z.of_nat (length s) ∧
    (∀ i v, s !? i = Some v → i < c → sbegin v ≤ begin) ∧
    (∀ i v, s !? i = Some v → c ≤ i → begin < sbegin v).
Proof.
  intros Hs Hlen. revert a b. induction fuel as [|fuel IH]; intros a b Hab Hb Hf Hlo Hhi.
  { exists a. replace a with b in * by lia. cbn [span_search]. rewrite Z.ltb_irrefl. auto with lia. }
  cbn [span_search]. destruct (Z.ltb_spec a b); [|exists a; replace b with a in * by lia; auto with lia].
  rewrite u64_small by lia. set (mid := (a + b) / 2).
  assert (a ≤ mid < b) by (unfold mid; split; [apply Z.div_le_lower_bound|apply Z.div_lt_upper_bound]; lia).
  destruct (zlookup_in_range s mid) as [v Hv]; [lia|]. rewrite (arr_get_Some _ _ _ Hv). cbn [obind].
  assert (∀ i u, s !? i = Some u → i < mid → send u < sbegin v) as Hbelow.
  { intros i u Hu Hi. apply zlookup_bounds in Hu as Hi'. rewrite zlookup_nonneg in Hu, Hv by lia.
    eapply spans_from_lookup; eauto. lia. }
  assert (∀ i u, s !? i = Some u → mid < i → send v < sbegin u) as Habove.
  { intros i u Hu Hi. rewrite zlookup_nonneg in Hu, Hv by lia. eapply spans_from_lookup; eauto. lia. }
  assert (∀ i u, s !? i = Some u → sbegin u < send u) as Hne.
  { intros i u Hu. apply zlookup_bounds in Hu as Hi'. rewrite zlookup_nonneg in Hu by lia.
    eapply (spans_from_begin (-1)); eauto. }
  destruct (Z.leb_spec (sbegin v) begin); apply IH; try lia.
  - intros i u Hu Hi. destruct (Z.eq_dec i mid) as [->|]; [by simplify_eq|].
    specialize (Hbelow i u Hu). specialize (Hne _ _ Hu). lia.
  - done.
  - done.
  - intros i u Hu Hi. destruct (Z.eq_dec i mid) as [->|]; [by simplify_eq|].
    specialize (Habove i u Hu). specialize (Hne _ _ Hv). lia.
Qed.

(** The search splits the table at the new span. *)
Lemma span_search_split s begin :
  spans_ok s → Z.of_nat (length s) < 2 ^ 62 →
  ∃ l r, s = l ++ r ∧ span_search (length s) s begin 0 (Z.of_nat (length s)) = Ok (Z.of_nat (length l)) ∧
    Forall (λ v, sbegin v ≤ begin) l ∧ Forall (λ v, begin < sbegin v) r.
Proof.
  intros Hs Hlen.
  destruct (span_search_spec (length s) s begin 0 (Z.of_nat (length s))) as (c & E & Hc & Hl & Hr);
    try done; try lia.
  { intros i v Hv. apply zlookup_bounds in Hv. lia. }
  { intros i v Hv. apply zlookup_bounds in Hv. lia. }
  exists (take (Z.to_nat c) s), (drop (Z.to_nat c) s).
  split; [by rewrite take_drop|]. split; [rewrite E, length_take; f_equal; lia|].
  split; apply Forall_lookup; intros i v Hv.
  - apply lookup_take_Some in Hv as [Hv Hi]. apply (Hl (Z.of_nat i)); [by rewrite zlookup_nat|lia].
  - rewrite lookup_drop in Hv. apply (Hr (Z.of_nat (Z.to_nat c + i))); [by rewrite zlookup_nat|lia].
Qed.

(** *** Adding a span *)

(** A table that is the old one together with the new span. *)
Definition span_added (s : list Span) (b e : Z) (s' : list Span) : Prop :=
  spans_ok s' ∧ (∀ x, covers s' x ↔ covers s x ∨ b ≤ x < e) ∧
  (∀ P : Z → Prop, P b → P e → Forall (λ v, P (sbegin v) ∧ P (send v)) s →
     Forall (λ v, P (sbegin v) ∧ P (send v)) s').

(** The neighbours of the new span. *)
Lemma span_left l u r b e :
  spans_ok ((l ++ [u]) ++ r) → sbegin u ≤ b → b < e →
  (∀ x, b ≤ x < e → ¬ covers ((l ++ [u]) ++ r) x) → sbegin u < send u ≤ b.
Proof.
  intros Hs Hu Hbe Hd. split.
  - eapply (spans_from_begin (-1) _ (length l)); [exact Hs|].
    rewrite <- (assoc_L (++)). by apply list_lookup_middle.
  - apply Z.nlt_ge. intros Hlt. apply (Hd b); [lia|].
    rewrite !covers_app, covers_cons. left; right; left; lia.
Qed.

Lemma span_right l w r b e :
  spans_ok (l ++ w :: r) → b < sbegin w → b < e →
  (∀ x, b ≤ x < e → ¬ covers (l ++ w :: r) x) → e ≤ sbegin w < send w.
Proof.
  intros Hs Hw Hbe Hd. assert (sbegin w < send w).
  { eapply (spans_from_begin (-1) _ (length l)); [exact Hs|]. by apply list_lookup_middle. }
  split; [|done]. apply Z.nlt_ge. intros Hlt. apply (Hd (sbegin w)); [lia|].
  rewrite covers_app, covers_cons. right; left; lia.
Qed.

(** The three ways the table changes, in terms of what is left and right of the
    new span. *)
Lemma added_between l r b e :
  spans_ok (l ++ r) → top (-1) l < b → b < e → spans_from e r → span_added (l ++ r) b e (l ++ mkSpan b e :: r).
Proof.
  intros Hs Hl Hbe Hr. unfold spans_ok in Hs. rewrite spans_from_app in Hs. split; [|split].
  - unfold spans_ok. rewrite spans_from_app. by destruct Hs.
  - intros x. rewrite !covers_app, covers_cons. simpl. tauto.
  - intros P Hb He HF. apply Forall_app in HF as [??]. apply Forall_app; split; [done|].
    constructor; done.
Qed.

Lemma added_left l u r b e :
  spans_ok ((l ++ [u]) ++ r) → send u = b → b < e → spans_from e r →
  span_added ((l ++ [u]) ++ r) b e (l ++ mkSpan (sbegin u) e :: r).
Proof.
  intros Hs Hu Hbe Hr. unfold spans_ok in Hs. rewrite <- (assoc_L (++)), spans_from_app in Hs.
  destruct Hs as (Hl & Hu1 & Hu2 & Hr'). split; [|split].
  - unfold spans_ok. rewrite spans_from_app. simpl. auto with lia.
  - intros x. rewrite !covers_app, !covers_cons, covers_nil. simpl. intuition lia.
  - intros P Hb He HF. rewrite !Forall_app, Forall_cons in *. naive_solver.
Qed.

Lemma added_right l w r b e :
  spans_ok (l ++ w :: r) → top (-1) l < b → sbegin w = e → b < e →
  span_added (l ++ w :: r) b e (l ++ mkSpan b (send w) :: r).
Proof.
  intros Hs Hl Hw Hbe. unfold spans_ok in Hs. rewrite spans_from_app in Hs.
  destruct Hs as (Hl' & Hw1 & Hw2 & Hr'). split; [|split].
  - unfold spans_ok. rewrite spans_from_app. simpl. auto with lia.
  - intros x. rewrite !covers_app, !covers_cons. simpl. intuition lia.
  - intros P Hb He HF. rewrite !Forall_app, !Forall_cons in *. naive_solver.
Qed.

Lemma added_both l u w r b e :
  spans_ok ((l ++ [u]) ++ w :: r) → send u = b → sbegin w = e → b < e →
  span_added ((l ++ [u]) ++ w :: r) b e (l ++ mkSpan (sbegin u) (send w) :: r).
Proof.
  intros Hs Hu Hw Hbe. unfold spans_ok in Hs. rewrite <- (assoc_L (++)), spans_from_app in Hs.
  destruct Hs as (Hl & Hu1 & Hu2 & Hw1 & Hw2 & Hr'). split; [|split].
  - unfold spans_ok. rewrite spans_from_app. simpl. auto with lia.
  - intros x. rewrite !covers_app, !covers_cons, covers_nil. simpl. intuition lia.
  - intros P Hb He HF. rewrite !Forall_app, !Forall_cons in *. naive_solver.
Qed.

Lemma vec_insert_mid {A} (l r : list A) x : vec_insert (l ++ r) (Z.of_nat (length l)) x = Ok (l ++ x :: r).
Proof.
  unfold vec_insert. rewrite (proj2 (Z.leb_le _ _)), (proj2 (Z.leb_le _ _)) by (rewrite ?length_app; lia).
  cbn [andb]. by rewrite Nat2Z.id, take_app_length, drop_app_length.
Qed.

Lemma vec_erase_mid {A} (l r : list A) x : vec_erase (l ++ x :: r) (Z.of_nat (length l)) = Ok (l ++ r).
Proof.
  unfold vec_erase. rewrite (proj2 (Z.leb_le _ _)), (proj2 (Z.ltb_lt _ _))
    by (rewrite ?length_app; cbn [length]; lia).
  cbn [andb]. by rewrite Nat2Z.id, delete_middle.
Qed.

Lemma add_span_spec s b e :
  spans_ok s → Z.of_nat (length s) < 2 ^ 62 → 0 ≤ b < e →
  (∀ x, b ≤ x < e → ¬ covers s x) →
  ∃ s', add_span s b e = Ok s' ∧ span_added s b e s'.
Proof.
  intros Hs Hlen Hbe Hd. unfold add_span. rewrite Z.gtb_ltb, (proj2 (Z.ltb_lt _ _)) by lia.
  cbn [CHECK obind]. destruct (Z.eqb_spec (Z.of_nat (length s)) 0) as [H0|H0]; cbn [negb].
  { destruct s; [|done]. exists [mkSpan b e]. split; [done|].
    apply (added_between [] []); cbn; auto with lia. }
  destruct (span_search_split s b Hs Hlen) as (l & r & -> & E & Hl & Hr). rewrite E. cbn [obind].
  rewrite (proj2 (Z.leb_le _ _)) by (rewrite length_app; lia). cbn [CHECK obind].
  destruct r as [|w r]; destruct l as [|u l _] using rev_ind.
  - done.
  - apply Forall_app in Hl as [_ [Hu _]%Forall_cons].
    destruct (span_left l u [] b e) as [Hu1 Hu2]; auto with lia.
    rewrite app_nil_r in *. rewrite length_app in *. cbn [length] in *.
    rewrite (proj2 (Z.eqb_neq _ _)), Z.eqb_refl by lia.
    replace (Z.of_nat (length l + 1) - 1) with (Z.of_nat (length l)) by lia.
    rewrite arr_get_mid. cbn [obind]. destruct (Z.eqb_spec (send u) b).
    + rewrite arr_set_mid. eexists. split; [done|].
      pose proof (added_left l u [] b e) as A. rewrite app_nil_r in A. apply A; auto with lia. constructor.
    + pose proof (vec_insert_mid (l ++ [u]) [] (mkSpan b e)) as Ei.
      rewrite app_nil_r, length_app in Ei. cbn [length CHECK obind] in Ei |- *. rewrite Ei.
      eexists. split; [done|]. pose proof (added_between (l ++ [u]) [] b e) as A.
      rewrite app_nil_r in A. apply A; auto with lia; [rewrite top_snoc; lia|constructor].
  - apply Forall_cons in Hr as [Hw _].
    destruct (span_right [] w r b e) as [Hw1 Hw2]; auto with lia. cbn [app length Z.of_nat] in *.
    rewrite Z.eqb_refl, (proj2 (Z.eqb_neq _ _)) by lia. cbn [obind].
    change (Z.of_nat 0) with 0. change (arr_get (w :: r) 0) with (Ok w). cbn [obind]. destruct (Z.eqb_spec (sbegin w) e).
    + rewrite (arr_set_mid [] w _ r : arr_set (w :: r) 0 _ = _). eexists. split; [done|].
      apply (added_right [] w r); auto with lia. cbn. lia.
    + cbn [CHECK obind]. rewrite (vec_insert_mid [] (w :: r) _ : vec_insert (w :: r) 0 _ = _).
      eexists. split; [done|]. apply (added_between [] (w :: r)); auto with lia; cbn; [lia|].
      destruct Hs as (_ & _ & ?). auto with lia.
  - apply Forall_app in Hl as [_ [Hu _]%Forall_cons]. apply Forall_cons in Hr as [Hw _].
    destruct (span_left l u (w :: r) b e) as [Hu1 Hu2]; auto with lia.
    destruct (span_right (l ++ [u]) w r b e) as [Hw1 Hw2]; auto with lia.
    assert (spans_from e (w :: r) ∨ sbegin w = e) as Hr.
    { unfold spans_ok in Hs. rewrite spans_from_app in Hs. destruct Hs as [_ (? & ? & ?)].
      destruct (Z.eq_dec (sbegin w) e); [by right|left; cbn; auto with lia]. }
    rewrite (proj2 (Z.eqb_neq (Z.of_nat (length (l ++ [u]))) 0)) by (rewrite length_app; cbn [length]; lia).
    rewrite (proj2 (Z.eqb_neq (Z.of_nat (length (l ++ [u]))) _)) by (rewrite !length_app; cbn [length]; lia).
    rewrite arr_get_mid.
    replace (Z.of_nat (length (l ++ [u])) - 1) with (Z.of_nat (length l)) by (rewrite length_app; cbn [length]; lia).
    assert (arr_get ((l ++ [u]) ++ w :: r) (Z.of_nat (length l)) = Ok u) as ->
      by (rewrite <- (assoc_L (++)); apply arr_get_mid). cbn [obind].
    assert (∀ z, arr_set ((l ++ [u]) ++ w :: r) (Z.of_nat (length l)) z = Ok (l ++ z :: w :: r)) as Hset
      by (intros; rewrite <- (assoc_L (++)); apply arr_set_mid). rewrite !Hset. cbn [obind].
    destruct (Z.eqb_spec (send u) b), (Z.eqb_spec (sbegin w) e); cbn [CHECK obind].
    + replace (length (l ++ [u])) with (length (l ++ [mkSpan (sbegin u) (send w)]))
        by (by rewrite !length_app).
      rewrite (cons_middle _ l), (assoc_L (++)), vec_erase_mid, <- (assoc_L (++)).
      eexists. split; [done|]. by apply added_both; auto with lia.
    + eexists. split; [done|]. apply added_left; auto with lia. by destruct Hr.
    + rewrite arr_set_mid. eexists. split; [done|]. apply added_right; auto with lia. rewrite top_snoc; lia.
    + rewrite vec_insert_mid. eexists. split; [done|].
      apply added_between; auto with lia; [rewrite top_snoc; lia|]. by destruct Hr.
Qed.

(** *** Taking a span *)

Definition aligned (x : Z) : Prop := x mod alignment = 0.

(** Addresses of the kernel's user space, without the first page. *)
Definition addr_max : Z := 2 ^ 47.

(** What holds of the ends of every span. *)
Definition endpoint (x : Z) : Prop := aligned x ∧ 0 < x ≤ addr_max.

Definition endpoints (l : list Span) : Prop := Forall (λ v, endpoint (sbegin v) ∧ endpoint (send v)) l.

Lemma aligned_mult x : aligned x ↔ ∃ k, x = k * alignment.
Proof.
  unfold aligned. split.
  - intros H. exists (x / alignment). rewrite Z.mul_comm. by apply Z.div_exact.
  - intros [k ->]. by apply Z.mod_mul.
Qed.

Lemma aligned_add x y : aligned x → aligned y → aligned (x + y).
Proof. rewrite !aligned_mult. intros [k ->] [j ->]. exists (k + j). lia. Qed.

Lemma aligned_sub x y : aligned x → aligned y → aligned (x - y).
Proof. rewrite !aligned_mult. intros [k ->] [j ->]. exists (k - j). lia. Qed.

(** A multiple of the alignment that is at least [x] is at least [x] rounded up. *)
Lemma round_up_wide x :
  0 ≤ x ≤ 2 ^ 64 - 2 ^ 22 →
  aligned (round_up_alignment x) ∧ x ≤ round_up_alignment x < x + alignment ∧
  (∀ y, aligned y → x ≤ y → round_up_alignment x ≤ y).
Proof.
  intros Hx. unfold round_up_alignment. assert (alignment = 2097152) as Ha by reflexivity.
  rewrite u64_small by lia. split; [rewrite aligned_mult; eauto|].
  pose proof (Z.div_mod (x + alignment - 1) alignment).
  pose proof (Z.mod_pos_bound (x + alignment - 1) alignment).
  split; [lia|]. intros y [k ->]%aligned_mult Hy. apply Z.mul_le_mono_nonneg_r; [lia|].
  apply Z.lt_succ_r, Z.div_lt_upper_bound; lia.
Qed.

Lemma round_up_spec x :
  0 ≤ x < 2 ^ 63 →
  aligned (round_up_alignment x) ∧ x ≤ round_up_alignment x < x + alignment ∧
  (∀ y, aligned y → x ≤ y → round_up_alignment x ≤ y).
Proof. intros. apply round_up_wide. lia. Qed.

Lemma endpoints_length l : spans_ok l → endpoints l → Z.of_nat (length l) < 2 ^ 62.
Proof.
  intros Hl He. assert (Z.of_nat (length l) ≤ addr_max - -1); [|unfold addr_max in *; lia].
  apply spans_from_length; [done| |unfold addr_max; lia].
  eapply Forall_impl; [exact He|]. intros v [_ [_ ?]]. lia.
Qed.

Lemma take_span_spec lo sp minb A :
  spans_from lo sp → endpoints sp → 0 < minb → minb ≤ A → aligned A →
  (∀ y, aligned y → minb ≤ y → A ≤ y) →
  (take_span sp minb A = Ok None ∧ Forall (λ v, send v - sbegin v < minb) sp) ∨
  (∃ a sp', take_span sp minb A = Ok (Some (a, a + A, sp')) ∧ endpoint a ∧ lo < a ∧
     spans_from lo sp' ∧ endpoints sp' ∧
     (∀ x, a ≤ x < a + A → covers sp x) ∧
     (∀ x, covers sp' x ↔ covers sp x ∧ ¬ (a ≤ x < a + A))).
Proof.
  intros Hsp He Hm HmA HA Hr. revert lo Hsp. induction sp as [|v sp IH]; intros lo Hsp; [by left|].
  apply Forall_cons in He as [[[Hvb Hvb'] [Hve Hve']] He]. destruct Hsp as (Hlo & Hne & Hsp).
  cbn [take_span]. unfold addr_max in *. rewrite u64_small, Z.geb_leb by lia.
  assert (∀ x, covers sp x → send v < x) as Hafter.
  { intros x [u [Hu ?]]%Exists_exists. apply list_elem_of_lookup in Hu as [i Hi].
    apply (spans_from_begin _ _ _ _ Hsp) in Hi. lia. }
  destruct (Z.leb_spec minb (send v - sbegin v)) as [Hfit|Hfit].
  - right. rewrite Hvb, Z.eqb_refl. cbn [CHECK obind].
    specialize (Hr (send v - sbegin v) (aligned_sub _ _ Hve Hvb) Hfit).
    destruct (Z.leb_spec (send v - sbegin v) A) as [Hall|Hall].
    + exists (sbegin v), sp. replace (sbegin v + A) with (send v) by lia.
      split; [done|]. split; [done|]. split; [done|].
      split; [eapply spans_from_weaken; [|done]; lia|]. split; [done|]. split.
      * intros x Hx. apply covers_cons. by left.
      * intros x. rewrite covers_cons. split; [|tauto]. intros Hx. specialize (Hafter x Hx). split; [tauto|lia].
    + rewrite u64_small, (proj2 (Z.ltb_lt _ _)) by lia. cbn [CHECK obind].
      exists (sbegin v), (mkSpan (sbegin v + A) (send v) :: sp).
      assert (aligned (sbegin v + A)) by by apply aligned_add.
      split; [done|]. split; [done|]. split; [done|]. split; [cbn; auto with lia|].
      split; [constructor; [|done]; cbn; unfold endpoint, addr_max; auto with lia|]. split.
      * intros x Hx. apply covers_cons. left. lia.
      * intros x. rewrite !covers_cons. cbn. split; [|intuition lia].
        intros [?|Hx]; [intuition lia|]. specialize (Hafter x Hx). intuition lia.
  - destruct (IH He (send v) Hsp) as [[-> Hall]|(a & sp' & -> & Ha & Hla & Hsp' & He' & Hin & Hcov)];
      cbn [obind]; [left; split; [done|]; by constructor|right].
    exists a, (v :: sp'). split; [done|]. split; [done|]. split; [lia|]. split; [cbn; auto with lia|].
    split; [constructor; unfold endpoint, addr_max; auto with lia|]. split.
    * intros x Hx. apply covers_cons. auto.
    * intros x. rewrite !covers_cons, Hcov. intuition lia.
Qed.
