(* ===== verification/MooFacts.v ===== *)
(** * The invariant of the internal allocator

    What holds between calls of a thread: the regions it owns, the bins in
    them, which slots are handed out and which are free. *)

From Stdlib Require Import ZArith Lia.
From stdpp Require Import base gmap option list.
From S2P Require Import Prelude Moo MooSpanFacts.

Local Set Warnings "-clear-no-such-hyp".

(** ** Layout of a region *)

Definition nbytes (index : Z) : Z := 2 ^ (64 - index).
Definition binsize (index : Z) : Z := Z.max standardBinSize (nbytes index).
Definition region_bytes (index : Z) : Z := Z.max alignment (round_up_alignment (regionSize + nbytes index)).
Definition num_bins (index : Z) : Z := (region_bytes index - sizeof_Region) / binsize index.
Definition align_to (x al : Z) : Z := (x + al - 1) / al * al.
Definition data_off (index : Z) : Z :=
  align_to (sizeof_Region + sizeof_Bin * num_bins index) (Z.min 4096 (nbytes index)).
(** The bins that fit. *)
Definition max_bins (index : Z) : Z := (region_bytes index - data_off index) / binsize index.
Definition bin_start (a index : Z) (i : nat) : Z := a + data_off index + Z.of_nat i * binsize index.

(** The size classes whose regions fit into the address space. *)
Definition class_ok (index : Z) : Prop := 18 ≤ index ≤ 61.

(** The arithmetic of the layout, checked for every size class. *)
Definition layout_check (index : Z) : bool :=
  (8 <=? nbytes index) && (region_bytes index <=? 2 ^ 47) &&
  (regionSize + nbytes index <=? region_bytes index) &&
  (region_bytes index <? regionSize + nbytes index + alignment) &&
  (region_bytes index mod alignment =? 0) &&
  (2 ^ Z.log2 (binsize index) =? binsize index) &&
  (nbytes index * (binsize index / nbytes index) =? binsize index) &&
  (1 <=? max_bins index) && (max_bins index <=? num_bins index) && (max_bins index <? 128) &&
  (sizeof_Region + sizeof_Bin * num_bins index <=? data_off index) &&
  (data_off index mod Z.min 4096 (nbytes index) =? 0) &&
  (data_off index + (max_bins index - 1) * binsize index + (binsize index - nbytes index) <? alignment) &&
  (0 <? Z.min 4096 (nbytes index)) && (alignment mod Z.min 4096 (nbytes index) =? 0) &&
  (2 ^ Z.log2 (Z.min 4096 (nbytes index)) =? Z.min 4096 (nbytes index)) &&
  (1 <=? binsize index / nbytes index) && (binsize index / nbytes index <? 2 ^ 15).

Lemma layout_checked : forallb layout_check (seqZ 18 44) = true.
Proof. by vm_compute. Qed.

Lemma layout index : class_ok index → layout_check index = true.
Proof.
  intros H. pose proof layout_checked as L. rewrite forallb_forall in L. apply L.
  apply list_elem_of_In, elem_of_seqZ. unfold class_ok in H. lia.
Qed.

(** The arithmetic of the class, with its consequences for a bin of the region. *)
Record layout_facts (index : Z) : Prop := {
  lf_nb : 8 ≤ nbytes index;
  lf_bytes : regionSize + nbytes index ≤ region_bytes index ≤ 2 ^ 47;
  lf_bytes_pos : 0 < region_bytes index;
  lf_bytes_al : aligned (region_bytes index);
  lf_shift : 2 ^ Z.log2 (binsize index) = binsize index;
  lf_cap : nbytes index * (binsize index / nbytes index) = binsize index;
  lf_cap_bound : 1 ≤ binsize index / nbytes index < 2 ^ 15;
  lf_bins : 1 ≤ max_bins index ≤ num_bins index ∧ max_bins index < 128;
  lf_off : sizeof_Region + sizeof_Bin * num_bins index ≤ data_off index;
  lf_top : data_off index + (max_bins index - 1) * binsize index + (binsize index - nbytes index) < alignment;
  lf_align : data_off index mod Z.min 4096 (nbytes index) = 0 ∧ alignment mod Z.min 4096 (nbytes index) = 0
}.

Lemma layout_ok index : class_ok index → layout_facts index.
Proof.
  intros H%layout. unfold layout_check in H. rewrite !andb_true_iff in H.
  rewrite ?Z.leb_le, ?Z.ltb_lt, ?Z.eqb_eq in H. destruct_and! H.
  change regionSize with 192 in *. constructor; change regionSize with 192; unfold aligned; auto with lia.
Qed.

(** ** Bins *)

(** [p] is the address of a slot of a bin that starts at [start]. *)
Definition is_slot (index start p : Z) : Prop := ∃ j, 0 ≤ j ∧ p = start + j * nbytes index.

(** A bin of which the slots below [area] have been handed out at some time, and
    [free] came back.  [d] is by how much [remainingFrees] is ahead. *)
Record bin_ok (index start : Z) (x : Bin) (area : Z) (free : list Z) (d : Z) : Prop := {
  bo_end : bend x = start + binsize index;
  bo_cap : capacity x = binsize index / nbytes index;
  bo_index : bindex x = index;
  bo_area : is_slot index start area ∧ area ≤ bend x;
  bo_nodup : NoDup free;
  bo_free : ∀ p, p ∈ free → is_slot index start p ∧ p < area;
  bo_rem : remainingFrees x = (area - start) / nbytes index - Z.of_nat (length free) + d;
  bo_flags : active x = negb (idle x) ∧ full x = idle x;
  bo_idle : idle x = true → area = bend x ∧ free = []
}.

(** The current bin of a size class, with the bump pointer and the stack that
    the [FastThread] holds for it. *)
Definition current : Type := option (nat * Z * list Z).

Definition area_of (cur : current) (i : nat) (x : Bin) : Z :=
  match cur with Some (i', b, _) => if decide (i = i') then b else bfreearea x | None => bfreearea x end.
Definition free_of (cur : current) (i : nat) (x : Bin) : list Z :=
  match cur with Some (i', _, st) => if decide (i = i') then freelist x ++ st else freelist x
  | None => freelist x end.

(** The slots that are handed out and not freed. *)
Definition live_in (index start area : Z) (free : list Z) (p : Z) : Prop :=
  is_slot index start p ∧ p < area ∧ p ∉ free.

(** ** Regions *)

Definition empties (bins : list Bin) : Z := Z.of_nat (length (filter (λ x, remainingFrees x = 0) bins)).

Record region_ok (a : Z) (r : Region) (cur : current) (d : nat → Z) : Prop := {
  ro_class : class_ok (rindex r);
  ro_addr : endpoint a;
  ro_end : rend r = a + region_bytes (rindex r) ∧ rend r ≤ addr_max;
  ro_shift : binshift r = Z.log2 (binsize (rindex r));
  ro_data : databegin r = a + data_off (rindex r);
  ro_bins_len : (1 ≤ length (rbins r))%nat ∧ Z.of_nat (length (rbins r)) ≤ max_bins (rindex r);
  ro_area : rfreearea r = a + data_off (rindex r) + Z.of_nat (length (rbins r)) * binsize (rindex r);
  ro_binarea : freebinarea r = a + sizeof_Region + sizeof_Bin * Z.of_nat (length (rbins r));
  ro_created : numCreatedBins r = Z.of_nat (length (rbins r));
  ro_empties : numEmptyBins r = empties (rbins r);
  ro_lists : activebins r ++ idlebins r ≡ₚ seq 0 (length (rbins r));
  ro_idle_num : numIdleBins r = Z.of_nat (length (idlebins r));
  ro_active : ∀ i x, rbins r !! i = Some x → i ∈ activebins r ↔ active x = true;
  ro_bins : ∀ i x, rbins r !! i = Some x →
    bin_ok (rindex r) (bin_start a (rindex r) i) x (area_of cur i x) (free_of cur i x) (d i);
  ro_cur : ∀ i b st, cur = Some (i, b, st) → i ∈ activebins r;
  ro_full : rfull r = true → activebins r = [] ∧ rend r < rfreearea r + binsize (rindex r);
  ro_empty : rempty r = true → numEmptyBins r = numCreatedBins r;
  ro_thread : rthread r = true
}.

(** ** Threads *)

Definition cur_of (t : Thread) (a index : Z) : current :=
  match fbins (fast t) index with
  | Some (a', i) => if a' =? a then Some (i, bump (slots (fast t) index), stack (fast t) index) else None
  | None => None
  end.

Definition regions_ok (t : Thread) (d : Z → nat → Z) : Prop :=
  ∀ a r, regions t !! a = Some r → region_ok a r (cur_of t a (rindex r)) (d a).

Definition active_ok (t : Thread) : Prop :=
  ∀ j, NoDup (activeRegions t j) ∧
       ∀ a, a ∈ activeRegions t j ↔ (λ r, (rindex r, rfull r)) <$> regions t !! a = Some (j, false).

Definition empty_ok (t : Thread) : Prop :=
  ∀ j, NoDup (emptyRegions t j) ∧ numEmptyRegions t j = Z.of_nat (length (emptyRegions t j)) ∧
       ∀ a, a ∈ emptyRegions t j ↔ (λ r, (rindex r, rempty r)) <$> regions t !! a = Some (j, true).

Definition all_ok (t : Thread) : Prop :=
  NoDup (allRegions t) ∧ ∀ a, a ∈ allRegions t ↔ is_Some (regions t !! a).

(** The extents of the regions. *)
Definition extent (t : Thread) (a x : Z) : Prop := ∃ r, regions t !! a = Some r ∧ a ≤ x < rend r.

Definition disj_ok (t : Thread) : Prop := ∀ a a' x, extent t a x → extent t a' x → a = a'.

Definition fast_ok (t : Thread) : Prop :=
  ∀ j, slot_freelist (slots (fast t) j) = [] ∧
    match fbins (fast t) j with
    | Some (a, i) =>
        (λ r, (rindex r, bend <$> rbins r !! i)) <$> regions t !! a =
          Some (j, Some (slot_end (slots (fast t) j) - 1)) ∧
        slotSize (slots (fast t) j) = nbytes j
    | None =>
        stack (fast t) j = [] ∧
        slot_end (slots (fast t) j) ≤ u64 (bump (slots (fast t) j) + slotSize (slots (fast t) j))
    end.

(** The invariant of a thread, with [remainingFrees] ahead by [d]. *)
Record thread_ok (t : Thread) (d : Z → nat → Z) : Prop := {
  to_regions : regions_ok t d;
  to_active : active_ok t;
  to_empty : empty_ok t;
  to_all : all_ok t;
  to_disj : disj_ok t;
  to_fast : fast_ok t
}.

Definition zero : Z → nat → Z := λ _ _, 0.
(** One bin is ahead. *)
Definition ahead (b : Z * nat) (n : Z) : Z → nat → Z :=
  λ a i, if decide ((a, i) = b) then n else 0.

(** The blocks that are handed out: of a bin, of a region, of the thread. *)
Definition bin_live (a : Z) (r : Region) (cur : current) (i : nat) (p : Z) : Prop :=
  ∃ x, rbins r !! i = Some x ∧
    live_in (rindex r) (bin_start a (rindex r) i) (area_of cur i x) (free_of cur i x) p.
Definition region_live (a : Z) (r : Region) (cur : current) (p : Z) : Prop := ∃ i, bin_live a r cur i p.
Definition live (t : Thread) (p : Z) : Prop :=
  ∃ a r, regions t !! a = Some r ∧ region_live a r (cur_of t a (rindex r)) p.

(** ** The globals *)

(** The thread owns the memory; [O] is what other threads own. *)
Definition own (t : Thread) (x : Z) : Prop := ∃ a, extent t a x.

Record globals_ok (O : Z → Prop) (g : Globals) (t : Thread) : Prop := {
  go_spans : spans_ok (spans g) ∧ endpoints (spans g);
  go_mapped : spans_ok (allMappedRegions g) ∧ endpoints (allMappedRegions g);
  go_free : ∀ x, covers (spans g) x → ¬ own t x ∧ ¬ O x;
  go_own : ∀ x, own t x → ¬ O x;
  go_all : ∀ x, covers (spans g) x ∨ own t x ∨ O x → covers (allMappedRegions g) x;
  go_snap : publishedRegions g = (match allMappedRegions g with [] => None | l => Some l end);
  go_bytes : 0 ≤ mmappedBytes g < 2 ^ 64
}.

(** ** Slots *)

Section slots.
Context (index : Z) (Hclass : class_ok index).

Let Lf : layout_facts index := layout_ok index Hclass.

Lemma nbytes_pos : 0 < nbytes index.
Proof. destruct Lf. lia. Qed.

Lemma binsize_pos : 0 < binsize index.
Proof. unfold binsize, standardBinSize. lia. Qed.

(** A slot below the end of an area that consists of slots lies in it. *)
Lemma slot_fits start p area : is_slot index start p → is_slot index start area → p < area → p + nbytes index ≤ area.
Proof.
  intros (j & Hj & ->) (k & Hk & ->) Hlt. pose proof nbytes_pos. assert (j < k) by nia. nia.
Qed.

Lemma slot_end_bin start : is_slot index start (start + binsize index).
Proof.
  exists (binsize index / nbytes index). destruct Lf. split; [lia|]. lia.
Qed.

Lemma slot_start start : is_slot index start start.
Proof. exists 0. lia. Qed.

Lemma slot_next start p : is_slot index start p → is_slot index start (p + nbytes index).
Proof. intros (j & Hj & ->). exists (j + 1). split; [lia|]. ring. Qed.

Lemma slot_ge start p : is_slot index start p → start ≤ p.
Proof. intros (j & Hj & ->). pose proof nbytes_pos. nia. Qed.

(** The slots below [area]. *)
Definition slots_below (start area : Z) : list Z :=
  (λ j, start + j * nbytes index) <$> seqZ 0 ((area - start) / nbytes index).

Lemma elem_slots_below start area p :
  is_slot index start area → p ∈ slots_below start area ↔ is_slot index start p ∧ p < area.
Proof.
  intros (n & Hn & ->). pose proof nbytes_pos. unfold slots_below.
  replace (start + n * nbytes index - start) with (n * nbytes index) by lia. rewrite Z.div_mul by lia.
  rewrite list_elem_of_fmap. split.
  - intros (j & -> & Hj%elem_of_seqZ). split; [exists j; lia|nia].
  - intros ((j & Hj & ->) & Hlt). exists j. split; [done|]. apply elem_of_seqZ. nia.
Qed.

Lemma NoDup_slots_below start area : NoDup (slots_below start area).
Proof.
  apply NoDup_fmap_2; [|apply NoDup_seqZ]. intros j k E. pose proof nbytes_pos. nia.
Qed.

Lemma length_slots_below start area :
  is_slot index start area → Z.of_nat (length (slots_below start area)) = (area - start) / nbytes index.
Proof.
  intros (n & Hn & ->). pose proof nbytes_pos. unfold slots_below. rewrite length_fmap, length_seqZ.
  replace (start + n * nbytes index - start) with (n * nbytes index) by lia. rewrite Z.div_mul by lia. lia.
Qed.

Lemma area_div start n : (start + n * nbytes index - start) / nbytes index = n.
Proof. pose proof nbytes_pos. replace (start + _ - start) with (n * nbytes index) by lia. apply Z.div_mul. lia. Qed.

Lemma area_div_next start area :
  is_slot index start area →
  (area + nbytes index - start) / nbytes index = (area - start) / nbytes index + 1.
Proof.
  intros (n & Hn & ->). rewrite area_div. replace (_ + nbytes index) with (start + (n + 1) * nbytes index) by ring.
  apply area_div.
Qed.

(** How many slots are handed out. *)
Lemma free_le start x area free d :
  bin_ok index start x area free d → Z.of_nat (length free) ≤ (area - start) / nbytes index.
Proof.
  intros [? ? ? [Ha ?] Hn Hf _ _ _]. rewrite <- length_slots_below by done.
  apply Nat2Z.inj_le, submseteq_length, NoDup_submseteq; [done|].
  intros p Hp. apply elem_slots_below; auto.
Qed.

Lemma live_free_lt start x area free d p :
  bin_ok index start x area free d → live_in index start area free p →
  Z.of_nat (length free) + 1 ≤ (area - start) / nbytes index.
Proof.
  intros [? ? ? [Ha ?] Hn Hf _ _ _] (Hp & Hlt & Hnp). rewrite <- length_slots_below by done.
  assert (length (p :: free) ≤ length (slots_below start area))%nat as Hlen; [|cbn [length] in Hlen; lia].
  apply submseteq_length, NoDup_submseteq; [by constructor|].
  intros q [->|Hq]%elem_of_cons; apply elem_slots_below; auto.
Qed.

(** A bin without outstanding blocks. *)
Lemma not_live_all_free start x area free d p :
  bin_ok index start x area free d → Z.of_nat (length free) = (area - start) / nbytes index →
  ¬ live_in index start area free p.
Proof. intros Hb He Hl. pose proof (live_free_lt _ _ _ _ _ _ Hb Hl). lia. Qed.

Lemma used_bound start x area free d :
  bin_ok index start x area free d → (area - start) / nbytes index < 2 ^ 15.
Proof.
  intros [He _ _ [(n & Hn & Ha) Hle] _ _ _ _ _]. subst area. rewrite area_div.
  destruct Lf. pose proof nbytes_pos. rewrite He in Hle. nia.
Qed.
End slots.

(** ** Addresses *)

Lemma region_of_eq p : 0 ≤ p → region_of p = p - p mod alignment.
Proof.
  intros. unfold region_of. change (alignment - 1) with (Z.ones 21).
  rewrite Z.ldiff_ones_r by lia. rewrite Z.shiftl_mul_pow2, Z.shiftr_div_pow2 by lia.
  change alignment with (2 ^ 21). pose proof (Z.div_mod p (2 ^ 21)). lia.
Qed.

Lemma region_of_aligned a o : aligned a → 0 ≤ a → 0 ≤ o < alignment → region_of (a + o) = a.
Proof.
  intros [k ->]%aligned_mult ? ?. rewrite region_of_eq by lia.
  replace ((k * alignment + o) mod alignment) with o; [lia|].
  rewrite Z.add_comm, Z.mod_add by done. symmetry. by apply Z.mod_small.
Qed.

(** What finding a block needs of a region. *)
Record shape (a : Z) (r : Region) : Prop := {
  sh_class : class_ok (rindex r);
  sh_addr : endpoint a;
  sh_end : rend r = a + region_bytes (rindex r) ∧ rend r ≤ addr_max;
  sh_shift : binshift r = Z.log2 (binsize (rindex r));
  sh_data : databegin r = a + data_off (rindex r);
  sh_len : Z.of_nat (length (rbins r)) ≤ max_bins (rindex r);
  sh_bins : ∀ i x, rbins r !! i = Some x → bend x = bin_start a (rindex r) i + binsize (rindex r)
}.

Lemma shape_ok a r cur d : region_ok a r cur d → shape a r.
Proof. intros []. constructor; try done; [lia|]. intros i x Hx. by destruct (ro_bins0 i x Hx). Qed.

(** The region and the bin of a block are found from its address. *)
Lemma shape_place a r i x p :
  shape a r → rbins r !! i = Some x → is_slot (rindex r) (bin_start a (rindex r) i) p → p < bend x →
  region_of p = a ∧ bin_of r p = i ∧ a ≤ p ∧ p + nbytes (rindex r) ≤ rend r.
Proof.
  intros [Hc [Ha1 Ha2] [He He'] Hsh Hdb Hb2 Hbins] Hx Hp Hlt.
  destruct (layout_ok _ Hc). pose proof (nbytes_pos _ Hc). pose proof (binsize_pos (rindex r)).
  apply lookup_lt_Some in Hx as Hi. rewrite (Hbins i x Hx) in Hlt.
  pose proof (slot_fits _ Hc _ _ _ Hp (slot_end_bin _ Hc _) Hlt) as Hfit.
  apply (slot_ge _ Hc) in Hp as Hge. unfold bin_start in *.
  assert (Z.of_nat i * binsize (rindex r) ≤ (max_bins (rindex r) - 1) * binsize (rindex r)) by nia.
  assert (max_bins (rindex r) * binsize (rindex r) ≤ region_bytes (rindex r) - data_off (rindex r)).
  { unfold max_bins. rewrite Z.mul_comm. apply Z.mul_div_le. lia. }
  assert (0 ≤ data_off (rindex r)) by (unfold sizeof_Region, sizeof_Bin in *; lia).
  assert (0 ≤ region_bytes (rindex r) ≤ 2 ^ 47) by (unfold regionSize, sizeof_Region in *; lia).
  split_and!.
  - replace p with (a + (p - a)) by lia. apply region_of_aligned; [done|lia|lia].
  - unfold bin_of. rewrite Hdb, Hsh, lf_shift0, u64_small by (unfold addr_max in *; lia).
    replace (p - (a + data_off (rindex r)))
      with (p - (a + data_off (rindex r) + Z.of_nat i * binsize (rindex r)) + Z.of_nat i * binsize (rindex r)) by lia.
    rewrite Z.div_add, Z.div_small by lia. lia.
  - lia.
  - lia.
Qed.

Lemma block_place a r cur d i x p :
  region_ok a r cur d → rbins r !! i = Some x → is_slot (rindex r) (bin_start a (rindex r) i) p →
  p < bend x →
  region_of p = a ∧ bin_of r p = i ∧ a ≤ p ∧ p + nbytes (rindex r) ≤ rend r.
Proof. intros Hr. apply shape_place. by eapply shape_ok. Qed.

Lemma bin_bounds a r cur d i x :
  region_ok a r cur d → rbins r !! i = Some x →
  0 < bin_start a (rindex r) i ∧ bin_start a (rindex r) i < bend x ∧ bend x ≤ addr_max ∧ nbytes (rindex r) ≤ addr_max.
Proof.
  intros [Hc [Ha1 Ha2] [He He'] _ _ [Hb1 Hb2] _ _ _ _ _ _ _ Hbins _ _ _ _] Hx.
  destruct (layout_ok _ Hc). pose proof (nbytes_pos _ Hc). pose proof (binsize_pos (rindex r)).
  apply lookup_lt_Some in Hx as Hi. rewrite (bo_end _ _ _ _ _ _ (Hbins i x Hx)). unfold bin_start.
  assert (Z.of_nat i * binsize (rindex r) ≤ (max_bins (rindex r) - 1) * binsize (rindex r)) by nia.
  assert (max_bins (rindex r) * binsize (rindex r) ≤ region_bytes (rindex r) - data_off (rindex r)).
  { unfold max_bins. rewrite Z.mul_comm. apply Z.mul_div_le. lia. }
  assert (0 ≤ data_off (rindex r)) by (unfold sizeof_Region, sizeof_Bin in *; lia).
  change regionSize with 192 in *. unfold addr_max in *. lia.
Qed.

Lemma live_bin_bound index start x area free d p :
  bin_ok index start x area free d → live_in index start area free p → p < bend x.
Proof. intros [_ _ _ [_ ?] _ _ _ _ _] (_ & ? & _). lia. Qed.

(** ** Changing one region *)

(** What the lists of a thread and its [FastThread] know of a region. *)
Record same_shell (r r' : Region) : Prop := {
  ss_index : rindex r' = rindex r;
  ss_end : rend r' = rend r;
  ss_bins : ∀ i e, bend <$> rbins r !! i = Some e → bend <$> rbins r' !! i = Some e
}.

Definition put_t (t : Thread) (a : Z) (r : Region) : Thread := set_regions t (<[a := r]> (regions t)).

Lemma put_t_put t a r r' : put_t (put_t t a r) a r' = put_t t a r'.
Proof. unfold put_t, set_regions. cbn. by rewrite insert_insert_eq. Qed.

Lemma region_ok_ext a r cur d d' : (∀ j, d' j = d j) → region_ok a r cur d → region_ok a r cur d'.
Proof. intros E []. constructor; try done. intros i x Hx. rewrite E. auto. Qed.

Section put.
Context (t : Thread) (a : Z) (r r' : Region).
Context (Ha : regions t !! a = Some r) (Hsh : same_shell r r').

Lemma proj_put {B} (f : Region → B) a' :
  f r' = f r → f <$> regions (put_t t a r') !! a' = f <$> regions t !! a'.
Proof using Ha.
  intros Hf. unfold put_t. cbn [regions set_regions]. destruct (decide (a' = a)) as [->|Hne].
  - rewrite lookup_insert_eq, Ha. cbn. by rewrite Hf.
  - by rewrite lookup_insert_ne.
Qed.

Lemma active_ok_put : rfull r' = rfull r → active_ok t → active_ok (put_t t a r').
Proof using Ha Hsh.
  intros Hf Hok j. destruct (Hok j) as [Hn Hin]. split; [done|]. intros a'.
  rewrite (proj_put (λ r, (rindex r, rfull r))); [apply Hin|]. destruct Hsh. congruence.
Qed.

Lemma empty_ok_put : rempty r' = rempty r → empty_ok t → empty_ok (put_t t a r').
Proof using Ha Hsh.
  intros Hf Hok j. destruct (Hok j) as (Hn & Hl & Hin). split; [done|]. split; [done|]. intros a'.
  rewrite (proj_put (λ r, (rindex r, rempty r))); [apply Hin|]. destruct Hsh. congruence.
Qed.

Lemma is_Some_put a' : is_Some (regions (put_t t a r') !! a') ↔ is_Some (regions t !! a').
Proof using Ha.
  rewrite <- (fmap_is_Some (λ _, ())), proj_put by done. apply fmap_is_Some.
Qed.

Lemma all_ok_put : all_ok t → all_ok (put_t t a r').
Proof using Ha. intros [Hn Hin]. split; [done|]. intros a'. rewrite is_Some_put. apply Hin. Qed.

Lemma extent_put a' x : extent (put_t t a r') a' x ↔ extent t a' x.
Proof using Ha Hsh.
  unfold extent, put_t. cbn [regions set_regions]. destruct (decide (a' = a)) as [->|Hne].
  - rewrite lookup_insert_eq, Ha. destruct Hsh. split; intros (? & [= <-] & ?); eexists; (split; [done|]); congruence.
  - by rewrite lookup_insert_ne.
Qed.

Lemma own_put x : own (put_t t a r') x ↔ own t x.
Proof using Ha Hsh. unfold own. by setoid_rewrite extent_put. Qed.

Lemma disj_ok_put : disj_ok t → disj_ok (put_t t a r').
Proof using Ha Hsh. intros Hd a1 a2 x. rewrite !extent_put. apply Hd. Qed.

Lemma fast_ok_put : fast_ok t → fast_ok (put_t t a r').
Proof using Ha Hsh.
  intros Hf j. destruct (Hf j) as [Hfl Hm]. split; [done|]. change (fast (put_t t a r')) with (fast t).
  destruct (fbins (fast t) j) as [[a' i]|]; [|done]. destruct Hm as [Hm Hs]. split; [|done].
  unfold put_t. cbn [regions set_regions]. destruct (decide (a' = a)) as [->|Hne].
  - rewrite lookup_insert_eq. rewrite Ha in Hm. cbn in Hm |- *. injection Hm as Hi He.
    destruct Hsh. by rewrite ss_index0, Hi, (ss_bins0 _ _ He).
  - by rewrite lookup_insert_ne.
Qed.

Lemma globals_ok_put O g : globals_ok O g t → globals_ok O g (put_t t a r').
Proof using Ha Hsh.
  intros [? ? Hf Ho Hall ?]. constructor; try done; setoid_rewrite own_put; done.
Qed.

Lemma regions_ok_put d d' :
  regions_ok t d → region_ok a r' (cur_of t a (rindex r')) (d' a) → (∀ a' j, a' ≠ a → d' a' j = d a' j) →
  regions_ok (put_t t a r') d'.
Proof using.
  intros Hr Hok Hd a' r0. unfold put_t. cbn [regions set_regions].
  rewrite lookup_insert_Some. intros [[<- <-]|[Hne Ha']]; [done|].
  apply (region_ok_ext _ _ _ (d a')); [intros; by apply Hd|]. by apply Hr.
Qed.

Lemma thread_ok_put d d' :
  thread_ok t d → rfull r' = rfull r → rempty r' = rempty r →
  region_ok a r' (cur_of t a (rindex r')) (d' a) → (∀ a' j, a' ≠ a → d' a' j = d a' j) →
  thread_ok (put_t t a r') d'.
Proof using Ha Hsh.
  intros [] ????. constructor;
    eauto using regions_ok_put, active_ok_put, empty_ok_put, all_ok_put, disj_ok_put, fast_ok_put.
Qed.
End put.

(** *** Changing one bin *)

Lemma filter_length_insert {A} (P : A → Prop) `{∀ x, Decision (P x)} (l : list A) i x y :
  l !! i = Some x →
  (length (filter P (<[i := y]> l)) + (if decide (P x) then 1 else 0) =
   length (filter P l) + (if decide (P y) then 1 else 0))%nat.
Proof.
  intros Hx. apply list_elem_of_split_length in Hx as (l1 & l2 & -> & ->).
  rewrite <- (Nat.add_0_r (length l1)), insert_app_r. cbn [list_insert insert].
  rewrite !filter_app, !filter_cons, !length_app. repeat case_decide; cbn [length]; lia.
Qed.

Lemma empties_insert bins i x y :
  bins !! i = Some x →
  empties (<[i := y]> bins) =
    empties bins - (if remainingFrees x =? 0 then 1 else 0) + (if remainingFrees y =? 0 then 1 else 0).
Proof.
  intros Hx. pose proof (filter_length_insert (λ x, remainingFrees x = 0) bins i x y Hx) as E.
  unfold empties. destruct (Z.eqb_spec (remainingFrees x) 0), (Z.eqb_spec (remainingFrees y) 0);
    repeat case_decide; lia.
Qed.

Definition upd_bin (r : Region) (i : nat) (x : Bin) : Region :=
  set_counts (set_bins r (<[i := x]> (rbins r))) (numCreatedBins r) (empties (<[i := x]> (rbins r))).

Lemma upd_bin_shell r i x x' : rbins r !! i = Some x → bend x' = bend x → same_shell r (upd_bin r i x').
Proof.
  intros Hx He. constructor; [done..|]. intros j e Hj. cbn [upd_bin set_counts set_bins rbins].
  apply lookup_lt_Some in Hx as Hi. destruct (decide (j = i)) as [->|Hne].
  - rewrite list_lookup_insert_eq by done. rewrite Hx in Hj. cbn in *. congruence.
  - by rewrite list_lookup_insert_ne.
Qed.

Lemma region_ok_upd_bin a r cur d cur' d' i x x' :
  region_ok a r cur d → rbins r !! i = Some x → active x' = active x →
  bin_ok (rindex r) (bin_start a (rindex r) i) x' (area_of cur' i x') (free_of cur' i x') (d' i) →
  (∀ j y, j ≠ i → area_of cur' j y = area_of cur j y ∧ free_of cur' j y = free_of cur j y ∧ d' j = d j) →
  (∀ j b st, cur' = Some (j, b, st) → j ∈ activebins r) →
  (rempty r = true → empties (<[i := x']> (rbins r)) = numCreatedBins r) →
  region_ok a (upd_bin r i x') cur' d'.
Proof.
  intros [] Hx Hact Hb Hother Hcur Hemp. apply lookup_lt_Some in Hx as Hi.
  constructor; cbn [upd_bin set_counts set_bins rindex rend binshift databegin rbins rfreearea
    freebinarea numCreatedBins numEmptyBins activebins idlebins numIdleBins rfull rempty rthread];
    rewrite ?length_insert; try done.
  - intros j y. rewrite list_lookup_insert_Some. intros [(<- & <- & _)|[Hne Hy]].
    + rewrite Hact. by apply ro_active0.
    + by apply ro_active0.
  - intros j y. rewrite list_lookup_insert_Some. intros [(<- & <- & _)|[Hne Hy]]; [done|].
    destruct (Hother j y) as (-> & -> & ->); [done|]. by apply ro_bins0.
Qed.

(** ** Live blocks when one region changes *)

Definition live_elsewhere (t : Thread) (a p : Z) : Prop :=
  ∃ a' r, a' ≠ a ∧ regions t !! a' = Some r ∧ region_live a' r (cur_of t a' (rindex r)) p.

Lemma live_split t a r p :
  regions t !! a = Some r → live t p ↔ live_elsewhere t a p ∨ region_live a r (cur_of t a (rindex r)) p.
Proof.
  intros Ha. split.
  - intros (a' & r' & Ha' & Hl). destruct (decide (a' = a)) as [->|]; [simplify_eq; by right|].
    left. by exists a', r'.
  - intros [(a' & r' & _ & ? & ?)|?]; [by exists a', r'|by exists a, r].
Qed.

Lemma live_elsewhere_ext t t' a p :
  (∀ a', a' ≠ a → regions t' !! a' = regions t !! a') →
  (∀ a' r, a' ≠ a → regions t !! a' = Some r → cur_of t' a' (rindex r) = cur_of t a' (rindex r)) →
  live_elsewhere t' a p ↔ live_elsewhere t a p.
Proof.
  intros Hr Hc. unfold live_elsewhere. split; intros (a' & r & Hne & Ha' & Hl); exists a', r.
  - rewrite Hr in Ha' by done. rewrite Hc in Hl by done. done.
  - rewrite Hr, Hc by done. done.
Qed.

Lemma bin_live_upd_ne a r cur cur' i j x p :
  j ≠ i → (∀ y, area_of cur' j y = area_of cur j y ∧ free_of cur' j y = free_of cur j y) →
  bin_live a (upd_bin r i x) cur' j p ↔ bin_live a r cur j p.
Proof.
  intros Hne Hs. unfold bin_live. cbn [upd_bin set_counts set_bins rbins rindex].
  rewrite list_lookup_insert_ne by done.
  split; intros (y & Hy & Hl); exists y; (split; [done|]); destruct (Hs y) as [E1 E2].
  - by rewrite <- E1, <- E2.
  - by rewrite E1, E2.
Qed.

Lemma bin_live_upd_eq a r cur' i x x' p :
  rbins r !! i = Some x →
  bin_live a (upd_bin r i x') cur' i p ↔
  live_in (rindex r) (bin_start a (rindex r) i) (area_of cur' i x') (free_of cur' i x') p.
Proof.
  intros Hx. apply lookup_lt_Some in Hx as Hi. unfold bin_live. cbn [upd_bin set_counts set_bins rbins rindex].
  rewrite list_lookup_insert_eq by done. naive_solver.
Qed.

(** A change of one bin that keeps the blocks of the others. *)
Lemma region_live_upd a r cur cur' i x x' (Q : Z → Prop) p :
  rbins r !! i = Some x →
  (∀ j y, j ≠ i → area_of cur' j y = area_of cur j y ∧ free_of cur' j y = free_of cur j y) →
  (live_in (rindex r) (bin_start a (rindex r) i) (area_of cur' i x') (free_of cur' i x') p ↔ Q p) →
  region_live a (upd_bin r i x') cur' p ↔ (∃ j, j ≠ i ∧ bin_live a r cur j p) ∨ Q p.
Proof.
  intros Hx Hs HQ. split.
  - intros [j Hj]. destruct (decide (j = i)) as [->|Hne].
    + right. apply HQ. by rewrite bin_live_upd_eq in Hj.
    + left. exists j. split; [done|]. rewrite (bin_live_upd_ne a r cur) in Hj; auto.
  - intros [(j & Hne & Hj)|Hq].
    + exists j. rewrite (bin_live_upd_ne a r cur); auto.
    + exists i. rewrite bin_live_upd_eq by done. by apply HQ.
Qed.

Lemma region_live_split a r cur i x p :
  rbins r !! i = Some x →
  region_live a r cur p ↔ (∃ j, j ≠ i ∧ bin_live a r cur j p) ∨
    live_in (rindex r) (bin_start a (rindex r) i) (area_of cur i x) (free_of cur i x) p.
Proof.
  intros Hx. split.
  - intros [j Hj]. destruct (decide (j = i)) as [->|Hne]; [|left; eauto].
    right. destruct Hj as (? & ? & ?). by simplify_eq.
  - intros [(j & _ & Hj)|Hl]; [by exists j|]. exists i, x. done.
Qed.

(** A block is live in one place only. *)
Lemma region_live_place a r cur d p :
  region_ok a r cur d → region_live a r cur p → region_of p = a ∧ bin_live a r cur (bin_of r p) p ∧
    a ≤ p ∧ p + nbytes (rindex r) ≤ rend r.
Proof.
  intros Hr [i (x & Hx & Hl)]. pose proof (ro_bins _ _ _ _ Hr i x Hx) as Hb.
  destruct (block_place a r cur d i x p Hr Hx) as (E1 & E2 & ? & ?).
  - by destruct Hl.
  - by eapply live_bin_bound.
  - split; [done|]. rewrite E2. split; [by exists x|done].
Qed.

Lemma bin_live_place a r cur d i p : region_ok a r cur d → bin_live a r cur i p → bin_of r p = i ∧ region_of p = a.
Proof.
  intros Hr (x & Hx & Hl). pose proof (ro_bins _ _ _ _ Hr i x Hx) as Hb.
  destruct (block_place a r cur d i x p Hr Hx) as (E1 & E2 & ? & ?); [by destruct Hl|by eapply live_bin_bound|done].
Qed.

Lemma elsewhere_place t d a p : thread_ok t d → live_elsewhere t a p → region_of p ≠ a.
Proof.
  intros Ht (a' & r & Hne & Ha' & Hl).
  destruct (region_live_place a' r _ _ p (to_regions _ _ Ht _ _ Ha') Hl) as [-> _]. done.
Qed.

(** The blocks keep their size. *)
Definition kept (t t' : Thread) : Prop :=
  ∀ p r, live t p → live t' p → regions t !! region_of p = Some r →
    ∃ r', regions t' !! region_of p = Some r' ∧ rindex r' = rindex r.

Lemma kept_ok t t' d : thread_ok t' d →
  (∀ a r r', regions t !! a = Some r → regions t' !! a = Some r' → rindex r' = rindex r) → kept t t'.
Proof.
  intros Ht Hi p r _ (a & r' & Ha & Hl) Hr.
  destruct (region_live_place a r' _ _ p (to_regions _ _ Ht a r' Ha) Hl) as [E _]. rewrite E in *. eauto.
Qed.

Lemma kept_trans t1 t2 t3 : (∀ p, live t1 p → live t3 p → live t2 p) → kept t1 t2 → kept t2 t3 → kept t1 t3.
Proof.
  intros Hl H12 H23 p r H1 H3 Hr. specialize (Hl p H1 H3). destruct (H12 p r H1 Hl Hr) as (r2 & Hr2 & <-). eauto.
Qed.

(** A thread whose regions stay the same but for one, which keeps its class. *)
Lemma index_put (m : gmap Z Region) a0 r0 r0' a r r' : m !! a0 = Some r0 → rindex r0' = rindex r0 →
  m !! a = Some r → <[a0 := r0']> m !! a = Some r' → rindex r' = rindex r.
Proof. intros H0 E Ha. rewrite lookup_insert_Some. intros [[-> <-]|[_ ?]]; congruence. Qed.

Lemma index_same (m : gmap Z Region) a r r' : m !! a = Some r → m !! a = Some r' → rindex r' = rindex r.
Proof. congruence. Qed.

(** ** Reclaiming empty regions *)

Definition state_ok (O : Z → Prop) (s : state) (d : Z → nat → Z) : Prop :=
  thread_ok (thr s) d ∧ globals_ok O (glob s) (thr s).

Lemma list_erase_ok {A} `{EqDecision A} (x : A) l :
  x ∈ l → list_erase x l = Ok (filter (λ y, y ≠ x) l).
Proof. intros. unfold list_erase. by rewrite decide_True. Qed.

Lemma elem_erase {A} `{EqDecision A} (x y : A) (l : list A) : y ∈ filter (λ y, y ≠ x) l ↔ y ≠ x ∧ y ∈ l.
Proof. by rewrite list_elem_of_filter. Qed.

Lemma filter_id {A} (P : A → Prop) `{∀ x, Decision (P x)} (l : list A) : Forall P l → filter P l = l.
Proof. induction 1; [done|]. rewrite filter_cons_True by done. congruence. Qed.

Lemma erase_split {A} `{EqDecision A} (x : A) (l k : list A) :
  NoDup (l ++ x :: k) → filter (λ y, y ≠ x) (l ++ x :: k) = l ++ k.
Proof.
  intros (Hn1 & Hd & [Hn2 Hn3]%NoDup_cons)%NoDup_app.
  rewrite filter_app, filter_cons_False by naive_solver.
  rewrite !filter_id; [done| |]; apply Forall_forall; set_solver.
Qed.

Lemma erase_length {A} `{EqDecision A} (x : A) (l : list A) :
  NoDup l → x ∈ l → length l = S (length (filter (λ y, y ≠ x) l)).
Proof.
  intros Hn (l1 & l2 & ->)%list_elem_of_split. rewrite erase_split by done.
  rewrite !length_app. cbn [length]. lia.
Qed.

Lemma upd_eq {A} (f : Z → A) i x : upd f i x i = x.
Proof. unfold upd. by rewrite Z.eqb_refl. Qed.

Lemma upd_ne {A} (f : Z → A) i j x : j ≠ i → upd f i x j = f j.
Proof. intros. unfold upd. by rewrite (proj2 (Z.eqb_neq _ _)). Qed.

(** Compute on the fields of states. *)
Ltac tred :=
  cbn [thr glob set_thr set_glob regions activeRegions allRegions emptyRegions numEmptyRegions
       remoteFreeList exited fast set_regions set_active set_all set_empties set_remote set_fast set_exited
       stack fbins slots set_stack set_fbin set_slot bump slot_end slot_freelist slotSize
       put_region put_t spans allMappedRegions publishedRegions set_spans obind fst snd of_option
       freelist capacity remainingFrees bfreearea bend full active idle bindex orphaned orphan_outstanding
       set_bin_free set_bin_flags
       databegin binshift rindex rfull rempty rthread rbins activebins idlebins numIdleBins minIdleBins
       numCreatedBins numEmptyBins freebinarea rfreearea rend
       set_bins set_binlists set_counts set_areas set_rflags].
Tactic Notation "tred" "in" hyp(H) :=
  cbn [thr glob set_thr set_glob regions activeRegions allRegions emptyRegions numEmptyRegions
       remoteFreeList exited fast set_regions set_active set_all set_empties set_remote set_fast set_exited
       stack fbins slots set_stack set_fbin set_slot bump slot_end slot_freelist slotSize
       put_region put_t spans allMappedRegions publishedRegions set_spans obind fst snd of_option
       freelist capacity remainingFrees bfreearea bend full active idle bindex orphaned orphan_outstanding
       set_bin_free set_bin_flags
       databegin binshift rindex rfull rempty rthread rbins activebins idlebins numIdleBins minIdleBins
       numCreatedBins numEmptyBins freebinarea rfreearea rend
       set_bins set_binlists set_counts set_areas set_rflags] in H.

(** A region all of whose bins are empty has no live block. *)
Lemma empties_le bins : empties bins ≤ Z.of_nat (length bins).
Proof. unfold empties. apply Nat2Z.inj_le, length_filter. Qed.

Lemma empties_all bins : empties bins = Z.of_nat (length bins) → Forall (λ x, remainingFrees x = 0) bins.
Proof.
  unfold empties. intros H%Nat2Z.inj. induction bins as [|x bins IH]; [constructor|].
  rewrite filter_cons in H. case_decide; cbn [length] in H.
  - constructor; auto.
  - pose proof (length_filter (λ x, remainingFrees x = 0) bins). lia.
Qed.

Lemma empty_region_dead a r cur p :
  region_ok a r cur (λ _, 0) → rempty r = true → ¬ region_live a r cur p.
Proof.
  intros Hr He (i & x & Hx & Hl). pose proof (ro_bins _ _ _ _ Hr i x Hx) as Hb.
  pose proof (ro_empty _ _ _ _ Hr He) as Hall.
  rewrite (ro_empties _ _ _ _ Hr), (ro_created _ _ _ _ Hr) in Hall.
  apply empties_all in Hall. rewrite Forall_lookup in Hall. specialize (Hall i x Hx).
  pose proof (ro_class _ _ _ _ Hr) as Hc.
  apply (not_live_all_free _ Hc _ _ _ _ _ p Hb) in Hl; [done|].
  pose proof (bo_rem _ _ _ _ _ _ Hb). lia.
Qed.

(** The thread without the region, which was the first one of the empty ones. *)
Definition clear_fast (f : FastThread) (a index : Z) : FastThread :=
  match fbins f index with
  | Some (a', _) =>
      if a' =? a then
        set_fbin (set_slot (set_stack f index []) index (mkSlot 0 0 [] (slotSize (slots f index)))) index None
      else f
  | None => f
  end.

Definition drop_region (t : Thread) (a index : Z) (act : Z → list Z) (rest : list Z) : Thread :=
  mkThread (delete a (regions t)) act (filter (λ y, y ≠ a) (allRegions t))
    (upd (emptyRegions t) index rest) (upd (numEmptyRegions t) index (Z.of_nat (length rest)))
    (remoteFreeList t) (exited t) (clear_fast (fast t) a index).

Section drop.
Context (t : Thread) (a index : Z) (r : Region) (act : Z → list Z) (rest : list Z).
Context (Ht : thread_ok t zero) (Ha : regions t !! a = Some r) (Hi : rindex r = index).
Context (Hact : NoDup (act index) ∧ ∀ a', a' ∈ act index ↔ a' ≠ a ∧ a' ∈ activeRegions t index).
Context (Hact_ne : ∀ j, j ≠ index → act j = activeRegions t j).
Context (Hrest : emptyRegions t index = a :: rest).

Let t' := drop_region t a index act rest.

Lemma drop_cur a' j r' : a' ≠ a → regions t !! a' = Some r' → cur_of t' a' j = cur_of t a' j.
Proof using.
  intros Hne Ha'. unfold cur_of, t', drop_region, clear_fast. tred.
  destruct (fbins (fast t) index) as [[a0 i0]|] eqn:E; [|done].
  destruct (Z.eqb_spec a0 a) as [->|]; [|done]. tred. destruct (decide (j = index)) as [->|Hj].
  - rewrite upd_eq, E. by rewrite (proj2 (Z.eqb_neq _ _)).
  - by rewrite !upd_ne.
Qed.

Lemma drop_extent a' x : extent t' a' x ↔ a' ≠ a ∧ extent t a' x.
Proof using.
  unfold extent, t', drop_region. tred. split.
  - intros (r' & [Hne Ha']%lookup_delete_Some & Hx). split; [congruence|]. by exists r'.
  - intros (Hne & r' & Ha' & Hx). exists r'. by rewrite lookup_delete_ne.
Qed.

Lemma drop_own x : own t' x ↔ own t x ∧ ¬ (a ≤ x < rend r).
Proof using All.
  unfold own. setoid_rewrite drop_extent. split.
  - intros (a' & Hne & He). split; [eauto|]. intros Hx. apply Hne.
    eapply (to_disj _ _ Ht); [done|]. exists r. done.
  - intros ((a' & He) & Hx). exists a'. split; [|done]. intros ->. destruct He as (? & ? & ?). by simplify_eq.
Qed.

Lemma drop_fast_ok : fast_ok t'.
Proof using All.
  intros j. destruct (to_fast _ _ Ht j) as [Hfl Hm]. unfold t', drop_region. tred.
  assert (∀ a' i', fbins (fast t) j = Some (a', i') → a' ≠ a →
    (λ r, (rindex r, bend <$> rbins r !! i')) <$> delete a (regions t) !! a' =
    (λ r, (rindex r, bend <$> rbins r !! i')) <$> regions t !! a') as Hother
    by (intros; by rewrite lookup_delete_ne).
  assert (fast_at_ok : j ≠ index → ∀ a' i', fbins (fast t) j = Some (a', i') → a' ≠ a).
  { intros Hj a' i' E ->. rewrite E, Ha in Hm. cbn in Hm. destruct Hm as [[= ? ?] _]. congruence. }
  unfold clear_fast. destruct (fbins (fast t) index) as [[a0 i0]|] eqn:E.
  - destruct (Z.eqb_spec a0 a) as [->|Hne]; tred.
    + destruct (decide (j = index)) as [->|Hj].
      * rewrite !upd_eq. tred. split; [done|]. split; [done|]. apply u64_range.
      * rewrite !upd_ne by done. split; [done|]. destruct (fbins (fast t) j) as [[a' i']|]; [|done].
        rewrite Hother; [done|done|]. by eapply fast_at_ok.
    + split; [done|]. destruct (fbins (fast t) j) as [[a' i']|] eqn:Ej; [|done].
      rewrite Hother; [done|done|]. destruct (decide (j = index)) as [->|Hj]; [congruence|by eapply fast_at_ok].
  - split; [done|]. destruct (fbins (fast t) j) as [[a' i']|] eqn:Ej; [|done].
    rewrite Hother; [done|done|]. destruct (decide (j = index)) as [->|Hj]; [congruence|by eapply fast_at_ok].
Qed.

Lemma drop_thread_ok : thread_ok t' zero.
Proof using All.
  constructor.
  - intros a' r'. unfold t' at 1, drop_region. tred. rewrite lookup_delete_Some. intros [Hne Ha'].
    rewrite (drop_cur a' (rindex r') r') by done. by apply (to_regions _ _ Ht).
  - intros j. destruct (to_active _ _ Ht j) as [Hn Hin]. unfold t', drop_region. tred.
    destruct (decide (j = index)) as [->|Hj].
    + split; [apply Hact|]. intros a'. rewrite (proj2 Hact), Hin.
      destruct (decide (a' = a)) as [->|Hne]; [rewrite lookup_delete_eq; naive_solver|].
      rewrite lookup_delete_ne by done. tauto.
    + rewrite Hact_ne by done. split; [done|]. intros a'. rewrite Hin.
      destruct (decide (a' = a)) as [->|Hne]; [|by rewrite lookup_delete_ne].
      rewrite lookup_delete_eq, Ha. cbn. naive_solver.
  - intros j. destruct (to_empty _ _ Ht j) as (Hn & Hl & Hin). unfold t', drop_region. tred.
    destruct (decide (j = index)) as [->|Hj].
    + rewrite !upd_eq. rewrite Hrest in *. apply NoDup_cons in Hn as [Hn1 Hn2]. split; [done|]. split; [done|].
      intros a'. destruct (decide (a' = a)) as [->|Hne]; [rewrite lookup_delete_eq; naive_solver|].
      rewrite lookup_delete_ne, <- Hin, elem_of_cons by done. tauto.
    + rewrite !upd_ne by done. split; [done|]. split; [done|]. intros a'. rewrite Hin.
      destruct (decide (a' = a)) as [->|Hne]; [|by rewrite lookup_delete_ne].
      rewrite lookup_delete_eq, Ha. cbn. naive_solver.
  - destruct (to_all _ _ Ht) as [Hn Hin]. unfold t', drop_region. split; tred; [by apply NoDup_filter|].
    intros a'. rewrite elem_erase, Hin, lookup_delete_is_Some. naive_solver.
  - intros a1 a2 x. rewrite !drop_extent. intros [_ ?] [_ ?]. by eapply (to_disj _ _ Ht).
  - apply drop_fast_ok.
Qed.

Lemma drop_live p : live t' p ↔ live t p.
Proof using All.
  assert (rempty r = true) as Hre.
  { destruct (to_empty _ _ Ht index) as (_ & _ & Hin). specialize (Hin a). rewrite Hrest, Ha in Hin.
    destruct Hin as [Hin _]. cbn in Hin. specialize (Hin ltac:(set_solver)). congruence. }
  rewrite (live_split t a r) by done. split.
  - intros (a' & r' & Ha' & Hl). unfold t' in Ha'. unfold drop_region in Ha'. tred in Ha'.
    apply lookup_delete_Some in Ha' as [Hne Ha']. left. exists a', r'.
    by rewrite (drop_cur a' (rindex r') r') in Hl by done.
  - intros [(a' & r' & Hne & Ha' & Hl)|Hl].
    + exists a', r'. split; [unfold t', drop_region; tred; by rewrite lookup_delete_ne|].
      by rewrite (drop_cur a' (rindex r') r').
    + exfalso. eapply empty_region_dead; [apply (to_regions _ _ Ht a r Ha)|done|done].
Qed.
End drop.

(** A step of a thread that keeps the invariant and the live blocks. *)
Record quiet_step (O : Z → Prop) (s s' : state) (d : Z → nat → Z) : Prop := {
  qs_ok : state_ok O s' d;
  qs_live : ∀ p, live (thr s') p ↔ live (thr s) p;
  qs_kept : kept (thr s) (thr s');
  qs_remote : remoteFreeList (thr s') = remoteFreeList (thr s) ∧ exited (thr s') = exited (thr s)
}.

Lemma quiet_intro O s s' d :
  state_ok O s' d → (∀ p, live (thr s') p ↔ live (thr s) p) →
  (∀ a r r', regions (thr s) !! a = Some r → regions (thr s') !! a = Some r' → rindex r' = rindex r) →
  remoteFreeList (thr s') = remoteFreeList (thr s) ∧ exited (thr s') = exited (thr s) → quiet_step O s s' d.
Proof. intros Hok Hl Hi Hs. constructor; try done. by apply (kept_ok _ _ d (proj1 Hok)). Qed.

Lemma quiet_refl O s d : state_ok O s d → quiet_step O s s d.
Proof. intros Hok. apply quiet_intro; try done. intros a r r'. apply index_same. Qed.

Lemma quiet_trans O s1 s2 s3 d d' : quiet_step O s1 s2 d → quiet_step O s2 s3 d' → quiet_step O s1 s3 d'.
Proof.
  intros [_ H1 K1 [E1 E1']] [? H2 K2 [E2 E2']]. constructor; [done|intros; by rewrite H2| |split; congruence].
  apply (kept_trans _ (thr s2)); [|done..]. intros p. by rewrite H1.
Qed.

(** The removal from the active regions. *)
Lemma deactivate_ok t a r index (t0 : Thread) :
  active_ok t → regions t !! a = Some r → rindex r = index → activeRegions t0 = activeRegions t →
  ∃ act, (if negb (rfull r) then let! l := list_erase a (activeRegions t0 index) in
              Ok (set_active t0 index l) else Ok t0) =
         Ok (mkThread (regions t0) act (allRegions t0) (emptyRegions t0) (numEmptyRegions t0)
               (remoteFreeList t0) (exited t0) (fast t0)) ∧
         (NoDup (act index) ∧ ∀ a', a' ∈ act index ↔ a' ≠ a ∧ a' ∈ activeRegions t index) ∧
         (∀ j, j ≠ index → act j = activeRegions t j).
Proof.
  intros Ht Ha Hi E. destruct (Ht index) as [Hn Hin]. specialize (Hin a) as Haa.
  rewrite Ha in Haa. cbn in Haa. destruct (rfull r) eqn:Hf; cbn [negb].
  - exists (activeRegions t0). split; [by destruct t0|]. rewrite E. split; [|done]. split; [done|].
    intros a'. split; [|tauto]. intros Hin'. split; [|done]. intros ->. apply Haa in Hin'. congruence.
  - rewrite E, list_erase_ok by (apply Haa; congruence). tred. eexists. split; [done|].
    rewrite upd_eq, E. split; [|intros; by rewrite upd_ne]. split; [by apply NoDup_filter|]. intros.
    apply elem_erase.
Qed.

Lemma reclaim_front_ok O s index a rest :
  state_ok O s zero → emptyRegions (thr s) index = a :: rest → Z.of_nat (length rest) < 2 ^ 15 →
  ∃ s', reclaim_front s index = Ok s' ∧ quiet_step O s s' zero ∧ emptyRegions (thr s') index = rest ∧
        ∀ j, j ≠ index → emptyRegions (thr s') j = emptyRegions (thr s) j.
Proof.
  intros [Ht Hg] Hrest Hlen. unfold reclaim_front. rewrite Hrest.
  destruct (to_empty _ _ Ht index) as (Hn & Hnum & Hin).
  assert (∃ r, regions (thr s) !! a = Some r ∧ rindex r = index) as (r & Ha & Hi).
  { specialize (Hin a). rewrite Hrest in Hin. destruct Hin as [Hin _]. specialize (Hin ltac:(set_solver)).
    apply fmap_Some in Hin as (r & ? & ?). exists r. naive_solver. }
  unfold get_region. rewrite Ha. cbn [of_option obind]. rewrite Hnum, Hrest. cbn [length].
  replace ((Z.of_nat (S (length rest)) - 1) mod 2 ^ 16) with (Z.of_nat (length rest))
    by (rewrite Z.mod_small; lia).
  destruct (deactivate_ok (thr s) a r index (set_empties (thr s) index rest (Z.of_nat (length rest))))
    as (act & -> & Hact & Hne); [apply Ht|done..|]. tred.
  destruct (to_all _ _ Ht) as [_ Hall]. rewrite list_erase_ok by (apply Hall; eauto). tred.
  pose proof (drop_thread_ok (thr s) a index r act rest Ht Ha Hi Hact Hne Hrest) as Ht'.
  pose proof (drop_live (thr s) a index r act rest Ht Ha Hi Hact Hne Hrest) as Hl'.
  pose proof (drop_own (thr s) a index r act rest Ht Ha Hi Hact Hne Hrest) as Ho'.
  pose proof (to_regions _ _ Ht a r Ha) as Hr.
  unfold reclaimSingleRegion. tred. destruct Hg as [[Hs1 Hs2] Hm Hf Ho Hgall Hsn].
  assert (∀ x, a ≤ x < rend r → own (thr s) x) as Hown by (intros x Hx; exists a, r; done).
  destruct (ro_addr _ _ _ _ Hr) as [? ?]. destruct (ro_end _ _ _ _ Hr) as [He ?].
  destruct (layout_ok _ (ro_class _ _ _ _ Hr)).
  destruct (add_span_spec (spans (glob s)) a (rend r)) as (sp & -> & Hsp & Hcov & Hends).
  { done. } { by apply endpoints_length. }
  { lia. }
  { intros x Hx Hc. destruct (Hf x Hc) as [Hno _]. by apply Hno, Hown. }
  cbn [obind]. eexists. split; [reflexivity|]. tred.
  change (mkThread (delete a (regions (thr s))) _ _ _ _ _ _ _) with (drop_region (thr s) a index act rest).
  split; [|split; [unfold drop_region; tred; by rewrite upd_eq|
                   intros; unfold drop_region; tred; by rewrite upd_ne]].
  constructor; [split; tred; [exact Ht'|]|exact Hl'| |done].
  2: { apply (kept_ok _ _ zero Ht'). intros a' r1 r2 Hr1. unfold drop_region. tred.
       rewrite lookup_delete_Some. intros [_ ?]. congruence. }
  constructor; tred; [|done| | | |done|done].
  - split; [done|]. apply Hends; [done| |done]. unfold endpoint. rewrite He.
    split; [by apply aligned_add|]. unfold addr_max in *. lia.
  - intros x. rewrite Hcov, Ho'. intros [Hx|Hx]; [destruct (Hf x Hx); tauto|].
    split; [tauto|]. by apply Ho, Hown.
  - intros x. rewrite Ho'. intros [? _]. by apply Ho.
  - intros x. rewrite Hcov, Ho'. intros Hx. apply Hgall. destruct Hx as [[?|?]|[[? _]|?]]; auto.
Qed.

Lemma reclaim_loop_ok O fuel s index threshold :
  state_ok O s zero → 1 ≤ threshold → Z.of_nat (length (emptyRegions (thr s) index)) < 2 ^ 15 →
  (length (emptyRegions (thr s) index) ≤ fuel)%nat →
  ∃ s', reclaim_loop fuel s index threshold = Ok s' ∧ quiet_step O s s' zero ∧
        Z.of_nat (length (emptyRegions (thr s') index)) < threshold ∧
        ∀ j, j ≠ index → emptyRegions (thr s') j = emptyRegions (thr s) j.
Proof.
  revert s. induction fuel as [|fuel IH]; intros s Hok Hth Hlen Hf; cbn [reclaim_loop];
    destruct (to_empty _ _ (proj1 Hok) index) as (_ & -> & _); rewrite Z.geb_leb;
    destruct (Z.leb_spec threshold (Z.of_nat (length (emptyRegions (thr s) index)))) as [Hge|Hlt].
  1: lia.
  1, 3: exists s; (split; [done|]); (split; [|done]); by apply quiet_refl.
  destruct (emptyRegions (thr s) index) as [|a rest] eqn:E; [cbn [length] in *; lia|]. cbn [length] in *.
  destruct (reclaim_front_ok O s index a rest Hok E) as (s1 & -> & Hq & E1 & Hne); [lia|]. cbn [obind].
  destruct (IH s1) as (s2 & -> & Hq2 & Hl2 & Hne2); [apply Hq|done|rewrite E1; lia|rewrite E1; lia|].
  exists s2. split; [done|]. split; [by eapply quiet_trans|]. split; [done|].
  intros j Hj. rewrite Hne2, Hne by done. done.
Qed.

(** Few empty regions are kept. *)
Definition small (t : Thread) : Prop := ∀ j, Z.of_nat (length (emptyRegions t j)) < 4.

Lemma threshold_range n : 1 ≤ getEmptyRegionThreshold n ≤ 4.
Proof. unfold getEmptyRegionThreshold. repeat case_match; lia. Qed.

Lemma maybeReclaim_ok O s index :
  state_ok O s zero → Z.of_nat (length (emptyRegions (thr s) index)) < 2 ^ 15 →
  (∀ j, j ≠ index → Z.of_nat (length (emptyRegions (thr s) j)) < 4) →
  ∃ s', maybeReclaimEmptyRegions s index = Ok s' ∧ quiet_step O s s' zero ∧ small (thr s').
Proof.
  intros Hok Hlen Hsm. unfold maybeReclaimEmptyRegions.
  destruct (to_empty _ _ (proj1 Hok) index) as (_ & Hnum & Hin). rewrite Hnum.
  assert (∀ s', Z.of_nat (length (emptyRegions (thr s') index)) < 4 →
    (∀ j, j ≠ index → emptyRegions (thr s') j = emptyRegions (thr s) j) → small (thr s')) as Hsmall.
  { intros s' H1 H2 j. destruct (decide (j = index)) as [->|Hj]; [done|]. rewrite H2 by done. auto. }
  destruct (emptyRegions (thr s) index) as [|a rest] eqn:E; cbn [length].
  { rewrite Z.eqb_refl. exists s. split; [done|]. split; [by apply quiet_refl|].
    apply Hsmall; [rewrite E; cbn [length]; lia|done]. }
  rewrite (proj2 (Z.eqb_neq _ _)) by lia.
  assert (∃ r, regions (thr s) !! a = Some r) as (r & Ha).
  { destruct (Hin a) as [Hina _]. specialize (Hina ltac:(set_solver)).
    apply fmap_Some in Hina as (r & ? & ?). by exists r. }
  unfold get_region. rewrite Ha. cbn [of_option obind].
  pose proof (threshold_range (u64 (rend r - a))) as Hth.
  destruct (Z.ltb_spec (Z.of_nat (S (length rest))) (getEmptyRegionThreshold (u64 (rend r - a)))).
  { exists s. split; [done|]. split; [by apply quiet_refl|]. apply Hsmall; [rewrite E; cbn [length]; lia|done]. }
  rewrite Nat2Z.id. change (S (length rest)) with (length (a :: rest)). rewrite <- E.
  destruct (reclaim_loop_ok O (length (emptyRegions (thr s) index)) s index
              (getEmptyRegionThreshold (u64 (rend r - a)))) as (s' & -> & Hq & Hl & Hne);
    [done|lia|rewrite E; done|done|].
  exists s'. split; [done|]. split; [done|]. apply Hsmall; [lia|done].
Qed.

(** ** Empty and non-empty regions *)

Lemma region_ok_flags a r cur d f e :
  region_ok a r cur d →
  (f = true → activebins r = [] ∧ rend r < rfreearea r + binsize (rindex r)) →
  (e = true → numEmptyBins r = numCreatedBins r) →
  region_ok a (set_rflags r f e (rthread r)) cur d.
Proof. intros []. by constructor. Qed.

Lemma flags_shell r f e : same_shell r (set_rflags r f e (rthread r)).
Proof. by constructor. Qed.

Lemma thread_ok_empties t d index l n :
  thread_ok t d → empty_ok (set_empties t index l n) → thread_ok (set_empties t index l n) d.
Proof. intros [] ?. by constructor. Qed.

Lemma empty_ok_upd t a r e l :
  empty_ok t → regions t !! a = Some r → NoDup l →
  (∀ a', a' ≠ a → a' ∈ l ↔ a' ∈ emptyRegions t (rindex r)) → (a ∈ l ↔ e = true) →
  empty_ok (set_empties (put_t t a (set_rflags r (rfull r) e (rthread r))) (rindex r) l (Z.of_nat (length l))).
Proof.
  intros Hok Ha Hn Hne He j. destruct (Hok j) as (Hn' & Hl' & Hin'). tred.
  destruct (decide (j = rindex r)) as [->|Hj].
  - rewrite !upd_eq. split; [done|]. split; [done|]. intros a'. destruct (decide (a' = a)) as [->|Hne'].
    + rewrite lookup_insert_eq. cbn. rewrite He. naive_solver.
    + rewrite lookup_insert_ne by done. rewrite Hne by done. apply Hin'.
  - rewrite !upd_ne by done. split; [done|]. split; [done|]. intros a'. destruct (decide (a' = a)) as [->|Hne'].
    + rewrite lookup_insert_eq, Hin', Ha. cbn. naive_solver.
    + by rewrite lookup_insert_ne.
Qed.

Lemma thread_ok_mark t a r e l d :
  thread_ok t d → regions t !! a = Some r → NoDup l →
  (∀ a', a' ≠ a → a' ∈ l ↔ a' ∈ emptyRegions t (rindex r)) → (a ∈ l ↔ e = true) →
  (e = true → numEmptyBins r = numCreatedBins r) →
  thread_ok (set_empties (put_t t a (set_rflags r (rfull r) e (rthread r))) (rindex r) l (Z.of_nat (length l))) d.
Proof.
  intros Ht Ha Hn Hne He Hc. pose proof (flags_shell r (rfull r) e) as Hsh. destruct Ht.
  pose proof (to_regions0 a r Ha) as Hr. constructor.
  - apply (regions_ok_put t a (set_rflags r (rfull r) e (rthread r)) d d); [done| |done].
    apply region_ok_flags; [exact Hr|apply Hr|done].
  - by apply (active_ok_put t a r).
  - by apply empty_ok_upd.
  - by apply (all_ok_put t a r).
  - by apply (disj_ok_put t a r).
  - by apply (fast_ok_put t a r).
Qed.

Lemma live_flags t a r f e p :
  regions t !! a = Some r → live (put_t t a (set_rflags r f e (rthread r))) p ↔ live t p.
Proof.
  intros Ha. rewrite (live_split (put_t _ _ _) a (set_rflags r f e (rthread r))), (live_split t a r)
    by (done || apply lookup_insert_eq).
  rewrite (live_elsewhere_ext t); [done| |done]. intros a' Hne. tred. by rewrite lookup_insert_ne.
Qed.

Lemma live_empties t index l n p : live (set_empties t index l n) p ↔ live t p.
Proof. done. Qed.

(** ** The counters of a bin *)

Definition with_remaining (x : Bin) (n : Z) : Bin := set_bin_free x (freelist x) n (bfreearea x).

Lemma with_remaining_view cur i x n :
  area_of cur i (with_remaining x n) = area_of cur i x ∧ free_of cur i (with_remaining x n) = free_of cur i x.
Proof. done. Qed.

Lemma bin_ok_remaining index start x area free d d' :
  bin_ok index start x area free d →
  bin_ok index start (with_remaining x (remainingFrees x - d + d')) area free d'.
Proof. intros []. constructor; cbn [with_remaining set_bin_free remainingFrees bend capacity bindex active idle full]; try done. lia. Qed.

Lemma live_upd_remaining t a r i x n p :
  regions t !! a = Some r → rbins r !! i = Some x →
  live (put_t t a (upd_bin r i (with_remaining x n))) p ↔ live t p.
Proof.
  intros Ha Hx. rewrite (live_split (put_t _ _ _) a (upd_bin r i (with_remaining x n))), (live_split t a r)
    by (done || apply lookup_insert_eq).
  rewrite (live_elsewhere_ext t); [| |done]; [|intros a' Hne; tred; by rewrite lookup_insert_ne].
  change (cur_of (put_t t a (upd_bin r i (with_remaining x n))) a (rindex (upd_bin r i (with_remaining x n))))
    with (cur_of t a (rindex r)).
  rewrite (region_live_upd a r (cur_of t a (rindex r)) (cur_of t a (rindex r)) i x (with_remaining x n)
    (live_in (rindex r) (bin_start a (rindex r) i) (area_of (cur_of t a (rindex r)) i x)
       (free_of (cur_of t a (rindex r)) i x))); [|done|done|done].
  by rewrite (region_live_split a r _ i x).
Qed.

(** The counter of one bin catches up. *)
Lemma thread_ok_catch_up t a r i x d :
  thread_ok t (ahead (a, i) d) → regions t !! a = Some r → rbins r !! i = Some x →
  (rempty r = true → remainingFrees x - d = 0) →
  thread_ok (put_t t a (upd_bin r i (with_remaining x (remainingFrees x - d)))) zero.
Proof.
  intros Ht Ha Hx He. pose proof (to_regions _ _ Ht a r Ha) as Hr.
  pose proof (ro_bins _ _ _ _ Hr i x Hx) as Hb.
  apply (thread_ok_put t a r _ Ha (upd_bin_shell r i x (with_remaining x (remainingFrees x - d)) Hx eq_refl)
           (ahead (a, i) d)); [done..| |].
  - change (rindex (upd_bin r i (with_remaining x (remainingFrees x - d)))) with (rindex r).
    eapply region_ok_upd_bin; [exact Hr|exact Hx|done| | |apply Hr|].
    + apply (bin_ok_remaining _ _ _ _ _ _ 0) in Hb. unfold ahead in Hb. rewrite decide_True in Hb by done.
      rewrite Z.add_0_r in Hb. exact Hb.
    + intros j y Hj. split; [done|]. split; [done|]. unfold zero, ahead. rewrite decide_False by congruence. done.
    + intros Hre. pose proof (ro_empty _ _ _ _ Hr Hre) as Hall.
      rewrite (empties_insert _ _ x) by done. cbn [with_remaining set_bin_free remainingFrees].
      rewrite <- (ro_empties _ _ _ _ Hr), Hall. rewrite (He Hre), Z.eqb_refl.
      rewrite (ro_empties _ _ _ _ Hr), (ro_created _ _ _ _ Hr) in Hall.
      apply empties_all in Hall. rewrite Forall_lookup in Hall. rewrite (Hall i x Hx), Z.eqb_refl. lia.
  - intros a' j Hne. unfold zero, ahead. rewrite decide_False by congruence. done.
Qed.

(** A region marked as empty has only empty bins. *)
Lemma rempty_remaining a r cur d i x :
  region_ok a r cur d → rempty r = true → rbins r !! i = Some x → remainingFrees x = 0.
Proof.
  intros Hr Hre Hx. pose proof (ro_empty _ _ _ _ Hr Hre) as Hall.
  rewrite (ro_empties _ _ _ _ Hr), (ro_created _ _ _ _ Hr) in Hall.
  apply empties_all in Hall. rewrite Forall_lookup in Hall. by apply (Hall i x).
Qed.

Lemma bins_bound a r cur d : region_ok a r cur d → 0 ≤ numEmptyBins r ≤ numCreatedBins r ∧ numCreatedBins r < 128.
Proof.
  intros Hr. destruct (layout_ok _ (ro_class _ _ _ _ Hr)). destruct (ro_bins_len _ _ _ _ Hr).
  rewrite (ro_empties _ _ _ _ Hr), (ro_created _ _ _ _ Hr).
  pose proof (empties_le (rbins r)). split; [|lia]. split; [unfold empties; lia|done].
Qed.

(** Writing the counter, with the count of empty bins of the region. *)
Lemma upd_bin_same r i x n :
  rbins r !! i = Some x → numEmptyBins r = empties (rbins r) →
  (remainingFrees x =? 0) = (n =? 0) →
  set_bins r (<[i := with_remaining x n]> (rbins r)) = upd_bin r i (with_remaining x n).
Proof.
  intros Hx He Hn. unfold upd_bin. rewrite (empties_insert _ _ x) by done.
  cbn [with_remaining set_bin_free remainingFrees]. rewrite <- He, Hn.
  replace (numEmptyBins r - _ + _) with (numEmptyBins r) by lia. by destruct r.
Qed.

Lemma quiet_put O s a r d d' :
  state_ok O s d → (∃ r0, regions (thr s) !! a = Some r0 ∧ same_shell r0 r) →
  thread_ok (put_t (thr s) a r) d' →
  (∀ p, live (put_t (thr s) a r) p ↔ live (thr s) p) →
  quiet_step O s (put_region s a r) d'.
Proof.
  intros [Ht Hg] (r0 & Ha & Hsh) Ht' Hl. constructor; [|exact Hl| |done].
  2: { apply (kept_ok _ _ d' Ht'). intros a' r1 r2. apply (index_put _ a r0); [done|apply Hsh]. }
  split; [exact Ht'|]. by apply (globals_ok_put (thr s) a r0).
Qed.

Lemma put_region_put s a r r' : put_region (put_region s a r) a r' = put_region s a r'.
Proof. unfold put_region, set_thr, set_regions. cbn. by rewrite insert_insert_eq. Qed.

Lemma mark_empty_ok O s a r :
  state_ok O s zero → regions (thr s) !! a = Some r → rempty r = false →
  numEmptyBins r = numCreatedBins r → small (thr s) →
  ∃ s', markRegionEmpty s a = Ok s' ∧ quiet_step O s s' zero ∧
    emptyRegions (thr s') (rindex r) = emptyRegions (thr s) (rindex r) ++ [a] ∧
    ∀ j, j ≠ rindex r → emptyRegions (thr s') j = emptyRegions (thr s) j.
Proof.
  intros [Ht Hg] Ha Hre Hall Hsm. unfold markRegionEmpty, get_region. rewrite Ha. tred. rewrite Hre.
  destruct (to_empty _ _ Ht (rindex r)) as (Hn & Hnum & Hin). rewrite Hnum.
  specialize (Hsm (rindex r)). rewrite Z.mod_small by lia.
  replace (Z.of_nat (length (emptyRegions (thr s) (rindex r))) + 1)
    with (Z.of_nat (length (emptyRegions (thr s) (rindex r) ++ [a]))) by (rewrite length_app; cbn [length]; lia).
  eexists. split; [reflexivity|]. tred. rewrite upd_eq. split; [|split; [done|intros; by rewrite upd_ne]].
  assert (a ∉ emptyRegions (thr s) (rindex r)) as Hni.
  { rewrite Hin, Ha. cbn. congruence. }
  apply quiet_intro; [split| | |done].
  - apply (thread_ok_mark (thr s) a r true); try done.
    + apply NoDup_app. split; [done|]. split; [set_solver|apply NoDup_singleton].
    + set_solver.
    + set_solver.
  - apply (globals_ok_put (thr s) a r _ Ha (flags_shell r (rfull r) true)) in Hg. by destruct Hg.
  - intros p. tred. rewrite live_empties. by apply live_flags.
  - intros a' r1 r2. by apply (index_put _ a r).
Qed.

Lemma dec_remaining_ok O s a i r x :
  state_ok O s (ahead (a, i) 1) → small (thr s) →
  regions (thr s) !! a = Some r → rbins r !! i = Some x →
  ∃ s', dec_remaining s (a, i) = Ok s' ∧ quiet_step O s s' zero ∧ small (thr s').
Proof.
  intros Hok Hsm Ha Hx. pose proof (proj1 Hok) as Ht. pose proof (to_regions _ _ Ht a r Ha) as Hr.
  pose proof (ro_bins _ _ _ _ Hr i x Hx) as Hb. pose proof (ro_class _ _ _ _ Hr) as Hc.
  pose proof (bo_rem _ _ _ _ _ _ Hb) as Hrem. unfold ahead in Hrem. rewrite decide_True in Hrem by done.
  pose proof (free_le _ Hc _ _ _ _ _ Hb). pose proof (used_bound _ Hc _ _ _ _ _ Hb).
  assert (1 ≤ remainingFrees x < 2 ^ 16) as Hpos by lia.
  assert (rempty r = false) as Hre.
  { destruct (rempty r) eqn:E; [|done]. pose proof (rempty_remaining _ _ _ _ _ _ Hr E Hx). lia. }
  pose proof (thread_ok_catch_up (thr s) a r i x 1 Ht Ha Hx) as Ht1.
  specialize (Ht1 ltac:(congruence)).
  assert (quiet_step O s (put_region s a (upd_bin r i (with_remaining x (remainingFrees x - 1)))) zero) as Hq1.
  { eapply quiet_put; [exact Hok| |exact Ht1|intros; by apply live_upd_remaining].
    exists r. split; [done|]. by apply (upd_bin_shell r i x). }
  unfold dec_remaining, get_bin, put_bin, get_region. cbn [fst snd]. rewrite Ha. cbn [of_option obind].
  rewrite Hx. cbn [of_option obind]. unfold u32. rewrite Z.mod_small by lia.
  fold (with_remaining x (remainingFrees x - 1)).
  destruct (Z.eqb_spec (remainingFrees x - 1) 0) as [E0|E0].
  - unfold handleBinBecameEmpty, get_region. tred. rewrite lookup_insert_eq. tred.
    destruct (bins_bound _ _ _ _ Hr). rewrite (Z.mod_small (numEmptyBins r + 1)) by lia.
    assert (empties (<[i := with_remaining x (remainingFrees x - 1)]> (rbins r)) = numEmptyBins r + 1) as Hemp.
    { rewrite (empties_insert _ _ x), <- (ro_empties _ _ _ _ Hr) by done.
      cbn [with_remaining set_bin_free remainingFrees]. rewrite E0.
      rewrite (proj2 (Z.eqb_neq (remainingFrees x) 0)), Z.eqb_refl by lia. lia. }
    rewrite put_region_put.
    assert (set_counts (set_bins r (<[i := with_remaining x (remainingFrees x - 1)]> (rbins r)))
              (numCreatedBins r) (numEmptyBins r + 1) =
            upd_bin r i (with_remaining x (remainingFrees x - 1))) as -> by (unfold upd_bin; by rewrite Hemp).
    set (r1 := upd_bin r i (with_remaining x (remainingFrees x - 1))) in *.
    destruct (Z.eqb_spec (numEmptyBins r + 1) (numCreatedBins r)) as [Eall|Eall].
    + destruct (mark_empty_ok O (put_region s a r1) a r1) as (s2 & -> & Hq2 & E2 & Hne2);
        [apply Hq1|tred; apply lookup_insert_eq|done|change (empties (<[i := with_remaining x (remainingFrees x - 1)]> (rbins r)) = numCreatedBins r); by rewrite Hemp|apply Hsm|].
      change (rindex r1) with (rindex r) in *. cbn [obind]. tred in E2. destruct (maybeReclaim_ok O s2 (rindex r)) as (s3 & -> & Hq3 & Hsm3);
        [apply Hq2|rewrite E2, length_app; cbn [length]; specialize (Hsm (rindex r)); lia
        |intros j Hj; rewrite Hne2 by done; apply Hsm|].
      exists s3. split; [done|]. split; [|done]. eapply quiet_trans; [exact Hq1|]. by eapply quiet_trans.
    + eexists. split; [done|]. split; [exact Hq1|exact Hsm].
  - eexists. rewrite upd_bin_same; [split; [done|]; split; [exact Hq1|exact Hsm]|done|apply Hr|].
    rewrite !(proj2 (Z.eqb_neq _ _)) by lia. done.
Qed.

(** What an allocation leaves as it is besides the bin. *)
Record inc_frame (s s' : state) (a : Z) (i : nat) (r : Region) (x : Bin) : Prop := {
  if_fast : fast (thr s') = fast (thr s);
  if_active : activeRegions (thr s') = activeRegions (thr s);
  if_small : small (thr s) → small (thr s');
  if_bin : ∃ r' x', regions (thr s') !! a = Some r' ∧ rbins r' !! i = Some x' ∧ rindex r' = rindex r ∧
    bfreearea x' = bfreearea x ∧ bend x' = bend x ∧ freelist x' = freelist x ∧ activebins r' = activebins r
}.

Lemma upd_bin_lookup r i x x' : rbins r !! i = Some x → rbins (upd_bin r i x') !! i = Some x'.
Proof. intros Hx. apply lookup_lt_Some in Hx. by apply list_lookup_insert_eq. Qed.

Lemma mark_nonempty_ok O s a r d :
  state_ok O s d → regions (thr s) !! a = Some r → rempty r = true → small (thr s) →
  let l := filter (λ y, y ≠ a) (emptyRegions (thr s) (rindex r)) in
  let r' := set_rflags r (rfull r) false (rthread r) in
  let s' := set_thr s (set_empties (put_t (thr s) a r') (rindex r) l (Z.of_nat (length l))) in
  a ∈ emptyRegions (thr s) (rindex r) ∧
  (numEmptyRegions (thr s) (rindex r) - 1) mod 2 ^ 16 = Z.of_nat (length l) ∧
  quiet_step O s s' d ∧ small (thr s').
Proof.
  intros [Ht Hg] Ha Hre Hsm l r' s'. destruct (to_empty _ _ Ht (rindex r)) as (Hn & Hnum & Hin).
  assert (a ∈ emptyRegions (thr s) (rindex r)) as Hain by (rewrite Hin, Ha; cbn; congruence).
  assert (Z.of_nat (length (emptyRegions (thr s) (rindex r))) = Z.of_nat (length l) + 1) as Hlen.
  { rewrite (erase_length a) by done. unfold l. lia. }
  split; [done|]. specialize (Hsm (rindex r)) as Hsm0. split; [rewrite Hnum, Z.mod_small; lia|]. split.
  - apply quiet_intro; [split| | |done].
    + apply (thread_ok_mark (thr s) a r false); try done.
      * by apply NoDup_filter.
      * intros a' Hne. unfold l. rewrite elem_erase. tauto.
      * unfold l. rewrite elem_erase. naive_solver.
    + apply (globals_ok_put (thr s) a r _ Ha (flags_shell r (rfull r) false)) in Hg. by destruct Hg.
    + intros p. unfold s'. tred. rewrite live_empties. by apply live_flags.
    + intros a' r1 r2. by apply (index_put _ a r).
  - intros j. unfold s'. tred. destruct (decide (j = rindex r)) as [->|Hj]; [rewrite upd_eq; lia|].
    rewrite upd_ne by done. apply Hsm.
Qed.

Lemma inc_catch_up O s a i r x :
  state_ok O s (ahead (a, i) (-1)) → regions (thr s) !! a = Some r → rbins r !! i = Some x → rempty r = false →
  let s' := put_region s a (upd_bin r i (with_remaining x (remainingFrees x + 1))) in
  quiet_step O s s' zero ∧ inc_frame s s' a i r x.
Proof.
  intros Hok Ha Hx Hre s'. pose proof (thread_ok_catch_up (thr s) a r i x (-1) (proj1 Hok) Ha Hx) as Ht1.
  replace (remainingFrees x - -1) with (remainingFrees x + 1) in Ht1 by lia. split.
  - eapply quiet_put; [exact Hok| |apply Ht1; congruence|intros; by apply live_upd_remaining].
    exists r. split; [done|]. by apply (upd_bin_shell r i x).
  - constructor; try done. eexists _, _. split; [apply lookup_insert_eq|].
    split; [by eapply upd_bin_lookup|done].
Qed.

Lemma inc_remaining_ok O s a i r x :
  state_ok O s (ahead (a, i) (-1)) → small (thr s) →
  regions (thr s) !! a = Some r → rbins r !! i = Some x → 0 ≤ remainingFrees x →
  ∃ s', inc_remaining s (a, i) = Ok s' ∧ glob s' = glob s ∧ quiet_step O s s' zero ∧ inc_frame s s' a i r x.
Proof.
  intros Hok Hsm Ha Hx Hpos. pose proof (proj1 Hok) as Ht. pose proof (to_regions _ _ Ht a r Ha) as Hr.
  pose proof (ro_bins _ _ _ _ Hr i x Hx) as Hb. pose proof (ro_class _ _ _ _ Hr) as Hc.
  pose proof (bo_rem _ _ _ _ _ _ Hb) as Hrem. unfold ahead in Hrem. rewrite decide_True in Hrem by done.
  pose proof (used_bound _ Hc _ _ _ _ _ Hb). assert (remainingFrees x < 2 ^ 16) as Hlt by lia.
  unfold inc_remaining, get_bin, put_bin, get_region. cbn [fst snd]. rewrite Ha. cbn [of_option obind].
  rewrite Hx. cbn [of_option obind]. unfold u32. rewrite Z.mod_small by lia.
  fold (with_remaining x (remainingFrees x + 1)).
  destruct (Z.eqb_spec (remainingFrees x) 0) as [E0|E0].
  - unfold handleBinBecameNonEmpty, get_region. tred. rewrite lookup_insert_eq. tred. rewrite put_region_put.
    assert (empties (<[i := with_remaining x (remainingFrees x + 1)]> (rbins r)) = numEmptyBins r - 1) as Hemp.
    { rewrite (empties_insert _ _ x), <- (ro_empties _ _ _ _ Hr) by done.
      cbn [with_remaining set_bin_free remainingFrees]. rewrite (proj2 (Z.eqb_eq (remainingFrees x) 0)), (proj2 (Z.eqb_neq (remainingFrees x + 1) 0)) by lia. lia. }
    destruct (bins_bound _ _ _ _ Hr).
    assert (0 ≤ empties (<[i := with_remaining x (remainingFrees x + 1)]> (rbins r))) by (unfold empties; lia).
    rewrite Z.mod_small by lia. rewrite <- Hemp.
    fold (upd_bin r i (with_remaining x (remainingFrees x + 1))).
    set (x' := with_remaining x (remainingFrees x + 1)) in *.
    destruct (rempty r) eqn:Hre.
    + destruct (mark_nonempty_ok O s a r _ Hok Ha Hre Hsm) as (Hin & Hnum & Hq & Hsm').
      unfold markRegionNonEmpty, get_region. tred. rewrite lookup_insert_eq. cbn [of_option obind].
      change (rempty (upd_bin r i x')) with (rempty r). rewrite Hre. cbn [negb].
      change (rindex (upd_bin r i x')) with (rindex r).
      rewrite list_erase_ok by done. tred. rewrite Hnum, insert_insert_eq.
      destruct (inc_catch_up O _ a i (set_rflags r (rfull r) false (rthread r)) x (qs_ok _ _ _ _ Hq)) as [Hq2 Hf2];
        [tred; apply lookup_insert_eq|done|done|].
      eexists. split; [reflexivity|]. split; [done|].
      unfold put_region, set_thr, set_regions, set_empties in Hq2, Hf2. cbn in Hq2, Hf2.
      rewrite insert_insert_eq in Hq2, Hf2.
      split; [eapply quiet_trans; [exact Hq|exact Hq2]|].
      destruct Hf2 as [? ? ? ?]. constructor; try done.
    + destruct (inc_catch_up O s a i r x Hok Ha Hx Hre). eexists. split; [reflexivity|]. done.
  - assert (rempty r = false) as Hre.
    { destruct (rempty r) eqn:E; [|done]. pose proof (rempty_remaining _ _ _ _ _ _ Hr E Hx). lia. }
    rewrite upd_bin_same; [|done|apply Hr|rewrite !(proj2 (Z.eqb_neq _ _)) by lia; done].
    destruct (inc_catch_up O s a i r x Hok Ha Hx Hre). eexists. split; [reflexivity|]. done.
Qed.

(** ** Handing out and taking back a block *)

(** The blocks that are live in other bins than [i] of region [a]. *)
Definition live_other (t : Thread) (a : Z) (r : Region) (i : nat) (q : Z) : Prop :=
  live_elsewhere t a q ∨ ∃ j, j ≠ i ∧ bin_live a r (cur_of t a (rindex r)) j q.

Definition view_live (t : Thread) (a : Z) (r : Region) (i : nat) (x : Bin) (q : Z) : Prop :=
  live_in (rindex r) (bin_start a (rindex r) i)
    (area_of (cur_of t a (rindex r)) i x) (free_of (cur_of t a (rindex r)) i x) q.

Lemma live_at t a r i x q :
  regions t !! a = Some r → rbins r !! i = Some x →
  live t q ↔ live_other t a r i q ∨ view_live t a r i x q.
Proof.
  intros Ha Hx. rewrite (live_split t a r) by done. rewrite (region_live_split a r _ i x) by done.
  unfold live_other. tauto.
Qed.

Lemma live_other_ext t t' a r r' i q :
  (∀ a', a' ≠ a → regions t' !! a' = regions t !! a') →
  (∀ a' r0, a' ≠ a → regions t !! a' = Some r0 → cur_of t' a' (rindex r0) = cur_of t a' (rindex r0)) →
  rindex r' = rindex r → (∀ j, j ≠ i → rbins r' !! j = rbins r !! j) →
  (∀ j y, j ≠ i → area_of (cur_of t' a (rindex r)) j y = area_of (cur_of t a (rindex r)) j y ∧
                  free_of (cur_of t' a (rindex r)) j y = free_of (cur_of t a (rindex r)) j y) →
  live_other t' a r' i q ↔ live_other t a r i q.
Proof.
  intros Hr Hc Hi Hb Hv. unfold live_other. rewrite (live_elsewhere_ext t t') by done.
  unfold bin_live. rewrite Hi. apply or_iff_compat_l.
  split; intros (j & Hj & y & Hy & Hl); exists j; (split; [done|]); exists y; destruct (Hv j y Hj) as [E1 E2];
    rewrite (Hb j Hj) in *; (split; [done|]); congruence.
Qed.

Lemma other_place t d a r i x p q :
  thread_ok t d → regions t !! a = Some r → rbins r !! i = Some x →
  is_slot (rindex r) (bin_start a (rindex r) i) p → p < bend x → live_other t a r i q → q ≠ p.
Proof.
  intros Ht Ha Hx Hp Hlt Ho ->. pose proof (to_regions _ _ Ht a r Ha) as Hr.
  destruct (block_place a r _ _ i x p Hr Hx Hp Hlt) as (E1 & E2 & _).
  destruct Ho as [He|(j & Hj & Hb)].
  - by apply (elsewhere_place _ _ _ _ Ht He).
  - apply Hj. destruct (bin_live_place a r _ _ j p Hr Hb) as [? _]. congruence.
Qed.

Lemma free_live t t' d a r r' i x x' p :
  thread_ok t d → regions t !! a = Some r → rbins r !! i = Some x → view_live t a r i x p →
  regions t' !! a = Some r' → rbins r' !! i = Some x' →
  (∀ q, live_other t' a r' i q ↔ live_other t a r i q) →
  (∀ q, view_live t' a r' i x' q ↔ view_live t a r i x q ∧ q ≠ p) →
  ∀ q, live t' q ↔ live t q ∧ q ≠ p.
Proof.
  intros Ht Ha Hx Hp Ha' Hx' Ho Hv q. rewrite (live_at t' a r' i x'), (live_at t a r i x), Ho, Hv by done.
  pose proof (ro_bins _ _ _ _ (to_regions _ _ Ht a r Ha) i x Hx) as Hb.
  assert (live_other t a r i q → q ≠ p); [|tauto].
  eapply other_place; [done..|by destruct Hp|by eapply live_bin_bound].
Qed.

Lemma alloc_live t t' d a r r' i x x' p :
  thread_ok t d → regions t !! a = Some r → rbins r !! i = Some x →
  is_slot (rindex r) (bin_start a (rindex r) i) p → p < bend x → ¬ view_live t a r i x p →
  regions t' !! a = Some r' → rbins r' !! i = Some x' →
  (∀ q, live_other t' a r' i q ↔ live_other t a r i q) →
  (∀ q, view_live t' a r' i x' q ↔ view_live t a r i x q ∨ q = p) →
  ¬ live t p ∧ ∀ q, live t' q ↔ live t q ∨ q = p.
Proof.
  intros Ht Ha Hx Hp Hlt Hnv Ha' Hx' Ho Hv. split.
  - rewrite (live_at t a r i x) by done. intros [Hl|Hl]; [|done].
    by apply (other_place t d a r i x p p) in Hl.
  - intros q. rewrite (live_at t' a r' i x'), (live_at t a r i x), Ho, Hv by done. tauto.
Qed.

(** *** Pushing on the stack of the current bin *)

Lemma bin_ok_push index start x x' area free free' p :
  bin_ok index start x area free 0 → live_in index start area free p → free' ≡ₚ p :: free →
  bend x' = bend x → capacity x' = capacity x → bindex x' = bindex x → remainingFrees x' = remainingFrees x →
  active x' = true → idle x' = false → full x' = false →
  bin_ok index start x' area free' 1.
Proof.
  intros [He Hcap Hi Ha Hn Hf Hr Hfl Hid] (Hp & Hlt & Hnp) Hperm E1 E2 E3 E4 E5 E6 E7.
  constructor; rewrite ?E1, ?E2, ?E3, ?E4, ?E5, ?E6, ?E7; try done.
  - rewrite Hperm. by constructor.
  - intros q. rewrite Hperm. intros [->|Hq]%elem_of_cons; auto.
  - rewrite Hr, Hperm. cbn [length]. lia.
Qed.

Lemma live_in_push index start area free free' p q :
  free' ≡ₚ p :: free → live_in index start area free' q ↔ live_in index start area free q ∧ q ≠ p.
Proof. intros Hp. unfold live_in. rewrite Hp, not_elem_of_cons. tauto. Qed.

Lemma region_ok_cur a r cur cur' d d' i x :
  region_ok a r cur d → rbins r !! i = Some x →
  bin_ok (rindex r) (bin_start a (rindex r) i) x (area_of cur' i x) (free_of cur' i x) (d' i) →
  (∀ j y, j ≠ i → area_of cur' j y = area_of cur j y ∧ free_of cur' j y = free_of cur j y ∧ d' j = d j) →
  (∀ j b st, cur' = Some (j, b, st) → j ∈ activebins r) →
  region_ok a r cur' d'.
Proof.
  intros [] Hx Hb Hother Hcur. constructor; try done.
  intros j y Hy. destruct (decide (j = i)) as [->|Hj]; [by simplify_eq|].
  destruct (Hother j y Hj) as (-> & -> & ->). auto.
Qed.

Lemma ahead_eq b n : ahead b n b.1 b.2 = n.
Proof. unfold ahead. rewrite decide_True; [done|]. by destruct b. Qed.

Lemma ahead_ne a i n a' j : (a', j) ≠ (a, i) → ahead (a, i) n a' j = 0.
Proof. intros. unfold ahead. by rewrite decide_False. Qed.

(** A current bin is active, so its flags are clear. *)
Lemma not_idle_flags index start x area free d : bin_ok index start x area free d → idle x = false →
  active x = true ∧ full x = false.
Proof. intros [] Hi. rewrite Hi in *. cbn in *. tauto. Qed.

Lemma idle_member a r cur d i x :
  region_ok a r cur d → rbins r !! i = Some x → (idle x = true ↔ i ∈ idlebins r) ∧ (idle x = false ↔ i ∈ activebins r).
Proof.
  intros Hr Hx. pose proof (ro_bins _ _ _ _ Hr i x Hx) as Hb. destruct (bo_flags _ _ _ _ _ _ Hb) as [Hf _].
  pose proof (ro_active _ _ _ _ Hr i x Hx) as Ha. pose proof (ro_lists _ _ _ _ Hr) as Hl.
  assert (i ∈ activebins r ++ idlebins r) as Hi.
  { rewrite Hl. apply elem_of_seq. apply lookup_lt_Some in Hx. lia. }
  assert (NoDup (activebins r ++ idlebins r)) as Hn by (rewrite Hl; apply NoDup_seq).
  apply NoDup_app in Hn as (_ & Hd & _). specialize (Hd i). rewrite elem_of_app in Hi.
  destruct (idle x); cbn in Hf; rewrite Hf in Ha; naive_solver.
Qed.

(** A change of the stack or of the bump pointer of the current bin. *)
Definition fast_change (f f' : FastThread) (index : Z) : Prop :=
  (∀ j, fbins f' j = fbins f j) ∧ (∀ j, j ≠ index → stack f' j = stack f j ∧ slots f' j = slots f j) ∧
  slot_end (slots f' index) = slot_end (slots f index) ∧ slotSize (slots f' index) = slotSize (slots f index) ∧
  slot_freelist (slots f' index) = slot_freelist (slots f index).

Section fast_step.
Context (O : Z → Prop) (s : state) (a : Z) (i : nat) (r : Region) (x : Bin) (f' : FastThread) (d : Z).
Context (Hok : state_ok O s zero) (Ha : regions (thr s) !! a = Some r) (Hx : rbins r !! i = Some x).
Context (Hfb : fbins (fast (thr s)) (rindex r) = Some (a, i)) (Hf : fast_change (fast (thr s)) f' (rindex r)).

Let t1 := set_fast (thr s) f'.

Lemma fast_step_cur :
  cur_of (thr s) a (rindex r) = Some (i, bump (slots (fast (thr s)) (rindex r)), stack (fast (thr s)) (rindex r)) ∧
  cur_of t1 a (rindex r) = Some (i, bump (slots f' (rindex r)), stack f' (rindex r)) ∧
  ∀ a' j, a' ≠ a → cur_of t1 a' j = cur_of (thr s) a' j.
Proof using Hfb Hf.
  destruct Hf as (E1 & E2 & _). unfold cur_of, t1. tred. rewrite !E1, Hfb, Z.eqb_refl.
  split; [done|]. split; [done|]. intros a' j Hne. rewrite E1. destruct (decide (j = rindex r)) as [->|Hj].
  - rewrite Hfb. by rewrite (proj2 (Z.eqb_neq _ _)).
  - by destruct (E2 j Hj) as [-> ->].
Qed.

Lemma fast_step_idle : idle x = false.
Proof using Hok Ha Hx Hfb Hf.
  destruct Hok as [Ht _]. pose proof (to_regions _ _ Ht a r Ha) as Hr.
  apply (idle_member _ _ _ _ _ _ Hr Hx). eapply (ro_cur _ _ _ _ Hr). apply fast_step_cur.
Qed.

Lemma fast_step_ok :
  bin_ok (rindex r) (bin_start a (rindex r) i) x (area_of (cur_of t1 a (rindex r)) i x)
    (free_of (cur_of t1 a (rindex r)) i x) d →
  state_ok O (set_thr s t1) (ahead (a, i) d) ∧
  ∀ q, live_other t1 a r i q ↔ live_other (thr s) a r i q.
Proof using Hok Ha Hx Hfb Hf.
  intros Hb. destruct Hok as [Ht Hg]. destruct fast_step_cur as (Hc & Hc1 & Hcur').
  pose proof (to_regions _ _ Ht a r Ha) as Hr.
  assert (Hoth : ∀ j y, j ≠ i → area_of (cur_of t1 a (rindex r)) j y = area_of (cur_of (thr s) a (rindex r)) j y ∧
    free_of (cur_of t1 a (rindex r)) j y = free_of (cur_of (thr s) a (rindex r)) j y).
  { intros j y Hj. rewrite Hc, Hc1. cbn. by rewrite !decide_False. }
  split; [split|].
  - destruct Ht. constructor; try done; tred.
    + intros a' r' Ha'. change (regions (thr s) !! a' = Some r') in Ha'.
      destruct (decide (a' = a)) as [->|Hne].
      * assert (r' = r) as -> by congruence.
        apply (region_ok_cur _ _ (cur_of (thr s) a (rindex r)) _ (zero a) _ i x Hr Hx).
        -- by rewrite (ahead_eq (a, i) d : ahead (a, i) d a i = d).
        -- intros j y Hj. destruct (Hoth j y Hj). rewrite ahead_ne by congruence. done.
        -- intros j b st E. rewrite Hc1 in E. simplify_eq. eapply (ro_cur _ _ _ _ Hr), Hc.
      * rewrite Hcur' by done. apply (region_ok_ext _ _ _ (zero a')); [|by apply to_regions0].
        intros j. rewrite ahead_ne by congruence. done.
    + intros j. destruct (to_fast0 j) as [Hfl Hm]. destruct Hf as (E1 & E2 & E3 & E4 & E5). unfold t1. tred.
      rewrite E1. destruct (decide (j = rindex r)) as [->|Hj].
      * rewrite E5, Hfb, E3, E4 in *. done.
      * destruct (E2 j Hj) as [-> ->]. done.
  - by destruct Hg.
  - intros q. apply live_other_ext; try done. intros a' r0 Hne _. by apply Hcur'.
Qed.
End fast_step.

Lemma push_stack_ok O s a i r x p :
  state_ok O s zero → regions (thr s) !! a = Some r → rbins r !! i = Some x →
  fbins (fast (thr s)) (rindex r) = Some (a, i) → view_live (thr s) a r i x p →
  let s1 := set_thr s (set_fast (thr s) (set_stack (fast (thr s)) (rindex r) (p :: stack (fast (thr s)) (rindex r)))) in
  state_ok O s1 (ahead (a, i) 1) ∧ ∀ q, live (thr s1) q ↔ live (thr s) q ∧ q ≠ p.
Proof.
  intros Hok Ha Hx Hfb Hp s1.
  pose proof (ro_bins _ _ _ _ (to_regions _ _ (proj1 Hok) a r Ha) i x Hx) as Hb.
  assert (Hf : fast_change (fast (thr s))
    (set_stack (fast (thr s)) (rindex r) (p :: stack (fast (thr s)) (rindex r))) (rindex r)).
  { repeat split; tred. by rewrite upd_ne. }
  pose proof (fast_step_idle O s a i r x _ Hok Ha Hx Hfb Hf) as Hid.
  destruct (not_idle_flags _ _ _ _ _ _ Hb Hid).
  destruct (fast_step_cur s a i r _ Hfb Hf) as (Hc & Hc1 & _). tred in Hc1. rewrite upd_eq in Hc1.
  change (set_fast (thr s) _) with (thr s1) in Hc1.
  assert (Hperm : free_of (cur_of (thr s1) a (rindex r)) i x ≡ₚ p :: free_of (cur_of (thr s) a (rindex r)) i x).
  { rewrite Hc, Hc1. cbn. rewrite !decide_True by done. symmetry. apply Permutation_middle. }
  assert (Harea : area_of (cur_of (thr s1) a (rindex r)) i x = area_of (cur_of (thr s) a (rindex r)) i x)
    by (rewrite Hc, Hc1; done).
  destruct (fast_step_ok O s a i r x _ 1 Hok Ha Hx Hfb Hf) as [Hok1 Hoth].
  { change (set_fast _ _) with (thr s1). rewrite Harea. by eapply bin_ok_push. }
  split; [exact Hok1|]. apply (free_live (thr s) (thr s1) zero a r r i x x p); try done; [apply Hok|].
  intros q. unfold view_live. rewrite Harea. by apply live_in_push.
Qed.

(** *** Pushing on the freelist of a bin *)

Lemma upd_bin_keep r i x x' :
  rbins r !! i = Some x → numEmptyBins r = empties (rbins r) → remainingFrees x' = remainingFrees x →
  set_bins r (<[i := x']> (rbins r)) = upd_bin r i x'.
Proof.
  intros Hx He Hn. unfold upd_bin. rewrite (empties_insert _ _ x), Hn by done. rewrite <- He.
  replace (numEmptyBins r - _ + _) with (numEmptyBins r) by lia. by destruct r.
Qed.

Definition promote (r : Region) (i : nat) (x : Bin) : Region :=
  set_rflags (set_binlists (set_bins r (<[i := x]> (rbins r))) (activebins r ++ [i])
    (filter (λ y, y ≠ i) (idlebins r)) (numIdleBins r - 1)) false (rempty r) (rthread r).

Lemma promote_ok a r cur d d' i x x' :
  region_ok a r cur d → rbins r !! i = Some x → idle x = true → active x' = true →
  remainingFrees x' = remainingFrees x →
  bin_ok (rindex r) (bin_start a (rindex r) i) x' (area_of cur i x') (free_of cur i x') (d' i) →
  (∀ j, j ≠ i → d' j = d j) →
  region_ok a (promote r i x') cur d'.
Proof.
  intros Hr Hx Hid Hact Hrem Hb Hd. destruct (proj1 (idle_member _ _ _ _ _ _ Hr Hx)) as [Hin _]. specialize (Hin Hid).
  destruct Hr. apply lookup_lt_Some in Hx as Hi.
  assert (NoDup (idlebins r)) as Hnd.
  { assert (NoDup (activebins r ++ idlebins r)) as Hn by (rewrite ro_lists0; apply NoDup_seq).
    by apply NoDup_app in Hn as (_ & _ & ?). }
  constructor; unfold promote; tred; rewrite ?length_insert; try done.
  - rewrite (empties_insert _ _ x), Hrem by done. lia.
  - rewrite <- ro_lists0, <- (assoc_L (++)). f_equiv.
    apply list_elem_of_split in Hin as (l1 & l2 & E). rewrite E in *. rewrite erase_split by done.
    cbn [app]. by rewrite Permutation_middle.
  - rewrite ro_idle_num0, (erase_length i (idlebins r)) by done. lia.
  - intros j y. rewrite list_lookup_insert_Some, elem_of_app, list_elem_of_singleton.
    intros [(<- & <- & _)|[Hne Hy]]; [naive_solver|]. rewrite <- (ro_active0 j y Hy). naive_solver.
  - intros j y. rewrite list_lookup_insert_Some. intros [(<- & <- & _)|[Hne Hy]]; [done|].
    rewrite Hd by done. auto.
  - intros j b st E. rewrite elem_of_app. left. by eapply ro_cur0.
Qed.

Lemma promote_shell r i x x' : rbins r !! i = Some x → bend x' = bend x → same_shell r (promote r i x').
Proof. intros Hx He. destruct (upd_bin_shell r i x x' Hx He) as [? ? Hs]. constructor; [done..|]. exact Hs. Qed.

Definition reactivate (t : Thread) (a : Z) (r r' : Region) : Thread :=
  if rfull r then set_active (put_t t a r') (rindex r) (activeRegions t (rindex r) ++ [a]) else put_t t a r'.

Lemma thread_ok_reactivate t a r r' d d' :
  thread_ok t d → regions t !! a = Some r → same_shell r r' → rfull r' = false → rempty r' = rempty r →
  region_ok a r' (cur_of t a (rindex r')) (d' a) → (∀ a' j, a' ≠ a → d' a' j = d a' j) →
  thread_ok (reactivate t a r r') d'.
Proof.
  intros Ht Ha Hsh Hf He Hr Hd. unfold reactivate. destruct (rfull r) eqn:Hfull.
  - destruct Ht. constructor.
    + by apply (regions_ok_put t a r' d d').
    + intros j. destruct (to_active0 j) as [Hn Hin]. tred. destruct (decide (j = rindex r)) as [->|Hj].
      * rewrite upd_eq. split.
        -- apply NoDup_app. split; [done|]. split; [|apply NoDup_singleton].
           intros a' Hin' ->%list_elem_of_singleton. apply Hin in Hin'. rewrite Ha in Hin'. cbn in Hin'. congruence.
        -- intros a'. rewrite elem_of_app, list_elem_of_singleton, Hin.
           destruct (decide (a' = a)) as [->|Hne]; [|rewrite lookup_insert_ne by done; tauto].
           rewrite lookup_insert_eq. cbn. destruct Hsh. split; [|tauto]. intros _. congruence.
      * rewrite upd_ne by done. split; [done|]. intros a'. rewrite Hin.
        destruct (decide (a' = a)) as [->|Hne]; [|by rewrite lookup_insert_ne].
        rewrite lookup_insert_eq, Ha. cbn. destruct Hsh. split; intros; simplify_eq; congruence.
    + by apply (empty_ok_put t a r r' Ha Hsh He to_empty0).
    + by apply (all_ok_put t a r).
    + by apply (disj_ok_put t a r r' Ha Hsh to_disj0).
    + by apply (fast_ok_put t a r r' Ha Hsh to_fast0).
  - apply (thread_ok_put t a r r' Ha Hsh d); try done. congruence.
Qed.

(** A change of the freelist or of the free area of a bin. *)
Lemma bin_step_ok O s a i r x x' d :
  state_ok O s zero → regions (thr s) !! a = Some r → rbins r !! i = Some x →
  active x' = active x → bend x' = bend x → remainingFrees x' = remainingFrees x →
  bin_ok (rindex r) (bin_start a (rindex r) i) x' (area_of (cur_of (thr s) a (rindex r)) i x')
    (free_of (cur_of (thr s) a (rindex r)) i x') d →
  state_ok O (put_region s a (upd_bin r i x')) (ahead (a, i) d) ∧
  ∀ q, live_other (put_t (thr s) a (upd_bin r i x')) a (upd_bin r i x') i q ↔ live_other (thr s) a r i q.
Proof.
  intros [Ht Hg] Ha Hx Eact Eend Erem Hb. pose proof (to_regions _ _ Ht a r Ha) as Hr.
  pose proof (upd_bin_shell r i x x' Hx Eend) as Hsh. split; [split|].
  - apply (thread_ok_put (thr s) a r _ Ha Hsh zero); try done.
    + change (rindex (upd_bin r i x')) with (rindex r).
      apply (region_ok_upd_bin a r (cur_of (thr s) a (rindex r)) (zero a) _ _ i x); try done.
      * by rewrite (ahead_eq (a, i) d : ahead (a, i) d a i = d).
      * intros j y Hj. rewrite ahead_ne by congruence. done.
      * apply Hr.
      * intros Hre. rewrite <- (ro_empty _ _ _ _ Hr Hre), (ro_empties _ _ _ _ Hr).
        rewrite (empties_insert _ _ x) by done. rewrite Erem. lia.
    + intros a' j Hne. rewrite ahead_ne by congruence. done.
  - by apply (globals_ok_put (thr s) a r _ Ha Hsh).
  - intros q. apply live_other_ext; try done.
    + intros a' Hne. tred. by rewrite lookup_insert_ne.
    + intros j Hj. by apply list_lookup_insert_ne.
Qed.

Definition push_free (x : Bin) (p : Z) : Bin := set_bin_free x (p :: freelist x) (remainingFrees x) (bfreearea x).

Lemma push_free_view cur i x p : area_of cur i (push_free x p) = area_of cur i x ∧
  free_of cur i (push_free x p) = p :: free_of cur i x.
Proof. unfold area_of, free_of. destruct cur as [[[i' b] st]|]; [|done]. by destruct (decide (i = i')). Qed.

(** What an operation that takes block [p] back establishes. *)
Record freed (O : Z → Prop) (s s' : state) (p : Z) (d : Z → nat → Z) : Prop := {
  fd_ok : state_ok O s' d;
  fd_small : small (thr s');
  fd_live : ∀ q, live (thr s') q ↔ live (thr s) q ∧ q ≠ p;
  fd_kept : kept (thr s) (thr s');
  fd_remote : remoteFreeList (thr s') = remoteFreeList (thr s) ∧ exited (thr s') = exited (thr s)
}.

Lemma freed_intro O s s' p d :
  state_ok O s' d → small (thr s') → (∀ q, live (thr s') q ↔ live (thr s) q ∧ q ≠ p) →
  (∀ a r r', regions (thr s) !! a = Some r → regions (thr s') !! a = Some r' → rindex r' = rindex r) →
  remoteFreeList (thr s') = remoteFreeList (thr s) ∧ exited (thr s') = exited (thr s) → freed O s s' p d.
Proof. intros Hok ? ? Hi ?. constructor; try done. by apply (kept_ok _ _ d (proj1 Hok)). Qed.

(** The part of [moo_free2] before the counter is decremented. *)
Section free_to_bin.
Context (O : Z → Prop) (s : state) (a : Z) (i : nat) (r : Region) (x : Bin) (p : Z).
Context (Hok : state_ok O s zero) (Hsm : small (thr s)).
Context (Ha : regions (thr s) !! a = Some r) (Hx : rbins r !! i = Some x) (Hp : view_live (thr s) a r i x p).

Let cur := cur_of (thr s) a (rindex r).

(** The block is the only one that is not live any more. *)
Lemma free_bin_live x' t' r' :
  area_of cur i x' = area_of cur i x → free_of cur i x' = p :: free_of cur i x →
  regions t' = <[a := r']> (regions (thr s)) → rbins r' = <[i := x']> (rbins r) → rindex r' = rindex r →
  fast t' = fast (thr s) → ∀ q, live t' q ↔ live (thr s) q ∧ q ≠ p.
Proof using All.
  intros E1 E2 Ereg Ebins Hi' Hf. unfold cur in *. apply lookup_lt_Some in Hx as Hlen.
  assert (∀ a j, cur_of t' a j = cur_of (thr s) a j) as Hcur by (intros; unfold cur_of; by rewrite Hf).
  apply (free_live (thr s) t' zero a r r' i x x' p); try done.
  - apply Hok.
  - by rewrite Ereg, lookup_insert_eq.
  - rewrite Ebins. by apply list_lookup_insert_eq.
  - intros q. apply live_other_ext; try done; intros; rewrite ?Hcur, ?Ereg, ?Ebins; try done.
    + by rewrite lookup_insert_ne.
    + by apply list_lookup_insert_ne.
  - intros q. unfold view_live. rewrite Hi', Hcur, E1, E2. by apply live_in_push.
Qed.

Lemma idle_count : idle x = true → i ∈ idlebins r ∧ 1 ≤ numIdleBins r < 2 ^ 16 ∧ freelist x = [].
Proof using All.
  intros Hid. pose proof (to_regions _ _ (proj1 Hok) a r Ha) as Hr. pose proof (ro_bins _ _ _ _ Hr i x Hx) as Hb.
  pose proof (proj1 (proj1 (idle_member _ _ _ _ _ _ Hr Hx)) Hid) as Hin. split; [done|]. split.
  - rewrite (ro_idle_num _ _ _ _ Hr). pose proof (ro_lists _ _ _ _ Hr) as Hl.
    apply Permutation_length in Hl. rewrite length_app, length_seq in Hl.
    destruct (ro_bins_len _ _ _ _ Hr), (layout_ok _ (ro_class _ _ _ _ Hr)).
    destruct (idlebins r); [set_solver|]. cbn [length] in *. lia.
  - destruct (bo_idle _ _ _ _ _ _ Hb Hid) as [_ Hfree].
    unfold free_of in Hfree. destruct (cur_of (thr s) a (rindex r)) as [[[i' b] st]|]; [|done].
    case_decide; [by apply app_eq_nil in Hfree as [? _]|done].
Qed.

(** An idle bin becomes active again. *)
Lemma promote_freed :
  idle x = true →
  let x' := set_bin_flags (push_free x p) false true false in
  freed O s (set_thr s (reactivate (thr s) a r (promote r i x'))) p (ahead (a, i) 1).
Proof using All.
  intros Hid x'. destruct Hok as [Ht Hg]. pose proof (to_regions _ _ Ht a r Ha) as Hr.
  pose proof (ro_bins _ _ _ _ Hr i x Hx) as Hb. destruct (push_free_view cur i x p) as [Ev1 Ev2].
  assert (Hok' : region_ok a (promote r i x') (cur_of (thr s) a (rindex r)) (ahead (a, i) 1 a)).
  { apply (promote_ok a r _ (zero a) _ i x x' Hr Hx Hid); try done.
    - rewrite (ahead_eq (a, i) 1 : ahead (a, i) 1 a i = 1).
      change (area_of _ i x') with (area_of cur i (push_free x p)).
      change (free_of _ i x') with (free_of cur i (push_free x p)).
      rewrite Ev1. eapply bin_ok_push; [exact Hb|exact Hp|by rewrite Ev2|done..].
    - intros j Hj. rewrite ahead_ne by congruence. done. }
  assert (regions (reactivate (thr s) a r (promote r i x')) = <[a := promote r i x']> (regions (thr s))) as Ereg
    by (unfold reactivate; by destruct (rfull r)).
  apply freed_intro; tred.
  - split; tred.
    + apply (thread_ok_reactivate (thr s) a r (promote r i x') zero); try done.
      * by apply (promote_shell r i x).
      * intros a' j Hne. rewrite ahead_ne by congruence. done.
    + apply (globals_ok_put (thr s) a r _ Ha (promote_shell r i x x' Hx eq_refl)) in Hg.
      unfold reactivate. by destruct (rfull r), Hg.
  - intros j. unfold reactivate. destruct (rfull r); apply Hsm.
  - apply (free_bin_live x' _ (promote r i x')); try done. unfold reactivate. by destruct (rfull r).
  - rewrite Ereg. intros a' r1 r2. by apply (index_put _ a r).
  - unfold reactivate. by destruct (rfull r).
Qed.

Lemma free_to_bin_ok :
  ∃ s' r' x', freed O s s' p (ahead (a, i) 1) ∧ regions (thr s') !! a = Some r' ∧ rbins r' !! i = Some x' ∧
    moo_free2 s p (a, i) = dec_remaining s' (a, i).
Proof using All.
  pose proof (to_regions _ _ (proj1 Hok) a r Ha) as Hr. pose proof (ro_bins _ _ _ _ Hr i x Hx) as Hb.
  apply lookup_lt_Some in Hx as Hlen.
  unfold moo_free2, get_bin, put_bin, get_region. cbn [fst snd]. rewrite Ha. cbn [of_option obind].
  rewrite Hx. cbn [of_option obind]. fold (push_free x p). change (idle (push_free x p)) with (idle x).
  destruct (idle x) eqn:Hid.
  - destruct (idle_count Hid) as (Hin & Hnum & Hfl).
    rewrite Hfl. cbn [andb]. tred. rewrite lookup_insert_eq. tred.
    rewrite list_lookup_insert_eq by done. tred. rewrite lookup_insert_eq. tred.
    rewrite list_erase_ok by done. tred. rewrite !put_region_put, list_insert_insert_eq.
    set (x' := set_bin_flags (push_free x p) false true false).
    rewrite Z.mod_small by lia. change (bindex (push_free x p)) with (bindex x). rewrite (bo_index _ _ _ _ _ _ Hb).
    exists (set_thr s (reactivate (thr s) a r (promote r i x'))), (promote r i x'), x'.
    split; [by apply promote_freed|]. split; [|split; [by apply list_lookup_insert_eq|]];
      unfold reactivate; destruct (rfull r) eqn:Hfull; tred; rewrite ?lookup_insert_eq; try done.
    + rewrite !insert_insert_eq. done.
    + f_equal. unfold promote, set_rflags, set_binlists, set_bins. tred. by rewrite <- Hfull.
  - cbn [andb]. tred. destruct (not_idle_flags _ _ _ _ _ _ Hb Hid).
    rewrite (upd_bin_keep r i x (push_free x p)); [|done|apply Hr|done].
    exists (put_region s a (upd_bin r i (push_free x p))), (upd_bin r i (push_free x p)), (push_free x p).
    split; [|split; [apply lookup_insert_eq|split; [by eapply upd_bin_lookup|done]]].
    destruct (push_free_view cur i x p) as [Ev1 Ev2].
    destruct (bin_step_ok O s a i r x (push_free x p) 1) as [Hok' Hoth]; try done.
    { unfold cur in *. rewrite Ev1. eapply bin_ok_push; [exact Hb|exact Hp|by rewrite Ev2|done..]. }
    apply freed_intro; [exact Hok'|exact Hsm| | |done].
    + by apply (free_bin_live (push_free x p) _ (upd_bin r i (push_free x p))).
    + intros a' r1 r2. by apply (index_put _ a r).
Qed.
End free_to_bin.

(** Where a live block is. *)
Lemma live_place t d p :
  thread_ok t d → live t p →
  ∃ r x, regions t !! region_of p = Some r ∧ rbins r !! bin_of r p = Some x ∧
    view_live t (region_of p) r (bin_of r p) x p ∧ 0 < region_of p.
Proof.
  intros Ht (a & r & Ha & Hl). pose proof (to_regions _ _ Ht a r Ha) as Hr.
  destruct (region_live_place a r _ _ p Hr Hl) as (E & (x & Hx & Hv) & _). rewrite E.
  exists r, x. split; [done|]. split; [done|]. split; [done|]. by destruct (ro_addr _ _ _ _ Hr) as [_ [? _]].
Qed.

Lemma freed_quiet O s1 s2 s3 p d d' :
  freed O s1 s2 p d → quiet_step O s2 s3 d' → small (thr s3) → freed O s1 s3 p d'.
Proof.
  intros [_ _ Hl K1 [E1 E2]] [Hok Hq K2 [E3 E4]] Hsm. constructor; [done..| | |split; congruence].
  - intros q. by rewrite Hq, Hl.
  - apply (kept_trans _ (thr s2)); [|done..]. intros q _. by rewrite Hq.
Qed.

(** Freeing a block that is handed out takes exactly this block back. *)
Lemma moo_free_ok O s p :
  state_ok O s zero → small (thr s) → live (thr s) p →
  ∃ s', moo_free s p = Ok s' ∧ freed O s s' p zero.
Proof.
  intros Hok Hsm Hp. pose proof (proj1 Hok) as Ht.
  destruct (live_place _ _ _ Ht Hp) as (r & x & Ha & Hx & Hv & Hpos).
  unfold moo_free. rewrite (proj2 (Z.eqb_neq _ _)) by lia. unfold get_bin, get_region. cbn [fst snd].
  rewrite Ha. cbn [of_option obind]. rewrite Hx. cbn [of_option obind].
  destruct (bool_decide _ && _) eqn:Hcond.
  - apply andb_true_iff in Hcond as [Hcur%bool_decide_eq_true _].
    destruct (push_stack_ok O s _ _ r x p Hok Ha Hx Hcur Hv) as [Hok1 Hl1].
    destruct (dec_remaining_ok O _ _ _ r x Hok1) as (s' & E & Hq & Hsm'); [exact Hsm|exact Ha|exact Hx|].
    exists s'. split; [exact E|]. eapply freed_quiet; [|exact Hq|exact Hsm'].
    apply freed_intro; try done. intros a' r1 r2. apply index_same.
  - destruct (free_to_bin_ok O s _ _ r x p Hok Hsm Ha Hx Hv) as (s1 & r1 & x1 & Hf & Ha1 & Hx1 & ->).
    pose proof Hf as [Hok1 Hsm1 _ _ _].
    destruct (dec_remaining_ok O _ _ _ r1 x1 Hok1 Hsm1 Ha1 Hx1) as (s' & -> & Hq & Hsm').
    exists s'. split; [done|]. by eapply freed_quiet.
Qed.

(** Draining the blocks that other threads freed. *)
Lemma free_all_ok O s l :
  state_ok O s zero → small (thr s) → NoDup l → (∀ p, p ∈ l → live (thr s) p) →
  ∃ s', free_all s l = Ok s' ∧ state_ok O s' zero ∧ small (thr s') ∧
    (∀ q, live (thr s') q ↔ live (thr s) q ∧ q ∉ l) ∧ kept (thr s) (thr s') ∧
    remoteFreeList (thr s') = remoteFreeList (thr s) ∧ exited (thr s') = exited (thr s).
Proof.
  revert s. induction l as [|p l IH]; intros s Hok Hsm Hn Hl; cbn [free_all].
  { exists s. split; [done|]. split; [done|]. split; [done|]. split; [intros q; set_solver|].
    split; [apply (qs_kept O s s zero), quiet_refl, Hok|done]. }
  apply NoDup_cons in Hn as [Hp Hn].
  destruct (moo_free_ok O s p Hok Hsm) as (s1 & -> & [Hok1 Hsm1 Hl1 Hk1 [Hr1 He1]]); [set_solver|]. cbn [obind].
  destruct (IH s1 Hok1 Hsm1 Hn) as (s2 & -> & Hok2 & Hsm2 & Hl2 & Hk2 & Hr2 & He2).
  { intros q Hq. apply Hl1. split; [set_solver|]. intros ->. done. }
  exists s2. split; [done|]. split; [done|]. split; [done|]. split; [|split; [|split; congruence]].
  - intros q. rewrite Hl2, Hl1, not_elem_of_cons. tauto.
  - apply (kept_trans _ (thr s1)); [|done..]. intros q _. rewrite Hl2. tauto.
Qed.
