(* ===== verification/MooAllocFacts.v ===== *)
(** * Allocation from the internal allocator

    Every way in which a block is handed out: from the stack, by bumping, from
    a freelist, from a new bin, from a new region and from newly mapped memory. *)

From Stdlib Require Import ZArith Lia FunctionalExtensionality.
From stdpp Require Import base gmap option list.
From S2P Require Import Prelude Moo MooSpanFacts MooFacts.

Local Set Warnings "-clear-no-such-hyp".

(** ** Handing out a block *)

(** Block [p] of size class [index] is handed out. *)
Record handed (O : Z → Prop) (s s' : state) (p index : Z) (d : Z → nat → Z) : Prop := {
  ha_ok : state_ok O s' d;
  ha_small : small (thr s');
  ha_fresh : ¬ live (thr s) p;
  ha_live : ∀ q, live (thr s') q ↔ live (thr s) q ∨ q = p;
  ha_kept : kept (thr s) (thr s');
  ha_same : remoteFreeList (thr s') = remoteFreeList (thr s) ∧ exited (thr s') = exited (thr s);
  ha_class : ∃ r, regions (thr s') !! region_of p = Some r ∧ rindex r = index
}.

Lemma handed_intro O s s' p index d :
  state_ok O s' d → small (thr s') → ¬ live (thr s) p → (∀ q, live (thr s') q ↔ live (thr s) q ∨ q = p) →
  (∀ a r r', regions (thr s) !! a = Some r → regions (thr s') !! a = Some r' → rindex r' = rindex r) →
  remoteFreeList (thr s') = remoteFreeList (thr s) ∧ exited (thr s') = exited (thr s) →
  (∃ r, regions (thr s') !! region_of p = Some r ∧ rindex r = index) → handed O s s' p index d.
Proof. intros Hok ? ? ? Hi ? ?. constructor; try done. by apply (kept_ok _ _ d (proj1 Hok)). Qed.

Lemma quiet_handed O s1 s2 s3 p index d d' :
  quiet_step O s1 s2 d → handed O s2 s3 p index d' → handed O s1 s3 p index d'.
Proof.
  intros [_ Hl K [E1 E2]] [? ? Hf Hl' K' [E3 E4] ?]. constructor; try done.
  - by rewrite <- Hl.
  - intros q. by rewrite Hl', Hl.
  - apply (kept_trans _ (thr s2)); [|done..]. intros q. by rewrite Hl.
  - split; congruence.
Qed.

(** The counter of the bin catches up after the block was taken. *)
Lemma finish_alloc O s s1 a i r x p :
  handed O s s1 p (rindex r) (ahead (a, i) (-1)) →
  regions (thr s1) !! a = Some r → rbins r !! i = Some x → region_of p = a → 0 ≤ remainingFrees x →
  ∃ s', inc_remaining s1 (a, i) = Ok s' ∧ handed O s s' p (rindex r) zero ∧ inc_frame s1 s' a i r x ∧
        glob s' = glob s1.
Proof.
  intros [Hok Hsm Hf Hl K [E1 E2] _] Ha Hx Hp Hr.
  destruct (inc_remaining_ok O s1 a i r x Hok Hsm Ha Hx Hr) as (s' & E & Hg & [Hok' Hq K' [E3 E4]] & Hfr).
  exists s'. split; [done|]. split; [|done]. constructor; try done.
  - by apply (if_small _ _ _ _ _ _ Hfr).
  - intros q. by rewrite Hq, Hl.
  - apply (kept_trans _ (thr s1)); [|done..]. intros q. rewrite Hl. tauto.
  - split; congruence.
  - destruct (if_bin _ _ _ _ _ _ Hfr) as (r' & x' & Ha' & _ & Hi' & _). exists r'. by rewrite Hp.
Qed.

Lemma bin_ok_pop index start x x' area free free' p :
  bin_ok index start x area free 0 → free ≡ₚ p :: free' →
  bend x' = bend x → capacity x' = capacity x → bindex x' = bindex x → remainingFrees x' = remainingFrees x →
  active x' = active x → idle x' = idle x → full x' = full x →
  bin_ok index start x' area free' (-1).
Proof.
  intros [He Hcap Hi Ha Hn Hf Hr Hfl Hid] Hperm E1 E2 E3 E4 E5 E6 E7.
  constructor; rewrite ?E1, ?E2, ?E3, ?E4, ?E5, ?E6, ?E7; try done.
  - rewrite Hperm in Hn. by apply NoDup_cons in Hn as [_ ?].
  - intros q Hq. apply Hf. rewrite Hperm. set_solver.
  - rewrite Hr, Hperm. cbn [length]. lia.
  - intros Hidle. destruct (Hid Hidle) as [_ ->]. by apply Permutation_nil_cons in Hperm.
Qed.

Lemma live_in_pop index start area free free' p q :
  free ≡ₚ p :: free' → NoDup free → is_slot index start p → p < area →
  ¬ live_in index start area free p ∧
  (live_in index start area free' q ↔ live_in index start area free q ∨ q = p).
Proof.
  intros Hperm Hn Hp Hlt. unfold live_in. rewrite Hperm in *. apply NoDup_cons in Hn as [Hnp _]. split.
  - intros (_ & _ & Hni). apply Hni. set_solver.
  - rewrite not_elem_of_cons. split; [|naive_solver].
    intros (? & ? & ?). destruct (decide (q = p)) as [->|]; [by right|]. left. done.
Qed.

Lemma bin_ok_bump index start x x' area free :
  class_ok index →
  bin_ok index start x area free 0 → area + nbytes index ≤ bend x → idle x = false →
  bend x' = bend x → capacity x' = capacity x → bindex x' = bindex x → remainingFrees x' = remainingFrees x →
  active x' = active x → idle x' = idle x → full x' = full x →
  bin_ok index start x' (area + nbytes index) free (-1).
Proof.
  intros Hc [He Hcap Hi [Ha Hle] Hn Hf Hr Hfl Hid] Hroom Hnid E1 E2 E3 E4 E5 E6 E7.
  pose proof (nbytes_pos index Hc).
  constructor; rewrite ?E1, ?E2, ?E3, ?E4, ?E5, ?E6, ?E7; try done.
  - split; [by apply slot_next|done].
  - intros q Hq. destruct (Hf q Hq). split; [done|lia].
  - rewrite area_div_next, Hr by done. lia.
  - congruence.
Qed.

Lemma live_in_bump index start area free q :
  class_ok index → is_slot index start area → (∀ p, p ∈ free → p < area) →
  ¬ live_in index start area free area ∧
  (live_in index start (area + nbytes index) free q ↔ live_in index start area free q ∨ q = area).
Proof.
  intros Hc Ha Hf. pose proof (nbytes_pos index Hc). unfold live_in. split; [lia|]. split.
  - intros (Hq & Hlt & Hn). destruct (Z.lt_total q area) as [?|[->|Hgt]]; [auto|auto|].
    pose proof (slot_fits index Hc start area q Ha Hq Hgt). lia.
  - intros [(? & ? & ?)| ->]; [auto with lia|]. split; [done|]. split; [lia|]. intros Hin%Hf. lia.
Qed.

(** *** From the [FastThread] *)

Section fast_alloc.
Context (O : Z → Prop) (s : state) (index : Z).
Context (Hok : state_ok O s zero) (Hsm : small (thr s)).
Let f := fast (thr s).

(** The current bin of the class. *)
Lemma current_bin a i :
  fbins f index = Some (a, i) →
  ∃ r x, regions (thr s) !! a = Some r ∧ rbins r !! i = Some x ∧ rindex r = index ∧
    slot_end (slots f index) = bend x + 1 ∧ slotSize (slots f index) = nbytes index ∧
    slot_freelist (slots f index) = [] ∧
    cur_of (thr s) a (rindex r) = Some (i, bump (slots f index), stack f index).
Proof using Hok.
  intros Hfb. destruct Hok as [Ht _]. destruct (to_fast _ _ Ht index) as [Hfl Hm]. unfold f in *.
  rewrite Hfb in Hm. destruct Hm as [Hm Hsz]. apply fmap_Some in Hm as (r & Ha & E). injection E as Hi He.
  symmetry in He. apply fmap_Some in He as (x & Hx & He). exists r, x.
  split; [done|]. split; [done|]. split; [done|]. split; [lia|]. split; [done|]. split; [done|].
  unfold cur_of. by rewrite <- Hi, Hfb, Z.eqb_refl.
Qed.

Lemma stack_pop_ok p st :
  stack f index = p :: st →
  ∃ b s', fbins f index = Some b ∧ handed O s s' p index zero ∧
    inc_remaining (set_thr s (set_fast (thr s) (set_stack f index st))) b = Ok s'.
Proof using Hok Hsm.
  intros Hst. destruct (fbins f index) as [[a i]|] eqn:Hfb.
  2: { destruct (to_fast _ _ (proj1 Hok) index) as [_ Hm]. unfold f in *. rewrite Hfb in Hm.
       destruct Hm as [Hm _]. congruence. }
  destruct (current_bin a i Hfb) as (r & x & Ha & Hx & Hi & _ & _ & _ & Hc). subst index.
  pose proof (to_regions _ _ (proj1 Hok) a r Ha) as Hr. pose proof (ro_bins _ _ _ _ Hr i x Hx) as Hb.
  assert (Hf : fast_change f (set_stack f (rindex r) st) (rindex r)).
  { repeat split; tred. by rewrite upd_ne. }
  destruct (fast_step_cur s a i r _ Hfb Hf) as (_ & Hc1 & _). tred in Hc1. rewrite upd_eq in Hc1.
  set (s1 := set_thr s (set_fast (thr s) (set_stack f (rindex r) st))).
  change (set_fast (thr s) _) with (thr s1) in Hc1.
  assert (Hperm : free_of (cur_of (thr s) a (rindex r)) i x ≡ₚ p :: free_of (cur_of (thr s1) a (rindex r)) i x).
  { rewrite Hc, Hc1, Hst. cbn. rewrite !decide_True by done. symmetry. apply Permutation_middle. }
  assert (Harea : area_of (cur_of (thr s1) a (rindex r)) i x = area_of (cur_of (thr s) a (rindex r)) i x)
    by (rewrite Hc, Hc1; done).
  destruct (fast_step_ok O s a i r x _ (-1) Hok Ha Hx Hfb Hf) as [Hok1 Hoth].
  { change (set_fast _ _) with (thr s1). rewrite Harea. by eapply bin_ok_pop. }
  destruct (bo_free _ _ _ _ _ _ Hb p) as [Hp1 Hp2]; [rewrite Hperm; set_solver|].
  assert (p < bend x) as Hp3 by (destruct (bo_area _ _ _ _ _ _ Hb); lia).
  destruct (block_place a r _ _ i x p Hr Hx Hp1 Hp3) as (Hpa & _).
  destruct (live_in_pop (rindex r) (bin_start a (rindex r) i) (area_of (cur_of (thr s) a (rindex r)) i x) _ _ p p Hperm) as [Hnl _];
    [by apply Hb|done|done|].
  destruct (alloc_live (thr s) (thr s1) zero a r r i x x p) as [Hfresh Hlive]; try done; [apply Hok| |].
  { intros q. unfold view_live. rewrite Harea. eapply live_in_pop; [done|by apply Hb|done..]. }
  destruct (finish_alloc O s s1 a i r x p) as (s' & E & Hh & _); try done.
  { apply handed_intro; try done; [intros a' r1 r2; apply index_same|]. by exists r; rewrite Hpa. }
  { pose proof (bo_rem _ _ _ _ _ _ Hb). pose proof (free_le _ (ro_class _ _ _ _ Hr) _ _ _ _ _ Hb).
    unfold zero in *. lia. }
  exists (a, i), s'. done.
Qed.

Lemma bump_ok :
  stack f index = [] → u64 (bump (slots f index) + slotSize (slots f index)) < slot_end (slots f index) →
  ∃ b s', fbins f index = Some b ∧ handed O s s' (bump (slots f index)) index zero ∧
    inc_remaining (set_thr s (set_fast (thr s)
      (set_slot f index (mkSlot (u64 (bump (slots f index) + slotSize (slots f index)))
         (slot_end (slots f index)) [] (slotSize (slots f index)))))) b = Ok s'.
Proof using Hok Hsm.
  intros Hst Hlt. destruct (fbins f index) as [[a i]|] eqn:Hfb.
  2: { destruct (to_fast _ _ (proj1 Hok) index) as [_ Hm]. unfold f in *. rewrite Hfb in Hm.
       destruct Hm as [_ Hm]. lia. }
  destruct (current_bin a i Hfb) as (r & x & Ha & Hx & Hi & He & Hsz & Hfl & Hc). subst index.
  pose proof (to_regions _ _ (proj1 Hok) a r Ha) as Hr. pose proof (ro_bins _ _ _ _ Hr i x Hx) as Hb.
  pose proof (ro_class _ _ _ _ Hr) as Hcl. pose proof (nbytes_pos _ Hcl).
  assert (Harea : area_of (cur_of (thr s) a (rindex r)) i x = bump (slots f (rindex r)))
    by (rewrite Hc; cbn; by rewrite decide_True).
  rewrite Harea in Hb. destruct (bo_area _ _ _ _ _ _ Hb) as [Hs1 Hs2].
  destruct (bin_bounds _ _ _ _ _ _ Hr Hx) as (Hb1 & Hb2 & Hb3 & Hb4). unfold addr_max in *.
  pose proof (slot_ge _ Hcl _ _ Hs1) as Hge. rewrite Hsz, u64_small in Hlt |- * by lia. rewrite He in Hlt.
  set (f' := set_slot f _ _). assert (Hf : fast_change f f' (rindex r)).
  { repeat split; unfold f'; tred; by rewrite ?upd_eq, ?upd_ne, ?Hfl. }
  destruct (fast_step_cur s a i r _ Hfb Hf) as (_ & Hc1 & _). unfold f' in Hc1. tred in Hc1.
  rewrite upd_eq in Hc1. tred in Hc1. fold f' in Hc1. set (s1 := set_thr s (set_fast (thr s) f')).
  change (set_fast (thr s) f') with (thr s1) in Hc1.
  pose proof (fast_step_idle O s a i r x _ Hok Ha Hx Hfb Hf) as Hid.
  assert (Harea1 : area_of (cur_of (thr s1) a (rindex r)) i x = bump (slots f (rindex r)) + nbytes (rindex r))
    by (rewrite Hc1; cbn; by rewrite decide_True).
  assert (Hfree1 : free_of (cur_of (thr s1) a (rindex r)) i x = free_of (cur_of (thr s) a (rindex r)) i x)
    by (rewrite Hc, Hc1; done).
  destruct (fast_step_ok O s a i r x _ (-1) Hok Ha Hx Hfb Hf) as [Hok1 Hoth].
  { change (set_fast _ _) with (thr s1). rewrite Harea1, Hfree1. eapply bin_ok_bump; try done. lia. }
  assert (bump (slots f (rindex r)) < bend x) as Hp3 by lia.
  destruct (block_place a r _ _ i x _ Hr Hx Hs1 Hp3) as (Hpa & _).
  assert (Hbump : ∀ q, _) by (intros q; apply (live_in_bump (rindex r) (bin_start a (rindex r) i) _
    (free_of (cur_of (thr s) a (rindex r)) i x) q Hcl Hs1); intros p Hp; by apply (bo_free _ _ _ _ _ _ Hb)).
  destruct (alloc_live (thr s) (thr s1) zero a r r i x x (bump (slots f (rindex r)))) as [Hfresh Hlive];
    try done; [apply Hok| | |].
  { unfold view_live. rewrite Harea. apply (Hbump 0). }
  { intros q. unfold view_live. rewrite Harea, Harea1, Hfree1. apply Hbump. }
  destruct (finish_alloc O s s1 a i r x (bump (slots f (rindex r)))) as (s' & E & Hh & _); try done.
  { apply handed_intro; try done; [intros a' r1 r2; apply index_same|]. by exists r; rewrite Hpa. }
  { pose proof (bo_rem _ _ _ _ _ _ Hb). pose proof (free_le _ Hcl _ _ _ _ _ Hb). unfold zero in *. lia. }
  exists (a, i), s'. done.
Qed.
End fast_alloc.

(** *** From a bin *)

(** What is known of the bin after the allocation. *)
Record bin_frame (s s' : state) (a : Z) (i : nat) (index area e : Z) : Prop := {
  bf_fast : fast (thr s') = fast (thr s);
  bf_active : activeRegions (thr s') = activeRegions (thr s);
  bf_glob : glob s' = glob s;
  bf_bin : ∃ r x, regions (thr s') !! a = Some r ∧ rbins r !! i = Some x ∧ rindex r = index ∧
    bfreearea x = area ∧ bend x = e ∧ i ∈ activebins r
}.

Section bin_alloc.
Context (O : Z → Prop) (s : state) (a : Z) (i : nat) (r : Region) (x : Bin).
Context (Hok : state_ok O s zero) (Hsm : small (thr s)).
Context (Ha : regions (thr s) !! a = Some r) (Hx : rbins r !! i = Some x) (Hact : i ∈ activebins r).

(** Common end: the bin is changed to [x'], which takes [p] out of it. *)
Lemma bin_alloc_ok x' p :
  active x' = active x → bend x' = bend x → remainingFrees x' = remainingFrees x →
  bin_ok (rindex r) (bin_start a (rindex r) i) x' (area_of (cur_of (thr s) a (rindex r)) i x')
    (free_of (cur_of (thr s) a (rindex r)) i x') (-1) →
  is_slot (rindex r) (bin_start a (rindex r) i) p → p < bend x →
  ¬ view_live (thr s) a r i x p →
  (∀ q, view_live (thr s) a r i x' q ↔ view_live (thr s) a r i x q ∨ q = p) →
  ∃ s1 s', put_bin s (a, i) x' = Ok s1 ∧ s1 = put_region s a (upd_bin r i x') ∧ inc_remaining s1 (a, i) = Ok s' ∧
    handed O s s' p (rindex r) zero ∧ bin_frame s s' a i (rindex r) (bfreearea x') (bend x).
Proof using Hok Hsm Ha Hx Hact.
  intros E1 E2 E3 Hb' Hp Hlt Hnl Hv. pose proof (to_regions _ _ (proj1 Hok) a r Ha) as Hr.
  pose proof (ro_bins _ _ _ _ Hr i x Hx) as Hb.
  destruct (bin_step_ok O s a i r x x' (-1)) as [Hok1 Hoth]; try done.
  destruct (block_place a r _ _ i x p Hr Hx Hp Hlt) as (Hpa & _).
  set (s1 := put_region s a (upd_bin r i x')).
  assert (regions (thr s1) !! a = Some (upd_bin r i x')) as Ha1 by (apply lookup_insert_eq).
  assert (rbins (upd_bin r i x') !! i = Some x') as Hx1 by by eapply upd_bin_lookup.
  destruct (alloc_live (thr s) (thr s1) zero a r (upd_bin r i x') i x x' p) as [Hfresh Hlive];
    try done; [apply Hok|].
  destruct (finish_alloc O s s1 a i (upd_bin r i x') x' p) as (s' & E & Hh & [Hf1 Hf2 _ Hf4] & Hg); try done.
  { apply handed_intro; try done; [intros a' r1 r2; by apply (index_put _ a r)|]. exists (upd_bin r i x'). by rewrite Hpa. }
  { rewrite E3. pose proof (bo_rem _ _ _ _ _ _ Hb).
    pose proof (free_le _ (ro_class _ _ _ _ Hr) _ _ _ _ _ Hb). unfold zero in *. lia. }
  exists s1, s'. split.
  { unfold put_bin, get_region. cbn [fst snd]. rewrite Ha. cbn [of_option obind]. rewrite Hx. cbn [of_option obind].
    rewrite (upd_bin_keep r i x x'); [done|done|apply Hr|done]. }
  split; [done|]. split; [done|]. split; [exact Hh|]. constructor; try done.
  destruct Hf4 as (r2 & x2 & ? & ? & ? & ? & Hbe & _ & Hab). exists r2, x2. rewrite Hbe, E2, Hab. done.
Qed.

Lemma pop_freelist_ok p fl :
  freelist x = p :: fl →
  ∃ s', pop_freelist s (a, i) = Ok (p, s') ∧ handed O s s' p (rindex r) zero ∧
    bin_frame s s' a i (rindex r) (bfreearea x) (bend x).
Proof using Hok Hsm Ha Hx Hact.
  intros Hfl. pose proof (to_regions _ _ (proj1 Hok) a r Ha) as Hr. pose proof (ro_bins _ _ _ _ Hr i x Hx) as Hb.
  set (x' := set_bin_free x fl (remainingFrees x) (bfreearea x)).
  set (cur := cur_of (thr s) a (rindex r)) in *.
  assert (Hperm : free_of cur i x ≡ₚ p :: free_of cur i x').
  { unfold free_of, x'. destruct cur as [[[i' b] st]|]; [|tred; by rewrite Hfl].
    destruct (decide (i = i')); tred; by rewrite Hfl. }
  assert (Harea : area_of cur i x' = area_of cur i x) by (unfold area_of; by destruct cur as [[[]]|]).
  destruct (bo_free _ _ _ _ _ _ Hb p) as [Hp1 Hp2]; [rewrite Hperm; set_solver|].
  destruct (bin_alloc_ok x' p) as (s1 & s' & E1 & _ & E2 & Hh & Hbf); try done.
  - fold cur. rewrite Harea. by eapply bin_ok_pop.
  - destruct (bo_area _ _ _ _ _ _ Hb). lia.
  - eapply (live_in_pop _ _ _ _ _ p p Hperm); [apply Hb|done|done].
  - intros q. unfold view_live. fold cur. rewrite Harea. eapply live_in_pop; [done|apply Hb|done..].
  - exists s'. unfold pop_freelist, get_bin, get_region. cbn [fst snd]. rewrite Ha. cbn [of_option obind].
    rewrite Hx. cbn [of_option obind]. rewrite Hfl. fold x'. rewrite E1. cbn [obind]. rewrite E2. done.
Qed.

(** Bumping a bin that is not the current one. *)
Lemma bump_bin_ok :
  cur_of (thr s) a (rindex r) = None → bfreearea x + nbytes (rindex r) ≤ bend x →
  let x' := set_bin_free x (freelist x) (remainingFrees x) (bfreearea x + nbytes (rindex r)) in
  ∃ s1 s', put_bin s (a, i) x' = Ok s1 ∧ s1 = put_region s a (upd_bin r i x') ∧ inc_remaining s1 (a, i) = Ok s' ∧
    handed O s s' (bfreearea x) (rindex r) zero ∧
    bin_frame s s' a i (rindex r) (bfreearea x + nbytes (rindex r)) (bend x).
Proof using Hok Hsm Ha Hx Hact.
  intros Hcur Hroom x'. pose proof (to_regions _ _ (proj1 Hok) a r Ha) as Hr.
  pose proof (ro_bins _ _ _ _ Hr i x Hx) as Hb. rewrite Hcur in Hb. cbn [area_of free_of] in Hb.
  pose proof (ro_class _ _ _ _ Hr) as Hcl. pose proof (nbytes_pos _ Hcl).
  destruct (bo_area _ _ _ _ _ _ Hb) as [Hs1 _].
  assert (idle x = false) as Hid by (by apply (idle_member _ _ _ _ _ _ Hr Hx)).
  assert (Hbump : ∀ q, _) by (intros q; apply (live_in_bump (rindex r) (bin_start a (rindex r) i) (bfreearea x)
    (freelist x) q Hcl Hs1); intros p Hp; by apply (bo_free _ _ _ _ _ _ Hb)).
  apply (bin_alloc_ok x' (bfreearea x)); try done.
  - rewrite Hcur. cbn [area_of free_of x' set_bin_free bfreearea freelist]. by eapply bin_ok_bump.
  - lia.
  - unfold view_live. rewrite Hcur. apply (Hbump 0).
  - intros q. unfold view_live. rewrite Hcur. apply Hbump.
Qed.
End bin_alloc.

(** ** The current bin as a register

    [moo_alloc_medium] sets the current bin before the slot that goes with it, so
    its loop is followed in the state without a current bin. *)

Lemma upd_upd {A} (f : Z → A) i x y : upd (upd f i x) i y = upd f i y.
Proof. apply functional_extensionality. intros j. unfold upd. by destruct (j =? i). Qed.

Lemma upd_id {A} (f : Z → A) i x : f i = x → upd f i x = f.
Proof. intros <-. apply functional_extensionality. intros j. unfold upd. by destruct (Z.eqb_spec j i) as [->|]. Qed.

Lemma set_current_twice s j b b' : set_current (set_current s j b) j b' = set_current s j b'.
Proof. unfold set_current, set_fast, set_fbin. cbn. by rewrite upd_upd. Qed.

Lemma set_current_id s j b : fbins (fast (thr s)) j = b → set_current s j b = s.
Proof. intros E. unfold set_current, set_fast, set_fbin. rewrite upd_id by done. by destruct s as [g [? ? ? ? ? ? ? []]]. Qed.

Lemma set_current_if s j (c : bool) b :
  (if c then set_current (set_current s j b) j None else set_current s j b) = set_current s j (if c then None else b).
Proof. destruct c; [apply set_current_twice|done]. Qed.

Lemma set_current_fbins s j b : fbins (fast (thr (set_current s j b))) j = b.
Proof. unfold set_current. tred. apply upd_eq. Qed.

Lemma get_region_current s j b a : get_region (set_current s j b) a = get_region s a.
Proof. done. Qed.

Lemma get_bin_current s j b c : get_bin (set_current s j b) c = get_bin s c.
Proof. done. Qed.

Lemma put_region_current s j b a r : put_region (set_current s j b) a r = set_current (put_region s a r) j b.
Proof. done. Qed.

Lemma put_bin_current s j b c x :
  put_bin (set_current s j b) c x = (let! s' := put_bin s c x in Ok (set_current s' j b)).
Proof.
  unfold put_bin. rewrite get_region_current. destruct (get_region s c.1); try done. cbn [obind].
  by destruct (of_option (rbins a !! c.2)).
Qed.

Lemma inc_remaining_current s j b c :
  inc_remaining (set_current s j b) c = (let! s' := inc_remaining s c in Ok (set_current s' j b)).
Proof.
  unfold inc_remaining. rewrite get_bin_current. destruct (get_bin s c); try done. cbn [obind]. rewrite put_bin_current.
  destruct (put_bin s c _) as [s1| | | |]; try done. cbn [obind]. destruct (remainingFrees a =? 0); [|done].
  unfold handleBinBecameNonEmpty. rewrite get_region_current. destruct (get_region s1 c.1) as [r| | | |]; try done.
  cbn [obind]. destruct (rempty r); [|done]. unfold markRegionNonEmpty. rewrite put_region_current, get_region_current.
  destruct (get_region _ c.1) as [r'| | | |]; try done. cbn [obind]. destruct (negb (rempty r')); [done|].
  rewrite put_region_current. tred. by destruct (list_erase _ _).
Qed.

Lemma pop_freelist_current s j b c :
  pop_freelist (set_current s j b) c = (let! '(p, s') := pop_freelist s c in Ok (p, set_current s' j b)).
Proof.
  unfold pop_freelist. rewrite get_bin_current. destruct (get_bin s c) as [x| | | |]; try done. cbn [obind].
  destruct (freelist x); [done|]. rewrite put_bin_current. destruct (put_bin s c _); try done. cbn [obind].
  rewrite inc_remaining_current. by destruct (inc_remaining _ _).
Qed.

(** ** Bins that change their list *)

Lemma state_ok_ext O s d d' : (∀ a j, d' a j = d a j) → state_ok O s d → state_ok O s d'.
Proof.
  intros E [[] ?]. split; [|done]. constructor; try done.
  intros a r Ha. apply (region_ok_ext _ _ _ (d a)); auto.
Qed.

Lemma ahead_0 b a j : zero a j = ahead b 0 a j.
Proof. unfold zero, ahead. by case_decide. Qed.

(** A bin none of whose blocks is handed out starts again from its first slot. *)
Lemma reset_bin_ok O s a i r x :
  state_ok O s zero → regions (thr s) !! a = Some r → rbins r !! i = Some x →
  cur_of (thr s) a (rindex r) = None → i ∈ activebins r → remainingFrees x = 0 →
  let x' := set_bin_free x [] (remainingFrees x) (u64 (bend x - nbytes (rindex r) * capacity x)) in
  quiet_step O s (put_region s a (upd_bin r i x')) zero ∧ bfreearea x' + nbytes (rindex r) ≤ bend x'.
Proof.
  intros Hok Ha Hx Hcur Hact Hrem x'. pose proof (to_regions _ _ (proj1 Hok) a r Ha) as Hr.
  pose proof (ro_bins _ _ _ _ Hr i x Hx) as Hb. pose proof (ro_class _ _ _ _ Hr) as Hcl.
  pose proof (nbytes_pos _ Hcl). pose proof (lf_cap _ (layout_ok _ Hcl)) as Hcap. destruct (bin_bounds _ _ _ _ _ _ Hr Hx) as (? & ? & ? & ?).
  assert (idle x = false) as Hid by (by apply (idle_member _ _ _ _ _ _ Hr Hx)).
  assert (u64 (bend x - nbytes (rindex r) * capacity x) = bin_start a (rindex r) i) as Harea.
  { rewrite (bo_cap _ _ _ _ _ _ Hb), Hcap, (bo_end _ _ _ _ _ _ Hb) in *. unfold addr_max in *. rewrite u64_small; lia. }
  destruct (bin_step_ok O s a i r x x' 0) as [Hok' Hoth]; try done.
  { rewrite Hcur. cbn [area_of free_of x' set_bin_free bfreearea freelist]. rewrite Harea.
    destruct Hb. constructor; try done; unfold x'; tred.
    - split; [by apply slot_start|]. rewrite bo_end. pose proof (binsize_pos (rindex r)). lia.
    - constructor.
    - set_solver.
    - rewrite Z.sub_diag, Z.div_0_l by lia. cbn. lia.
    - congruence. }
  split.
  - apply quiet_intro; [apply (state_ok_ext _ _ (ahead (a, i) 0)); [apply ahead_0|exact Hok']|
      |intros a' r1 r2; by apply (index_put _ a r)|done].
    intros p. rewrite (live_at _ a (upd_bin r i x') i x'), (live_at (thr s) a r i x), Hoth
      by (done || apply lookup_insert_eq || by eapply upd_bin_lookup).
    assert (¬ view_live (thr s) a r i x p) as Hn1.
    { eapply not_live_all_free; [done|exact Hb|]. pose proof (bo_rem _ _ _ _ _ _ Hb). unfold zero in *. lia. }
    assert (¬ view_live (put_t (thr s) a (upd_bin r i x')) a (upd_bin r i x') i x' p) as Hn2; [|tauto].
    unfold view_live. change (cur_of (put_t (thr s) a (upd_bin r i x')) a (rindex (upd_bin r i x')))
      with (cur_of (thr s) a (rindex r)). rewrite Hcur.
    cbn [area_of free_of x' set_bin_free bfreearea freelist]. rewrite Harea.
    change (rindex (upd_bin r i _)) with (rindex r).
    intros (Hp & Hlt & _). apply (slot_ge _ Hcl) in Hp. lia.
  - unfold x'. tred. rewrite Harea, (bo_end _ _ _ _ _ _ Hb). unfold binsize. lia.
Qed.

Definition demote (r : Region) (i : nat) (x : Bin) : Region :=
  set_binlists (set_bins r (<[i := x]> (rbins r))) (filter (λ y, y ≠ i) (activebins r))
    (idlebins r ++ [i]) (numIdleBins r + 1).

Lemma demote_ok a r cur d i x x' :
  region_ok a r cur d → rbins r !! i = Some x → i ∈ activebins r → active x' = false →
  remainingFrees x' = remainingFrees x → rfull r = false →
  bin_ok (rindex r) (bin_start a (rindex r) i) x' (bfreearea x') (freelist x') (d i) →
  (∀ j y, j ≠ i → area_of cur j y = bfreearea y ∧ free_of cur j y = freelist y) →
  region_ok a (demote r i x') None d.
Proof.
  intros Hr Hx Hin Hact Hrem Hfull Hb Hv. destruct Hr. apply lookup_lt_Some in Hx as Hi.
  assert (NoDup (activebins r)) as Hnd.
  { assert (NoDup (activebins r ++ idlebins r)) as Hn by (rewrite ro_lists; apply NoDup_seq).
    by apply NoDup_app in Hn as (? & _ & _). }
  constructor; unfold demote; tred; rewrite ?length_insert; try done.
  - rewrite (empties_insert _ _ x), Hrem by done. lia.
  - rewrite <- ro_lists. apply list_elem_of_split in Hin as (l1 & l2 & E). rewrite E in *.
    rewrite erase_split by done. rewrite (assoc_L (++)), (Permutation_app_comm _ [i]). cbn [app].
    rewrite <- (assoc_L (++)). by rewrite Permutation_middle, <- (assoc_L (++)).
  - rewrite ro_idle_num, length_app. cbn [length]. lia.
  - intros j y. rewrite list_lookup_insert_Some, elem_erase.
    intros [(<- & <- & _)|[Hne Hy]]; [rewrite Hact; naive_solver|]. rewrite <- (ro_active j y Hy). naive_solver.
  - intros j y. rewrite list_lookup_insert_Some. intros [(<- & <- & _)|[Hne Hy]]; [done|].
    specialize (ro_bins j y Hy). destruct (Hv j y) as [E1 E2]; [done|]. by rewrite E1, E2 in ro_bins.
  - congruence.
Qed.

Lemma demote_shell r i x x' : rbins r !! i = Some x → bend x' = bend x → same_shell r (demote r i x').
Proof. intros Hx He. destruct (upd_bin_shell r i x x' Hx He) as [? ? Hs]. constructor; [done..|]. exact Hs. Qed.

(** ** [moo_alloc_medium] *)

Lemma put_region_id s a r : regions (thr s) !! a = Some r → put_region s a r = s.
Proof. intros Ha. unfold put_region, set_regions. rewrite insert_id by done. by destruct s as [g []]. Qed.

Lemma put_bin_eq s a i r x x' :
  regions (thr s) !! a = Some r → rbins r !! i = Some x →
  put_bin s (a, i) x' = Ok (put_region s a (set_bins r (<[i := x']> (rbins r)))).
Proof.
  intros Ha Hx. unfold put_bin, get_region. cbn [fst snd]. rewrite Ha. cbn [of_option obind]. by rewrite Hx.
Qed.

Lemma get_bin_eq s a i r x :
  regions (thr s) !! a = Some r → rbins r !! i = Some x → get_bin s (a, i) = Ok x.
Proof. intros Ha Hx. unfold get_bin, get_region. cbn [fst snd]. rewrite Ha. cbn [of_option obind]. by rewrite Hx. Qed.

(** A step that changes only region [a] of the thread. *)
Record region_frame (s s' : state) (a : Z) (r' : Region) : Prop := {
  rf_fast : fast (thr s') = fast (thr s);
  rf_active : activeRegions (thr s') = activeRegions (thr s);
  rf_glob : glob s' = glob s;
  rf_regions : regions (thr s') = <[a := r']> (regions (thr s));
  rf_small : small (thr s) → small (thr s')
}.

(** The bin as [moo_alloc_medium] looks at it. *)
Definition refreshed (x : Bin) (nb : Z) : Bin :=
  if (remainingFrees x =? 0) && match freelist x with [] => false | _ => true end
  then set_bin_free x [] (remainingFrees x) (u64 (bend x - nb * capacity x)) else x.

Lemma refresh_ok O s a i r x :
  state_ok O s zero → small (thr s) → regions (thr s) !! a = Some r → rbins r !! i = Some x →
  cur_of (thr s) a (rindex r) = None → i ∈ activebins r →
  let x' := refreshed x (nbytes (rindex r)) in
  ∃ s1 r1, put_bin s (a, i) x' = Ok s1 ∧ quiet_step O s s1 zero ∧ region_frame s s1 a r1 ∧
    rbins r1 !! i = Some x' ∧ activebins r1 = activebins r ∧ rindex r1 = rindex r ∧ rfull r1 = rfull r.
Proof.
  intros Hok Hsm Ha Hx Hcur Hact. unfold refreshed.
  pose proof (to_regions _ _ (proj1 Hok) a r Ha) as Hr. apply lookup_lt_Some in Hx as Hlen.
  destruct (Z.eqb_spec (remainingFrees x) 0) as [E|E]; cbn [andb].
  2: { exists s, r. cbn zeta. rewrite (put_bin_eq s a i r x) by done. rewrite list_insert_id by done.
       replace (set_bins r (rbins r)) with r by (by destruct r). rewrite put_region_id by done.
       split; [done|]. split; [by apply quiet_refl|]. split; [|done].
       constructor; try done. by rewrite insert_id. }
  destruct (freelist x) eqn:Hfl.
  { exists s, r. cbn zeta. rewrite (put_bin_eq s a i r x) by done. rewrite list_insert_id by done.
    replace (set_bins r (rbins r)) with r by (by destruct r). rewrite put_region_id by done.
    split; [done|]. split; [by apply quiet_refl|]. split; [|done].
    constructor; try done. by rewrite insert_id. }
  destruct (reset_bin_ok O s a i r x Hok Ha Hx Hcur Hact E) as [Hq _]. cbn zeta.
  set (x' := set_bin_free x [] _ _) in *. exists (put_region s a (upd_bin r i x')), (upd_bin r i x').
  split; [|split; [done|split; [by constructor|split; [by eapply upd_bin_lookup|done]]]].
  rewrite (put_bin_eq s a i r x) by done. rewrite (upd_bin_keep r i x); [done|done|apply Hr|done].
Qed.

(** The outcome of one round for the first active bin of a region. *)
Inductive round (O : Z → Prop) (s : state) (a : Z) (i : nat) (r : Region) (b : option (Z * nat)) :
    option Z * state → Prop :=
  | round_block p s' area e :
      handed O s s' p (rindex r) zero → bin_frame s s' a i (rindex r) area e →
      round O s a i r b (Some p, set_current s' (rindex r) (Some (a, i)))
  | round_exhausted s' r' :
      quiet_step O s s' zero → region_frame s s' a r' →
      activebins r' = filter (λ y, y ≠ i) (activebins r) → rindex r' = rindex r → rfull r' = rfull r →
      round O s a i r b (None, set_current s' (rindex r) (if bool_decide (b = Some (a, i)) then None else b)).

Lemma bin_frame_quiet O s s1 s2 a i r1 index area e :
  quiet_step O s s1 zero → region_frame s s1 a r1 → bin_frame s1 s2 a i index area e →
  bin_frame s s2 a i index area e.
Proof. intros _ [? ? ? ? ?] []. constructor; try congruence. Qed.

Lemma area_full index start x area free d :
  class_ok index → bin_ok index start x area free d → bend x < area + nbytes index → area = bend x.
Proof.
  intros Hc Hb Hlt. destruct (bo_area _ _ _ _ _ _ Hb) as [Ha Hle]. rewrite (bo_end _ _ _ _ _ _ Hb) in *.
  destruct (Z.eq_dec area (start + binsize index)) as [|Hne]; [done|].
  pose proof (slot_fits index Hc start area _ Ha (slot_end_bin index Hc start)). lia.
Qed.

Lemma exhausted_ok O s a i r x :
  state_ok O s zero → regions (thr s) !! a = Some r → rbins r !! i = Some x →
  cur_of (thr s) a (rindex r) = None → i ∈ activebins r → rfull r = false →
  bend x < bfreearea x + nbytes (rindex r) → freelist x = [] →
  quiet_step O s (put_region s a (demote r i (set_bin_flags x true false true))) zero.
Proof.
  intros Hok Ha Hx Hcur Hact Hfull Hroom Hfl. pose proof (to_regions _ _ (proj1 Hok) a r Ha) as Hr.
  pose proof (ro_bins _ _ _ _ Hr i x Hx) as Hb. rewrite Hcur in Hb. cbn [area_of free_of] in Hb.
  pose proof (area_full _ _ _ _ _ _ (ro_class _ _ _ _ Hr) Hb Hroom) as Harea.
  set (x' := set_bin_flags x true false true).
  assert (Hsh : same_shell r (demote r i x')) by (by apply (demote_shell r i x)).
  eapply quiet_put; [exact Hok|by exists r| |].
  - apply (thread_ok_put (thr s) a r _ Ha Hsh zero); try done; [apply Hok|].
    change (rindex (demote r i x')) with (rindex r). rewrite Hcur.
    apply (demote_ok a r (cur_of (thr s) a (rindex r)) _ i x); try done.
    + destruct Hb. constructor; try done.
    + intros j y Hj. by rewrite Hcur.
  - intros p. apply lookup_lt_Some in Hx as Hlen.
    rewrite (live_at _ a (demote r i x') i x'), (live_at (thr s) a r i x)
      by (done || apply lookup_insert_eq || by apply list_lookup_insert_eq).
    rewrite (live_other_ext (thr s) _ a r); try done.
    + intros a' Hne. tred. by rewrite lookup_insert_ne.
    + intros j Hj. unfold demote. tred. by apply list_lookup_insert_ne.
Qed.

Lemma cur_of_none t a j : fbins (fast t) j = None → cur_of t a j = None.
Proof. intros E. unfold cur_of. by rewrite E. Qed.

Lemma refreshed_fields x nb :
  bend (refreshed x nb) = bend x ∧ remainingFrees (refreshed x nb) = remainingFrees x ∧
  active (refreshed x nb) = active x ∧ idle (refreshed x nb) = idle x.
Proof. unfold refreshed. by destruct (_ && _). Qed.

Lemma refreshed_area a r cur d i x :
  region_ok a r cur d → cur = None → rbins r !! i = Some x → bfreearea (refreshed x (nbytes (rindex r))) ≤ bfreearea x.
Proof.
  intros Hr -> Hx. unfold refreshed. destruct (_ && _); [|done]. tred.
  pose proof (ro_bins _ _ _ _ Hr i x Hx) as Hb. cbn [area_of free_of] in Hb. pose proof (ro_class _ _ _ _ Hr) as Hcl.
  pose proof (lf_cap _ (layout_ok _ Hcl)) as Hcap. destruct (bin_bounds _ _ _ _ _ _ Hr Hx) as (? & ? & ? & ?).
  pose proof (slot_ge _ Hcl _ _ (proj1 (bo_area _ _ _ _ _ _ Hb))).
  rewrite (bo_cap _ _ _ _ _ _ Hb), Hcap, (bo_end _ _ _ _ _ _ Hb) in *. unfold addr_max in *.
  rewrite u64_small; lia.
Qed.

Lemma alloc_from_bin_ok O s a i r x b :
  state_ok O s zero → small (thr s) → fbins (fast (thr s)) (rindex r) = None →
  regions (thr s) !! a = Some r → rbins r !! i = Some x → i ∈ activebins r → rfull r = false →
  ∃ res, alloc_from_bin (set_current s (rindex r) b) a i (rindex r) (nbytes (rindex r)) = Ok res ∧
    round O s a i r b res ∧ (bfreearea x + nbytes (rindex r) ≤ bend x → is_Some res.1).
Proof.
  intros Hok Hsm Hfb Ha Hx Hact Hfull. pose proof (to_regions _ _ (proj1 Hok) a r Ha) as Hr.
  pose proof (ro_class _ _ _ _ Hr) as Hcl. pose proof (nbytes_pos _ Hcl) as Hnb.
  destruct (refresh_ok O s a i r x Hok Hsm Ha Hx (cur_of_none _ _ _ Hfb) Hact)
    as (s1 & r1 & Eput & Hq1 & Hrf & Hx1 & Hact1 & Hi1 & Hfull1).
  destruct (refreshed_fields x (nbytes (rindex r))) as (Ebend & Erem & Eact & Eidle).
  unfold alloc_from_bin. rewrite get_bin_current, (get_bin_eq s a i r x Ha Hx). cbn [obind].
  rewrite (proj1 (ro_active _ _ _ _ Hr i x Hx) Hact). cbn [CHECK obind].
  fold (refreshed x (nbytes (rindex r))). set (x1 := refreshed x (nbytes (rindex r))) in *.
  rewrite put_bin_current, Eput. cbn [obind].
  pose proof (rf_regions _ _ _ _ Hrf) as Hregs. pose proof (rf_small _ _ _ _ Hrf Hsm) as Hsm1.
  assert (regions (thr s1) !! a = Some r1) as Ha1 by (rewrite Hregs; apply lookup_insert_eq).
  assert (fbins (fast (thr s1)) (rindex r1) = None) as Hfb1 by (rewrite (rf_fast _ _ _ _ Hrf); congruence).
  pose proof (qs_ok _ _ _ _ Hq1) as Hok1. pose proof (to_regions _ _ (proj1 Hok1) a r1 Ha1) as Hr1.
  pose proof (ro_bins _ _ _ _ Hr1 i x1 Hx1) as Hb1. rewrite (cur_of_none _ _ _ Hfb1) in Hb1. cbn [area_of free_of] in Hb1.
  destruct (bin_bounds _ _ _ _ _ _ Hr1 Hx1) as (B1 & B2 & B3 & B4). unfold addr_max in *.
  pose proof (slot_ge _ (ro_class _ _ _ _ Hr1) _ _ (proj1 (bo_area _ _ _ _ _ _ Hb1))) as Hge.
  pose proof (proj2 (bo_area _ _ _ _ _ _ Hb1)) as Hle. rewrite <- Hi1 in *.
  rewrite u64_small by lia. destruct (Z.leb_spec (bfreearea x1 + nbytes (rindex r1)) (bend x1)) as [Hroom|Hroom].
  - destruct (bump_bin_ok O s1 a i r1 x1) as (s2 & s3 & E2 & _ & E3 & Hh & Hbf); try done;
      [by rewrite Hact1|by apply cur_of_none|].
    rewrite put_bin_current, E2. cbn [obind CHECK].
    rewrite set_current_twice, inc_remaining_current, E3. cbn [obind]. eexists. split; [reflexivity|].
    split; [|by eexists]. rewrite Hi1 in Hh, Hbf |- *.
    eapply round_block; [by eapply quiet_handed|by eapply bin_frame_quiet].
  - destruct (freelist x1) as [|p fl] eqn:Hfl.
    + rewrite put_bin_current, (put_bin_eq s1 a i r1 x1) by done. cbn [obind].
      rewrite get_region_current. unfold get_region. tred. rewrite lookup_insert_eq. tred. rewrite list_erase_ok by (by rewrite Hact1).
      cbn [obind]. rewrite put_region_current, put_region_put, set_current_fbins.
      assert (numIdleBins r1 + 1 < 2 ^ 16) as Hnum.
      { rewrite (ro_idle_num _ _ _ _ Hr1). pose proof (ro_lists _ _ _ _ Hr1) as Hl.
        apply Permutation_length in Hl. rewrite length_app, length_seq in Hl.
        destruct (ro_bins_len _ _ _ _ Hr1). pose proof (lf_bins _ (layout_ok _ (ro_class _ _ _ _ Hr1))). lia. }
      rewrite Z.mod_small by (rewrite (ro_idle_num _ _ _ _ Hr1) in *; lia).
      fold (demote r1 i (set_bin_flags x1 true false true)).
      pose proof (exhausted_ok O s1 a i r1 x1 Hok1 Ha1 Hx1 (cur_of_none _ _ _ Hfb1)) as Hex.
      eexists. split; [reflexivity|]. split.
      * rewrite set_current_if.
        rewrite Hi1. apply round_exhausted with (demote r1 i (set_bin_flags x1 true false true)).
        -- eapply quiet_trans; [exact Hq1|]. apply Hex; try done; [by rewrite Hact1|congruence].
        -- destruct Hrf. constructor; try done; tred. by rewrite Hregs, insert_insert_eq.
        -- unfold demote. tred. congruence.
        -- done.
        -- unfold demote. tred. congruence.
      * intros Hroom0. exfalso. pose proof (refreshed_area a r _ _ i x Hr (cur_of_none _ _ _ Hfb) Hx) as Harea.
        fold x1 in Harea. rewrite Hi1 in *. lia.
    + rewrite set_current_twice, pop_freelist_current.
      destruct (pop_freelist_ok O s1 a i r1 x1 Hok1 Hsm1 Ha1 Hx1) with p fl as (s2 & E2 & Hh & Hbf);
        [by rewrite Hact1|done|]. rewrite E2. cbn [obind]. eexists. split; [reflexivity|].
      split; [|by eexists]. rewrite Hi1 in Hh, Hbf |- *.
      eapply round_block; [by eapply quiet_handed|by eapply bin_frame_quiet].
Qed.

(** *** New bins *)

Lemma aligned_floor a o : aligned a → 0 ≤ o < alignment → (a + o) / alignment * alignment = a.
Proof.
  intros [k ->]%aligned_mult Ho. rewrite Z.add_comm, Z.div_add by done. by rewrite Z.div_small.
Qed.

Lemma aligned_mod_64 a : aligned a → a mod 64 = 0.
Proof.
  intros [k ->]%aligned_mult. change alignment with (32768 * 64). rewrite Z.mul_assoc. by apply Z.mod_mul.
Qed.

Definition fresh_bin (a index : Z) (i : nat) : Bin :=
  mkBin [] (binsize index / nbytes index) 0 (bin_start a index i) (bin_start a index i + binsize index)
    false true false false 0 index.

Lemma fresh_bin_ok a index i : class_ok index →
  bin_ok index (bin_start a index i) (fresh_bin a index i) (bin_start a index i) [] 0.
Proof.
  intros Hc. pose proof (binsize_pos index). pose proof (nbytes_pos _ Hc). constructor; try done; cbn [fresh_bin bend].
  - split; [by apply slot_start|lia].
  - constructor.
  - set_solver.
  - cbn [fresh_bin remainingFrees length]. rewrite Z.sub_diag, Z.div_0_l by lia. lia.
Qed.

(** A region with the bins [bins], a region before its first bin included. *)
Definition add_bin (a : Z) (r : Region) : Region :=
  mkRegion (databegin r) (binshift r) (rindex r) (rfull r) (rempty r) (rthread r)
    (rbins r ++ [fresh_bin a (rindex r) (length (rbins r))])
    (activebins r ++ [length (rbins r)]) (idlebins r) (numIdleBins r) (minIdleBins r)
    (numCreatedBins r + 1) (numEmptyBins r + 1) (freebinarea r + sizeof_Bin)
    (rfreearea r + binsize (rindex r)) (rend r).

Lemma new_bin_eq a r :
  class_ok (rindex r) → endpoint a → rend r = a + region_bytes (rindex r) → rend r ≤ addr_max →
  rfreearea r = a + data_off (rindex r) + Z.of_nat (length (rbins r)) * binsize (rindex r) →
  freebinarea r = a + sizeof_Region + sizeof_Bin * Z.of_nat (length (rbins r)) →
  0 ≤ numCreatedBins r < 128 → 0 ≤ numEmptyBins r < 128 →
  Z.of_nat (length (rbins r)) + 1 ≤ max_bins (rindex r) →
  new_bin a r (rindex r) (nbytes (rindex r)) (binsize (rindex r)) = Ok (add_bin a r).
Proof.
  intros Hc [Hal Ha] He He' Har Hba Hnc Hne Hlen. destruct (layout_ok _ Hc).
  pose proof (nbytes_pos _ Hc). pose proof (binsize_pos (rindex r)).
  assert (nbytes (rindex r) ≤ binsize (rindex r)) by (unfold binsize; lia).
  set (n := Z.of_nat (length (rbins r))) in *. assert (0 ≤ n) by lia.
  assert (n * binsize (rindex r) ≤ (max_bins (rindex r) - 1) * binsize (rindex r)) by nia.
  assert (max_bins (rindex r) * binsize (rindex r) ≤ region_bytes (rindex r) - data_off (rindex r)).
  { unfold max_bins. rewrite Z.mul_comm. apply Z.mul_div_le. lia. }
  assert (0 ≤ n * binsize (rindex r)) by nia. unfold sizeof_Region, sizeof_Bin, addr_max in *.
  unfold new_bin. rewrite Har, Hba. rewrite <- !Z.add_assoc, aligned_floor by (done || lia). rewrite Z.eqb_refl.
  cbn [CHECK obind]. rewrite Z.add_mod, (aligned_mod_64 a Hal) by done.
  replace (192 + 64 * n) with ((3 + n) * 64) by ring. rewrite Z.mod_mul, Z.add_0_l, Z.mod_0_l, Z.eqb_refl by done.
  cbn [CHECK obind]. rewrite !u64_small by (unfold sizeof_Bin; lia).
  rewrite (proj2 (Z.leb_le _ _)) by (unfold sizeof_Bin; lia). cbn [CHECK obind]. tred.
  rewrite (proj2 (Z.leb_le _ _)) by lia. cbn [CHECK obind]. rewrite !Z.mod_small by lia.
  rewrite length_app. cbn [length]. rewrite Nat.add_sub. f_equal. unfold add_bin, fresh_bin, bin_start.
  rewrite Har, Hba. unfold sizeof_Region. fold n. unfold set_areas. tred.
  f_equal; [|lia..]. do 3 f_equal; lia.
Qed.

Lemma add_bin_ok a r cur d :
  region_ok a r cur d → d (length (rbins r)) = 0 → rfull r = false →
  Z.of_nat (length (rbins r)) + 1 ≤ max_bins (rindex r) →
  region_ok a (add_bin a r) cur d.
Proof.
  intros Hr Hd Hfull Hlen. pose proof (ro_class _ _ _ _ Hr) as Hc. destruct Hr.
  assert (∀ i b st, cur = Some (i, b, st) → (i < length (rbins r))%nat) as Hcur.
  { intros i b st E. specialize (ro_cur i b st E). assert (i ∈ activebins r ++ idlebins r) as Hin by set_solver.
    rewrite ro_lists in Hin. apply elem_of_seq in Hin. lia. }
  assert (∀ j, j ∈ activebins r → (j < length (rbins r))%nat) as Hact.
  { intros j Hj. assert (j ∈ activebins r ++ idlebins r) as Hin by set_solver.
    rewrite ro_lists in Hin. apply elem_of_seq in Hin. lia. }
  constructor; unfold add_bin; tred; rewrite ?length_app; cbn [length]; try done; try lia.
  - rewrite ro_empties. unfold empties. rewrite filter_app, filter_cons_True, filter_nil, length_app by done.
    cbn [length]. lia.
  - rewrite Nat.add_1_r, seq_S, <- ro_lists, <- !(assoc_L (++)). f_equiv. apply Permutation_app_comm.
  - intros i x. rewrite lookup_snoc_Some, elem_of_app, list_elem_of_singleton. intros [[Hi Hx]|[-> <-]].
    + rewrite <- (ro_active i x Hx). split; [|auto]. intros [?| ->]; [done|lia].
    + cbn. naive_solver.
  - intros i x. rewrite lookup_snoc_Some. intros [[Hi Hx]|[-> <-]]; [by apply ro_bins|].
    rewrite Hd. unfold area_of, free_of. destruct cur as [[[i' b] st]|]; [|by apply fresh_bin_ok].
    rewrite !decide_False by (specialize (Hcur i' b st eq_refl); lia). by apply fresh_bin_ok.
  - intros i b st E. rewrite elem_of_app. left. by eapply ro_cur.
  - congruence.
  - intros He. specialize (ro_empty He). lia.
Qed.
