(* ===== verification/MooMediumFacts.v ===== *)
(** * Looking for a block in the active regions

    The loop of [moo_alloc_medium] returns a block or finds every active region
    of the size class full. *)

From Stdlib Require Import ZArith Lia.
From stdpp Require Import base gmap option list.
From S2P Require Import Prelude Moo MooSpanFacts MooFacts MooAllocFacts.

Local Set Warnings "-clear-no-such-hyp".

(** ** A new bin in a region *)

Lemma add_bin_shell a r : same_shell r (add_bin a r).
Proof.
  constructor; [done..|]. intros i e. rewrite !fmap_Some. intros (x & Hx & ->). exists x. split; [|done].
  unfold add_bin. tred. by apply lookup_app_l_Some.
Qed.

Lemma add_bin_live a r p : class_ok (rindex r) →
  region_live a (add_bin a r) None p ↔ region_live a r None p.
Proof.
  intros Hc. split; intros (i & x & Hx & Hl); exists i, x; (split; [|exact Hl]); revert Hx;
    unfold add_bin; tred; [|intros; by apply lookup_app_l_Some].
  rewrite lookup_snoc_Some. intros [[_ Hx]|[-> <-]]; [done|]. destruct Hl as (Hs & Hlt & _).
  apply (slot_ge _ Hc) in Hs. cbn [area_of fresh_bin bfreearea] in Hlt. unfold add_bin in *. tred in Hs. tred in Hlt. lia.
Qed.

(** The region has room for another bin. *)
Lemma room_max a r cur d :
  region_ok a r cur d → rfreearea r + binsize (rindex r) ≤ rend r →
  Z.of_nat (length (rbins r)) + 1 ≤ max_bins (rindex r).
Proof.
  intros Hr Hroom. rewrite (ro_area _ _ _ _ Hr), (proj1 (ro_end _ _ _ _ Hr)) in Hroom.
  pose proof (binsize_pos (rindex r)). apply Z.div_le_lower_bound; [done|]. lia.
Qed.

Lemma area_bound a r cur d : region_ok a r cur d →
  0 < rfreearea r ≤ addr_max ∧ 0 < binsize (rindex r) < 2 ^ 48.
Proof.
  intros Hr. pose proof (ro_class _ _ _ _ Hr) as Hc. destruct (layout_ok _ Hc). destruct (ro_addr _ _ _ _ Hr) as [_ Ha].
  destruct (ro_end _ _ _ _ Hr) as [He He']. rewrite (ro_area _ _ _ _ Hr). pose proof (binsize_pos (rindex r)).
  destruct (ro_bins_len _ _ _ _ Hr) as [_ Hlen].
  assert (max_bins (rindex r) * binsize (rindex r) ≤ region_bytes (rindex r) - data_off (rindex r)).
  { unfold max_bins. rewrite Z.mul_comm. apply Z.mul_div_le. lia. }
  assert (Z.of_nat (length (rbins r)) * binsize (rindex r) ≤ max_bins (rindex r) * binsize (rindex r)) by nia.
  assert (1 * binsize (rindex r) ≤ max_bins (rindex r) * binsize (rindex r)) by nia.
  assert (0 ≤ Z.of_nat (length (rbins r)) * binsize (rindex r)) by nia.
  change sizeof_Region with 192 in *. change sizeof_Bin with 64 in *. lia.
Qed.

Lemma sum_ext (f g : Z → nat) l : (∀ b, b ∈ l → f b = g b) → sum_list (f <$> l) = sum_list (g <$> l).
Proof.
  intros Hl. f_equal. apply list_fmap_ext. intros k b Hk. apply Hl. by eapply list_elem_of_lookup_2.
Qed.

Lemma sum_list_tail (f : Z → nat) a l : sum_list (f <$> a :: l) = (f a + sum_list (f <$> l))%nat.
Proof. done. Qed.

Lemma sum_less (f g : Z → nat) a l :
  (f a < g a)%nat → (∀ b, b ∈ l → f b = g b) → (S (sum_list (f <$> a :: l)) < S (sum_list (g <$> a :: l)))%nat.
Proof. intros Ha Hl. rewrite !sum_list_tail, (sum_ext f g l Hl). lia. Qed.

Lemma active_lt a r cur d i : region_ok a r cur d → i ∈ activebins r → (i < length (rbins r))%nat.
Proof.
  intros Hr Hi. assert (i ∈ activebins r ++ idlebins r) as Hin by set_solver.
  rewrite (ro_lists _ _ _ _ Hr) in Hin. apply elem_of_seq in Hin. lia.
Qed.

Lemma active_NoDup a r cur d : region_ok a r cur d → NoDup (activebins r).
Proof.
  intros Hr. assert (NoDup (activebins r ++ idlebins r)) as Hn by (rewrite (ro_lists _ _ _ _ Hr); apply NoDup_seq).
  by apply NoDup_app in Hn as [? _].
Qed.

Section medium.
Context (O : Z → Prop) (index : Z).

(** Between the rounds of the loop: no current bin. *)
Record searching (s : state) : Prop := {
  se_ok : state_ok O s zero;
  se_small : small (thr s);
  se_fbin : fbins (fast (thr s)) index = None
}.

Lemma add_bin_quiet s a r :
  searching s → regions (thr s) !! a = Some r → rindex r = index → rfull r = false →
  rfreearea r + binsize index ≤ rend r →
  new_bin a r index (nbytes index) (binsize index) = Ok (add_bin a r) ∧
  quiet_step O s (put_region s a (add_bin a r)) zero.
Proof using.
  intros [Hok Hsm Hfb] Ha <- Hfull Hroom. pose proof (to_regions _ _ (proj1 Hok) a r Ha) as Hr.
  rewrite (cur_of_none _ _ _ Hfb) in Hr. pose proof (room_max _ _ _ _ Hr Hroom) as Hlen.
  pose proof (ro_class _ _ _ _ Hr) as Hc. pose proof (bins_bound _ _ _ _ Hr). split.
  - destruct Hr as [? ? [] ? ? [] ? ?]. apply new_bin_eq; try done; lia.
  - eapply quiet_put; [exact Hok|exists r; split; [done|apply add_bin_shell]| |].
    + apply (thread_ok_put (thr s) a r _ Ha (add_bin_shell a r) zero); try done; [apply Hok|].
      change (rindex (add_bin a r)) with (rindex r). rewrite (cur_of_none _ _ _ Hfb). by apply add_bin_ok.
    + intros p. rewrite (live_split _ a (add_bin a r)), (live_split (thr s) a r) by (done || apply lookup_insert_eq).
      change (rindex (add_bin a r)) with (rindex r). change (cur_of (put_t _ _ _)) with (cur_of (thr s)).
      rewrite (cur_of_none _ _ _ Hfb), add_bin_live by done.
      rewrite (live_elsewhere_ext (thr s)); [done| |done]. intros a' Hne. tred. by rewrite lookup_insert_ne.
Qed.

(** A region without active bins and without room leaves the active regions. *)
Definition filled (s : state) (a : Z) (r : Region) : state :=
  set_thr s (set_active (put_t (thr s) a (set_rflags r true (rempty r) (rthread r))) index
               (filter (λ y, y ≠ a) (activeRegions (thr s) index))).

Lemma fill_quiet s a r :
  searching s → regions (thr s) !! a = Some r → rindex r = index → activebins r = [] →
  rend r < rfreearea r + binsize index →
  quiet_step O s (filled s a r) zero ∧ searching (filled s a r).
Proof using.
  intros [[Ht Hg] Hsm Hfb] Ha Hi Hact Hroom. set (r' := set_rflags r true (rempty r) (rthread r)).
  pose proof (flags_shell r true (rempty r)) as Hsh. pose proof (to_regions _ _ Ht a r Ha) as Hr.
  assert (state_ok O (filled s a r) zero) as Hok'.
  { split.
    - destruct Ht. constructor.
      + apply (regions_ok_put (thr s) a r' zero zero); [done| |done]. apply region_ok_flags; [exact Hr|by rewrite Hi|apply Hr].
      + intros j. destruct (to_active j) as [Hn Hin]. unfold filled. tred. destruct (decide (j = index)) as [->|Hj].
        * rewrite upd_eq. split; [by apply NoDup_filter|]. intros a'. rewrite elem_erase, Hin.
          destruct (decide (a' = a)) as [->|Hne]; [|rewrite lookup_insert_ne by done; tauto].
          rewrite lookup_insert_eq. cbn. naive_solver.
        * rewrite upd_ne by done. split; [done|]. intros a'. rewrite Hin.
          destruct (decide (a' = a)) as [->|Hne]; [|by rewrite lookup_insert_ne].
          rewrite lookup_insert_eq, Ha. cbn. naive_solver.
      + by apply (empty_ok_put (thr s) a r r').
      + by apply (all_ok_put (thr s) a r).
      + by apply (disj_ok_put (thr s) a r r').
      + by apply (fast_ok_put (thr s) a r r').
    - apply (globals_ok_put (thr s) a r _ Ha Hsh) in Hg. by destruct Hg. }
  split; [apply quiet_intro; [done| | |done]|by constructor].
  - intros p. by apply live_flags.
  - intros a' r1 r2. by apply (index_put _ a r).
Qed.

(** ** The loop *)

Inductive medium_result (s : state) : option Z * state → Prop :=
  | medium_block p s' a i :
      handed O s s' p index zero → fast (thr s') = fast (thr s) → glob s' = glob s →
      (∃ r x, regions (thr s') !! a = Some r ∧ rbins r !! i = Some x ∧ rindex r = index ∧ i ∈ activebins r) →
      medium_result s (Some p, set_current s' index (Some (a, i)))
  | medium_none s' :
      quiet_step O s s' zero → searching s' → fast (thr s') = fast (thr s) → glob s' = glob s →
      activeRegions (thr s') index = [] → medium_result s (None, s').

Lemma medium_quiet s s1 res :
  quiet_step O s s1 zero → fast (thr s1) = fast (thr s) → glob s1 = glob s →
  medium_result s1 res → medium_result s res.
Proof using.
  intros Hq Ef Eg [p s' a i Hh Ef' Eg' Hr|s' Hq' ? Ef' Eg' Hn].
  - eapply medium_block; [by eapply quiet_handed|congruence..|done].
  - eapply medium_none; [by eapply quiet_trans|done|congruence..|done].
Qed.

Lemma medium_of_round s a i r res s' :
  round O s a i r None (Some res, s') → rindex r = index → medium_result s (Some res, s').
Proof using.
  intros Hr Hi. inversion Hr as [p s1 area e Hh Hbf|]; subst. rewrite Hi in *. destruct Hbf as [? ? ? (r1 & x1 & ?)].
  eapply medium_block; try done. exists r1, x1. naive_solver.
Qed.

(** Only region [a] changed, and lost a bin. *)
Lemma fuel_region s s' a rest r r' :
  regions (thr s) !! a = Some r → regions (thr s') = <[a := r']> (regions (thr s)) →
  activeRegions (thr s) index = a :: rest → NoDup (a :: rest) →
  activeRegions (thr s') index = a :: rest →
  (length (activebins r') < length (activebins r) → medium_fuel s' index < medium_fuel s index)%nat.
Proof using.
  intros Ha Er E1 Hn E2 Hlt. unfold medium_fuel. rewrite E1, E2, Er. apply sum_less.
  - by rewrite lookup_insert_eq, Ha, <- Nat.add_lt_mono_r.
  - intros a' Ha'. rewrite lookup_insert_ne; [done|]. intros ->. by apply NoDup_cons in Hn as [Hn _].
Qed.

(** The first active region. *)
Lemma active_head s a rest :
  searching s → activeRegions (thr s) index = a :: rest →
  ∃ r, regions (thr s) !! a = Some r ∧ rindex r = index ∧ rfull r = false ∧ NoDup (a :: rest).
Proof using.
  intros Hs E. destruct (to_active _ _ (proj1 (se_ok _ Hs)) index) as [Hn Hin]. rewrite E in *.
  destruct (Hin a) as [Hin' _]. specialize (Hin' ltac:(set_solver)). apply fmap_Some in Hin' as (r & ? & ?).
  exists r. naive_solver.
Qed.

(** The new bin gives the block. *)
Lemma medium_new_bin fuel s a r :
  searching s → regions (thr s) !! a = Some r → rindex r = index → rfull r = false → activebins r = [] →
  rfreearea r + binsize index ≤ rend r →
  ∃ res, medium_loop (S fuel) (set_current (put_region s a (add_bin a r)) index (Some (a, length (rbins r)))) a index
           (nbytes index) = Ok res ∧ medium_result s res.
Proof using.
  intros Hs Ha Hi Hfull Hact Hroom. destruct (add_bin_quiet s a r Hs Ha Hi Hfull Hroom) as [_ Hq].
  pose proof (to_regions _ _ (proj1 (se_ok _ Hs)) a r Ha) as Hr. pose proof (ro_class _ _ _ _ Hr) as Hcl.
  set (s1 := put_region s a (add_bin a r)) in *. set (i := length (rbins r)).
  assert (regions (thr s1) !! a = Some (add_bin a r)) as Ha1 by apply lookup_insert_eq.
  destruct (alloc_from_bin_ok O s1 a i (add_bin a r) (fresh_bin a (rindex r) i) (Some (a, i)))
    as ([rv s2] & E & Hround & Hsome).
  - apply Hq.
  - intros j. apply (se_small _ Hs).
  - change (rindex (add_bin a r)) with (rindex r). rewrite Hi. apply Hs.
  - done.
  - unfold add_bin, i. tred. by rewrite list_lookup_middle.
  - unfold add_bin, i. tred. set_solver.
  - done.
  - change (rindex (add_bin a r)) with (rindex r) in *. rewrite Hi in *.
    destruct Hsome as [p Ep]. { cbn [fresh_bin bfreearea bend]. unfold binsize. lia. } cbn in Ep. subst rv.
    exists (Some p, s2). cbn [medium_loop]. rewrite get_region_current. unfold get_region. rewrite Ha1. cbn [of_option obind].
    unfold add_bin at 1. tred. rewrite Hact. cbn [app]. fold i. rewrite E. cbn [obind]. split; [done|].
    apply (medium_quiet s s1); try done.
    inversion Hround as [p' s' area e Hh Hbf|]; subst. destruct Hbf as [? ? ? (r1 & x1 & ?)].
    change (rindex (add_bin a r)) with (rindex r) in *. rewrite Hi in *.
    eapply medium_block; try done. exists r1, x1. naive_solver.
Qed.

Lemma fuel_filled s a rest r :
  regions (thr s) !! a = Some r → activeRegions (thr s) index = a :: rest → NoDup (a :: rest) →
  (medium_fuel (filled s a r) index < medium_fuel s index)%nat.
Proof using All.
  intros Ha E [Hn _]%NoDup_cons. unfold medium_fuel. unfold filled at 2. tred. rewrite upd_eq, E, sum_list_tail, Ha.
  rewrite filter_cons_False, filter_id by (tauto || (apply Forall_forall; intros y Hy ->; apply Hn; by apply list_elem_of_In)).
  apply -> Nat.succ_lt_mono. eapply Nat.le_lt_trans; [apply Nat.eq_le_incl, sum_ext|apply Nat.lt_add_pos_l; lia].
  intros a' Ha'. unfold filled. tred. rewrite lookup_insert_ne; [done|]. by intros ->.
Qed.

Lemma medium_loop_ok fuel : ∀ s a rest,
  searching s → activeRegions (thr s) index = a :: rest → (medium_fuel s index ≤ fuel)%nat →
  ∃ res, medium_loop fuel s a index (nbytes index) = Ok res ∧ medium_result s res.
Proof using.
  induction fuel as [|fuel IH]; intros s a rest Hs Eact Hfuel; [unfold medium_fuel in Hfuel; lia|].
  destruct (active_head s a rest Hs Eact) as (r & Ha & Hi & Hfull & Hn).
  pose proof (to_regions _ _ (proj1 (se_ok _ Hs)) a r Ha) as Hr.
  cbn [medium_loop]. unfold get_region. rewrite Ha. cbn [of_option obind].
  destruct (activebins r) as [|i bins] eqn:Hbins.
  - rewrite (ro_shift _ _ _ _ Hr), Hi, lf_shift by (apply layout_ok; rewrite <- Hi; apply Hr).
    pose proof (area_bound _ _ _ _ Hr) as [Hab Hbs]. rewrite Hi in Hbs. unfold addr_max in Hab.
    rewrite u64_small by lia. destruct (Z.leb_spec (rfreearea r + binsize index) (rend r)) as [Hroom|Hroom].
    + destruct (add_bin_quiet s a r Hs Ha Hi Hfull Hroom) as [-> _]. cbn [obind].
      unfold add_bin at 2. tred. rewrite length_app. cbn [length]. rewrite Nat.add_sub.
      assert (2 ≤ fuel)%nat as Hf.
      { unfold medium_fuel in Hfuel. rewrite Eact, sum_list_tail, Ha in Hfuel. lia. }
      destruct fuel as [|fuel]; [lia|]. by apply medium_new_bin.
    + tred. rewrite list_erase_ok by (rewrite Eact; set_solver). cbn [obind].
      destruct (fill_quiet s a r Hs Ha Hi Hbins Hroom) as [Hq Hs'].
      change (set_thr (put_region s a _) _) with (filled s a r).
      assert (activeRegions (thr (filled s a r)) index = filter (λ y, y ≠ a) (activeRegions (thr s) index)) as El
        by (unfold filled; tred; apply upd_eq).
      rewrite <- El. destruct (activeRegions (thr (filled s a r)) index) as [|a' rest'] eqn:El'.
      * eexists. split; [reflexivity|]. by apply medium_none.
      * destruct (IH (filled s a r) a' rest') as (res & E & Hres); [done..| |].
        -- pose proof (fuel_filled s a rest r Ha Eact Hn). lia.
        -- exists res. split; [exact E|]. by apply (medium_quiet s (filled s a r)).
  - assert (∃ x, rbins r !! i = Some x) as [x Hx].
    { apply lookup_lt_is_Some. eapply (active_lt _ _ _ _ _ Hr). rewrite Hbins. set_solver. }
    destruct (alloc_from_bin_ok O s a i r x None) as ([rv s1] & E & Hround & _); try done; try apply Hs.
    { rewrite Hi. apply Hs. } { rewrite Hbins. set_solver. }
    rewrite Hi, (set_current_id s index None) in E by (apply Hs). rewrite E. cbn [obind]. destruct rv as [p|].
    { eexists. split; [reflexivity|]. by eapply medium_of_round. }
    inversion Hround as [|s' r' Hq Hrf Ebins Ei Ef]; subst. destruct Hrf as [Efast Eact' Eglob Ereg Esmall].
    rewrite Hi, set_current_id by (rewrite Efast; apply Hs).
    destruct (IH s' a rest) as (res & E' & Hres).
    + constructor; [apply Hq|apply Esmall, Hs|rewrite Efast; apply Hs].
    + by rewrite Eact'.
    + enough (medium_fuel s' index < medium_fuel s index)%nat by lia.
      apply (fuel_region s s' a rest r r'); try done; [by rewrite Eact'|]. rewrite Ebins.
      rewrite (erase_length i (activebins r)); [lia| |rewrite Hbins; set_solver]. apply (active_NoDup _ _ _ _ Hr).
    + exists res. split; [done|]. by apply (medium_quiet s s').
Qed.
End medium.

(** ** A bin becomes the current one *)

Section fast_view.
Context (t : Thread) (f' : FastThread) (d : Z → nat → Z) (Ht : thread_ok t d).

Let t' := set_fast t f'.
Context (Hview : ∀ a r j x, regions t !! a = Some r → rbins r !! j = Some x →
  area_of (cur_of t' a (rindex r)) j x = area_of (cur_of t a (rindex r)) j x ∧
  free_of (cur_of t' a (rindex r)) j x = free_of (cur_of t a (rindex r)) j x).

Lemma fast_view_ok :
  (∀ a r i b st, regions t !! a = Some r → cur_of t' a (rindex r) = Some (i, b, st) → i ∈ activebins r) →
  fast_ok t' → thread_ok t' d.
Proof using Ht Hview.
  intros Hcur Hf. destruct Ht. constructor; try done. intros a r Ha. specialize (to_regions a r Ha) as Hr.
  destruct Hr. constructor; try done.
  - intros j x Hx. destruct (Hview a r j x Ha Hx) as [-> ->]. auto.
  - intros i b st E. eauto.
Qed.

Lemma fast_view_live p : live t' p ↔ live t p.
Proof using Hview.
  split; intros (a & r & Ha & i & x & Hx & Hl); exists a, r; (split; [done|]); exists i, x; (split; [done|]);
    revert Hl; change (regions t') with (regions t) in Ha; destruct (Hview a r i x Ha Hx) as [E1 E2];
    unfold live_in; by rewrite E1, E2.
Qed.
End fast_view.

(** [moo_alloc2] after [moo_alloc_medium]: the slot is set up for the bin. *)
Definition attached (s : state) (index a : Z) (i : nat) (x : Bin) : state :=
  set_thr s (set_fast (thr s)
    (set_slot (set_fbin (fast (thr s)) index (Some (a, i))) index (mkSlot (bfreearea x) (bend x + 1) [] (nbytes index)))).

Lemma attach_ok O s index a i r x :
  state_ok O s zero → fbins (fast (thr s)) index = None → regions (thr s) !! a = Some r → rindex r = index →
  rbins r !! i = Some x → i ∈ activebins r → quiet_step O s (attached s index a i x) zero.
Proof.
  intros [Ht Hg] Hfb Ha Hi Hx Hact. destruct (to_fast _ _ Ht index) as [Hfl Hst]. rewrite Hfb in Hst. destruct Hst as [Hst _].
  set (f' := set_slot (set_fbin (fast (thr s)) index (Some (a, i))) index (mkSlot (bfreearea x) (bend x + 1) [] (nbytes index))).
  assert (∀ a' j, cur_of (set_fast (thr s) f') a' j =
     if decide ((a', j) = (a, index)) then Some (i, bfreearea x, []) else cur_of (thr s) a' j) as Hcur.
  { intros a' j. unfold cur_of, f'. tred. destruct (decide (j = index)) as [->|Hj].
    - rewrite !upd_eq, Hfb. destruct (Z.eqb_spec a a') as [->|Hne].
      + rewrite decide_True by done. cbn. by rewrite Hst.
      + rewrite decide_False by congruence. done.
    - rewrite !upd_ne by done. rewrite decide_False by congruence. done. }
  assert (∀ a' r' j y, regions (thr s) !! a' = Some r' → rbins r' !! j = Some y →
    area_of (cur_of (set_fast (thr s) f') a' (rindex r')) j y = area_of (cur_of (thr s) a' (rindex r')) j y ∧
    free_of (cur_of (set_fast (thr s) f') a' (rindex r')) j y = free_of (cur_of (thr s) a' (rindex r')) j y) as Hview.
  { intros a' r' j y Ha' Hy. rewrite Hcur. destruct (decide _) as [E|]; [|done]. simplify_eq.
    rewrite (cur_of_none _ _ _ Hfb). cbn. destruct (decide (j = i)) as [->|]; [|done]. simplify_eq. by rewrite app_nil_r. }
  apply quiet_intro; [split| |intros a' r1 r2; apply index_same|done].
  - apply fast_view_ok; [done|done| |].
    + intros a' r' i' b st Ha'. rewrite Hcur. destruct (decide _) as [E|]; [intros [= <- <- <-]; naive_solver|].
      apply (ro_cur _ _ _ _ (to_regions _ _ Ht a' r' Ha')).
    + intros j. unfold f'. tred. destruct (decide (j = index)) as [->|Hj].
      * rewrite !upd_eq. tred. rewrite Ha. cbn. rewrite Hx. cbn. split; [done|]. split; [|done]. do 2 f_equal; [done|].
        f_equal. lia.
      * rewrite !upd_ne by done. exact (to_fast _ _ Ht j).
  - destruct Hg. by constructor.
  - apply fast_view_live, Hview.
Qed.

(** ** The current bin is exhausted *)

Section retire.
Context (O : Z → Prop) (s : state) (a : Z) (i : nat) (r : Region) (x : Bin).
Context (Hok : state_ok O s zero) (Ha : regions (thr s) !! a = Some r) (Hx : rbins r !! i = Some x).
Context (Hfb : fbins (fast (thr s)) (rindex r) = Some (a, i)).
Context (Hst : stack (fast (thr s)) (rindex r) = []) (Hfl : freelist x = []).
Context (Hend : slot_end (slots (fast (thr s)) (rindex r)) ≤
  u64 (bump (slots (fast (thr s)) (rindex r)) + slotSize (slots (fast (thr s)) (rindex r)))).

Let sl := slots (fast (thr s)) (rindex r).
Let x' := set_bin_flags (set_bin_free x [] (remainingFrees x) (bump sl)) true false true.
Let f' := set_fbin (fast (thr s)) (rindex r) None.
Let t' := put_t (set_fast (thr s) f') a (demote r i x').

Lemma retire_cur :
  cur_of (thr s) a (rindex r) = Some (i, bump sl, []) ∧
  ∀ a' j, cur_of (set_fast (thr s) f') a' j = if decide (j = rindex r) then None else cur_of (thr s) a' j.
Proof using Hfb Hst.
  split; [unfold cur_of; by rewrite Hfb, Z.eqb_refl, Hst|]. intros a' j. unfold cur_of, f'. tred.
  destruct (decide _) as [->|Hj]; [by rewrite upd_eq|by rewrite upd_ne].
Qed.

Lemma retire_facts : bump sl = bend x ∧ i ∈ activebins r ∧ rfull r = false.
Proof using All.
  destruct Hok as [Ht _]. pose proof (to_regions _ _ Ht a r Ha) as Hr. pose proof (ro_bins _ _ _ _ Hr i x Hx) as Hb.
  rewrite (proj1 retire_cur) in Hb. cbn in Hb. rewrite !decide_True in Hb by done.
  destruct (to_fast _ _ Ht (rindex r)) as [_ Hf]. rewrite Hfb, Ha in Hf. cbn in Hf. rewrite Hx in Hf. cbn in Hf.
  destruct Hf as [Hf Hsz]. injection Hf as Hf. fold sl in Hf, Hsz, Hend. rewrite Hsz in Hend.
  assert (i ∈ activebins r) as Hact by (eapply (ro_cur _ _ _ _ Hr), retire_cur).
  destruct (bo_area _ _ _ _ _ _ Hb) as [Hs Hle]. apply (slot_ge _ (ro_class _ _ _ _ Hr)) in Hs.
  destruct (bin_bounds _ _ _ _ _ _ Hr Hx) as (? & ? & ? & ?). unfold addr_max in *.
  pose proof (nbytes_pos _ (ro_class _ _ _ _ Hr)). rewrite u64_small in Hend by lia.
  split; [|split; [done|]].
  - apply (area_full _ _ _ _ _ _ (ro_class _ _ _ _ Hr) Hb). lia.
  - destruct (rfull r) eqn:E; [|done]. destruct (ro_full _ _ _ _ Hr E) as [E' _]. rewrite E' in Hact. set_solver.
Qed.

Lemma retire_region : region_ok a (demote r i x') None (zero a).
Proof using All.
  destruct retire_facts as (Hbump & Hact & Hfull). destruct retire_cur as [Hcur _].
  destruct Hok as [Ht _]. pose proof (to_regions _ _ Ht a r Ha) as Hr. rewrite Hcur in Hr.
  pose proof (ro_bins _ _ _ _ Hr i x Hx) as Hb. cbn in Hb. rewrite !decide_True, Hfl in Hb by done. cbn [app] in Hb.
  apply (demote_ok a r _ _ i x x' Hr Hx); try done.
  - destruct Hb. by constructor.
  - intros j y Hj. cbn. by rewrite !decide_False.
Qed.

Lemma retire_ok : quiet_step O s (set_thr s t') zero.
Proof using All.
  pose proof retire_region as Hr'. destruct retire_cur as [Hcur Hcur']. destruct Hok as [Ht Hg].
  assert (same_shell r (demote r i x')) as Hsh by (by apply (demote_shell r i x)).
  assert (∀ a' r0, a' ≠ a → regions (thr s) !! a' = Some r0 →
    cur_of (set_fast (thr s) f') a' (rindex r0) = cur_of (thr s) a' (rindex r0)) as Hoth.
  { intros a' r0 Hne _. rewrite Hcur'. destruct (decide _) as [->|]; [|done]. unfold cur_of. rewrite Hfb.
    by rewrite (proj2 (Z.eqb_neq _ _)) by congruence. }
  apply quiet_intro; [split| |intros a' r1 r2; by apply (index_put _ a r)|done].
  - destruct Ht. constructor.
    + intros a' r0 Ha'. change (cur_of (thr (set_thr s t'))) with (cur_of (set_fast (thr s) f')).
      revert Ha'. unfold t', put_t. tred. rewrite lookup_insert_Some. intros [[<- <-]|[Hne Ha']].
      * change (rindex (demote r i x')) with (rindex r). rewrite Hcur', decide_True by done. exact Hr'.
      * rewrite Hoth by done. by apply to_regions.
    + by apply (active_ok_put (set_fast (thr s) f') a r).
    + by apply (empty_ok_put (set_fast (thr s) f') a r).
    + by apply (all_ok_put (set_fast (thr s) f') a r).
    + by apply (disj_ok_put (set_fast (thr s) f') a r).
    + apply (fast_ok_put (set_fast (thr s) f') a r _ Ha Hsh). intros j. unfold f'. tred.
      destruct (decide (j = rindex r)) as [->|Hj]; [|rewrite upd_ne by done; exact (to_fast j)].
      rewrite upd_eq. split; [apply to_fast|done].
  - apply (globals_ok_put (set_fast (thr s) f') a r _ Ha Hsh). destruct Hg. by constructor.
  - intros p. apply lookup_lt_Some in Hx as Hlen. tred.
    rewrite (live_at t' a (demote r i x') i x'), (live_at (thr s) a r i x)
      by (done || apply lookup_insert_eq || by apply list_lookup_insert_eq).
    assert (cur_of t' a (rindex r) = None) as Hcur1 by (etrans; [apply Hcur'|by rewrite decide_True]).
    rewrite (live_other_ext (thr s) t' a r); try done.
    + unfold view_live. change (rindex (demote r i x')) with (rindex r). rewrite Hcur1, Hcur. cbn.
      rewrite !decide_True, Hfl by done. done.
    + intros a' Hne. unfold t', put_t. tred. by rewrite lookup_insert_ne.
    + intros j Hj. unfold demote. tred. by apply list_lookup_insert_ne.
    + intros j y Hj. rewrite Hcur1, Hcur. cbn. by rewrite !decide_False.
Qed.

Lemma idle_bound cur d : region_ok a r cur d → 0 ≤ numIdleBins r < 2 ^ 15.
Proof using.
  intros Hr. rewrite (ro_idle_num _ _ _ _ Hr). pose proof (ro_lists _ _ _ _ Hr) as Hl.
  apply Permutation_length in Hl. rewrite length_app, length_seq in Hl.
  destruct (ro_bins_len _ _ _ _ Hr). pose proof (lf_bins _ (layout_ok _ (ro_class _ _ _ _ Hr))). lia.
Qed.

Lemma retire_bin_ok :
  ∃ s', retire_bin s (a, i) (rindex r) = Ok s' ∧ quiet_step O s s' zero ∧
    fbins (fast (thr s')) (rindex r) = None ∧ emptyRegions (thr s') = emptyRegions (thr s) ∧ glob s' = glob s.
Proof using All.
  exists (set_thr s t'). split; [|split; [apply retire_ok|split; [apply upd_eq|done]]].
  destruct retire_facts as (_ & Hact & _). destruct Hok as [Ht _]. pose proof (to_regions _ _ Ht a r Ha) as Hr.
  pose proof (idle_bound _ _ Hr). destruct (to_fast _ _ Ht (rindex r)) as [Hsfl _].
  unfold retire_bin. rewrite (get_bin_eq s a i r x) by done. cbn [obind]. rewrite Hsfl, Hst, Hfl. cbn [push_all].
  replace (set_slot _ _ _) with (fast (thr s)).
  - rewrite (put_bin_eq _ a i r x) by done. cbn [obind fst snd]. unfold get_region. tred.
    rewrite lookup_insert_eq. tred. rewrite list_erase_ok by done. cbn [obind]. rewrite Z.mod_small by lia.
    rewrite put_region_put. done.
  - unfold set_slot, set_stack. tred. rewrite (upd_id (stack _)) by done.
    rewrite (upd_id (slots _)); [by destruct (fast (thr s))|].
    destruct (slots (fast (thr s)) (rindex r)). cbn in Hsfl |- *. congruence.
Qed.
End retire.
