(* ===== verification/MooMemoryFacts.v ===== *)
(** * New regions and newly mapped memory

    [initRegion] sets up a region in memory that was free; [allocate_memory]
    takes that memory from the spans, or maps more of it. *)

From Stdlib Require Import ZArith Lia.
From stdpp Require Import base gmap option list.
From S2P Require Import Prelude Moo MooSpanFacts MooFacts MooAllocFacts MooMediumFacts.

Local Set Warnings "-clear-no-such-hyp".

(** ** The layout that [initRegion] computes *)

Lemma ldiff_pow2 x k : 0 ≤ k → Z.ldiff x (2 ^ k - 1) = x / 2 ^ k * 2 ^ k.
Proof.
  intros Hk. replace (2 ^ k - 1) with (Z.ones k) by (rewrite Z.ones_equiv; lia).
  by rewrite Z.ldiff_ones_r, Z.shiftl_mul_pow2, Z.shiftr_div_pow2.
Qed.

Lemma align_pow index : class_ok index → ∃ k, 0 ≤ k ≤ 12 ∧ Z.min 4096 (nbytes index) = 2 ^ k.
Proof.
  intros Hc. unfold class_ok in Hc. unfold nbytes. change 4096 with (2 ^ 12).
  destruct (decide (64 - index ≤ 12)) as [Hle|Hle].
  - exists (64 - index). split; [lia|]. apply Z.min_r, Z.pow_le_mono_r; lia.
  - exists 12. split; [lia|]. apply Z.min_l, Z.pow_le_mono_r; lia.
Qed.

Lemma data_area a index : class_ok index → endpoint a →
  Z.ldiff (u64 (a + sizeof_Region + sizeof_Bin * num_bins index + Z.min 4096 (nbytes index) - 1))
    (Z.min 4096 (nbytes index) - 1) = a + data_off index.
Proof.
  intros Hc [Hal Ha]. destruct (align_pow _ Hc) as (k & Hk & E). destruct (layout_ok _ Hc). unfold data_off, align_to in *.
  rewrite E in *. assert (0 < 2 ^ k ≤ 2 ^ 12) by (split; [lia|apply Z.pow_le_mono_r; lia]).
  assert (0 ≤ num_bins index < 2 ^ 40).
  { split; [lia|]. unfold num_bins. apply Z.div_lt_upper_bound; [apply binsize_pos|].
    unfold binsize, standardBinSize, sizeof_Region in *. lia. }
  unfold sizeof_Region, sizeof_Bin, addr_max in *. rewrite u64_small by lia. rewrite ldiff_pow2 by lia.
  apply aligned_mult in Hal as [n ->]. replace alignment with (2 ^ (21 - k) * 2 ^ k)
    by (rewrite <- Z.pow_add_r by lia; by replace (21 - k + k) with 21 by lia).
  replace (_ - 1) with (192 + 64 * num_bins index + 2 ^ k - 1 + (n * 2 ^ (21 - k)) * 2 ^ k) by ring.
  rewrite Z.div_add by lia. ring.
Qed.

(** The region before its first bin, and with it. *)
Definition bare_region (a index : Z) : Region :=
  mkRegion (a + data_off index) (Z.log2 (binsize index)) index false false true [] [] [] 0
    (Z.max (num_bins index / 8) 1 mod 2 ^ 16) 0 0 (a + sizeof_Region) (a + data_off index) (a + region_bytes index).

Definition first_region (a index : Z) : Region := add_bin a (bare_region a index).

Lemma first_bin_eq a index : class_ok index → endpoint a → a + region_bytes index ≤ addr_max →
  new_bin a (bare_region a index) index (nbytes index) (binsize index) = Ok (first_region a index).
Proof.
  intros Hc Ha He. destruct (layout_ok _ Hc).
  apply (new_bin_eq a (bare_region a index)); cbn [bare_region rindex rend rfreearea freebinarea rbins length
    numCreatedBins numEmptyBins]; try done; lia.
Qed.

Lemma first_region_ok a index : class_ok index → endpoint a → a + region_bytes index ≤ addr_max →
  region_ok a (first_region a index) None (λ _, 0).
Proof.
  intros Hc Ha He. destruct (layout_ok _ Hc).
  constructor; unfold first_region, add_bin; cbn [bare_region databegin binshift rindex rfull rempty rthread rbins
    activebins idlebins numIdleBins minIdleBins numCreatedBins numEmptyBins freebinarea rfreearea rend length app];
    try done; try lia.
  - intros [|[|i]] x; cbn; [|done..]. intros [= <-]. cbn. set_solver.
  - intros [|[|i]] x; cbn [lookup list_lookup]; [|done..]. intros [= <-]. by apply fresh_bin_ok.
Qed.

Lemma first_region_dead a index p : class_ok index → ¬ region_live a (first_region a index) None p.
Proof.
  intros Hc. unfold first_region. rewrite add_bin_live by done. intros (i & x & Hx & _). done.
Qed.

Definition with_region (s : state) (a index : Z) : state :=
  set_thr s (set_regions (set_all (set_active (thr s) index (a :: activeRegions (thr s) index)) (allRegions (thr s) ++ [a]))
    (<[a := first_region a index]> (regions (thr s)))).

Lemma initRegion_eq s a index : class_ok index → endpoint a → a + region_bytes index ≤ addr_max →
  initRegion s a (a + region_bytes index) index (nbytes index) = Ok (with_region s a index).
Proof.
  intros Hc Ha He. destruct (layout_ok _ Hc). unfold initRegion. fold (binsize index).
  pose proof (binsize_pos index). pose proof Ha as [_ Ha'].
  assert (max_bins index * binsize index ≤ region_bytes index - data_off index).
  { unfold max_bins. rewrite Z.mul_comm. apply Z.mul_div_le. lia. }
  assert (1 * binsize index ≤ max_bins index * binsize index) by (apply Z.mul_le_mono_nonneg_r; lia).
  assert (0 ≤ sizeof_Bin * num_bins index) by (unfold sizeof_Bin; lia).
  rewrite lf_shift. unfold addr_max in *.
  replace (u64 (a + sizeof_Region)) with (a + sizeof_Region) by (rewrite u64_small; unfold sizeof_Region in *; lia).
  replace (u64 (a + region_bytes index - (a + sizeof_Region)) / binsize index) with (num_bins index)
    by (unfold num_bins; f_equal; rewrite u64_small; unfold sizeof_Region in *; lia).
  replace (u64 (a + sizeof_Region + sizeof_Bin * num_bins index)) with (a + sizeof_Region + sizeof_Bin * num_bins index)
    by (rewrite u64_small; unfold sizeof_Region in *; lia).
  rewrite data_area by done. rewrite !u64_small by (unfold sizeof_Region in *; lia).
  rewrite Z.geb_leb, (proj2 (Z.leb_le _ _)) by lia. cbn [CHECK obind].
  rewrite (proj2 (Z.leb_le _ _)) by lia. rewrite lf_cap, Z.eqb_refl. cbn [CHECK obind].
  fold (bare_region a index). rewrite first_bin_eq by done. done.
Qed.

(** ** A new region of the thread *)

Section new_region.
Context (O : Z → Prop) (s : state) (a index : Z) (sp' : list Span).
Context (Hok : state_ok O s zero) (Hc : class_ok index) (Ha : endpoint a) (He : a + region_bytes index ≤ addr_max).
Context (Hsp' : spans_ok sp' ∧ endpoints sp').
Context (Hin : ∀ x, a ≤ x < a + region_bytes index → covers (spans (glob s)) x).
Context (Hcov : ∀ x, covers sp' x ↔ covers (spans (glob s)) x ∧ ¬ (a ≤ x < a + region_bytes index)).

Let r := first_region a index.
Let s' := with_region (set_glob s (set_spans (glob s) sp')) a index.

Lemma new_region_none : regions (thr s) !! a = None.
Proof using Hok Hc Hin.
  destruct (regions (thr s) !! a) as [r0|] eqn:E; [|done]. exfalso. destruct Hok as [Ht Hg].
  pose proof (to_regions _ _ Ht a r0 E) as Hr. pose proof (lf_bytes_pos _ (layout_ok _ (ro_class _ _ _ _ Hr))).
  pose proof (lf_bytes_pos _ (layout_ok _ Hc)). destruct (go_free _ _ _ Hg a) as [Hno _]; [apply Hin; lia|].
  apply Hno. exists a, r0. rewrite (proj1 (ro_end _ _ _ _ Hr)). split; [done|lia].
Qed.

Lemma new_region_cur a' j : cur_of (thr s') a' j = cur_of (thr s) a' j.
Proof using. done. Qed.

Lemma new_region_cur_a j : cur_of (thr s) a j = None.
Proof using All.
  unfold cur_of. destruct (fbins (fast (thr s)) j) as [[a' i]|] eqn:E; [|done].
  destruct (Z.eqb_spec a' a) as [->|]; [|done]. exfalso. destruct (to_fast _ _ (proj1 Hok) j) as [_ Hf].
  rewrite E, new_region_none in Hf. naive_solver.
Qed.

Lemma new_region_extent a' x :
  extent (thr s') a' x ↔ extent (thr s) a' x ∨ (a' = a ∧ a ≤ x < a + region_bytes index).
Proof using All.
  pose proof new_region_none as Hnone. unfold extent, s', with_region. tred. split.
  - intros (r0 & Ha' & Hx). apply lookup_insert_Some in Ha' as [[<- <-]|[Hne Ha']]; [right; done|left; eauto].
  - intros [(r0 & Ha' & Hx)|[-> Hx]].
    + exists r0. rewrite lookup_insert_ne; [done|]. intros ->. by rewrite Hnone in Ha'.
    + exists r. rewrite lookup_insert_eq. done.
Qed.

Lemma new_region_own x : own (thr s') x ↔ own (thr s) x ∨ a ≤ x < a + region_bytes index.
Proof using All.
  unfold own. setoid_rewrite new_region_extent. naive_solver.
Qed.

Lemma new_region_thread : thread_ok (thr s') zero.
Proof using All.
  pose proof new_region_none as Hnone. pose proof Hok as [[] Hg].
  assert (∀ a', regions (thr s') !! a' = if decide (a' = a) then Some r else regions (thr s) !! a') as Hreg.
  { intros a'. unfold s', with_region. tred. destruct (decide _) as [->|]; [apply lookup_insert_eq|by rewrite lookup_insert_ne]. }
  constructor.
  - intros a' r0. rewrite Hreg, new_region_cur. destruct (decide _) as [->|]; [|by apply to_regions].
    intros [= <-]. rewrite new_region_cur_a. by apply first_region_ok.
  - intros j. destruct (to_active j) as [Hn Hact]. setoid_rewrite Hreg. unfold s', with_region. tred.
    destruct (decide (j = index)) as [->|Hj].
    + rewrite upd_eq. split; [constructor; [rewrite Hact, Hnone; done|done]|]. intros a'. rewrite elem_of_cons, Hact.
      destruct (decide _) as [->|]; [|naive_solver]. cbn. naive_solver.
    + rewrite upd_ne by done. split; [done|]. intros a'. rewrite Hact. destruct (decide _) as [->|]; [|done].
      rewrite Hnone. cbn. naive_solver.
  - intros j. destruct (to_empty j) as (Hn & Hnum & Hemp). setoid_rewrite Hreg. split; [done|]. split; [done|].
    intros a'. change (emptyRegions (thr s') j) with (emptyRegions (thr s) j). rewrite Hemp.
    destruct (decide _) as [->|]; [|done]. rewrite Hnone. cbn. naive_solver.
  - destruct to_all as [Hn Hall]. split.
    + apply NoDup_app. split; [done|]. split; [|apply NoDup_singleton]. intros a' Hin' ->%list_elem_of_singleton.
      apply Hall in Hin'. rewrite Hnone in Hin'. by destruct Hin'.
    + intros a'. rewrite Hreg. unfold s', with_region. tred. rewrite elem_of_app, list_elem_of_singleton, Hall.
      destruct (decide _); naive_solver.
  - intros a1 a2 x. rewrite !new_region_extent. intros [H1|[-> H1]] [H2|[-> H2]]; [by eapply to_disj| | |done].
    + exfalso. destruct (go_free _ _ _ Hg x) as [Hno _]; [auto|]. apply Hno. by exists a1.
    + exfalso. destruct (go_free _ _ _ Hg x) as [Hno _]; [auto|]. apply Hno. by exists a2.
  - intros j. destruct (to_fast j) as [Hfl Hf]. split; [done|].
    change (fast (thr s')) with (fast (thr s)). destruct (fbins (fast (thr s)) j) as [[a' i]|]; [|done].
    rewrite Hreg. destruct (decide _) as [->|]; [|done]. rewrite Hnone in Hf. naive_solver.
Qed.

Lemma new_region_ok : quiet_step O s s' zero.
Proof using All.
  pose proof new_region_none as Hnone.   pose proof Hok as [Ht [Hs Hm Hf Hown Hall Hsn]]. apply quiet_intro; [split; [apply new_region_thread|]| | |done].
  - constructor; try done.
    + intros x. rewrite new_region_own. unfold s', with_region. tred. rewrite Hcov. intros [Hx Hn].
      destruct (Hf x Hx). naive_solver.
    + intros x. rewrite new_region_own. intros [Hx|Hx]; [auto|]. by apply Hf, Hin.
    + intros x. rewrite new_region_own. unfold s', with_region. tred. rewrite Hcov. intros Hx. apply Hall. naive_solver.
  - intros p. rewrite (live_split (thr s') a r) by apply lookup_insert_eq. rewrite new_region_cur, new_region_cur_a.
    rewrite (live_elsewhere_ext (thr s)); [| |done].
    + split.
      * intros [(a' & r0 & _ & Ha' & Hl)|Hl]; [by exists a', r0|]. by apply first_region_dead in Hl.
      * intros (a' & r0 & Ha' & Hl). left. exists a', r0. split; [|done]. intros ->. by rewrite Hnone in Ha'.
    + intros a' Hne. unfold s', with_region. tred. by rewrite lookup_insert_ne.
  - intros a' r1 r2 Hr1. unfold s', with_region. tred. rewrite lookup_insert_Some. intros [[<- _]|[_ ?]]; congruence.
Qed.
End new_region.

(** ** Mapping memory *)

(** An interval that the spans cover lies in one of them. *)
Lemma covered_interval l b e :
  spans_ok l → b < e → (∀ x, b ≤ x < e → covers l x) → Exists (λ v, sbegin v ≤ b ∧ e ≤ send v) l.
Proof.
  intros Hl Hbe Hcov. destruct (proj1 (Exists_exists _ _) (Hcov b ltac:(lia))) as (v & Hv & Hb).
  apply Exists_exists. exists v. split; [done|]. split; [lia|].
  destruct (Z.le_gt_cases e (send v)) as [|Hlt]; [done|]. exfalso.
  destruct (proj1 (Exists_exists _ _) (Hcov (send v) ltac:(lia))) as (u & Hu & Hb').
  apply list_elem_of_lookup in Hv as [i Hi], Hu as [j Hj].
  destruct (lt_eq_lt_dec i j) as [[Hij| ->]|Hij]; [|simplify_eq; lia|].
  - pose proof (spans_from_lookup _ _ _ _ _ _ Hl Hi Hj Hij). lia.
  - pose proof (spans_from_lookup _ _ _ _ _ _ Hl Hj Hi Hij). lia.
Qed.

(** What [mmap] guarantees: memory in the address space of the process that is
    not mapped already. *)
Definition mmap_ok (mmap : Globals → Z → Z → option Z) : Prop :=
  ∀ g addr bytes rv, mmap g addr bytes = Some rv →
    0 < rv ∧ rv + bytes ≤ addr_max ∧ ∀ x, rv ≤ x < rv + bytes → ¬ covers (allMappedRegions g) x.

Section map_memory.
Context (mmap : Globals → Z → Z → option Z) (rngSeed : Z) (Hmmap : mmap_ok mmap).

(** The search for an address changes only the search. *)
Record same_maps (g g' : Globals) : Prop := {
  sm_spans : spans g' = spans g;
  sm_mapped : allMappedRegions g' = allMappedRegions g;
  sm_published : publishedRegions g' = publishedRegions g;
  sm_bytes : mmappedBytes g' = mmappedBytes g
}.

Definition new_range (g : Globals) (rv bytes : Z) : Prop :=
  0 < rv ∧ rv + bytes ≤ addr_max ∧ ∀ x, rv ≤ x < rv + bytes → ¬ covers (allMappedRegions g) x.

Lemma find_address_ok n : ∀ g addr bytes rv g',
  find_address mmap rngSeed n g addr bytes = (rv, g') →
  same_maps g g' ∧ ∀ a, rv = Some a → new_range g a bytes.
Proof using Hmmap.
  induction n as [|n IH]; intros g addr bytes rv g'; cbn [find_address]; [intros [= <- <-]; by split|].
  destruct (Z.eqb_spec addr 0) as [->|Hne].
  - unfold random_addr, rng. intros E. apply IH in E as [[] Hr]. split; [by constructor|exact Hr].
  - unfold call_mmap. destruct (mmap g addr bytes) as [a|] eqn:Em.
    + apply Hmmap in Em. destruct (negb _); unfold random_addr, rng; intros [= <- <-];
        (split; [by constructor|]); intros ? [= <-]; exact Em.
    + unfold random_addr, rng. intros E. apply IH in E as [[] Hr]. split; [by constructor|exact Hr].
Qed.

(** The aligned part of the new memory. *)
Lemma trim_ok rv bytes : 0 < rv → aligned bytes → alignment < bytes → rv + bytes ≤ addr_max →
  ∃ e, u64 (rv + bytes) / alignment * alignment = e ∧
  endpoint (round_up_alignment rv) ∧ endpoint e ∧ rv ≤ round_up_alignment rv ∧ e ≤ rv + bytes ∧
  bytes - alignment ≤ e - round_up_alignment rv.
Proof using.
  intros Hrv Hal Hb Hle. unfold addr_max in *. assert (alignment = 2097152) as Ea by reflexivity.
  destruct (round_up_spec rv) as (R1 & R2 & _); [lia|]. rewrite u64_small by lia.
  set (e := (rv + bytes) / alignment * alignment). exists e. split; [done|].
  pose proof (Z.div_mod (rv + bytes) alignment). pose proof (Z.mod_pos_bound (rv + bytes) alignment).
  assert (aligned e) as He by (apply aligned_mult; by eexists).
  assert (bytes - alignment ≤ e - round_up_alignment rv).
  { assert (rv + bytes - alignment < e) by (unfold e; lia). clearbody e.
    apply aligned_mult in R1 as [k R1], He as [j He], Hal as [n Hal]. rewrite R1, He, Hal, Ea in *. lia. }
  unfold endpoint, addr_max. repeat split; try done; unfold e in *; lia.
Qed.

Lemma map_bytes index mapped : class_ok index → 0 ≤ mapped < 2 ^ 64 →
  let bytes := Z.max alignment (u64 (alignment + regionSize + nbytes index * (if nbytes index <? alignment then 8 else 2))) in
  let bytes := round_up_alignment (Z.max bytes (round_up_alignment (mapped / 4))) in
  aligned bytes ∧ alignment + regionSize + nbytes index ≤ bytes.
Proof using.
  intros Hc Hm. destruct (layout_ok _ Hc). change regionSize with 192 in *. assert (alignment = 2097152) as Ea by reflexivity.
  assert (0 ≤ mapped / 4 < 2 ^ 62) by (split; [apply Z.div_pos; lia|apply Z.div_lt_upper_bound; lia]).
  destruct (round_up_spec (mapped / 4)) as (_ & R & _); [lia|]. cbn zeta.
  set (k := if nbytes index <? alignment then 8 else 2). assert (2 ≤ k ≤ 8) by (unfold k; destruct (_ <? _); lia).
  assert (nbytes index * 2 ≤ nbytes index * k ≤ nbytes index * 8) by (split; apply Z.mul_le_mono_nonneg_l; lia).
  rewrite u64_small by lia. set (b := Z.max (Z.max _ _) _). destruct (round_up_spec b) as (R1 & R2 & _); [lia|].
  split; [done|]. lia.
Qed.

(** The new memory is added to the free spans and to the mapped memory. *)
Lemma add_mapped O g t b e : globals_ok O g t → endpoint b → endpoint e → b < e →
  (∀ x, b ≤ x < e → ¬ covers (allMappedRegions g) x) →
  ∃ sp all, add_span (spans g) b e = Ok sp ∧ add_span (allMappedRegions g) b e = Ok all ∧
    span_added (spans g) b e sp ∧ ∀ na mb rs mm, 0 ≤ mb < 2 ^ 64 →
      globals_ok O (publishRegionSnapshot (mkGlobals sp all (publishedRegions g) na mb rs mm)) t.
Proof using.
  intros [[Hs1 Hs2] [Hm1 Hm2] Hf Ho Hall Hsn Hby] Hb He Hlt Hnew. pose proof Hb as [_ Hb'].
  destruct (add_span_spec (spans g) b e) as (sp & Esp & Hsp); [done|by apply endpoints_length|lia| |].
  { intros x Hx Hc. apply (Hnew x Hx). auto. }
  destruct (add_span_spec (allMappedRegions g) b e) as (all & Eall & Hal); [done|by apply endpoints_length|lia|done|].
  exists sp, all. split; [done|]. split; [done|]. split; [done|]. intros na mb rs mm Hmb.
  destruct Hsp as (? & Hcov & Hend), Hal as (? & Hcov' & Hend'). unfold publishRegionSnapshot. constructor; tred; try done.
  - split; [done|]. by apply Hend.
  - split; [done|]. by apply Hend'.
  - intros x [Hx|Hx]%Hcov; [auto|]. split; intros Hx'; apply (Hnew x Hx); auto.
  - intros x. rewrite Hcov, Hcov'. intros [[?|?]|[?|?]]; auto.
  - destruct all; [|done]. exfalso. apply (covers_nil b). apply Hcov'. right. lia.
Qed.

Lemma map_memory_ok O g t index : globals_ok O g t → class_ok index →
  map_memory mmap rngSeed g (nbytes index) = Throw BadAlloc ∨
  ∃ g', map_memory mmap rngSeed g (nbytes index) = Ok g' ∧ globals_ok O g' t ∧
    Exists (λ v, regionSize + nbytes index ≤ send v - sbegin v) (spans g').
Proof using Hmmap.
  intros Hg Hc. destruct (map_bytes index (mmappedBytes g) Hc (go_bytes _ _ _ Hg)) as [Hal Hbytes]. unfold map_memory.
  set (bytes := round_up_alignment _) in *. destruct (find_address _ _ _ _ _ _) as [rv g1] eqn:E1.
  apply find_address_ok in E1 as [Hsm Hnew].
  assert (∃ rv2 g2, (match rv with Some a => (Some a, g1) | None => call_mmap mmap g1 0 bytes end) = (rv2, g2) ∧
    same_maps g g2 ∧ ∀ a, rv2 = Some a → new_range g a bytes) as (rv2 & g2 & -> & Hsm2 & Hnew2).
  { destruct rv as [a|]; [by exists (Some a), g1|]. do 2 eexists. split; [reflexivity|]. destruct Hsm as [? Em ? ?].
    split; [by constructor|]. intros a Ea. unfold new_range. rewrite <- Em. by apply Hmmap in Ea. }
  destruct rv2 as [rv2|]; [right|by left]. destruct (Hnew2 rv2 eq_refl) as (Hrv & Hle & Hfresh).
  change regionSize with 192 in *. pose proof (nbytes_pos _ Hc).
  destruct (trim_ok rv2 bytes) as (e & -> & Hb & He & Hrb & Heb & Hlen); [done..|lia|done|].
  pose proof Hb as [_ Hb']. pose proof He as [_ He']. unfold addr_max in Hb', He'. rewrite !u64_small by lia.
  rewrite (proj2 (Z.gtb_lt _ _)) by lia. cbn [CHECK obind]. rewrite Zplus_minus.
  destruct (add_mapped O g t (round_up_alignment rv2) e) as (sp & all & Esp & Eall & Hadd & Hok); [done..|lia| |].
  { intros x Hx. apply Hfresh. lia. }
  destruct Hsm2 as [-> -> -> ->]. rewrite Esp, Eall. cbn [obind]. eexists. split; [reflexivity|].
  split; [apply Hok, Z.mod_pos_bound; lia|]. unfold publishRegionSnapshot. tred. destruct Hadd as (Hsp & Hcov & _).
  eapply Exists_impl; [apply (covered_interval sp (round_up_alignment rv2) e Hsp); [lia|]|cbn; lia].
  intros x Hx. apply Hcov. by right.
Qed.

Lemma class_bytes_nb index : class_ok index → class_bytes index = Ok (nbytes index).
Proof using.
  intros Hc. unfold class_ok in Hc. unfold class_bytes. by rewrite (proj2 (Z.ltb_lt _ _)), (proj2 (Z.leb_le _ _)) by lia.
Qed.

(** What a new region gives to the thread. *)
Record region_added (O : Z → Prop) (s s' : state) (index : Z) : Prop := {
  ra_quiet : quiet_step O s s' zero;
  ra_active : ∃ a, activeRegions (thr s') index = a :: activeRegions (thr s) index ∧
    regions (thr s') !! a = Some (first_region a index);
  ra_fast : fast (thr s') = fast (thr s);
  ra_empty : emptyRegions (thr s') = emptyRegions (thr s)
}.

(** Taking the memory of a region from the spans. *)
Lemma take_region O s index : state_ok O s zero → class_ok index →
  (take_span (spans (glob s)) (regionSize + nbytes index) (region_bytes index) = Ok None ∧
   Forall (λ v, send v - sbegin v < regionSize + nbytes index) (spans (glob s))) ∨
  ∃ a sp s', take_span (spans (glob s)) (regionSize + nbytes index) (region_bytes index) =
      Ok (Some (a, a + region_bytes index, sp)) ∧
    initRegion (set_glob s (set_spans (glob s) sp)) a (a + region_bytes index) index (nbytes index) = Ok s' ∧
    region_added O s s' index.
Proof using.
  intros Hok Hc. pose proof Hok as [_ Hg]. destruct (layout_ok _ Hc).
  destruct (take_span_spec (-1) (spans (glob s)) (regionSize + nbytes index) (region_bytes index)) as
    [?|(a & sp & E & Ha & _ & Hsp & Hend & Hin & Hcov)]; try apply Hg; try done; [|lia| |by left|].
  - change regionSize with 192. lia.
  - intros y Hy Hle. change regionSize with 192 in *. unfold region_bytes.
    destruct (round_up_spec (192 + nbytes index)) as (_ & _ & R); [lia|]. apply Z.max_lub; [|by apply R].
    apply aligned_mult in Hy as [k ->]. assert (0 < k) by (unfold alignment in Hle; lia). unfold alignment. lia.
  - right. exists a, sp. assert (a + region_bytes index ≤ addr_max) as He.
    { destruct (proj1 (Exists_exists _ _) (Hin (a + region_bytes index - 1) ltac:(lia))) as (v & Hv & Hx).
      destruct (proj1 (Forall_forall _ _) (proj2 (go_spans _ _ _ Hg)) v) as [_ [_ ?]]; [done|]. lia. }
    eexists. split; [done|]. split; [by apply initRegion_eq|].
    constructor; [by apply new_region_ok| |done..]. exists a. split; [apply upd_eq|apply lookup_insert_eq].
Qed.

Lemma allocate_memory_ok O s index : state_ok O s zero → class_ok index →
  allocate_memory mmap rngSeed 1 s index = Throw BadAlloc ∨
  ∃ s', allocate_memory mmap rngSeed 1 s index = Ok s' ∧ region_added O s s' index.
Proof using Hmmap.
  intros Hok Hc. pose proof (layout_ok _ Hc) as L. destruct L. change regionSize with 192 in *.
  assert (class_bytes index = Ok (nbytes index)) as Ecb by (by apply class_bytes_nb).
  assert (u64 (regionSize + nbytes index) = regionSize + nbytes index) as Emin
    by (rewrite u64_small; change regionSize with 192; lia).
  assert ((index =? 0) = false) as Ei by (apply Z.eqb_neq; unfold class_ok in Hc; lia).
  cbn [allocate_memory]. rewrite Ei, Ecb. cbn [negb CHECK obind]. rewrite Z.max_l by lia. rewrite Emin.
  fold (region_bytes index). destruct (take_region O s index Hok Hc) as [[-> _]|(a & sp & s' & -> & E & Hr)].
  - cbn [obind]. destruct (map_memory_ok O (glob s) (thr s) index (proj2 Hok) Hc) as [->|(g' & -> & Hg' & Hbig)]; [by left|].
    cbn [obind]. right. assert (state_ok O (set_glob s g') zero) as Hok' by (split; [apply Hok|exact Hg']).
    destruct (take_region O (set_glob s g') index Hok' Hc) as [[_ Hsmall]|(a & sp & s' & -> & E & [[] ? ? ?])].
    + exfalso. apply Exists_exists in Hbig as (v & Hv & Hbig). rewrite Forall_forall in Hsmall.
      specialize (Hsmall v Hv). lia.
    + exists s'. split; [exact E|]. by constructor.
  - right. exists s'. cbn [obind]. done.
Qed.
End map_memory.
