(* ===== verification/MooTotalFacts.v ===== *)
(** * The allocator as a whole

    [moo_alloc] and [moo_free] from any state of a thread that satisfies the
    invariant: they return, keep the invariant, and change the set of blocks
    that are in use by exactly one block. *)

From Stdlib Require Import ZArith Lia.
From stdpp Require Import base gmap option list.
From S2P Require Import Prelude Moo MooSpanFacts MooFacts MooAllocFacts MooMediumFacts MooMemoryFacts.

Local Set Warnings "-clear-no-such-hyp".

(** ** The state of a thread between two calls *)

(** The blocks that other threads freed are still live for the allocator. *)
Record alloc_inv (O : Z → Prop) (s : state) : Prop := {
  ai_ok : state_ok O s zero;
  ai_small : small (thr s);
  ai_nodup : NoDup (remoteFreeList (thr s));
  ai_remote : ∀ p, p ∈ remoteFreeList (thr s) → live (thr s) p
}.

(** The blocks in use: handed out and freed by nobody. *)
Definition used (s : state) (p : Z) : Prop := live (thr s) p ∧ p ∉ remoteFreeList (thr s).

(** The blocks in use keep their size. *)
Definition kept_used (s s' : state) : Prop :=
  ∀ p r, used s p → used s' p → regions (thr s) !! region_of p = Some r →
    ∃ r', regions (thr s') !! region_of p = Some r' ∧ rindex r' = rindex r.

Lemma kept_used_trans s1 s2 s3 : (∀ p, used s1 p → used s3 p → used s2 p) →
  kept_used s1 s2 → kept_used s2 s3 → kept_used s1 s3.
Proof.
  intros Hl H12 H23 p r H1 H3 Hr. specialize (Hl p H1 H3). destruct (H12 p r H1 Hl Hr) as (r2 & Hr2 & <-). eauto.
Qed.

Lemma kept_kept_used s s' : kept (thr s) (thr s') → kept_used s s'.
Proof. intros H p r [? _] [? _]. by apply H. Qed.

Lemma kept_used_same s s' : regions (thr s') = regions (thr s) → kept_used s s'.
Proof. intros E p r _ _. rewrite E. eauto. Qed.

(** A step that no caller can see. *)
Record settled (O : Z → Prop) (s s' : state) : Prop := {
  st_inv : alloc_inv O s';
  st_used : ∀ q, used s' q ↔ used s q;
  st_kept : kept_used s s';
  st_exited : exited (thr s') = exited (thr s)
}.

(** Block [p] of the size class is handed out. *)
Record allocated (O : Z → Prop) (s s' : state) (p index : Z) : Prop := {
  al_inv : alloc_inv O s';
  al_fresh : ¬ used s p;
  al_used : ∀ q, used s' q ↔ used s q ∨ q = p;
  al_kept : kept_used s s';
  al_exited : exited (thr s') = exited (thr s);
  al_class : ∃ r, regions (thr s') !! region_of p = Some r ∧ rindex r = index
}.

Lemma settled_refl O s : alloc_inv O s → settled O s s.
Proof. intros. constructor; try done. by apply kept_used_same. Qed.

Lemma settled_trans O s1 s2 s3 : settled O s1 s2 → settled O s2 s3 → settled O s1 s3.
Proof.
  intros [_ H1 K1 E1] [? H2 K2 E2]. constructor; [done| | |congruence]; [intros q; by rewrite H2|].
  apply (kept_used_trans _ s2); [|done..]. intros q. by rewrite H1.
Qed.

Lemma settled_allocated O s1 s2 s3 p index :
  settled O s1 s2 → allocated O s2 s3 p index → allocated O s1 s3 p index.
Proof.
  intros [_ H1 K1 E1] [? Hf H2 K2 E2 ?]. constructor; try done; [by rewrite <- H1| | |congruence].
  - intros q. by rewrite H2, H1.
  - apply (kept_used_trans _ s2); [|done..]. intros q. by rewrite H1.
Qed.

Lemma allocated_settled O s1 s2 s3 p index :
  allocated O s1 s2 p index → settled O s2 s3 → regions (thr s3) = regions (thr s2) → allocated O s1 s3 p index.
Proof.
  intros [? Hf H2 K1 E2 ?] [? H1 K2 E1] E. constructor; try done; [| |congruence|by rewrite E].
  - intros q. by rewrite H1.
  - apply (kept_used_trans _ s2); [|done..]. intros q _. by rewrite H1.
Qed.

Lemma quiet_settled O s s' : alloc_inv O s → quiet_step O s s' zero → small (thr s') → settled O s s'.
Proof.
  intros [? ? Hn Hr] [? Hl K [E1 E2]] ?. constructor; [constructor; try done| |by apply kept_kept_used|done].
  - by rewrite E1.
  - intros p. rewrite E1, Hl. auto.
  - intros q. unfold used. by rewrite Hl, E1.
Qed.

Lemma handed_allocated O s s' p index : alloc_inv O s → handed O s s' p index zero → allocated O s s' p index.
Proof.
  intros [? ? Hn Hr] [? ? Hf Hl K [E1 E2] ?]. constructor; try done; [constructor; try done| | |by apply kept_kept_used].
  - by rewrite E1.
  - intros q. rewrite E1, Hl. auto.
  - intros [? _]. done.
  - intros q. unfold used. rewrite Hl, E1. split; [tauto|]. intros [[? ?]| ->]; [tauto|]. split; [tauto|].
    intros Hin. by apply Hf, Hr.
Qed.

(** ** Freeing does not give a size class a current bin *)

Definition keeps_none (s s' : state) : Prop := ∀ j, fbins (fast (thr s)) j = None → fbins (fast (thr s')) j = None.

(** The binds of a computation that returned. *)
Ltac bind_ok H :=
  repeat match type of H with
  | obind ?c _ = Ok _ => let E := fresh "E" in destruct c eqn:E; cbn [obind] in H; [|discriminate H..]
  end.

Lemma put_bin_keeps s b x s' : put_bin s b x = Ok s' → fast (thr s') = fast (thr s).
Proof. unfold put_bin. intros H. bind_ok H. by injection H as <-. Qed.

Lemma reclaim_front_keeps s index s' : reclaim_front s index = Ok s' → keeps_none s s'.
Proof.
  unfold reclaim_front. destruct (emptyRegions (thr s) index); [done|]. intros H. bind_ok H.
  unfold reclaimSingleRegion in H. bind_ok H. injection H as <-. intros j Hj. tred.
  assert (fast a0 = fast (thr s)) as Ef.
  { destruct (negb (rfull a)); [bind_ok E0|]; by injection E0 as <-. }
  rewrite Ef. destruct (fbins (fast (thr s)) index) as [[a' i]|]; [|done].
  destruct (a' =? z); [|done]. tred. unfold upd. by destruct (j =? index).
Qed.

Lemma reclaim_loop_keeps fuel : ∀ s index threshold s', reclaim_loop fuel s index threshold = Ok s' → keeps_none s s'.
Proof.
  induction fuel as [|fuel IH]; intros s index threshold s'; cbn [reclaim_loop]; destruct (_ >=? _); try done;
    try (by intros [= <-] j Hj).
  intros H. bind_ok H. intros j Hj. eapply IH; [done|]. by eapply reclaim_front_keeps.
Qed.

Lemma became_empty_keeps s a s' : handleBinBecameEmpty s a = Ok s' → keeps_none s s'.
Proof.
  unfold handleBinBecameEmpty, markRegionEmpty, maybeReclaimEmptyRegions. intros H. bind_ok H.
  destruct (_ =? numCreatedBins a0); [|injection H as <-; by intros j Hj]. bind_ok H.
  assert (fast (thr a1) = fast (thr s)) as Ef.
  { bind_ok E0. destruct (rempty a2); by injection E0 as <-. }
  unfold keeps_none. rewrite <- Ef. destruct (_ =? 0); [by injection H as <-|].
  destruct (emptyRegions _ _); [done|]. bind_ok H. destruct (_ <? _); [by injection H as <-|].
  by apply reclaim_loop_keeps in H.
Qed.

Lemma dec_remaining_keeps s b s' : dec_remaining s b = Ok s' → keeps_none s s'.
Proof.
  unfold dec_remaining. intros H. bind_ok H. apply put_bin_keeps in E0. unfold keeps_none. rewrite <- E0.
  destruct (_ =? 0); [by apply became_empty_keeps in H|by injection H as <-].
Qed.

Lemma moo_free_keeps s p s' : moo_free s p = Ok s' → keeps_none s s'.
Proof.
  unfold moo_free. destruct (_ =? 0); [by intros [= <-] j Hj|]. intros H. bind_ok H.
  destruct (_ && _); [by apply dec_remaining_keeps in H|]. unfold moo_free2 in H. bind_ok H.
  apply put_bin_keeps in E2. apply dec_remaining_keeps in H. unfold keeps_none. rewrite <- E2.
  destruct (_ && _); [|by injection E3 as <-]. bind_ok E3. apply put_bin_keeps in E4. rewrite <- E4.
  destruct (rfull _); by injection E3 as <-.
Qed.

Lemma free_all_keeps l : ∀ s s', free_all s l = Ok s' → keeps_none s s'.
Proof.
  induction l as [|p l IH]; intros s s'; cbn [free_all]; [by intros [= <-] j Hj|]. intros H. bind_ok H.
  intros j Hj. eapply IH; [done|]. by eapply moo_free_keeps.
Qed.

(** Taking back what other threads freed. *)
Lemma drain_ok O s : alloc_inv O s →
  ∃ s', drainRemoteFrees s = Ok s' ∧ settled O s s' ∧ remoteFreeList (thr s') = [] ∧ keeps_none s s'.
Proof.
  intros [Hok Hsm Hn Hr]. unfold drainRemoteFrees.
  set (s0 := set_thr s (set_remote (thr s) [])).
  assert (state_ok O s0 zero) as Hok0.
  { destruct Hok as [[] []]. split; by constructor. }
  destruct (free_all_ok O s0 (remoteFreeList (thr s))) as (s' & E & Hok' & Hsm' & Hl & Hk & Er & Ee); try done.
  exists s'. split; [done|]. split; [|split; [done|by apply free_all_keeps in E]].
  constructor; [constructor; try done| |by apply kept_kept_used|done].
  - rewrite Er. constructor.
  - intros p. rewrite Er. cbn. set_solver.
  - intros q. unfold used. rewrite Hl, Er. cbn. set_solver.
Qed.

(** ** Allocation *)

Lemma class_of_nbytes index : class_ok index → getSizeClass (nbytes index) = index.
Proof.
  intros Hc. unfold class_ok in Hc. assert (8 ≤ nbytes index ≤ 2 ^ 46).
  { unfold nbytes. split; [change 8 with (2 ^ 3)|]; apply Z.pow_le_mono_r; lia. }
  rewrite getSizeClass_log, (Z.max_l (nbytes index) 1) by lia. unfold nbytes in *.
  replace (2 ^ (64 - index) - 1) with (Z.pred (2 ^ (64 - index))) by lia. rewrite Z.log2_pred_pow2 by lia. lia.
Qed.

(** The slot of the size class mirrors the current bin. *)
Definition synced (s : state) (index : Z) : Prop :=
  ∀ b x, fbins (fast (thr s)) index = Some b → get_bin s b = Ok x →
    slots (fast (thr s)) index = mkSlot (bfreearea x) (bend x + 1) [] (nbytes index).

(** The caller gets a block, or memory could not be mapped. *)
Definition alloc_result (O : Z → Prop) (s : state) (index : Z) (res : outcome (Z * state)) : Prop :=
  res = Throw BadAlloc ∨ ∃ p s', res = Ok (p, s') ∧ allocated O s s' p index ∧ synced s' index.

Section alloc.
Context (O : Z → Prop) (mmap : Globals → Z → Z → option Z) (rngSeed : Z) (Hmmap : mmap_ok mmap).
Context (index : Z) (Hc : class_ok index).

Section rec.
Context (rec : state → Z → outcome (Z * state)).

(** Between two attempts. *)
Record trying (s : state) : Prop := {
  ty_inv : alloc_inv O s;
  ty_fbin : fbins (fast (thr s)) index = None
}.

Lemma trying_searching s : trying s → searching O index s.
Proof using. intros [[] ?]. by constructor. Qed.

(** The first active region is a new one. *)
Definition has_new (s : state) : Prop :=
  ∃ a rest, activeRegions (thr s) index = a :: rest ∧ regions (thr s) !! a = Some (first_region a index).

Lemma new_gives fuel s a rest res : searching O index s →
  activeRegions (thr s) index = a :: rest → regions (thr s) !! a = Some (first_region a index) →
  medium_loop fuel s a index (nbytes index) = Ok res → is_Some res.1.
Proof using Hc.
  intros [Hok Hsm Hfb] Eact Ha. destruct fuel as [|fuel]; [done|]. cbn [medium_loop]. unfold get_region. rewrite Ha.
  cbn [of_option obind]. unfold first_region at 1, add_bin. tred. cbn [bare_region rbins activebins length app].
  destruct (alloc_from_bin_ok O s a 0 (first_region a index) (fresh_bin a index 0) None) as (res' & E & _ & Hsome);
    try done; [by apply list_elem_of_singleton|]. change (rindex (first_region a index)) with index in *.
  rewrite set_current_id in E by done. rewrite E. cbn [obind].
  destruct Hsome as [p Ep]; [cbn [fresh_bin bfreearea bend]; unfold binsize; lia|]. destruct res' as [rv s']. cbn in Ep. subst rv.
  intros [= <-]. by eexists.
Qed.

(** [moo_alloc_medium] finds a block in the active regions, or they are all full. *)
Lemma medium_cases s : trying s →
  (∃ p s' a i r x, moo_alloc_medium mmap rngSeed rec s index = Ok (p, set_current s' index (Some (a, i))) ∧
     allocated O s s' p index ∧ trying s' ∧
     regions (thr s') !! a = Some r ∧ rbins r !! i = Some x ∧ rindex r = index ∧ i ∈ activebins r) ∨
  (∃ s1, moo_alloc_medium mmap rngSeed rec s index = moo_alloc_slow mmap rngSeed rec s1 index ∧
     settled O s s1 ∧ trying s1 ∧ activeRegions (thr s1) index = [] ∧
     remoteFreeList (thr s1) = remoteFreeList (thr s) ∧ ¬ has_new s).
Proof using Hc.
  intros Hs. pose proof Hs as [Hi Hf]. unfold moo_alloc_medium. rewrite class_bytes_nb by done. cbn [obind].
  destruct (activeRegions (thr s) index) as [|a rest] eqn:Eact.
  { right. exists s. split; [done|]. split; [by apply settled_refl|]. split; [done|]. split; [done|]. split; [done|].
    intros (a & rest & E & _). congruence. }
  destruct (medium_loop_ok O index _ s a rest (trying_searching s Hs) Eact (le_n _)) as (res & E & Hres).
  rewrite E. cbn [obind].
  destruct Hres as [p s' a' i Hh Ef Eg (r & x & ? & ? & ? & ?)|s' Hq Hse Ef Eg Hnil].
  - left. exists p, s', a', i, r, x. pose proof (handed_allocated O s s' p index Hi Hh) as Hal.
    split; [done|]. split; [done|]. split; [|done]. constructor; [apply Hal|congruence].
  - right. exists s'. pose proof (quiet_settled O s s' Hi Hq (se_small _ _ _ Hse)) as Hst.
    split; [done|]. split; [done|]. split; [constructor; [apply Hst|congruence]|]. split; [done|].
    split; [apply Hq|]. intros (a' & rest' & E' & Ha'). assert (a' = a) as -> by congruence.
    by destruct (new_gives _ s a rest _ (trying_searching s Hs) Eact Ha' E).
Qed.

Definition refill (s : state) : outcome (Z * state) :=
  let! bytes := class_bytes index in
  let! '(rv, s) := moo_alloc_medium mmap rngSeed rec s index in
  match fbins (fast (thr s)) index with
  | Some b =>
      let! x := get_bin s b in
      let f := fast (thr s) in
      let sl := slots f index in
      Ok (rv, set_thr s (set_fast (thr s)
                (set_slot f index (mkSlot (bfreearea x) (u64 (bend x + 1)) (slot_freelist sl) bytes))))
  | None => Ok (rv, s)
  end.

(** The slot is set up for the bin that the block came from. *)
Lemma refill_block s a i r x : trying s →
  regions (thr s) !! a = Some r → rbins r !! i = Some x → rindex r = index → i ∈ activebins r →
  let s1 := set_current s index (Some (a, i)) in
  let f := fast (thr s1) in
  set_thr s1 (set_fast (thr s1) (set_slot f index (mkSlot (bfreearea x) (u64 (bend x + 1)) (slot_freelist (slots f index)) (nbytes index))))
    = attached s index a i x ∧
  settled O s (attached s index a i x) ∧ synced (attached s index a i x) index.
Proof using.
  intros [Hi Hf] Ha Hx Hri Hact. pose proof (ai_ok _ _ Hi) as Hok.
  pose proof (to_regions _ _ (proj1 Hok) a r Ha) as Hr. destruct (bin_bounds _ _ _ _ _ _ Hr Hx) as (B1 & B2 & B3 & B4).
  destruct (to_fast _ _ (proj1 Hok) index) as [Hfl _]. unfold addr_max in *. split; [|split].
  - unfold attached, set_current. tred. rewrite Hfl, u64_small by lia. done.
  - apply quiet_settled; [done|by apply (attach_ok O s index a i r x)|exact (ai_small _ _ Hi)].
  - intros b y. unfold attached. tred. rewrite !upd_eq. intros [= <-].
    change (get_bin (set_thr _ _) (a, i)) with (get_bin s (a, i)). rewrite (get_bin_eq s a i r x) by done. by intros [= <-].
Qed.

(** The slot of a current bin set up for it already. *)
Lemma refill_again s b x : synced s index → fbins (fast (thr s)) index = Some b → get_bin s b = Ok x →
  0 ≤ bend x < 2 ^ 63 →
  set_thr s (set_fast (thr s) (set_slot (fast (thr s)) index
    (mkSlot (bfreearea x) (u64 (bend x + 1)) (slot_freelist (slots (fast (thr s)) index)) (nbytes index)))) = s.
Proof using.
  intros Hs Hb Hx Hend. specialize (Hs b x Hb Hx). rewrite u64_small by lia. rewrite Hs. cbn [slot_freelist].
  unfold set_slot. rewrite upd_id by done. by destruct s as [g [? ? ? ? ? ? ? []]].
Qed.

Lemma current_end s b : alloc_inv O s → fbins (fast (thr s)) index = Some b → ∃ x, get_bin s b = Ok x ∧ 0 ≤ bend x < 2 ^ 63.
Proof using.
  destruct b as [a i]. intros Hi Hb. destruct (to_fast _ _ (proj1 (ai_ok _ _ Hi)) index) as [_ Hf]. rewrite Hb in Hf.
  destruct Hf as [Hf _]. apply fmap_Some in Hf as (r & Ha & Hf). injection Hf as _ Hf. symmetry in Hf.
  apply fmap_Some in Hf as (x & Hx & _). exists x. split; [by apply (get_bin_eq s a i r)|].
  pose proof (to_regions _ _ (proj1 (ai_ok _ _ Hi)) a r Ha) as Hr. pose proof (bin_bounds _ _ _ _ _ _ Hr Hx).
  unfold addr_max in *. pose proof (binsize_pos index). lia.
Qed.

Lemma refill_ok s : trying s →
  (∀ s1, settled O s s1 → trying s1 → activeRegions (thr s1) index = [] →
     remoteFreeList (thr s1) = remoteFreeList (thr s) → ¬ has_new s →
     alloc_result O s1 index (moo_alloc_slow mmap rngSeed rec s1 index)) →
  alloc_result O s index (refill s).
Proof using Hc.
  intros Hs Hslow. unfold refill. rewrite class_bytes_nb by done. cbn [obind].
  destruct (medium_cases s Hs) as [(p & s' & a & i & r & x & -> & Hal & Hs' & Ha & Hx & Hr & Hact)|
    (s1 & -> & Hst & Hs1 & Hnil & Erem & Hnew)].
  - cbn [obind]. rewrite set_current_fbins, get_bin_current, (get_bin_eq s' a i r x) by done. cbn [obind].
    destruct (refill_block s' a i r x Hs' Ha Hx Hr Hact) as (E & Hset & Hsync). rewrite E.
    right. exists p, (attached s' index a i x). split; [done|]. split; [|done]. by eapply allocated_settled.
  - destruct (Hslow s1 Hst Hs1 Hnil Erem Hnew) as [->|(p & s' & -> & Hal & Hsync)]; [by left|right]. cbn [obind].
    exists p, s'. split; [|split; [by eapply settled_allocated|done]].
    destruct (fbins (fast (thr s')) index) as [b|] eqn:Hb; [|done].
    destruct (current_end s' b (al_inv _ _ _ _ _ Hal) Hb) as (x & Ex & ?). rewrite Ex. cbn [obind].
    by rewrite (refill_again s' b x).
Qed.

(** [moo_alloc2] with an exhausted slot. *)
Definition exhausted (s : state) : Prop :=
  stack (fast (thr s)) index = [] ∧
  slot_end (slots (fast (thr s)) index) ≤ u64 (bump (slots (fast (thr s)) index) + slotSize (slots (fast (thr s)) index)).

Lemma alloc2_refill s : trying s → moo_alloc2 mmap rngSeed rec s index = refill s.
Proof using Hc.
  intros [_ Hf]. unfold moo_alloc2. unfold class_ok in Hc. rewrite (proj2 (Z.eqb_neq _ _)), (proj2 (Z.ltb_lt _ _)) by lia.
  cbn [negb andb CHECK obind]. by rewrite Hf.
Qed.

Lemma alloc2_ok s : alloc_inv O s → exhausted s →
  (∃ p s', moo_alloc2 mmap rngSeed rec s index = Ok (p, s') ∧ allocated O s s' p index) ∨
  (∃ s1, moo_alloc2 mmap rngSeed rec s index = refill s1 ∧ settled O s s1 ∧ trying s1).
Proof using Hc.
  intros Hi [Hst Hend]. destruct (fbins (fast (thr s)) index) as [[a i]|] eqn:Hfb.
  2: { right. exists s. assert (trying s) by done. split; [by apply alloc2_refill|]. split; [by apply settled_refl|done]. }
  destruct (to_fast _ _ (proj1 (ai_ok _ _ Hi)) index) as [_ Hf]. rewrite Hfb in Hf.
  destruct Hf as [Hf _]. apply fmap_Some in Hf as (r & Ha & Hf). injection Hf as Hri Hx. symmetry in Hx.
  apply fmap_Some in Hx as (x & Hx & _). unfold moo_alloc2. unfold class_ok in Hc.
  rewrite (proj2 (Z.eqb_neq _ _)), (proj2 (Z.ltb_lt _ _)) by lia. cbn [negb andb CHECK obind].
  rewrite Hfb, (get_bin_eq s a i r x) by done. cbn [obind]. pose proof (ai_ok _ _ Hi) as Hok.
  pose proof (to_regions _ _ (proj1 Hok) a r Ha) as Hr. rewrite Hri in Hfb, Hst, Hend |- *.
  assert (i ∈ activebins r) as Hact.
  { eapply (ro_cur _ _ _ _ Hr). unfold cur_of. rewrite Hfb, Z.eqb_refl. done. }
  destruct (freelist x) as [|p fl] eqn:Hfl.
  - destruct (retire_bin_ok O s a i r x Hok Ha Hx Hfb Hst Hfl Hend) as (s1 & E & Hq & Hfb' & Eemp & _).
    right. exists s1. rewrite E. cbn [obind]. rewrite <- Hri. split; [done|].
    assert (settled O s s1) as Hset.
    { apply quiet_settled; [done|done|]. intros j. rewrite Eemp. apply Hi. }
    split; [done|]. constructor; [apply Hset|]. by rewrite Hri.
  - left. destruct (pop_freelist_ok O s a i r x Hok (ai_small _ _ Hi) Ha Hx Hact p fl Hfl) as (s' & E & Hh & _).
    exists p, s'. split; [done|]. by apply handed_allocated.
Qed.
End rec.

(** ** The calls of [moo_alloc] within each other *)

Lemma trying_exhausted s : trying s → exhausted s.
Proof using.
  intros [Hi Hf]. destruct (to_fast _ _ (proj1 (ai_ok _ _ Hi)) index) as [_ H]. by rewrite Hf in H.
Qed.

Lemma alloc_exhausted bytes s fuel : alloc_inv O s → exhausted s → getSizeClass bytes = index →
  moo_alloc mmap rngSeed (S fuel) s bytes = moo_alloc2 mmap rngSeed (moo_alloc mmap rngSeed fuel) s index.
Proof using.
  intros Hi [Hst Hend] Hidx. cbn [moo_alloc]. rewrite Hidx, Hst.
  destruct (to_fast _ _ (proj1 (ai_ok _ _ Hi)) index) as [Hfl _]. rewrite Hfl.
  by rewrite (proj2 (Z.ltb_ge _ _)).
Qed.

(** The next attempt gives a block when there is a new region. *)
Lemma alloc_new s fuel : trying s → has_new s →
  alloc_result O s index (moo_alloc mmap rngSeed (S fuel) s (nbytes index)).
Proof using Hc.
  intros Hs Hn. rewrite alloc_exhausted by (apply Hs || by apply trying_exhausted || by apply class_of_nbytes).
  rewrite alloc2_refill by done. apply refill_ok; done.
Qed.

Lemma slow_memory s fuel : trying s → activeRegions (thr s) index = [] → remoteFreeList (thr s) = [] →
  alloc_result O s index (moo_alloc_slow mmap rngSeed (moo_alloc mmap rngSeed (S fuel)) s index).
Proof using Hc Hmmap.
  intros Hs Hnil Hrem. unfold moo_alloc_slow. rewrite class_bytes_nb by done. cbn [obind]. rewrite Hnil, Hrem. cbn [CHECK obind].
  destruct Hs as [Hi Hf]. destruct (allocate_memory_ok mmap rngSeed Hmmap O s index (ai_ok _ _ Hi) Hc)
    as [->|(s1 & -> & [Hq (a & Hact & Ha) Efast Eemp])]; [by left|]. cbn [obind].
  assert (settled O s s1) as Hset.
  { apply quiet_settled; [done|done|]. intros j. rewrite Eemp. apply Hi. }
  destruct (alloc_new s1 fuel) as [->|(p & s' & -> & Hal & Hsync)].
  - constructor; [apply Hset|congruence].
  - by exists a, (activeRegions (thr s) index).
  - by left.
  - right. exists p, s'. split; [done|]. split; [by eapply settled_allocated|done].
Qed.

(** Without blocks that other threads freed. *)
Lemma alloc_memory s fuel : trying s → remoteFreeList (thr s) = [] →
  alloc_result O s index (moo_alloc mmap rngSeed (S (S fuel)) s (nbytes index)).
Proof using Hc Hmmap.
  intros Hs Hrem. rewrite alloc_exhausted by (apply Hs || by apply trying_exhausted || by apply class_of_nbytes).
  rewrite alloc2_refill by done. apply refill_ok; [done|]. intros s1 Hset Hs1 Hnil E _.
  apply slow_memory; [done|done|congruence].
Qed.

Lemma slow_ok s fuel : trying s → activeRegions (thr s) index = [] →
  alloc_result O s index (moo_alloc_slow mmap rngSeed (moo_alloc mmap rngSeed (S (S fuel))) s index).
Proof using Hc Hmmap.
  intros Hs Hnil. destruct (remoteFreeList (thr s)) as [|p l] eqn:Hrem; [by apply slow_memory|].
  unfold moo_alloc_slow. rewrite class_bytes_nb by done. cbn [obind]. rewrite Hnil, Hrem. cbn [CHECK obind].
  destruct Hs as [Hi Hf]. destruct (drain_ok O s Hi) as (s1 & -> & Hset & Hrem1 & Hk). cbn [obind].
  destruct (alloc_memory s1 fuel) as [->|(q & s' & -> & Hal & Hsync)]; [|done|by left|].
  - constructor; [apply Hset|by apply Hk].
  - right. exists q, s'. split; [done|]. split; [by eapply settled_allocated|done].
Qed.
End alloc.

(** [moo_alloc] returns a block, or throws when memory cannot be mapped. *)
Lemma moo_alloc_ok O mmap rngSeed s bytes :
  mmap_ok mmap → alloc_inv O s → class_ok (getSizeClass bytes) →
  moo_alloc mmap rngSeed 3 s bytes = Throw BadAlloc ∨
  ∃ p s', moo_alloc mmap rngSeed 3 s bytes = Ok (p, s') ∧ allocated O s s' p (getSizeClass bytes).
Proof.
  intros Hm Hi Hc. set (index := getSizeClass bytes) in *. pose proof (ai_ok _ _ Hi) as Hok.
  destruct (stack (fast (thr s)) index) as [|p st] eqn:Hst.
  - destruct (Z.lt_ge_cases (u64 (bump (slots (fast (thr s)) index) + slotSize (slots (fast (thr s)) index)))
                (slot_end (slots (fast (thr s)) index))) as [Hlt|Hge].
    + right. destruct (bump_ok O s index Hok (ai_small _ _ Hi) Hst Hlt) as (b & s' & Hb & Hh & E).
      exists (bump (slots (fast (thr s)) index)), s'. split; [|by apply handed_allocated].
      destruct (to_fast _ _ (proj1 Hok) index) as [Hfl _].
      cbn [moo_alloc]. fold index. rewrite Hst, Hfl, (proj2 (Z.ltb_lt _ _)), Hb by done. cbn [of_option obind].
      by rewrite E.
    + assert (exhausted index s) as He by done. rewrite (alloc_exhausted O) with (index := index) by done.
      destruct (alloc2_ok O mmap rngSeed index Hc (moo_alloc mmap rngSeed 2) s Hi He)
        as [(p & s' & E & Hal)|(s1 & -> & Hset & Hs1)]; [right; by exists p, s'|].
      destruct (refill_ok O mmap rngSeed index Hc (moo_alloc mmap rngSeed 2) s1 Hs1) as [->|(p & s' & -> & Hal & _)];
        [|by left|right; exists p, s'; split; [done|by eapply settled_allocated]].
      intros s2 _ Hs2 Hnil _ _. by apply slow_ok.
  - right. destruct (stack_pop_ok O s index Hok (ai_small _ _ Hi) p st Hst) as (b & s' & Hb & Hh & E).
    exists p, s'. split; [|by apply handed_allocated]. cbn [moo_alloc]. fold index. rewrite Hst, Hb. cbn [of_option obind].
    by rewrite E.
Qed.

(** ** Requests that no address space can hold *)

Section large.
Context (O : Z → Prop) (mmap : Globals → Z → Z → option Z) (rngSeed : Z) (Hmmap : mmap_ok mmap).
Context (index : Z) (Hi : 2 ≤ index ≤ 17).

Lemma large_bytes : 2 ^ 47 ≤ nbytes index ≤ 2 ^ 62 ∧ class_bytes index = Ok (nbytes index) ∧ getSizeClass (nbytes index) = index.
Proof using All.
  assert (2 ^ 47 ≤ nbytes index ≤ 2 ^ 62) as Hb by (unfold nbytes; split; apply Z.pow_le_mono_r; lia). split; [done|]. split.
  - unfold class_bytes. by rewrite (proj2 (Z.ltb_lt _ _)), (proj2 (Z.leb_le _ _)) by lia.
  - rewrite getSizeClass_log, (Z.max_l (nbytes index) 1) by lia. unfold nbytes.
    replace (2 ^ (64 - index) - 1) with (Z.pred (2 ^ (64 - index))) by lia. rewrite Z.log2_pred_pow2 by lia. lia.
Qed.

Lemma large_mapping g t : globals_ok O g t → map_memory mmap rngSeed g (nbytes index) = Throw BadAlloc.
Proof using All.
  intros Hg. destruct large_bytes as (Hnb & _). pose proof (go_bytes _ _ _ Hg) as Hm. unfold map_memory.
  assert (alignment = 2097152) as Ea by reflexivity. change regionSize with 192. rewrite (proj2 (Z.ltb_ge _ _)) by lia.
  assert (0 ≤ mmappedBytes g / 4 < 2 ^ 62) by (split; [apply Z.div_pos; lia|apply Z.div_lt_upper_bound; lia]).
  destruct (round_up_spec (mmappedBytes g / 4)) as (_ & R & _); [lia|]. rewrite u64_small by lia.
  destruct (round_up_wide (Z.max (Z.max alignment (alignment + 192 + nbytes index * 2))
    (round_up_alignment (mmappedBytes g / 4)))) as (_ & R1 & _); [lia|].
  set (bytes := round_up_alignment (Z.max _ _)) in *. destruct (find_address _ _ _ _ _ _) as [rv g1] eqn:E1.
  apply find_address_ok in E1 as [[_ Em _ _] Hnew]; [|done]. unfold new_range, addr_max in Hnew.
  destruct rv as [a|]; [destruct (Hnew a eq_refl) as (? & ? & _); lia|]. unfold call_mmap.
  destruct (mmap g1 0 bytes) as [a|] eqn:E; [|done]. apply Hmmap in E as (? & ? & _). unfold addr_max in *. lia.
Qed.

Lemma large_memory s : state_ok O s zero → allocate_memory mmap rngSeed 1 s index = Throw BadAlloc.
Proof using All.
  intros [_ Hg]. destruct large_bytes as (Hnb & Hcb & _). cbn [allocate_memory].
  rewrite (proj2 (Z.eqb_neq _ _)), Hcb by lia. cbn [negb CHECK obind]. rewrite Z.max_l by lia.
  assert (alignment = 2097152) as Ea by reflexivity. change regionSize with 192. rewrite u64_small by lia.
  destruct (round_up_spec (192 + nbytes index)) as (R1 & R2 & R3); [lia|]. rewrite (Z.max_r alignment) by lia.
  set (A := round_up_alignment _) in *. pose proof (go_spans _ _ _ Hg) as [Hs He].
  destruct (take_span_spec (-1) (spans (glob s)) (192 + nbytes index) A) as
    [[-> _]|(a & sp & _ & Ha & _ & _ & _ & Hin & _)]; try done; [lia|lia| |].
  - cbn [obind]. by rewrite (large_mapping (glob s) (thr s)).
  - exfalso. destruct (proj1 (Exists_exists _ _) (Hin (a + A - 1) ltac:(lia))) as (v & Hv & Hx).
    destruct (proj1 (Forall_forall _ _) He v Hv) as [_ [_ ?]]. destruct Ha as [_ ?]. unfold addr_max in *. lia.
Qed.

Lemma large_class s : alloc_inv O s →
  fbins (fast (thr s)) index = None ∧ activeRegions (thr s) index = [].
Proof using All.
  intros Hinv. pose proof (proj1 (ai_ok _ _ Hinv)) as Ht. assert (¬ class_ok index) as Hn by (unfold class_ok; lia). split.
  - destruct (fbins (fast (thr s)) index) as [[a i]|] eqn:E; [|done]. exfalso. apply Hn.
    destruct (to_fast _ _ Ht index) as [_ Hf]. rewrite E in Hf. destruct Hf as [Hf _].
    apply fmap_Some in Hf as (r & Ha & Hf). injection Hf as -> _. apply (to_regions _ _ Ht a r Ha).
  - destruct (activeRegions (thr s) index) as [|a l] eqn:E; [done|]. exfalso. apply Hn.
    destruct (to_active _ _ Ht index) as [_ Hin]. destruct (Hin a) as [Hin' _]. rewrite E in Hin'.
    specialize (Hin' ltac:(set_solver)). apply fmap_Some in Hin' as (r & Ha & Hr). injection Hr as -> _.
    apply (to_regions _ _ Ht a r Ha).
Qed.

(** Every call ends in the slow path. *)
Lemma large_slow s fuel bytes : alloc_inv O s → getSizeClass bytes = index →
  moo_alloc_slow mmap rngSeed (moo_alloc mmap rngSeed fuel) s index = Throw BadAlloc →
  moo_alloc mmap rngSeed (S fuel) s bytes = Throw BadAlloc.
Proof using All.
  intros Hinv Hidx Hslow. destruct (large_class s Hinv) as [Hfb Hact]. destruct large_bytes as (_ & Hcb & _).
  assert (trying O index s) as Hs by done.
  rewrite (alloc_exhausted O mmap rngSeed index) by (done || by eapply trying_exhausted).
  unfold moo_alloc2, moo_alloc_medium. rewrite (proj2 (Z.eqb_neq _ _)), (proj2 (Z.ltb_lt _ _)), Hfb, Hcb by lia.
  cbn [negb andb CHECK obind]. by rewrite Hact, Hslow.
Qed.

Lemma large_alloc s bytes : alloc_inv O s → getSizeClass bytes = index → moo_alloc mmap rngSeed 3 s bytes = Throw BadAlloc.
Proof using All.
  assert (∀ s fuel bytes, alloc_inv O s → getSizeClass bytes = index → remoteFreeList (thr s) = [] →
    moo_alloc mmap rngSeed (S fuel) s bytes = Throw BadAlloc) as Hempty.
  { intros s0 fuel b Hinv Hidx Hrem. apply large_slow; [done..|]. destruct (large_class s0 Hinv) as [_ Hact].
    unfold moo_alloc_slow. destruct large_bytes as (_ & -> & _). cbn [obind]. rewrite Hact, Hrem. cbn [CHECK obind].
    by rewrite large_memory by apply Hinv. }
  intros Hinv Hidx. destruct (remoteFreeList (thr s)) as [|p l] eqn:Hrem; [by apply Hempty|].
  apply large_slow; [done..|]. destruct (large_class s Hinv) as [_ Hact].
  unfold moo_alloc_slow. destruct large_bytes as (_ & -> & Hcl). cbn [obind]. rewrite Hact, Hrem. cbn [CHECK obind].
  destruct (drain_ok O s Hinv) as (s1 & -> & Hset & Hrem1 & _). cbn [obind]. apply Hempty; [apply Hset|done|done].
Qed.
End large.
