(* ===== verification/MooExitFacts.v ===== *)
(** * Exit of a thread

    A thread that exits gives its current bins back, takes the frees of other
    threads, and turns into the owner of orphaned regions. *)

From Stdlib Require Import ZArith Lia FunctionalExtensionality.
From stdpp Require Import base gmap option list.
From S2P Require Import Prelude Moo MooSystem MooSpanFacts MooFacts MooAllocFacts MooMediumFacts MooMemoryFacts MooTotalFacts.

Local Set Warnings "-clear-no-such-hyp".

Lemma push_all_perm l fl : push_all l fl ≡ₚ fl ++ l.
Proof.
  revert fl. induction l as [|p l IH]; intros fl; cbn [push_all]; [by rewrite app_nil_r|].
  rewrite IH. cbn. apply Permutation_middle.
Qed.

(** ** The size class without a current bin *)

Definition zero_slot : Slot := mkSlot 0 0 [] 0.

Definition detached (f : FastThread) (index : Z) : FastThread :=
  mkFast (upd (stack f) index []) (upd (fbins f) index None) (upd (slots f) index zero_slot).

Section detach.
Context (t : Thread) (a : Z) (i : nat) (r : Region) (x : Bin).
Context (Ht : thread_ok t zero) (Ha : regions t !! a = Some r) (Hx : rbins r !! i = Some x).
Context (Hfb : fbins (fast t) (rindex r) = Some (a, i)).

Let f := fast t.
Let x' := set_bin_free x (push_all (stack f (rindex r)) (freelist x)) (remainingFrees x) (bump (slots f (rindex r))).
Let f' := detached f (rindex r).
Let t' := put_t (set_fast t f') a (upd_bin r i x').

Lemma detach_cur :
  cur_of t a (rindex r) = Some (i, bump (slots f (rindex r)), stack f (rindex r)) ∧
  ∀ a' j, cur_of (set_fast t f') a' j = if decide (j = rindex r) then None else cur_of t a' j.
Proof using Hfb.
  split; [unfold cur_of; by rewrite Hfb, Z.eqb_refl|]. intros a' j. unfold cur_of, f', detached, f. tred.
  destruct (decide _) as [->|Hj]; [by rewrite !upd_eq|by rewrite !upd_ne].
Qed.

Lemma detach_bin :
  bin_ok (rindex r) (bin_start a (rindex r) i) x' (bfreearea x') (freelist x') 0 ∧
  ∀ p, live_in (rindex r) (bin_start a (rindex r) i) (bfreearea x') (freelist x') p ↔ view_live t a r i x p.
Proof using All.
  destruct detach_cur as [Hcur _]. pose proof (to_regions _ _ Ht a r Ha) as Hr.
  assert (idle x = false) as Hid by (apply (idle_member _ _ _ _ _ _ Hr Hx), (ro_cur _ _ _ _ Hr i _ _ Hcur)).
  pose proof (ro_bins _ _ _ _ Hr i x Hx) as Hb. unfold view_live. rewrite Hcur in Hb |- *. cbn in Hb |- *.
  rewrite !decide_True in Hb |- * by done.
  pose proof (push_all_perm (stack f (rindex r)) (freelist x)) as Hperm. split.
  - destruct Hb as [? ? ? ? Hn Hf Hrem ? ?]. unfold f in *. constructor; try done; cbn.
    + by rewrite Hperm.
    + intros p. rewrite Hperm. apply Hf.
    + rewrite Hperm. exact Hrem.
    + congruence.
  - intros p. unfold live_in, f in *. by rewrite Hperm.
Qed.

Lemma detach_ok : thread_ok t' zero ∧ ∀ p, live t' p ↔ live t p.
Proof using All.
  destruct detach_cur as [Hcur Hcur']. destruct detach_bin as [Hb' Hl']. pose proof (to_regions _ _ Ht a r Ha) as Hr.
  assert (same_shell r (upd_bin r i x')) as Hsh by (by apply (upd_bin_shell r i x)).
  assert (∀ a' j, a' ≠ a → cur_of (set_fast t f') a' j = cur_of t a' j) as Hoth.
  { intros a' j Hne. rewrite Hcur'. destruct (decide _) as [->|]; [|done]. unfold cur_of. rewrite Hfb.
    by rewrite (proj2 (Z.eqb_neq _ _)) by congruence. }
  assert (cur_of t' a (rindex r) = None) as Hcur1 by (etrans; [apply Hcur'|by rewrite decide_True]).
  split.
  - destruct Ht. constructor.
    + intros a' r0 Ha'. change (cur_of t') with (cur_of (set_fast t f')).
      revert Ha'. unfold t', put_t. tred. rewrite lookup_insert_Some. intros [[<- <-]|[Hne Ha']].
      * change (rindex (upd_bin r i x')) with (rindex r). rewrite Hcur', decide_True by done.
        apply (region_ok_upd_bin a r (cur_of t a (rindex r)) (zero a) None _ i x); try done.
        -- intros j y Hj. rewrite Hcur. cbn. by rewrite !decide_False.
        -- intros Hre. rewrite <- (ro_empty _ _ _ _ Hr Hre), (ro_empties _ _ _ _ Hr).
           rewrite (empties_insert _ _ x) by done. cbn. lia.
      * rewrite Hoth by done. by apply to_regions.
    + by apply (active_ok_put (set_fast t f') a r).
    + by apply (empty_ok_put (set_fast t f') a r).
    + by apply (all_ok_put (set_fast t f') a r).
    + by apply (disj_ok_put (set_fast t f') a r).
    + apply (fast_ok_put (set_fast t f') a r _ Ha Hsh). intros j. unfold f', detached, f. tred.
      destruct (decide (j = rindex r)) as [->|Hj]; [|rewrite !upd_ne by done; exact (to_fast j)].
      rewrite !upd_eq. done.
  - intros p. apply lookup_lt_Some in Hx as Hlen.
    rewrite (live_at t' a (upd_bin r i x') i x'), (live_at t a r i x)
      by (done || apply lookup_insert_eq || by apply list_lookup_insert_eq).
    rewrite <- Hl'. rewrite (live_other_ext t t' a r); try done.
    + unfold view_live. change (rindex (upd_bin r i x')) with (rindex r). by rewrite Hcur1.
    + intros a' Hne. unfold t', put_t. tred. by rewrite lookup_insert_ne.
    + intros a' r0 Hne _. by apply Hoth.
    + intros j Hj. unfold upd_bin. tred. by apply list_lookup_insert_ne.
    + intros j y Hj. rewrite Hcur1, Hcur. cbn. by rewrite !decide_False.
Qed.
End detach.

(** No current bin: only the slot is forgotten. *)
Lemma detach_none t index : thread_ok t zero → fbins (fast t) index = None →
  thread_ok (set_fast t (detached (fast t) index)) zero ∧ ∀ p, live (set_fast t (detached (fast t) index)) p ↔ live t p.
Proof.
  intros Ht Hfb. assert (∀ a j, cur_of (set_fast t (detached (fast t) index)) a j = cur_of t a j) as Hcur.
  { intros a j. unfold cur_of, detached. tred. destruct (decide (j = index)) as [->|Hj]; [by rewrite upd_eq, Hfb|].
    by rewrite !upd_ne. }
  split.
  - apply fast_view_ok; [done| | |].
    + intros a r j x _ _. by rewrite Hcur.
    + intros a r i b st Ha. rewrite Hcur. apply (ro_cur _ _ _ _ (to_regions _ _ Ht a r Ha)).
    + intros j. unfold detached. tred. destruct (decide (j = index)) as [->|Hj]; [by rewrite !upd_eq|].
      rewrite !upd_ne by done. exact (to_fast _ _ Ht j).
  - intros p. unfold live. tred. by setoid_rewrite Hcur.
Qed.

(** ** The loop over the size classes *)

(** [leave_class] leaves the slot as it is: the invariant holds with the slots
    of the size classes that are [done] forgotten. *)
Definition mask (done : Z → bool) (f : FastThread) : FastThread :=
  mkFast (stack f) (fbins f) (λ j, if done j then zero_slot else slots f j).
Definition masked (done : Z → bool) (t : Thread) : Thread := set_fast t (mask done (fast t)).

Record leaving (t0 t : Thread) (done : Z → bool) : Prop := {
  lv_ok : thread_ok (masked done t) zero;
  lv_none : ∀ j, done j = true → fbins (fast t) j = None;
  lv_live : ∀ p, live (masked done t) p ↔ live t0 p;
  lv_own : ∀ x, own t x ↔ own t0 x;
  lv_index : ∀ a r r', regions t0 !! a = Some r → regions t !! a = Some r' → rindex r' = rindex r;
  lv_same : remoteFreeList t = remoteFreeList t0 ∧ exited t = exited t0 ∧ emptyRegions t = emptyRegions t0
}.

Lemma mask_slot done f index sl :
  mask (upd done index true) (set_fbin (set_slot f index sl) index None) =
  mkFast (stack f) (upd (fbins f) index None) (upd (λ j, if done j then zero_slot else slots f j) index zero_slot).
Proof.
  unfold mask, set_fbin, set_slot. cbn. f_equal. apply functional_extensionality. intros j. unfold upd.
  by destruct (j =? index).
Qed.

Lemma leave_class_ok t0 t done index : leaving t0 t done → done index = false →
  ∃ t', leave_class t index = Ok t' ∧ leaving t0 t' (upd done index true).
Proof.
  intros [Hok Hnone Hlive Hown Hidx Hsame] Hd. destruct (to_fast _ _ Hok index) as [Hfl Hf].
  unfold masked, mask in Hfl, Hf. tred in Hfl. tred in Hf. rewrite Hd in Hfl, Hf. unfold leave_class. rewrite Hfl.
  assert (∀ j f', (∀ k, k ≠ index → f' k = fbins (fast t) k) → f' index = None → upd done index true j = true →
    f' j = None) as Hnone'.
  { intros j f' E1 E2. unfold upd. destruct (Z.eqb_spec j index) as [->|Hj]; [done|]. intros. by rewrite E1, Hnone. }
  destruct (fbins (fast t) index) as [[a i]|] eqn:Hfb; cbn [obind return_blocks].
  - destruct Hf as [Hf _]. apply fmap_Some in Hf as (r & Ha & Hf). injection Hf as Hri Hx. symmetry in Hx.
    apply fmap_Some in Hx as (x & Hx & _). rewrite Ha. cbn [of_option obind]. rewrite Hx. cbn [of_option obind].
    subst index. destruct (detach_ok (masked done t) a i r x Hok Ha Hx Hfb) as [Hok' Hlive'].
    pose proof (to_regions _ _ Hok a r Ha) as Hr. eexists. split; [reflexivity|].
    unfold put_block_bin. rewrite (upd_bin_keep r i x) by (done || apply Hr). set (x' := set_bin_free x _ _ _).
    assert (same_shell r (upd_bin r i x')) as Hsh by (by apply (upd_bin_shell r i x)).
    unfold masked, mask in Hok', Hlive'. tred in Hok'. tred in Hlive'. rewrite Hd in Hok', Hlive'. constructor.
    + unfold masked. tred. rewrite mask_slot. exact Hok'.
    + intros j. apply (Hnone' j (upd (fbins (fast t)) (rindex r) None)); [|by rewrite upd_eq]. intros k Hk. by rewrite upd_ne.
    + intros p. rewrite <- Hlive, <- Hlive'. unfold masked. tred. by rewrite mask_slot.
    + intros y. rewrite <- Hown. by apply (own_put t a r _ Ha Hsh).
    + intros a' r1 r2 Hr1. tred. rewrite lookup_insert_Some. intros [[<- <-]|[_ Hr2]]; [exact (Hidx a r1 r Hr1 Ha)|by eapply Hidx].
    + done.
  - destruct (detach_none (masked done t) index Hok Hfb) as [Hok' Hlive']. destruct Hf as [Hst _].
    eexists. split; [reflexivity|].
    assert (masked (upd done index true) (set_fast t (set_fbin (set_slot (fast t) index
      (mkSlot (bump (slots (fast t) index)) (slot_end (slots (fast t) index)) [] (slotSize (slots (fast t) index)))) index None)) =
      set_fast (masked done t) (detached (fast (masked done t)) index)) as E.
    { unfold masked. tred. rewrite mask_slot. unfold detached, mask. tred. by rewrite (upd_id (stack (fast t))). }
    constructor.
    + rewrite E. exact Hok'.
    + intros j. apply (Hnone' j (upd (fbins (fast t)) index None)); [|by rewrite upd_eq]. intros k Hk. by rewrite upd_ne.
    + intros p. rewrite E, Hlive'. apply Hlive.
    + done.
    + done.
    + done.
Qed.

Lemma leave_classes_ok t0 l : ∀ t done, leaving t0 t done → NoDup l → (∀ j, j ∈ l → done j = false) →
  ∃ t' done', leave_classes t l = Ok t' ∧ leaving t0 t' done' ∧ ∀ j, done' j = true ↔ done j = true ∨ j ∈ l.
Proof.
  induction l as [|index l IH]; intros t done Hl Hn Hd; cbn [leave_classes].
  { exists t, done. split; [done|]. split; [done|]. set_solver. }
  apply NoDup_cons in Hn as [Hni Hn]. destruct (leave_class_ok t0 t done index Hl) as (t1 & -> & Hl1); [set_solver|].
  cbn [obind]. destruct (IH t1 _ Hl1 Hn) as (t' & done' & E & Hl' & Hd').
  { intros j Hj. rewrite upd_ne by set_solver. set_solver. }
  exists t', done'. split; [done|]. split; [done|]. intros j. rewrite Hd', elem_of_cons. unfold upd.
  destruct (Z.eqb_spec j index) as [->|]; naive_solver.
Qed.

(** A thread whose size classes have no current bin. *)
Definition no_bins (t : Thread) : Prop := ∀ j, fbins (fast t) j = None.

(** The thread with the slots forgotten. *)
Definition plain (s : state) : state := set_thr s (set_fast (thr s) new_fast).

(** *** Freeing without current bins does not look at the [FastThread] *)

Section swap.
Context (f' : FastThread) (Hf' : ∀ j, fbins f' j = None).

Definition swap (s : state) : state := set_thr s (set_fast (thr s) f').
Definition swapped (o : outcome state) : outcome state := let! s := o in Ok (swap s).

Lemma put_bin_swap s b x : put_bin (swap s) b x = swapped (put_bin s b x).
Proof using.
  unfold put_bin, swapped. change (get_region (swap s) b.1) with (get_region s b.1).
  destruct (get_region s b.1) as [r| | | |]; try done. cbn [obind]. by destruct (of_option (rbins r !! b.2)).
Qed.

Lemma put_bin_no_bins s b x s' : put_bin s b x = Ok s' → no_bins (thr s) → no_bins (thr s').
Proof using. intros E%put_bin_keeps Hn j. by rewrite E. Qed.

Lemma reclaim_front_swap s index : no_bins (thr s) → reclaim_front (swap s) index = swapped (reclaim_front s index).
Proof using Hf'.
  intros Hn. unfold reclaim_front, swapped. change (emptyRegions (thr (swap s))) with (emptyRegions (thr s)).
  destruct (emptyRegions (thr s) index) as [|a rest]; [done|].
  change (get_region (swap s) a) with (get_region s a). destruct (get_region s a) as [r| | | |]; try done. cbn [obind].
  unfold swap. tred. destruct (negb (rfull r)).
  - destruct (list_erase a (activeRegions (thr s) index)) as [act| | | |]; try done. tred. rewrite Hf', Hn.
    destruct (list_erase a (allRegions (thr s))); try done. tred. unfold reclaimSingleRegion. tred.
    by destruct (add_span _ _ _).
  - tred. rewrite Hf', Hn. destruct (list_erase a (allRegions (thr s))); try done. tred. unfold reclaimSingleRegion. tred.
    by destruct (add_span _ _ _).
Qed.

Lemma keeps_no_bins s s' : keeps_none s s' → no_bins (thr s) → no_bins (thr s').
Proof using. intros Hk Hn j. auto. Qed.

Lemma reclaim_loop_swap fuel index threshold : ∀ s, no_bins (thr s) →
  reclaim_loop fuel (swap s) index threshold = swapped (reclaim_loop fuel s index threshold).
Proof using Hf'.
  induction fuel as [|fuel IH]; intros s Hn; cbn [reclaim_loop];
    change (numEmptyRegions (thr (swap s))) with (numEmptyRegions (thr s)); destruct (_ >=? _); try done.
  rewrite reclaim_front_swap by done. unfold swapped. destruct (reclaim_front s index) as [s1| | | |] eqn:E; try done. cbn [obind].
  rewrite IH; [done|]. eapply keeps_no_bins; [by eapply reclaim_front_keeps|done].
Qed.

Lemma became_empty_swap s a : no_bins (thr s) → handleBinBecameEmpty (swap s) a = swapped (handleBinBecameEmpty s a).
Proof using Hf'.
  intros Hn. unfold handleBinBecameEmpty, swapped. change (get_region (swap s) a) with (get_region s a).
  destruct (get_region s a) as [r| | | |]; try done. cbn [obind]. set (n := _ mod _). set (r1 := set_counts r _ n).
  change (put_region (swap s) a r1) with (swap (put_region s a r1)). set (s1 := put_region s a r1).
  destruct (n =? numCreatedBins r); [|done]. assert (no_bins (thr s1)) as Hn1 by done. clearbody s1.
  unfold markRegionEmpty. change (get_region (swap s1) a) with (get_region s1 a).
  destruct (get_region s1 a) as [r2| | | |]; try done. cbn [obind].
  set (s2 := if rempty r2 then _ else _). set (s2' := if rempty r2 then Ok s1 else _).
  assert (s2 = swapped s2' ∧ ∀ s3, s2' = Ok s3 → no_bins (thr s3)) as [-> Hn2].
  { unfold s2, s2'. destruct (rempty r2); (split; [done|]); by intros s3 [= <-]. }
  clearbody s2'. unfold swapped. destruct s2' as [s3| | | |]; try done. cbn [obind]. specialize (Hn2 s3 eq_refl).
  unfold maybeReclaimEmptyRegions. change (numEmptyRegions (thr (swap s3))) with (numEmptyRegions (thr s3)).
  destruct (_ =? 0); [done|]. change (emptyRegions (thr (swap s3))) with (emptyRegions (thr s3)).
  destruct (emptyRegions (thr s3) (rindex r)) as [|a' l]; [done|]. change (get_region (swap s3) a') with (get_region s3 a').
  destruct (get_region s3 a'); try done. cbn [obind]. destruct (_ <? _); [done|]. by apply reclaim_loop_swap.
Qed.

Lemma dec_remaining_swap s b : no_bins (thr s) → dec_remaining (swap s) b = swapped (dec_remaining s b).
Proof using Hf'.
  intros Hn. unfold dec_remaining, swapped. change (get_bin (swap s) b) with (get_bin s b).
  destruct (get_bin s b) as [x| | | |]; try done. cbn [obind]. rewrite put_bin_swap. unfold swapped.
  destruct (put_bin s b _) as [s1| | | |] eqn:E; try done. cbn [obind]. destruct (_ =? 0); [|done].
  apply became_empty_swap. by eapply put_bin_no_bins.
Qed.

Lemma moo_free_swap s p : no_bins (thr s) → moo_free (swap s) p = swapped (moo_free s p).
Proof using Hf'.
  intros Hn. unfold moo_free, swapped. destruct (_ =? 0); [done|].
  change (get_region (swap s)) with (get_region s). destruct (get_region s (region_of p)) as [r| | | |]; try done. cbn [obind].
  change (get_bin (swap s)) with (get_bin s). destruct (get_bin s _) as [x| | | |]; try done. cbn [obind].
  rewrite !bool_decide_eq_false_2 by (rewrite ?Hn; unfold swap; tred; rewrite ?Hf'; done). cbn [andb].
  unfold moo_free2. change (get_bin (swap s)) with (get_bin s). destruct (get_bin s _) as [y| | | |]; try done. cbn [obind].
  rewrite put_bin_swap. destruct (put_bin s _ _) as [s1| | | |] eqn:E1; try done. unfold swapped. cbn [obind].
  assert (no_bins (thr s1)) as Hn1 by (by eapply put_bin_no_bins).
  destruct (_ && _); [|by apply dec_remaining_swap].
  rewrite put_bin_swap. destruct (put_bin s1 _ _) as [s2| | | |] eqn:E2; try done. unfold swapped. cbn [obind].
  assert (no_bins (thr s2)) as Hn2 by (by eapply put_bin_no_bins).
  change (get_region (swap s2)) with (get_region s2). destruct (get_region s2 _) as [r2| | | |]; try done. cbn [obind].
  destruct (list_erase _ _) as [idl| | | |]; try done. cbn [obind]. unfold rfull, set_binlists.
  destruct r2 as [? ? ? [] ?]; cbn [obind]; (etrans; [|apply dec_remaining_swap]); done.
Qed.

Lemma free_all_swap l : ∀ s, no_bins (thr s) → free_all (swap s) l = swapped (free_all s l).
Proof using Hf'.
  induction l as [|p l IH]; intros s Hn; cbn [free_all]; [done|]. rewrite moo_free_swap by done. unfold swapped.
  destruct (moo_free s p) as [s1| | | |] eqn:E; try done. cbn [obind].
  rewrite IH; [done|]. eapply keeps_no_bins; [by eapply moo_free_keeps|done].
Qed.

Lemma drain_swap s : no_bins (thr s) → drainRemoteFrees (swap s) = swapped (drainRemoteFrees s).
Proof using Hf'. intros Hn. unfold drainRemoteFrees. by apply (free_all_swap _ (set_thr s (set_remote (thr s) []))). Qed.
End swap.

(** ** [destroyThread] up to the lock *)

Lemma live_no_bins t f' p : no_bins t → (∀ j, fbins f' j = None) → live (set_fast t f') p ↔ live t p.
Proof.
  intros Hn Hf'. unfold live. tred.
  assert (∀ a j, cur_of (set_fast t f') a j = cur_of t a j) as E; [|by setoid_rewrite E].
  intros a j. rewrite !cur_of_none; [done|by rewrite Hn|tred; by rewrite Hf'].
Qed.

Lemma plain_ok t : thread_ok t zero → no_bins t → thread_ok (set_fast t new_fast) zero.
Proof.
  intros Ht Hn. assert (∀ a j, cur_of (set_fast t new_fast) a j = cur_of t a j) as E.
  { intros a j. rewrite !cur_of_none; [done|by rewrite Hn|done]. }
  apply fast_view_ok; [done| | |done].
  - intros. by rewrite E.
  - intros a r i b st _. rewrite E, cur_of_none by apply Hn. done.
Qed.

(** A thread that gave its bins back. *)
Record left_inv (O : Z → Prop) (s : state) : Prop := {
  lf_no_bins : no_bins (thr s);
  lf_inv : alloc_inv O (plain s)
}.

Lemma inv_left O s f' : alloc_inv O s → no_bins (thr s) → (∀ j, fbins f' j = None) →
  left_inv O (swap f' s) ∧ ∀ q, used (swap f' s) q ↔ used s q.
Proof.
  intros [[Ht Hg] Hsm Hn Hr] Hnb Hf'. split; [constructor; [exact Hf'|]|].
  - assert (∀ p, live (thr (plain (swap f' s))) p ↔ live (thr s) p) as Hl by (intros p; by apply (live_no_bins (thr s) new_fast)).
    constructor; [split; [exact (plain_ok (thr s) Ht Hnb)|destruct Hg; by constructor]|exact Hsm|exact Hn|].
    intros p Hp. apply Hl, Hr, Hp.
  - intros q. unfold used. apply and_iff_compat_r. by apply live_no_bins.
Qed.

Lemma class_range t d j : thread_ok t d → is_Some (fbins (fast t) j) → class_ok j.
Proof.
  intros Ht [[a i] E]. destruct (to_fast _ _ Ht j) as [_ Hf]. rewrite E in Hf. destruct Hf as [Hf _].
  apply fmap_Some in Hf as (r & Ha & Hf). injection Hf as -> _. apply (to_regions _ _ Ht a r Ha).
Qed.

Lemma leave_ok O s : alloc_inv O s →
  ∃ s', leaveThread s = Ok s' ∧ left_inv O s' ∧ (∀ q, used s' q ↔ used s q) ∧ kept_used s s' ∧
    exited (thr s') = exited (thr s) ∧ remoteFreeList (thr s') = [].
Proof.
  intros [[Ht Hg] Hsm Hn Hr]. unfold leaveThread.
  assert (leaving (thr s) (thr s) (λ _, false)) as Hl0.
  { assert (masked (λ _, false) (thr s) = thr s) as E by (by destruct s as [? [? ? ? ? ? ? ? []]]).
    constructor; rewrite ?E; try done. intros a r r'. apply index_same. }
  destruct (leave_classes_ok (thr s) (seqZ 0 64) (thr s) (λ _, false) Hl0) as (t' & done' & -> & [Hok Hno Hlive Hown Hidx Hsame] & Hd).
  { apply NoDup_seqZ. } { done. }
  assert (no_bins t') as Hnb.
  { intros j. destruct (fbins (fast t') j) as [b|] eqn:E; [|done]. exfalso.
    assert (class_ok j) as Hc by (apply (class_range _ _ j Hok); exists b; exact E). unfold class_ok in Hc.
    rewrite Hno in E; [done|]. apply Hd. right. apply elem_of_seqZ. lia. }
  cbn [obind]. set (s1 := set_thr s (masked done' t')). destruct Hsame as (E1 & E2 & E3).
  assert (alloc_inv O s1) as Hi1.
  { constructor; [split; [exact Hok|]| | |].
    - destruct Hg. constructor; try done; intros x; change (own (thr s1) x) with (own t' x); rewrite Hown; auto.
    - intros j. unfold s1, masked. tred. rewrite E3. apply Hsm.
    - unfold s1, masked. tred. by rewrite E1.
    - intros p. unfold s1. tred. rewrite Hlive. unfold masked. tred. rewrite E1. apply Hr. }
  replace (set_thr s t') with (swap (fast t') s1) by (unfold swap, s1, masked; tred; by destruct t'). rewrite drain_swap by done.
  destruct (drain_ok O s1 Hi1) as (s2 & -> & [Hi2 Hu2 Hk2 Hx2] & Hrem & Hk). unfold swapped. cbn [obind].
  destruct (inv_left O s2 (fast t') Hi2) as [Hleft Hu]; [by eapply keeps_no_bins|done|].
  assert (∀ q, used s1 q ↔ used s q) as Hu1.
  { intros q. unfold used, s1. tred. rewrite Hlive. unfold masked. tred. by rewrite E1. }
  eexists. split; [reflexivity|]. split; [done|]. split; [|split; [|split; [by etrans; [apply Hx2|]|done]]].
  - intros q. by rewrite Hu, Hu2.
  - apply (kept_used_trans _ s1); [intros q; by rewrite Hu1| |].
    2: { apply (kept_used_trans _ s2); [intros q _; by rewrite Hu|done|by apply kept_used_same]. }
    apply kept_kept_used, (kept_ok _ _ zero); [exact Hok|exact Hidx].
Qed.
