(* ===== verification/MooOrphanFacts.v ===== *)
(** * Regions of threads that have exited

    The blocks of an exited thread stay valid; every free counts them down, and
    the region goes back to the free spans with its last block. *)

From Stdlib Require Import ZArith Lia.
From stdpp Require Import base gmap option list.
From S2P Require Import Prelude Moo MooSystem MooSpanFacts MooFacts MooAllocFacts MooMediumFacts MooMemoryFacts.
From S2P Require Import MooTotalFacts MooExitFacts.

Local Set Warnings "-clear-no-such-hyp".

(** ** Bins *)

Definition outstanding (index start : Z) (x : Bin) : Z :=
  (bfreearea x - start) / nbytes index - Z.of_nat (length (freelist x)).

(** The bin as it would be if its thread used it. *)
Definition revived (index start : Z) (x : Bin) : Bin :=
  mkBin (freelist x) (capacity x) (outstanding index start x) (bfreearea x) (bend x) false true false false 0 index.

(** The slots of the bin are in order, whatever its flags and counters say. *)
Definition bin_shape (index start : Z) (x : Bin) : Prop :=
  bin_ok index start (revived index start x) (bfreearea x) (freelist x) 0.

Lemma shape_of_bin index start x d : bin_ok index start x (bfreearea x) (freelist x) d → bin_shape index start x.
Proof. intros []. constructor; try done. unfold revived, outstanding. tred. lia. Qed.

Definition bin_uses (index start : Z) (x : Bin) (p : Z) : Prop :=
  live_in index start (bfreearea x) (freelist x) p.

Section bin.
Context (index start : Z) (x : Bin) (Hc : class_ok index) (Hx : bin_shape index start x).

Lemma outstanding_range : 0 ≤ outstanding index start x < 2 ^ 15.
Proof using Hc Hx.
  pose proof (free_le _ Hc _ _ _ _ _ Hx). pose proof (used_bound _ Hc _ _ _ _ _ Hx). unfold outstanding. lia.
Qed.

Lemma outstanding_zero p : outstanding index start x = 0 → ¬ bin_uses index start x p.
Proof using Hc Hx.
  intros E Hp. pose proof (live_free_lt _ Hc _ _ _ _ _ _ Hx Hp). unfold outstanding in E. lia.
Qed.

Lemma outstanding_some : outstanding index start x ≠ 0 → ∃ p, bin_uses index start x p.
Proof using Hc Hx.
  intros Hne. pose proof outstanding_range. destruct (bo_area _ _ _ _ _ _ Hx) as [Ha _].
  destruct (decide (Forall (λ p, p ∈ freelist x) (slots_below index start (bfreearea x)))) as [Hall|Hnot].
  - exfalso. assert (length (slots_below index start (bfreearea x)) ≤ length (freelist x))%nat as Hlen.
    { apply submseteq_length, NoDup_submseteq; [by apply NoDup_slots_below|]. by apply Forall_forall. }
    pose proof (length_slots_below index Hc start (bfreearea x) Ha). unfold outstanding in *. lia.
  - apply not_Forall_Exists in Hnot; [|apply _]. apply Exists_exists in Hnot as (p & Hp & Hn). exists p.
    apply elem_slots_below in Hp as [? ?]; [by split_and!|done|done].
Qed.

Lemma compute_ok : 0 < start → start + binsize index ≤ addr_max → computeBinOutstanding x index = Ok (outstanding index start x).
Proof using Hc Hx.
  intros Hs He. pose proof outstanding_range. unfold computeBinOutstanding, countFreelist. rewrite class_bytes_nb by done. cbn [obind].
  pose proof (bo_end _ _ _ _ _ _ Hx) as E1. pose proof (bo_cap _ _ _ _ _ _ Hx) as E2. cbn in E1, E2. rewrite E1, E2.
  destruct (bo_area _ _ _ _ _ _ Hx) as [Ha Hle]. cbn in Hle. rewrite E1 in Hle. apply (slot_ge _ Hc) in Ha.
  pose proof (lf_cap _ (layout_ok _ Hc)) as Hcap. rewrite Z.mul_comm in Hcap. rewrite Hcap.
  pose proof (binsize_pos index). unfold addr_max in *. rewrite (u64_small (binsize index)) by lia.
  rewrite (u64_small (start + binsize index - binsize index)) by lia.
  replace (start + binsize index - binsize index) with start by lia. rewrite (u64_small (bfreearea x - start)) by lia.
  fold (outstanding index start x). by rewrite u64_small by lia.
Qed.

(** The block [p] comes back. *)
Lemma shape_push x' p :
  bin_uses index start x p → freelist x' = p :: freelist x → bfreearea x' = bfreearea x → bend x' = bend x →
  capacity x' = capacity x →
  bin_shape index start x' ∧ outstanding index start x' = outstanding index start x - 1 ∧
  ∀ q, bin_uses index start x' q ↔ bin_uses index start x q ∧ q ≠ p.
Proof using Hx.
  intros Hp E1 E2 E3 E4. unfold bin_uses. rewrite E1, E2. split; [|split].
  - destruct Hx as [? ? ? ? Hn Hf ? ? ?]. destruct Hp as (Hp1 & Hp2 & Hp3).
    unfold bin_shape, revived in *. constructor; tred; rewrite ?E1, ?E2, ?E3, ?E4; try done.
    + by constructor.
    + intros q [->|Hq]%elem_of_cons; auto.
    + unfold outstanding. rewrite E1, E2. lia.
  - unfold outstanding. rewrite E1, E2. cbn [length]. lia.
  - intros q. by apply live_in_push.
Qed.
End bin.

(** ** Regions *)

(** The region as far as its blocks are concerned. *)
Record loose (a : Z) (r : Region) : Prop := {
  lo_shape : shape a r;
  lo_len : (1 ≤ length (rbins r))%nat;
  lo_binarea : freebinarea r = a + sizeof_Region + sizeof_Bin * Z.of_nat (length (rbins r));
  lo_bins : ∀ i x, rbins r !! i = Some x → bin_shape (rindex r) (bin_start a (rindex r) i) x
}.

Lemma loose_of_region a r : region_ok a r None (zero a) → loose a r.
Proof.
  intros Hr. constructor; [by eapply shape_ok| | |]; destruct Hr; try done; [lia|].
  intros i x Hx. eapply shape_of_bin. by apply ro_bins.
Qed.

Definition region_uses (a : Z) (r : Region) (p : Z) : Prop :=
  ∃ i x, rbins r !! i = Some x ∧ bin_uses (rindex r) (bin_start a (rindex r) i) x p.

(** The bins of which no block is in use. *)
Fixpoint idle_bins (a index : Z) (i : nat) (bins : list Bin) : Z :=
  match bins with
  | [] => 0
  | x :: bins => (if outstanding index (bin_start a index i) x =? 0 then 1 else 0) + idle_bins a index (S i) bins
  end.

(** The bookkeeping of an orphaned region. *)
Record counted (a : Z) (r : Region) : Prop := {
  co_created : numCreatedBins r = Z.of_nat (length (rbins r));
  co_empty : numEmptyBins r = idle_bins a (rindex r) 0 (rbins r);
  co_bins : ∀ i x, rbins r !! i = Some x →
    let n := outstanding (rindex r) (bin_start a (rindex r) i) x in
    orphaned x = negb (n =? 0) ∧ (n ≠ 0 → orphan_outstanding x = n);
  co_thread : rthread r = negb (numEmptyBins r =? numCreatedBins r)
}.

Lemma idle_bins_range a index i bins : 0 ≤ idle_bins a index i bins ≤ Z.of_nat (length bins).
Proof.
  revert i. induction bins as [|x bins IH]; intros i; cbn [idle_bins length]; [lia|]. specialize (IH (S i)).
  destruct (_ =? 0); lia.
Qed.

Lemma idle_bins_insert a index i j bins x x' :
  bins !! j = Some x →
  idle_bins a index i (<[j := x']> bins) = idle_bins a index i bins
    - (if outstanding index (bin_start a index (i + j)) x =? 0 then 1 else 0)
    + (if outstanding index (bin_start a index (i + j)) x' =? 0 then 1 else 0).
Proof.
  revert i j. induction bins as [|y bins IH]; intros i [|j] Hj; [done..| |].
  - injection Hj as ->. cbn [insert list_insert idle_bins]. rewrite Nat.add_0_r. lia.
  - change (<[S j:=x']> (y :: bins)) with (y :: <[j:=x']> bins). cbn [idle_bins]. cbn in Hj.
    rewrite (IH (S i) j Hj), Nat.add_succ_comm. lia.
Qed.

Lemma idle_bins_all a index i bins :
  idle_bins a index i bins = Z.of_nat (length bins) →
  ∀ j x, bins !! j = Some x → outstanding index (bin_start a index (i + j)) x = 0.
Proof.
  revert i. induction bins as [|y bins IH]; intros i E [|j] x Hj; [done..| |]; cbn [idle_bins length] in E;
    pose proof (idle_bins_range a index (S i) bins);
    destruct (Z.eqb_spec (outstanding index (bin_start a index i) y) 0) as [E0|E0]; try lia.
  - injection Hj as ->. by rewrite Nat.add_0_r.
  - rewrite <- Nat.add_succ_comm. apply (IH (S i)); [lia|done].
Qed.

Lemma idle_bins_some a index i bins :
  idle_bins a index i bins ≠ Z.of_nat (length bins) →
  ∃ j x, bins !! j = Some x ∧ outstanding index (bin_start a index (i + j)) x ≠ 0.
Proof.
  revert i. induction bins as [|y bins IH]; intros i E; [done|]. cbn [idle_bins length] in E.
  destruct (Z.eqb_spec (outstanding index (bin_start a index i) y) 0) as [E0|E0].
  - destruct (IH (S i)) as (j & x & Hj & Ho); [lia|]. exists (S j), x. by rewrite <- Nat.add_succ_comm.
  - exists 0%nat, y. by rewrite Nat.add_0_r.
Qed.

(** A region that stays has one. *)
Lemma alive_region a r : loose a r → counted a r → rthread r = true → ∃ p, region_uses a r p.
Proof.
  intros Hl [E1 E2 _ E3] Ht. rewrite Ht in E3. symmetry in E3. apply negb_true_iff, Z.eqb_neq in E3.
  destruct (idle_bins_some a (rindex r) 0 (rbins r)) as (j & x & Hj & Ho); [congruence|].
  destruct (outstanding_some _ _ x (sh_class _ _ (lo_shape _ _ Hl)) (lo_bins _ _ Hl j x Hj) Ho) as [p Hp].
  by exists p, j, x.
Qed.

(** A region that is counted out has no block in use. *)
Lemma dead_region a r p : loose a r → counted a r → rthread r = false → ¬ region_uses a r p.
Proof.
  intros Hl [E1 E2 _ E3] Hf (i & x & Hx & Hp). rewrite Hf in E3. symmetry in E3.
  apply negb_false_iff, Z.eqb_eq in E3. revert Hp.
  apply outstanding_zero; [apply Hl|by apply Hl|]. apply (idle_bins_all a (rindex r) 0 (rbins r)); [congruence|done].
Qed.

(** ** Threads *)

Record loose_thread (t : Thread) : Prop := {
  lt_regions : ∀ a r, regions t !! a = Some r → loose a r;
  lt_all : all_ok t;
  lt_disj : disj_ok t;
  lt_bins : no_bins t
}.

Definition uses (t : Thread) (p : Z) : Prop := ∃ a r, regions t !! a = Some r ∧ region_uses a r p.

Lemma uses_live t p : no_bins t → live t p ↔ uses t p.
Proof.
  intros Hn. unfold live, uses, region_live, bin_live, region_uses, bin_uses.
  split; intros (a & r & Ha & i & x & Hx & Hl); exists a, r; (split; [done|]); exists i, x; (split; [done|]);
    rewrite cur_of_none in * by apply Hn; exact Hl.
Qed.

Lemma loose_of_thread t : thread_ok t zero → no_bins t → loose_thread t.
Proof.
  intros Ht Hn. constructor; try apply Ht; [|done]. intros a r Ha. apply loose_of_region.
  rewrite <- (cur_of_none t a (rindex r)) by apply Hn. by apply Ht.
Qed.

(** Where a block lies. *)
Lemma bin_place a r i x p : loose a r → rbins r !! i = Some x → bin_uses (rindex r) (bin_start a (rindex r) i) x p →
  region_of p = a ∧ bin_of r p = i ∧ a ≤ p ∧ p + nbytes (rindex r) ≤ rend r.
Proof.
  intros Hl Hx Hp. pose proof (lo_bins _ _ Hl i x Hx) as Hb. apply (shape_place a r i x); [apply Hl|done|apply Hp|].
  by apply (live_bin_bound _ _ _ _ _ _ _ Hb).
Qed.

Lemma uses_place t p : loose_thread t → uses t p → ∃ r x,
  regions t !! region_of p = Some r ∧ rbins r !! bin_of r p = Some x ∧
  bin_uses (rindex r) (bin_start (region_of p) (rindex r) (bin_of r p)) x p ∧
  get_block_bin t p = Ok (region_of p, r, bin_of r p, x).
Proof.
  intros Ht (a & r & Ha & i & x & Hx & Hp).
  destruct (bin_place a r i x p (lt_regions _ Ht a r Ha) Hx Hp) as (E1 & E2 & _). exists r, x. rewrite E1, E2.
  split; [done|]. split; [done|]. split; [done|]. unfold get_block_bin. rewrite E1, Ha. cbn [of_option obind].
  rewrite E2, Hx. done.
Qed.

(** *** A block comes back *)

(** A region that differs in flags, lists and counters. *)
Record same_place (r r' : Region) : Prop := {
  sp_index : rindex r' = rindex r;
  sp_end : rend r' = rend r;
  sp_shift : binshift r' = binshift r;
  sp_data : databegin r' = databegin r;
  sp_binarea : freebinarea r' = freebinarea r;
  sp_bins : rbins r' = rbins r
}.

Section push.
Context (t : Thread) (p : Z) (r : Region) (x : Bin).
Context (Ht : loose_thread t) (Ha : regions t !! region_of p = Some r) (Hx : rbins r !! bin_of r p = Some x).
Context (Hp : bin_uses (rindex r) (bin_start (region_of p) (rindex r) (bin_of r p)) x p).
Context (r' : Region) (x' : Bin) (Hr : same_place r r').
Context (E1 : freelist x' = p :: freelist x) (E2 : bfreearea x' = bfreearea x) (E3 : bend x' = bend x).
Context (E4 : capacity x' = capacity x).

Let a := region_of p.
Let i := bin_of r p.
Let t' := put_block_bin t a r' i x'.
Let r1 := set_bins r' (<[i := x']> (rbins r')).

Lemma push_bin : bin_shape (rindex r) (bin_start a (rindex r) i) x' ∧
  outstanding (rindex r) (bin_start a (rindex r) i) x' = outstanding (rindex r) (bin_start a (rindex r) i) x - 1 ∧
  ∀ q, bin_uses (rindex r) (bin_start a (rindex r) i) x' q ↔ bin_uses (rindex r) (bin_start a (rindex r) i) x q ∧ q ≠ p.
Proof using All. apply shape_push; try done. by apply (lt_regions _ Ht a r Ha). Qed.

Lemma push_lookup j : rbins r1 !! j = if decide (j = i) then Some x' else rbins r !! j.
Proof using Hx Hr.
  unfold r1. tred. rewrite (sp_bins _ _ Hr). destruct (decide _) as [->|].
  - apply list_lookup_insert_eq. by eapply lookup_lt_Some.
  - by apply list_lookup_insert_ne.
Qed.

Lemma push_loose : loose a r1.
Proof using All.
  destruct push_bin as (Hs & _ & _). pose proof (lt_regions _ Ht a r Ha) as [[] ? ? ?]. destruct Hr.
  constructor; [constructor|..]; unfold r1; tred; rewrite ?sp_index0, ?sp_end0, ?sp_shift0, ?sp_data0, ?sp_binarea0,
    ?sp_bins0, ?length_insert; try done.
  - intros j y. rewrite list_lookup_insert_Some. intros [(<- & <- & _)|[_ Hy]]; [rewrite E3|]; auto.
  - intros j y. rewrite list_lookup_insert_Some. intros [(<- & <- & _)|[_ Hy]]; [done|auto].
Qed.

Lemma push_region_uses q : region_uses a r1 q ↔ region_uses a r q ∧ q ≠ p.
Proof using All.
  destruct push_bin as (_ & _ & Hu). pose proof (lt_regions _ Ht a r Ha) as Hl. unfold region_uses.
  change (rindex r1) with (rindex r'). rewrite (sp_index _ _ Hr). setoid_rewrite push_lookup. split.
  - intros (j & y & Hy & Hq). destruct (decide _) as [->|Hj].
    + injection Hy as <-. apply Hu in Hq as [Hq Hne]. split; [by exists i, x|done].
    + split; [by exists j, y|]. intros ->. apply Hj. destruct (bin_place a r j y p Hl Hy Hq) as (_ & ? & _). done.
  - intros [(j & y & Hy & Hq) Hne]. exists j. destruct (decide _) as [->|Hj]; [|by exists y].
    exists x'. split; [done|]. apply Hu. unfold i in Hy. by simplify_eq.
Qed.

Lemma push_uses q : uses t' q ↔ uses t q ∧ q ≠ p.
Proof using All.
  unfold uses, t', put_block_bin. tred. fold r1. split.
  - intros (a' & r0 & Ha' & Hq). apply lookup_insert_Some in Ha' as [[<- <-]|[Hne Ha']].
    + apply push_region_uses in Hq as [Hq Hne]. split; [by exists a, r|done].
    + split; [by exists a', r0|]. intros ->. destruct Hq as (j & y & Hy & Hq).
      by destruct (bin_place a' r0 j y p (lt_regions _ Ht a' r0 Ha') Hy Hq) as [? _].
  - intros [(a' & r0 & Ha' & Hq) Hne]. destruct (decide (a' = a)) as [->|Hne'].
    + exists a, r1. rewrite lookup_insert_eq. split; [done|]. apply push_region_uses. unfold a in Ha'. by simplify_eq.
    + exists a', r0. by rewrite lookup_insert_ne.
Qed.

Lemma push_extent a' y : extent t' a' y ↔ extent t a' y.
Proof using All.
  pose proof Ha as Ha'. fold a in Ha'. assert (rend r1 = rend r) as Ee by apply Hr.
  unfold extent, t', put_block_bin. tred. fold r1. destruct (decide (a' = a)) as [->|Hne].
  - rewrite lookup_insert_eq, Ha'. split; intros (r0 & [= <-] & ?); eexists; (split; [done|]); by rewrite ?Ee in *.
  - by rewrite lookup_insert_ne.
Qed.

Lemma push_thread : loose_thread t'.
Proof using All.
  pose proof push_loose as Hl. pose proof Ha as Ha0. fold a in Ha0. destruct Ht as [Hreg [Hn Hall] Hdisj Hno]. constructor.
  - intros a' r0. unfold t', put_block_bin. tred. fold r1. rewrite lookup_insert_Some. intros [[<- <-]|[_ Ha']]; auto.
  - split; [done|]. intros a'. unfold t', put_block_bin. tred. rewrite Hall. destruct (decide (a' = a)) as [->|Hne].
    + by rewrite lookup_insert_eq, Ha0.
    + by rewrite lookup_insert_ne.
  - intros a1 a2 y. rewrite !push_extent. apply Hdisj.
  - done.
Qed.
End push.

Lemma push_block_ok r i x p : ∃ r' x', push_block r i x p = (r', x') ∧ same_place r r' ∧
  freelist x' = p :: freelist x ∧ bfreearea x' = bfreearea x ∧ bend x' = bend x ∧ capacity x' = capacity x ∧
  orphaned x' = orphaned x ∧ orphan_outstanding x' = orphan_outstanding x ∧
  rthread r' = rthread r ∧ numCreatedBins r' = numCreatedBins r ∧ numEmptyBins r' = numEmptyBins r.
Proof.
  unfold push_block. tred. destruct (full x); do 2 eexists; (split; [reflexivity|]); (split; [by constructor|]); done.
Qed.

(** The thread after some blocks came back. *)
Record returned (t t' : Thread) (l : list Z) : Prop := {
  re_loose : loose_thread t';
  re_uses : ∀ q, uses t' q ↔ uses t q ∧ q ∉ l;
  re_own : ∀ x, own t' x ↔ own t x;
  re_index : ∀ a r r', regions t !! a = Some r → regions t' !! a = Some r' → rindex r' = rindex r;
  re_dom : ∀ a, is_Some (regions t' !! a) ↔ is_Some (regions t !! a);
  re_same : remoteFreeList t' = remoteFreeList t ∧ exited t' = exited t ∧ fast t' = fast t
}.

Lemma returned_nil t : loose_thread t → returned t t [].
Proof. intros Ht. constructor; try done; [intros q; set_solver|]. intros a r r'. apply index_same. Qed.

Lemma returned_cons t t1 t2 p l : returned t t1 [p] → returned t1 t2 l → returned t t2 (p :: l).
Proof.
  intros [_ Hu Ho Hi Hd [E1 [E2 E3]]] [? Hu' Ho' Hi' Hd' [E4 [E5 E6]]]. constructor; [done| | | | |].
  - intros q. rewrite Hu', Hu. set_solver.
  - intros x. by rewrite Ho'.
  - intros a r r' Hr Hr'. destruct (proj2 (Hd a)) as [r1 Hr1]; [by exists r|]. rewrite (Hi' a r1 r') by done. by eapply Hi.
  - intros a. by rewrite Hd'.
  - split; [congruence|]. split; congruence.
Qed.

Lemma push_returned t p r x r' x' :
  loose_thread t → regions t !! region_of p = Some r → rbins r !! bin_of r p = Some x →
  bin_uses (rindex r) (bin_start (region_of p) (rindex r) (bin_of r p)) x p →
  same_place r r' → freelist x' = p :: freelist x → bfreearea x' = bfreearea x → bend x' = bend x →
  capacity x' = capacity x → returned t (put_block_bin t (region_of p) r' (bin_of r p) x') [p].
Proof.
  intros Ht Ha Hx Hp Hr E1 E2 E3 E4. constructor; [by eapply push_thread| | | | |done].
  - intros q. rewrite (push_uses t p r x) by done. by rewrite not_elem_of_cons; set_solver.
  - intros y. unfold own. by setoid_rewrite (push_extent t p r x).
  - intros a r1 r2. unfold put_block_bin. tred. apply (index_put _ (region_of p) r); [done|apply Hr].
  - intros a. unfold put_block_bin. tred. rewrite lookup_insert_is_Some. destruct (decide (region_of p = a)) as [<-|]; [|tauto].
    rewrite Ha. naive_solver.
Qed.

(** No region of the thread is marked to be taken back. *)
Definition unmarked (t : Thread) : Prop := ∀ a r, regions t !! a = Some r → rthread r = true.

Lemma push_remote_ok l : ∀ t, loose_thread t → NoDup l → (∀ p, p ∈ l → uses t p) → unmarked t →
  ∃ t', push_remote t l = Ok t' ∧ returned t t' l ∧ unmarked t'.
Proof.
  induction l as [|p l IH]; intros t Ht Hn Hl Hm; cbn [push_remote]; [exists t; auto using returned_nil|].
  apply NoDup_cons in Hn as [Hp Hn]. destruct (uses_place t p Ht) as (r & x & Ha & Hx & Hu & E); [set_solver|].
  unfold pushToFreelist. rewrite E. cbn [obind].
  destruct (push_block_ok r (bin_of r p) x p) as (r' & x' & -> & Hr & E1 & E2 & E3 & E4 & _ & _ & E5 & _). cbn [obind].
  pose proof (push_returned t p r x r' x' Ht Ha Hx Hu Hr E1 E2 E3 E4) as Hret.
  destruct (IH _ (re_loose _ _ _ Hret) Hn) as (t' & E' & Hret' & Hm').
  { intros q Hq. apply (re_uses _ _ _ Hret). set_solver. }
  { intros a' r0. unfold put_block_bin. tred. rewrite lookup_insert_Some. intros [[_ <-]|[_ Ha']]; [|by eapply Hm].
    tred. rewrite E5. by eapply Hm. }
  exists t'. split; [done|]. split; [by eapply returned_cons|done].
Qed.

(** ** Counting when the thread exits *)

(** Bins that differ in the bookkeeping. *)
Definition same_blocks (x x' : Bin) : Prop :=
  freelist x' = freelist x ∧ bfreearea x' = bfreearea x ∧ bend x' = bend x ∧ capacity x' = capacity x.

Lemma orphan_bins_ok a index : class_ok index → ∀ bins i,
  (∀ j x, bins !! j = Some x → bin_shape index (bin_start a index (i + j)) x ∧
     0 < bin_start a index (i + j) ∧ bin_start a index (i + j) + binsize index ≤ addr_max) →
  ∃ bins', orphan_bins bins index = Ok (bins', idle_bins a index i bins) ∧ length bins' = length bins ∧
    ∀ j x', bins' !! j = Some x' → ∃ x, bins !! j = Some x ∧ same_blocks x x' ∧
      let n := outstanding index (bin_start a index (i + j)) x in
      orphaned x' = negb (n =? 0) ∧ (n ≠ 0 → orphan_outstanding x' = n).
Proof.
  intros Hc. induction bins as [|x bins IH]; intros i Hb; cbn [orphan_bins idle_bins]; [by exists []|].
  destruct (Hb 0%nat x eq_refl) as (Hs & H1 & H2). rewrite Nat.add_0_r in *.
  rewrite (compute_ok index _ x Hc Hs H1 H2). cbn [obind]. pose proof (outstanding_range _ _ _ Hc Hs).
  destruct (IH (S i)) as (bins' & -> & Hlen & Hb').
  { intros j y Hy. rewrite Nat.add_succ_comm. by apply (Hb (S j)). }
  cbn [obind]. destruct (Z.eqb_spec (outstanding index (bin_start a index i) x) 0) as [E|E].
  - eexists. split; [f_equal; f_equal; lia|]. split; [cbn; lia|]. intros [|j] x'.
    + intros [= <-]. exists x. rewrite Nat.add_0_r, E. done.
    + intros Hx'. rewrite <- Nat.add_succ_comm. by apply Hb'.
  - eexists. split; [reflexivity|]. split; [cbn; lia|]. intros [|j] x'.
    + intros [= <-]. exists x. rewrite Nat.add_0_r. split; [done|]. split; [done|]. cbn zeta.
      rewrite (proj2 (Z.eqb_neq _ _)) by done. split; [done|]. intros _. cbn. by rewrite Z.mod_small by lia.
    + intros Hx'. rewrite <- Nat.add_succ_comm. by apply Hb'.
Qed.

Lemma shape_bounds a r i x : shape a r → rbins r !! i = Some x →
  0 < bin_start a (rindex r) i ∧ bin_start a (rindex r) i + binsize (rindex r) ≤ addr_max.
Proof.
  intros [Hc [Ha1 Ha2] [He He'] _ _ Hlen _] Hx. destruct (layout_ok _ Hc). pose proof (binsize_pos (rindex r)).
  apply lookup_lt_Some in Hx. unfold bin_start.
  assert (0 ≤ Z.of_nat i * binsize (rindex r) ≤ (max_bins (rindex r) - 1) * binsize (rindex r)).
  { split; [apply Z.mul_nonneg_nonneg; lia|apply Z.mul_le_mono_nonneg_r; lia]. }
  assert (max_bins (rindex r) * binsize (rindex r) ≤ region_bytes (rindex r) - data_off (rindex r)).
  { unfold max_bins. rewrite Z.mul_comm. apply Z.mul_div_le. lia. }
  assert (0 ≤ data_off (rindex r)) by (unfold sizeof_Region, sizeof_Bin in *; lia). lia.
Qed.

Lemma same_blocks_facts index start x x' : same_blocks x x' →
  outstanding index start x' = outstanding index start x ∧ (bin_shape index start x → bin_shape index start x') ∧
  ∀ q, bin_uses index start x' q ↔ bin_uses index start x q.
Proof.
  intros (E1 & E2 & E3 & E4). unfold outstanding, bin_shape, revived, bin_uses. rewrite E1, E2, E3, E4.
  unfold outstanding. by rewrite E1, E2.
Qed.

Lemma idle_bins_ext a index : ∀ bins bins' i, length bins' = length bins →
  (∀ j x', bins' !! j = Some x' → ∃ x, bins !! j = Some x ∧ same_blocks x x') →
  idle_bins a index i bins' = idle_bins a index i bins.
Proof.
  induction bins as [|x bins IH]; intros [|x' bins'] i Hlen Hb; try done. cbn [idle_bins].
  destruct (Hb 0%nat x' eq_refl) as (y & [= <-] & Hs). destruct (same_blocks_facts index (bin_start a index i) x x' Hs) as [-> _].
  rewrite (IH bins'); [done|by injection Hlen|]. intros j z Hz. apply (Hb (S j) z Hz).
Qed.

(** The region with the bookkeeping of its bins. *)
Section recount.
Context (a : Z) (r : Region) (bins' : list Bin) (Hl : loose a r) (Hlen : length bins' = length (rbins r)).
Context (Hb : ∀ j x', bins' !! j = Some x' → ∃ x, rbins r !! j = Some x ∧ same_blocks x x' ∧
  let n := outstanding (rindex r) (bin_start a (rindex r) j) x in
  orphaned x' = negb (n =? 0) ∧ (n ≠ 0 → orphan_outstanding x' = n)).
Context (created empty : Z) (f e th : bool).

Let r' := set_rflags (set_counts (set_bins r bins') created empty) f e th.

Lemma recount_loose : loose a r'.
Proof using Hl Hlen Hb.
  destruct Hl as [[] ? ? ?]. constructor; [constructor|..]; unfold r'; tred; rewrite ?Hlen; try done.
  - intros j x' Hx'. destruct (Hb j x' Hx') as (x & Hx & (_ & _ & E & _) & _). rewrite E. auto.
  - intros j x' Hx'. destruct (Hb j x' Hx') as (x & Hx & Hs & _). by apply (same_blocks_facts _ _ _ _ Hs), lo_bins0.
Qed.

Lemma recount_uses q : region_uses a r' q ↔ region_uses a r q.
Proof using Hlen Hb.
  unfold region_uses, r'. tred. split.
  - intros (j & x' & Hx' & Hq). destruct (Hb j x' Hx') as (x & Hx & Hs & _). exists j, x. split; [done|].
    by apply (same_blocks_facts _ _ _ _ Hs).
  - intros (j & x & Hx & Hq). assert (is_Some (bins' !! j)) as [x' Hx'].
    { apply lookup_lt_is_Some. rewrite Hlen. by eapply lookup_lt_Some. }
    exists j, x'. split; [done|]. destruct (Hb j x' Hx') as (y & Hy & Hs & _). simplify_eq.
    by apply (same_blocks_facts _ _ _ _ Hs).
Qed.

Lemma recount_counted : created = Z.of_nat (length (rbins r)) → empty = idle_bins a (rindex r) 0 (rbins r) →
  th = negb (empty =? created) → counted a r'.
Proof using Hlen Hb.
  intros -> -> ->. constructor; unfold r'; tred; rewrite ?Hlen; try done.
  - symmetry. apply idle_bins_ext; [done|]. intros j x' Hx'. destruct (Hb j x' Hx') as (x & ? & ? & _). eauto.
  - intros j x' Hx'. destruct (Hb j x' Hx') as (x & Hx & Hs & Ho). cbn zeta.
    destruct (same_blocks_facts (rindex r) (bin_start a (rindex r) j) x x' Hs) as [-> _]. exact Ho.
Qed.
End recount.

(** [orphan_region] counts the blocks that are in use. *)
Lemma orphan_region_ok a r : loose a r → rthread r = true →
  ∃ r', orphan_region a r = Ok r' ∧ loose a r' ∧ counted a r' ∧ (rend r' = rend r ∧ rindex r' = rindex r) ∧
    ∀ q, region_uses a r' q ↔ region_uses a r q.
Proof.
  intros Hl Hth. pose proof Hl as [Hsh Hlen Hba Hb]. pose proof (sh_class _ _ Hsh) as Hc. destruct (layout_ok _ Hc).
  destruct (sh_addr _ _ Hsh) as [_ Ha]. pose proof (sh_len _ _ Hsh) as Hmax. destruct (sh_end _ _ Hsh) as [He He'].
  unfold orphan_region. unfold addr_max in *.
  assert ((u64 (freebinarea r - u64 (a + sizeof_Region)) / sizeof_Bin) mod 2 ^ 16 = Z.of_nat (length (rbins r))) as ->.
  { rewrite Hba. change sizeof_Region with 192. change sizeof_Bin with 64. rewrite (u64_small (a + 192)) by lia.
    replace (a + 192 + 64 * _ - (a + 192)) with (Z.of_nat (length (rbins r)) * 64) by lia.
    rewrite u64_small, Z.div_mul, Z.mod_small by lia. done. }
  rewrite Z.eqb_refl. destruct (orphan_bins_ok a (rindex r) Hc (rbins r) 0) as (bins' & -> & Hlen' & Hb').
  { intros j x Hx. destruct (shape_bounds a r j x Hsh Hx). auto. }
  pose proof (idle_bins_range a (rindex r) 0 (rbins r)). cbn [obind]. rewrite Z.mod_small by lia.
  rewrite Z.gtb_ltb, (proj2 (Z.ltb_lt _ _)) by lia. rewrite andb_true_r.
  set (n := idle_bins _ _ _ _) in *. set (c := Z.of_nat _) in *.
  exists (set_rflags (set_counts (set_bins r bins') c n) (rfull r) (rempty r) (negb (n =? c))).
  split; [destruct (n =? c); cbn [negb]; [done|]; by rewrite <- Hth|].
  split; [by apply recount_loose|]. split; [by apply recount_counted|]. split; [done|]. by apply recount_uses.
Qed.

(** ** Taking back the empty regions *)

(** A thread that has exited: every region is counted. *)
Record orphans (t : Thread) : Prop := {
  or_loose : loose_thread t;
  or_counted : ∀ a r, regions t !! a = Some r → counted a r
}.

(** Replacing a region by one with the same blocks. *)
Lemma put_same t a r r' : loose_thread t → regions t !! a = Some r → loose a r' → rend r' = rend r → rindex r' = rindex r →
  (∀ q, region_uses a r' q ↔ region_uses a r q) →
  returned t (put_t t a r') [].
Proof.
  intros [Hreg [Hn Hall] Hd Hb] Ha Hl He Hri Hu.
  assert (∀ a' y, extent (put_t t a r') a' y ↔ extent t a' y) as Hext.
  { intros a' y. unfold extent, put_t. tred. destruct (decide (a' = a)) as [->|Hne]; [|by rewrite lookup_insert_ne].
    rewrite lookup_insert_eq, Ha. split; intros (r0 & [= <-] & ?); eexists; (split; [done|]); by rewrite ?He in *. }
  constructor; [constructor| | | | |done].
  - intros a' r0. unfold put_t. tred. rewrite lookup_insert_Some. intros [[<- <-]|[_ Ha']]; auto.
  - split; [done|]. intros a'. unfold put_t. tred. rewrite Hall. destruct (decide (a' = a)) as [->|Hne].
    + by rewrite lookup_insert_eq, Ha.
    + by rewrite lookup_insert_ne.
  - intros a1 a2 y. rewrite !Hext. apply Hd.
  - done.
  - intros q. unfold uses, put_t. tred. split.
    + intros (a' & r0 & Ha' & Hq). split; [|set_solver]. apply lookup_insert_Some in Ha' as [[<- <-]|[Hne Ha']].
      * exists a, r. split; [done|]. by apply Hu.
      * by exists a', r0.
    + intros [(a' & r0 & Ha' & Hq) _]. destruct (decide (a' = a)) as [->|Hne].
      * exists a, r'. rewrite lookup_insert_eq. split; [done|]. apply Hu. by simplify_eq.
      * exists a', r0. by rewrite lookup_insert_ne.
  - intros y. unfold own. by setoid_rewrite Hext.
  - intros a' r1 r2. by apply (index_put _ a r).
  - intros a'. unfold put_t. tred. rewrite lookup_insert_is_Some. destruct (decide (a = a')) as [<-|]; [|tauto].
    rewrite Ha. naive_solver.
Qed.

Lemma orphan_regions_ok l : ∀ t, loose_thread t → NoDup l →
  (∀ a, a ∈ l → ∃ r, regions t !! a = Some r ∧ rthread r = true) →
  ∃ t', orphan_regions t l = Ok t' ∧ returned t t' [] ∧ allRegions t' = allRegions t ∧
    ∀ a r, regions t' !! a = Some r → if decide (a ∈ l) then counted a r else regions t !! a = Some r.
Proof.
  induction l as [|a l IH]; intros t Ht Hn Hl; cbn [orphan_regions].
  { exists t. split; [done|]. split; [by apply returned_nil|]. split; [done|]. intros a r Ha.
    rewrite decide_False by set_solver. done. }
  apply NoDup_cons in Hn as [Hna Hn]. destruct (Hl a) as (r & Ha & Hth); [set_solver|]. rewrite Ha. cbn [of_option obind].
  destruct (orphan_region_ok a r (lt_regions _ Ht a r Ha) Hth) as (r' & -> & Hl' & Hc & [He Hri] & Hu). cbn [obind].
  pose proof (put_same t a r r' Ht Ha Hl' He Hri Hu) as Hret. change (set_regions t _) with (put_t t a r').
  destruct (IH (put_t t a r') (re_loose _ _ _ Hret) Hn) as (t' & E & Hret' & Eall & Hreg).
  { intros a' Ha'. unfold put_t. tred. rewrite lookup_insert_ne by set_solver. apply Hl. set_solver. }
  exists t'. split; [done|]. split.
  { destruct Hret as [_ Hu1 Ho1 Hi1 Hd1 [E1 [E2 E3]]], Hret' as [? Hu2 Ho2 Hi2 Hd2 [E4 [E5 E6]]]. constructor; [done| | | | |].
    - intros q. rewrite Hu2, Hu1. set_solver.
    - intros y. by rewrite Ho2.
    - intros b r1 r2 Hr1 Hr2. destruct (proj2 (Hd1 b)) as [r3 Hr3]; [by exists r1|]. rewrite (Hi2 b r3 r2) by done. by eapply Hi1.
    - intros b. by rewrite Hd2.
    - split; [congruence|]. split; congruence. }
  split; [done|]. intros a' r0 Ha'. specialize (Hreg a' r0 Ha'). destruct (decide (a' ∈ l)) as [Hin|Hin].
  - rewrite decide_True by set_solver. done.
  - unfold put_t in Hreg. tred in Hreg. apply lookup_insert_Some in Hreg as [[<- <-]|[Hne Hreg]].
    + by rewrite decide_True by set_solver.
    + by rewrite decide_False by set_solver.
Qed.

Definition marked (t : Thread) (a : Z) : bool := match regions t !! a with Some r => negb (rthread r) | None => false end.

Lemma collect_ok t l : (∀ a, a ∈ l → is_Some (regions t !! a)) →
  collect_empty t l = Ok (filter (λ a, marked t a = true) l, filter (λ a, marked t a = false) l).
Proof.
  induction l as [|a l IH]; intros Hl; cbn [collect_empty]; [done|]. destruct (Hl a) as [r Ha]; [set_solver|].
  rewrite Ha. cbn [of_option obind]. rewrite IH by set_solver. cbn [obind]. rewrite !filter_cons.
  assert (marked t a = negb (rthread r)) as Em by (unfold marked; by rewrite Ha).
  destruct (rthread r); cbn [negb] in Em; repeat case_decide; congruence.
Qed.

Lemma add_spans_ok t l : ∀ sp, loose_thread t → spans_ok sp → endpoints sp → NoDup l →
  (∀ a, a ∈ l → is_Some (regions t !! a)) →
  (∀ a x, a ∈ l → extent t a x → ¬ covers sp x) →
  ∃ sp', add_spans sp t l = Ok sp' ∧ spans_ok sp' ∧ endpoints sp' ∧
    ∀ x, covers sp' x ↔ covers sp x ∨ ∃ a, a ∈ l ∧ extent t a x.
Proof.
  induction l as [|a l IH]; intros sp Ht Hs He Hn Hl Hd; cbn [add_spans].
  { exists sp. split; [done|]. split; [done|]. split; [done|]. set_solver. }
  apply NoDup_cons in Hn as [Hna Hn]. destruct (Hl a) as [r Ha]; [set_solver|]. rewrite Ha. cbn [of_option obind].
  pose proof (lo_shape _ _ (lt_regions _ Ht a r Ha)) as Hsh. pose proof (sh_addr _ _ Hsh) as Hpa.
  destruct (sh_end _ _ Hsh) as [Hend Hmax]. destruct (layout_ok _ (sh_class _ _ Hsh)). pose proof Hpa as [Hal Hpa'].
  assert (∀ x, extent t a x ↔ a ≤ x < rend r) as Hext.
  { intros x. unfold extent. rewrite Ha. split; [intros (r0 & [= <-] & ?); done|by exists r]. }
  destruct (add_span_spec sp a (rend r)) as (sp1 & -> & Hs1 & Hc1 & Hp1); [done|by apply endpoints_length|lia| |].
  { intros x Hx. apply (Hd a); [set_solver|by apply Hext]. }
  cbn [obind]. destruct (IH sp1 Ht Hs1) as (sp' & -> & Hs' & He' & Hc'); [|done|set_solver| |].
  { apply (Hp1 endpoint); [done| |done]. split; [rewrite Hend; by apply aligned_add|lia]. }
  { intros a' x Ha' Hx. rewrite Hc1. intros [Hx'|Hx']; [by apply (Hd a' x); [set_solver| |]|].
    apply Hext in Hx'. apply Hna. by rewrite (lt_disj _ Ht a a' x Hx' Hx). }
  exists sp'. split; [done|]. split; [done|]. split; [done|]. intros x. rewrite Hc', Hc1, <- Hext. set_solver.
Qed.

Lemma foldr_delete_lookup (m : gmap Z Region) l a :
  foldr delete m l !! a = if decide (a ∈ l) then None else m !! a.
Proof.
  induction l as [|b l IH]; cbn [foldr]; [done|]. destruct (decide (a = b)) as [->|Hne].
  - rewrite lookup_delete_eq. by rewrite decide_True by set_solver.
  - rewrite lookup_delete_ne by done. rewrite IH. destruct (decide (a ∈ l)) as [H|H].
    + by rewrite decide_True by set_solver.
    + by rewrite decide_False by set_solver.
Qed.

Lemma match_nonempty {A B} (l : list A) (x y : B) : l ≠ [] → match l with [] => x | _ :: _ => y end = y.
Proof. by destruct l. Qed.

(** The outcome for the thread and the globals. *)
Record taken_back (O : Z → Prop) (t : Thread) (g' : Globals) (t' : Thread) (free : bool) : Prop := {
  tb_orphans : orphans t';
  tb_unmarked : unmarked t';
  tb_globals : globals_ok O g' t';
  tb_uses : ∀ q, uses t' q ↔ uses t q;
  tb_own : ∀ x, own t' x → own t x;
  tb_index : ∀ a r, regions t' !! a = Some r → regions t !! a = Some r;
  tb_same : remoteFreeList t' = remoteFreeList t ∧ exited t' = exited t;
  tb_free : free = true → regions t' = ∅
}.

Section reclaim.
Context (O : Z → Prop) (g : Globals) (t : Thread) (Ht : orphans t) (Hg : globals_ok O g t).

Let out := filter (λ a, marked t a = true) (allRegions t).
Let stay := filter (λ a, marked t a = false) (allRegions t).
Let t' := set_regions (set_all t stay) (foldr delete (regions t) out).

Lemma reclaim_lookup a : regions t' !! a = if marked t a then None else regions t !! a.
Proof using Ht.
  unfold t'. tred. rewrite foldr_delete_lookup. destruct (lt_all _ (or_loose _ Ht)) as [_ Hall].
  destruct (marked t a) eqn:Em.
  - rewrite decide_True; [done|]. apply list_elem_of_filter. split; [done|]. apply Hall. unfold marked in Em.
    by destruct (regions t !! a).
  - rewrite decide_False; [done|]. intros [E _]%list_elem_of_filter. congruence.
Qed.

Lemma marked_dead a r p : regions t !! a = Some r → marked t a = true → ¬ region_uses a r p.
Proof using Ht.
  intros Ha Em. unfold marked in Em. rewrite Ha in Em. apply negb_true_iff in Em.
  apply dead_region; [by apply (or_loose _ Ht)|by apply Ht|done].
Qed.

Lemma reclaim_orphans : orphans t' ∧ unmarked t'.
Proof using Ht.
  destruct Ht as [[Hreg [Hn Hall] Hd Hb] Hc].
  assert (∀ a r, regions t' !! a = Some r → regions t !! a = Some r ∧ rthread r = true) as Hin.
  { intros a r. rewrite reclaim_lookup. destruct (marked t a) eqn:Em; [done|]. intros Ha. split; [done|].
    unfold marked in Em. rewrite Ha in Em. by apply negb_false_iff. }
  split; [constructor; [constructor|]|].
  - intros a r [Ha _]%Hin. auto.
  - split; [by apply NoDup_filter|]. intros a. rewrite reclaim_lookup. unfold t', stay. tred.
    rewrite list_elem_of_filter, Hall. destruct (marked t a); [|tauto]. split; [naive_solver|by intros ?%is_Some_None].
  - intros a1 a2 x (r1 & [H1 _]%Hin & ?) (r2 & [H2 _]%Hin & ?). apply (Hd a1 a2 x); [by exists r1|by exists r2].
  - done.
  - intros a r [Ha _]%Hin. auto.
  - intros a r [_ ?]%Hin. done.
Qed.

Lemma reclaim_uses q : uses t' q ↔ uses t q.
Proof using Ht.
  unfold uses. setoid_rewrite reclaim_lookup. split; intros (a & r & Ha & Hq); exists a, r.
  - by destruct (marked t a).
  - destruct (marked t a) eqn:Em; [|done]. exfalso. by apply (marked_dead a r q Ha Em).
Qed.

Lemma reclaim_own x : own t x ↔ own t' x ∨ ∃ a, a ∈ out ∧ extent t a x.
Proof using Ht.
  unfold own, extent. setoid_rewrite reclaim_lookup. destruct (lt_all _ (or_loose _ Ht)) as [_ Hall]. split.
  - intros (a & r & Ha & Hx). destruct (marked t a) eqn:Em.
    + right. exists a. split; [|by exists r]. apply list_elem_of_filter. split; [done|]. apply Hall. by exists r.
    + left. exists a, r. by rewrite Em.
  - intros [(a & r & Ha & Hx)|(a & _ & r & Ha & Hx)]; exists a, r; [|done]. by destruct (marked t a).
Qed.

Lemma reclaim_ok : ∃ g' t1 free, reclaimEmptyRegions g t = Ok (g', t1, free) ∧ taken_back O t g' t1 free.
Proof using Ht Hg.
  destruct reclaim_orphans as [Hor Hun]. destruct (lt_all _ (or_loose _ Ht)) as [Hn Hall].
  unfold reclaimEmptyRegions. rewrite collect_ok by (intros a; apply Hall). cbn [obind]. fold out stay.
  destruct (decide (out = [])) as [Eout|Eout].
  - exists g, t, false. split; [by rewrite Eout|]. constructor; try done. intros a r Ha. destruct (rthread r) eqn:Er; [done|]. exfalso.
    assert (a ∈ out) as Hin.
    { apply list_elem_of_filter. split; [unfold marked; by rewrite Ha, Er|]. apply Hall. by exists r. }
    rewrite Eout in Hin. set_solver.
  - rewrite match_nonempty by done. destruct Hg as [[Hs He] Hm Hf Ho Hcov Hsn Hby].
    destruct (add_spans_ok t out (spans g)) as (sp & -> & Hs' & He' & Hc'); try done; [apply Ht|by apply NoDup_filter| | |].
    { intros a [_ Ha]%list_elem_of_filter. by apply Hall. }
    { intros a x _ Hx Hc. destruct (Hf x Hc) as [Hno _]. apply Hno. by exists a. }
    cbn [obind]. do 3 eexists. split; [reflexivity|]. fold t'. constructor; try done.
    + constructor; tred; try done.
      * intros x. rewrite Hc'. intros [Hx|(a & Hin & Hx)].
        -- destruct (Hf x Hx) as [Hno ?]. split; [|done]. intros Hx'. apply Hno, reclaim_own. by left.
        -- split; [|apply Ho; by exists a]. intros (a' & r' & Ha' & Hx').
           rewrite reclaim_lookup in Ha'. destruct (marked t a') eqn:Em; [done|].
           assert (a = a') as -> by (apply (lt_disj _ (or_loose _ Ht) a a' x Hx); by exists r').
           apply list_elem_of_filter in Hin as [? _]. congruence.
      * intros x Hx. apply Ho, reclaim_own. by left.
      * intros x. rewrite Hc'. intros Hx. apply Hcov. destruct Hx as [[Hx|(a & Hin & Hx)]|[Hx|Hx]]; [by left| | |by auto].
        -- right. left. by exists a.
        -- right. left. apply reclaim_own. by left.
    + apply reclaim_uses.
    + intros x Hx. apply reclaim_own. by left.
    + intros a r. rewrite reclaim_lookup. by destruct (marked t a).
    + intros Hfree. apply map_empty. intros a. rewrite reclaim_lookup. destruct (marked t a) eqn:Em; [done|].
      destruct (regions t !! a) as [r|] eqn:Ha; [|done]. exfalso. assert (a ∈ stay) as Hin.
      { apply list_elem_of_filter. split; [done|]. apply Hall. by exists r. }
      destruct stay; [set_solver|done].
Qed.
End reclaim.

(** ** Frees after the exit *)

Lemma counted_push a r r' i x x' :
  let out y := outstanding (rindex r) (bin_start a (rindex r) i) y in
  counted a r → rbins r !! i = Some x → same_place r r' → out x ≠ 0 →
  numCreatedBins r' = numCreatedBins r → numEmptyBins r' = numEmptyBins r + (if out x' =? 0 then 1 else 0) →
  orphaned x' = negb (out x' =? 0) → (out x' ≠ 0 → orphan_outstanding x' = out x') →
  rthread r' = negb (numEmptyBins r' =? numCreatedBins r') →
  counted a (set_bins r' (<[i := x']> (rbins r'))).
Proof.
  intros out [C1 C2 C3 C4] Hx [E1 _ _ _ _ E6] Hout Hc He Ho1 Ho2 Hth. constructor; tred.
  - by rewrite E6, length_insert, Hc.
  - rewrite E6, E1, (idle_bins_insert _ _ _ _ _ x), He, C2 by done. cbn [Nat.add]. fold (out x) (out x').
    rewrite (proj2 (Z.eqb_neq (out x) 0)) by done. lia.
  - intros j y. rewrite E6, E1, list_lookup_insert_Some. intros [(<- & <- & _)|[_ Hy]]; [done|by apply C3].
  - done.
Qed.

Section process.
Context (t : Thread) (p : Z) (r : Region) (x : Bin).
Context (Ht : orphans t) (Ha : regions t !! region_of p = Some r) (Hx : rbins r !! bin_of r p = Some x).
Context (Hu : bin_uses (rindex r) (bin_start (region_of p) (rindex r) (bin_of r p)) x p).

Let out := outstanding (rindex r) (bin_start (region_of p) (rindex r) (bin_of r p)).

Lemma process_bin : 0 < out x < 2 ^ 15 ∧ orphaned x = true ∧ orphan_outstanding x = out x.
Proof using All.
  destruct Ht as [Hlt Hc]. pose proof (lt_regions _ Hlt _ r Ha) as Hl. pose proof (sh_class _ _ (lo_shape _ _ Hl)) as Hcl.
  pose proof (lo_bins _ _ Hl _ x Hx) as Hs. pose proof (outstanding_range _ _ _ Hcl Hs) as Hrange. fold out in Hrange.
  assert (out x ≠ 0) as Hne by (intros E0; by apply (outstanding_zero _ _ _ Hcl Hs p E0)).
  destruct (co_bins _ _ (Hc _ r Ha) _ x Hx) as [Ho1 Ho2]. fold out in Ho1, Ho2.
  rewrite (proj2 (Z.eqb_neq _ _)) in Ho1 by done. split; [lia|]. auto.
Qed.

Lemma process_counts : 0 ≤ numEmptyBins r < numCreatedBins r ∧ numCreatedBins r < 128 ∧ rthread r = true.
Proof using All.
  destruct Ht as [Hlt Hc]. pose proof (lt_regions _ Hlt _ r Ha) as Hl. destruct (Hc _ r Ha) as [C1 C2 _ C4].
  pose proof (idle_bins_range (region_of p) (rindex r) 0 (rbins r)). pose proof process_bin.
  pose proof (sh_len _ _ (lo_shape _ _ Hl)). pose proof (lf_bins _ (layout_ok _ (sh_class _ _ (lo_shape _ _ Hl)))).
  assert (idle_bins (region_of p) (rindex r) 0 (rbins r) ≠ Z.of_nat (length (rbins r))) as Hne.
  { intros E. pose proof (idle_bins_all _ _ 0 (rbins r) E _ x Hx) as E0. cbn [Nat.add] in E0. fold (out x) in E0. lia. }
  split; [lia|]. split; [lia|]. rewrite C4. rewrite (proj2 (Z.eqb_neq _ _)) by lia. done.
Qed.

(** Whatever the bookkeeping becomes. *)
Lemma process_put r2 x2 : same_place r r2 → freelist x2 = p :: freelist x → bfreearea x2 = bfreearea x →
  bend x2 = bend x → capacity x2 = capacity x →
  (out x2 = out x - 1 → counted (region_of p) (set_bins r2 (<[bin_of r p := x2]> (rbins r2)))) →
  orphans (put_block_bin t (region_of p) r2 (bin_of r p) x2) ∧
  returned t (put_block_bin t (region_of p) r2 (bin_of r p) x2) [p].
Proof using All.
  intros Hr2 F1 F2 F3 F4 Hc2. destruct Ht as [Hlt Hc].
  assert (returned t (put_block_bin t (region_of p) r2 (bin_of r p) x2) [p]) as Hret by (by apply (push_returned t p r x)).
  split; [|done]. constructor; [apply Hret|]. intros a' r0. unfold put_block_bin. tred.
  rewrite lookup_insert_Some. intros [[<- <-]|[_ Ha']]; [|auto]. apply Hc2. unfold out, outstanding.
  rewrite F1, F2. cbn [length]. lia.
Qed.
End process.

Lemma process_ok t p : orphans t → uses t p →
  ∃ b t', processOrphanFree t p = Ok (b, t') ∧ orphans t' ∧ returned t t' [p].
Proof.
  intros Ht Hp. destruct (uses_place t p (or_loose _ Ht) Hp) as (r & x & Ha & Hx & Hu & E).
  destruct (process_bin t p r x Ht Ha Hx Hu) as (Hout & Ho1 & Ho2).
  destruct (process_counts t p r x Ht Ha Hx Hu) as (Hemp & Hcre & Hth). pose proof (or_counted _ Ht _ r Ha) as Hc.
  set (out := outstanding (rindex r) (bin_start (region_of p) (rindex r) (bin_of r p))) in *.
  unfold processOrphanFree. rewrite E. cbn [obind].
  destruct (push_block_ok r (bin_of r p) x p) as (r' & x' & -> & [] & E1 & E2 & E3 & E4 & E5 & E6 & E7 & E8 & E9).
  rewrite E5, Ho1, E6, Ho2, Z.mod_small by lia. destruct (Z.eqb_spec (out x - 1) 0) as [E0|E0].
  - rewrite (Z.mod_small (numEmptyBins r' + 1)) by lia. tred. rewrite E8, E9.
    destruct (Z.eqb_spec (numEmptyBins r + 1) (numCreatedBins r)) as [Ef|Ef]; do 2 eexists; (split; [reflexivity|]);
      (apply (process_put t p r x); try done); fold out; intros Ho;
      (apply (counted_push _ r _ _ x); [done|done|by constructor|fold out; lia|done|..]); fold out; rewrite ?Ho, ?E0;
      try done; tred.
    + by rewrite Ef, Z.eqb_refl.
    + rewrite E7, Hth, (proj2 (Z.eqb_neq _ _)) by lia. done.
  - do 2 eexists. split; [reflexivity|]. apply (process_put t p r x); try done. fold out. intros Ho.
    apply (counted_push _ r _ _ x); [done|done|by constructor|fold out; lia|done|..]; fold out; rewrite ?Ho;
      rewrite ?(proj2 (Z.eqb_neq (out x - 1) 0)) by done; try done; [lia|].
    rewrite E7, E8, E9, Hth, (proj2 (Z.eqb_neq _ _)) by lia. done.
Qed.

Lemma process_all_ok l : ∀ t, orphans t → NoDup l → (∀ p, p ∈ l → uses t p) →
  ∃ t', process_all t l = Ok t' ∧ orphans t' ∧ returned t t' l.
Proof.
  induction l as [|p l IH]; intros t Ht Hn Hl; cbn [process_all].
  { exists t. split; [done|]. split; [done|]. by apply returned_nil, Ht. }
  apply NoDup_cons in Hn as [Hp Hn]. destruct (process_ok t p Ht) as (b & t1 & -> & Ht1 & Hret); [set_solver|]. cbn [obind].
  destruct (IH t1 Ht1 Hn) as (t' & E & Ht' & Hret').
  { intros q Hq. apply (re_uses _ _ _ Hret). set_solver. }
  exists t'. split; [done|]. split; [done|]. by eapply returned_cons.
Qed.

(** A thread that has exited, between two calls. *)
Record orphan_inv (O : Z → Prop) (g : Globals) (t : Thread) : Prop := {
  oi_orphans : orphans t;
  oi_unmarked : unmarked t;
  oi_globals : globals_ok O g t;
  oi_exited : exited t = true;
  oi_remote : remoteFreeList t = []
}.

(** The thread gave back the blocks of [l] and perhaps some memory. *)
Record gave_back (O : Z → Prop) (t : Thread) (l : list Z) (g' : Globals) (t' : Thread) (free : bool) : Prop := {
  gb_inv : orphan_inv O g' t';
  gb_uses : ∀ q, uses t' q ↔ uses t q ∧ q ∉ l;
  gb_own : ∀ x, own t' x → own t x;
  gb_index : ∀ a r r', regions t !! a = Some r → regions t' !! a = Some r' → rindex r' = rindex r;
  gb_free : free = true → regions t' = ∅
}.

Lemma gave_back_ok O t t1 l g :
  orphans t1 → (∀ q, uses t1 q ↔ uses t q ∧ q ∉ l) → (∀ x, own t1 x ↔ own t x) → globals_ok O g t →
  (∀ a r r', regions t !! a = Some r → regions t1 !! a = Some r' → rindex r' = rindex r) →
  exited t1 = true → remoteFreeList t1 = [] →
  ∃ g' t' free, reclaimEmptyRegions g t1 = Ok (g', t', free) ∧ gave_back O t l g' t' free.
Proof.
  intros Ht1 Hu1 Ho Hg Hidx He Hr.
  assert (globals_ok O g t1) as Hg1.
  { destruct Hg as [? ? Hf Hown Hall ? ?]. constructor; try done; intros x; rewrite Ho; auto. }
  destruct (reclaim_ok O g t1 Ht1 Hg1) as (g' & t' & free & E & [? ? ? Hu Ho' Hi' [E1 E2] ?]).
  exists g', t', free. split; [done|]. constructor; [constructor; congruence || done| | | |done].
  - intros q. by rewrite Hu, Hu1.
  - intros x Hx. by apply Ho, Ho'.
  - intros a r r' Hr1 Hr2. eapply Hidx; [done|]. by apply Hi'.
Qed.

Lemma drain_orphan_ok O g t l : orphan_inv O g t → NoDup l → (∀ p, p ∈ l → uses t p) →
  ∃ g' t' free, drainOrphanFrees g (set_remote t l) = Ok (g', t', free) ∧ gave_back O t l g' t' free.
Proof.
  intros [Ht Hu Hg He Hr] Hn Hl. unfold drainOrphanFrees. tred. rewrite He. cbn [negb].
  replace (set_remote (set_remote t l) []) with t by (unfold set_remote; rewrite <- Hr; by destruct t).
  destruct (process_all_ok l t Ht Hn Hl) as (t1 & -> & Ht1 & Hret). cbn [obind].
  destruct Hret as [_ ? ? ? ? (E1 & E2 & _)].
  apply gave_back_ok; congruence || done.
Qed.

Lemma orphan_thread_ok O s : left_inv O s →
  ∃ g' t' free, orphanThread (glob s) (thr s) = Ok (g', t', free) ∧
    gave_back O (thr s) (remoteFreeList (thr s)) g' t' free.
Proof.
  intros [Hnb [[Ht Hg] Hsm Hn Hr]]. unfold orphanThread.
  set (t0 := set_remote (set_exited (thr s) true) []). set (l := remoteFreeList (thr s)).
  assert (loose_thread (thr s)) as Hl0.
  { destruct (loose_of_thread _ Ht) as [? ? ? ?]; [done|]. by constructor. }
  assert (loose_thread t0) as Hlt by (destruct Hl0; by constructor).
  assert (unmarked t0) as Hun by (intros a r Ha; by apply (ro_thread _ _ _ _ (to_regions _ _ Ht a r Ha))).
  destruct (push_remote_ok l t0 Hlt Hn) as (t1 & -> & Hret & Hun1).
  { intros p Hp. apply (uses_live (thr (plain s))); [done|]. by apply Hr. }
  { done. }
  cbn [obind]. pose proof (re_loose _ _ _ Hret) as Hl1. destruct (lt_all _ Hl1) as [Hn1 Hall1].
  destruct (orphan_regions_ok (allRegions t1) t1 Hl1 Hn1) as (t2 & -> & Hret2 & Eall & Hreg).
  { intros a [r Ha]%Hall1. eauto. }
  cbn [obind]. destruct (re_same _ _ _ Hret) as (E1 & E2 & _), (re_same _ _ _ Hret2) as (E3 & E4 & _).
  apply gave_back_ok.
  - constructor; [apply Hret2|]. intros a r Ha. specialize (Hreg a r Ha). rewrite decide_True in Hreg; [done|].
    rewrite <- Eall. apply (lt_all _ (re_loose _ _ _ Hret2)). by exists r.
  - intros q. rewrite (re_uses _ _ _ Hret2), (re_uses _ _ _ Hret). change (uses t0 q) with (uses (thr s) q). set_solver.
  - intros x. by rewrite (re_own _ _ _ Hret2), (re_own _ _ _ Hret).
  - destruct Hg. by constructor.
  - intros a r r' Hr1 Hr2. destruct (proj2 (re_dom _ _ _ Hret a)) as [r1 Hr3]; [by exists r|].
    rewrite (re_index _ _ _ Hret2 a r1 r') by done. by apply (re_index _ _ _ Hret a r r1).
  - by rewrite E4, E2.
  - by rewrite E3, E1.
Qed.
