(* ===== verification/MooSystemFacts.v ===== *)
(** * The allocator with all its threads

    The invariant of the process, and what each call does to the set of blocks
    that are in use. *)

From Stdlib Require Import ZArith Lia.
From stdpp Require Import base gmap option list.
From S2P Require Import Prelude Moo MooSystem MooSpanFacts MooFacts MooAllocFacts MooMediumFacts MooMemoryFacts.
From S2P Require Import MooTotalFacts MooExitFacts MooOrphanFacts.

Local Set Warnings "-clear-no-such-hyp".

(** ** The invariant *)

(** A thread that runs. *)
Record run_inv (t : Thread) : Prop := {
  ri_ok : thread_ok t zero;
  ri_small : small t;
  ri_nodup : NoDup (remoteFreeList t);
  ri_remote : ∀ p, p ∈ remoteFreeList t → live t p
}.

Lemma alloc_inv_run O s : alloc_inv O s ↔ run_inv (thr s) ∧ globals_ok O (glob s) (thr s).
Proof. split; [intros [[] ? ? ?]|intros [[] ?]]; [split; [by constructor|done]|by constructor]. Qed.

(** The three phases in the life of a thread object; [L] are the threads that
    are about to exit. *)
Definition thread_inv (L : gset nat) (i : nat) (t : Thread) : Prop :=
  if exited t then orphans t ∧ unmarked t ∧ remoteFreeList t = []
  else if decide (i ∈ L) then no_bins t ∧ run_inv (set_fast t new_fast)
  else run_inv t.

Definition owned (y : System) (x : Z) : Prop := ∃ i t, threads y !! i = Some t ∧ own t x.
Definition others (y : System) (i : nat) (x : Z) : Prop := ∃ j t, j ≠ i ∧ threads y !! j = Some t ∧ own t x.

Record sys_ok (y : System) (L : gset nat) : Prop := {
  sy_globals : globals_ok (owned y) (sglob y) new_thread;
  sy_disj : ∀ i j ti tj x, threads y !! i = Some ti → threads y !! j = Some tj → own ti x → own tj x → i = j;
  sy_threads : ∀ i t, threads y !! i = Some t → thread_inv L i t;
  sy_free : NoDup (freeThreads y) ∧ ∀ i, i ∈ freeThreads y → ∃ t, threads y !! i = Some t ∧ exited t = true ∧ regions t = ∅;
  sy_leaving : ∀ i, i ∈ L → ∃ t, threads y !! i = Some t ∧ exited t = false
}.

(** A block that is in use. *)
Definition in_use (t : Thread) (p : Z) : Prop := live t p ∧ p ∉ remoteFreeList t.
Definition sys_used (y : System) (p : Z) : Prop := ∃ i t, threads y !! i = Some t ∧ in_use t p.

Definition running (y : System) (L : gset nat) (i : nat) : Prop :=
  ∃ t, threads y !! i = Some t ∧ exited t = false ∧ i ∉ L.

Lemma own_new x : ¬ own new_thread x.
Proof. intros (a & r & Ha & _). done. Qed.

Lemma thread_globals y L i t : sys_ok y L → threads y !! i = Some t → globals_ok (others y i) (sglob y) t.
Proof.
  intros [[? ? Hf Ho Hall ? ?] Hd _ _ _] Hi. constructor; try done.
  - intros x Hx. destruct (Hf x Hx) as [_ Hno]. split; intros Hx'; apply Hno.
    + by exists i, t.
    + destruct Hx' as (j & tj & _ & ? & ?). by exists j, tj.
  - intros x Hx (j & tj & Hne & Hj & Hx'). by apply Hne, (Hd j i tj t x).
  - intros x [Hx|[Hx|(j & tj & _ & ? & ?)]]; apply Hall; [by left|right; right..]; [by exists i, t|by exists j, tj].
Qed.

(** A call that changes thread [i] and the globals, or makes a new thread. *)
Section change.
Context (y : System) (L L' : gset nat) (i : nat) (t' : Thread) (g' : Globals) (fr' : list nat).

Let y' := mkSystem g' (<[i := t']> (threads y)) fr'.

Lemma change_lookup j : threads y' !! j = if decide (j = i) then Some t' else threads y !! j.
Proof using.
  unfold y'. cbn. destruct (decide _) as [->|]; [apply lookup_insert_eq|by rewrite lookup_insert_ne].
Qed.

Lemma change_owned x : owned y' x ↔ own t' x ∨ others y i x.
Proof using.
  unfold owned, others. setoid_rewrite change_lookup. split.
  - intros (j & tj & Hj & Hx). destruct (decide _) as [->|Hne]; [injection Hj as <-; by left|]. right. by exists j, tj.
  - intros [Hx|(j & tj & Hne & Hj & Hx)]; [exists i, t'|exists j, tj]; [by rewrite decide_True|by rewrite decide_False].
Qed.

Lemma change_used q : sys_used y' q ↔ in_use t' q ∨ ∃ j tj, j ≠ i ∧ threads y !! j = Some tj ∧ in_use tj q.
Proof using.
  unfold sys_used. setoid_rewrite change_lookup. split.
  - intros (j & tj & Hj & Hx). destruct (decide _) as [->|Hne]; [injection Hj as <-; by left|]. right. by exists j, tj.
  - intros [Hx|(j & tj & Hne & Hj & Hx)]; [exists i, t'|exists j, tj]; [by rewrite decide_True|by rewrite decide_False].
Qed.

Context (Hy : sys_ok y L) (Hg : globals_ok (others y i) g' t') (Ht : thread_inv L' i t').
Context (HL : ∀ j, j ≠ i → j ∈ L' ↔ j ∈ L) (HLi : i ∈ L' → exited t' = false).
Context (Hfr : NoDup fr' ∧ ∀ j, j ∈ fr' → (j = i ∧ exited t' = true ∧ regions t' = ∅) ∨ (j ≠ i ∧ j ∈ freeThreads y)).

Lemma change_ok : sys_ok y' L'.
Proof using All.
  destruct Hg as [? ? Hf Ho Hall ? ?]. constructor.
  - constructor; try done.
    + intros x Hx. split; [apply own_new|]. rewrite change_owned. destruct (Hf x Hx). tauto.
    + intros x Hx. by apply own_new in Hx.
    + intros x. rewrite change_owned. intros [Hx|[Hx|Hx]]; [|by apply own_new in Hx|]; apply Hall; tauto.
  - intros j k tj tk x. rewrite !change_lookup. destruct (decide (j = i)) as [->|Hj], (decide (k = i)) as [->|Hk]; [done|..].
    + intros [= <-] Hk' Hx Hx'. exfalso. apply (Ho x Hx). by exists k, tk.
    + intros Hj' [= <-] Hx Hx'. exfalso. apply (Ho x Hx'). by exists j, tj.
    + apply (sy_disj _ _ Hy).
  - intros j tj. rewrite change_lookup. destruct (decide (j = i)) as [->|Hj]; [by intros [= <-]|].
    intros Htj. pose proof (sy_threads _ _ Hy j tj Htj) as H0. unfold thread_inv in *. destruct (exited tj); [done|].
    by rewrite (decide_ext _ _ _ _ (HL j Hj)).
  - destruct Hfr as [Hn Hin]. split; [done|]. intros j Hj. rewrite change_lookup.
    destruct (Hin j Hj) as [(-> & ? & ?)|[Hne Hj']]; [rewrite decide_True by done; by exists t'|].
    rewrite decide_False by done. by apply (sy_free _ _ Hy).
  - intros j Hj. rewrite change_lookup. destruct (decide (j = i)) as [->|Hne]; [by eauto|].
    apply (sy_leaving _ _ Hy). by apply HL.
Qed.
End change.

Lemma step_lookup y i g' t' free j :
  threads (put_thread y i g' t' free) !! j = if decide (j = i) then Some t' else threads y !! j.
Proof. apply change_lookup. Qed.

Lemma step_used y i g' t' free q :
  sys_used (put_thread y i g' t' free) q ↔ in_use t' q ∨ ∃ j tj, j ≠ i ∧ threads y !! j = Some tj ∧ in_use tj q.
Proof. apply change_used. Qed.

Lemma step_ok y L L' i t t' g' free :
  sys_ok y L → threads y !! i = Some t → globals_ok (others y i) g' t' → thread_inv L' i t' →
  (∀ j, j ≠ i → j ∈ L' ↔ j ∈ L) → (i ∈ L' → exited t' = false) →
  (i ∈ freeThreads y → free = false ∧ exited t' = true ∧ regions t' = ∅) →
  (free = true → exited t' = true ∧ regions t' = ∅) →
  sys_ok (put_thread y i g' t' free) L'.
Proof.
  intros Hy Hi Hg Ht HL HLi Hfree Hfree'. apply (change_ok y L); try done. destruct (sy_free _ _ Hy) as [Hn _]. split.
  - destruct free; [|done]. apply NoDup_app. split; [done|]. split; [|apply NoDup_singleton].
    intros j Hj ->%list_elem_of_singleton. by destruct (Hfree Hj).
  - intros j Hj. destruct (decide (j = i)) as [->|Hne]; [left|right; split; [done|destruct free; set_solver]].
    split; [done|]. destruct free; [by apply Hfree'|]. by destruct (Hfree Hj) as [_ ?].
Qed.

(** ** Where the blocks lie *)

(** The block [p] of region [r] at [a]. *)
Definition block_in (a : Z) (r : Region) (p : Z) : Prop :=
  class_ok (rindex r) ∧ endpoint a ∧ region_of p = a ∧ a ≤ p ∧ p + nbytes (rindex r) ≤ rend r ∧ rend r ≤ addr_max ∧
  ∃ k, p = a + data_off (rindex r) + k * nbytes (rindex r).

Lemma slot_block a r i x p : shape a r → rbins r !! i = Some x →
  is_slot (rindex r) (bin_start a (rindex r) i) p → p < bend x → block_in a r p.
Proof.
  intros Hsh Hx Hs Hlt. destruct (shape_place a r i x p Hsh Hx Hs Hlt) as (E & _ & H1 & H2).
  destruct Hsh as [Hc Ha [_ He] _ _ _ _]. unfold block_in. split_and!; try done.
  destruct Hs as (j & Hj & ->). unfold bin_start. exists (Z.of_nat i * (binsize (rindex r) / nbytes (rindex r)) + j).
  pose proof (lf_cap _ (layout_ok _ Hc)) as Hcap. set (b := binsize (rindex r)) in *. set (n := nbytes (rindex r)) in *.
  replace (Z.of_nat i * b) with (Z.of_nat i * (n * (b / n))) by (by rewrite Hcap). ring.
Qed.

Lemma live_block L i t p : thread_inv L i t → live t p → ∃ r, regions t !! region_of p = Some r ∧ block_in (region_of p) r p.
Proof.
  assert (∀ t', thread_ok t' zero → live t' p → ∃ r, regions t' !! region_of p = Some r ∧ block_in (region_of p) r p) as Hrun.
  { intros t' Ht (a & r & Ha & j & x & Hx & Hl). pose proof (to_regions _ _ Ht a r Ha) as Hr.
    pose proof (ro_bins _ _ _ _ Hr j x Hx) as Hb. pose proof (shape_ok _ _ _ _ Hr) as Hsh.
    assert (block_in a r p) as Hin.
    { apply (slot_block a r j x); [done|done|apply Hl|by eapply live_bin_bound]. }
    pose proof Hin as (_ & _ & E & _). rewrite E. by exists r. }
  unfold thread_inv. destruct (exited t).
  - intros (Ho & _ & _) Hl. apply uses_live in Hl; [|apply Ho]. destruct Hl as (a & r & Ha & j & x & Hx & Hl).
    pose proof (lt_regions _ (or_loose _ Ho) a r Ha) as [Hsh _ _ Hb].
    assert (block_in a r p) as Hin.
    { apply (slot_block a r j x); [done|done|apply Hl|]. apply (live_bin_bound _ _ _ _ _ _ _ (Hb j x Hx) Hl). }
    pose proof Hin as (_ & _ & E & _). rewrite E. by exists r.
  - destruct (decide _); [|intros [] ?; by apply Hrun]. intros [Hn []] Hl. apply (Hrun (set_fast t new_fast)); [done|].
    by apply live_no_bins.
Qed.

(** The size of the block at [p]. *)
Definition block_size (y : System) (p n : Z) : Prop :=
  ∃ i t r, threads y !! i = Some t ∧ in_use t p ∧ regions t !! region_of p = Some r ∧ n = nbytes (rindex r).

Lemma thread_disj L i t : thread_inv L i t → disj_ok t.
Proof.
  unfold thread_inv. destruct (exited t); [intros (Ho & _); apply Ho|]. destruct (decide _); [intros [_ [[]]]|intros [[]]]; done.
Qed.

Lemma in_own t a r p x : regions t !! a = Some r → block_in a r p → p ≤ x < p + nbytes (rindex r) → extent t a x.
Proof. intros Ha (_ & _ & _ & ? & ? & _) Hx. exists r. split; [done|lia]. Qed.

Lemma region_in_own L i t a r : thread_inv L i t → regions t !! a = Some r → own t a.
Proof.
  intros Ht Ha. assert (shape a r) as Hsh.
  { unfold thread_inv in Ht. destruct (exited t).
    - by apply (lo_shape _ _ (lt_regions _ (or_loose _ (proj1 Ht)) a r Ha)).
    - destruct (decide _); [destruct Ht as [_ [Ht _ _ _]]|destruct Ht as [Ht _ _ _]];
        by apply (shape_ok _ _ _ _ (to_regions _ _ Ht a r Ha)). }
  exists a, r. split; [done|]. rewrite (proj1 (sh_end _ _ Hsh)).
  pose proof (lf_bytes_pos _ (layout_ok _ (sh_class _ _ Hsh))). lia.
Qed.

(** Only one thread has the block. *)
Lemma one_owner y L i j ti tj p : sys_ok y L → threads y !! i = Some ti → threads y !! j = Some tj →
  in_use ti p → in_use tj p → i = j.
Proof.
  intros Hy Hi Hj Hpi Hpj.
  destruct (live_block L i ti p (sy_threads _ _ Hy i ti Hi) (proj1 Hpi)) as (r1 & Hr1 & _).
  destruct (live_block L j tj p (sy_threads _ _ Hy j tj Hj) (proj1 Hpj)) as (r2 & Hr2 & _).
  apply (sy_disj _ _ Hy i j ti tj (region_of p)); [done|done|..]; eapply region_in_own; (by eapply sy_threads) || done.
Qed.

(** The blocks of a thread keep their size. *)
Definition thread_kept (t t' : Thread) : Prop :=
  ∀ p r, in_use t p → in_use t' p → regions t !! region_of p = Some r →
    ∃ r', regions t' !! region_of p = Some r' ∧ rindex r' = rindex r.

Definition sizes_kept (y y' : System) : Prop := ∀ p n, block_size y p n → sys_used y' p → block_size y' p n.

Lemma kept_thread t t' : kept t t' → thread_kept t t'.
Proof. intros H p r [? _] [? _]. by apply H. Qed.

Lemma thread_kept_same t t' : regions t' = regions t → thread_kept t t'.
Proof. intros E p r _ _. rewrite E. eauto. Qed.

Lemma sizes_change y L i t t' g' fr' : sys_ok y L → threads y !! i = Some t → thread_kept t t' →
  sizes_kept y (mkSystem g' (<[i := t']> (threads y)) fr').
Proof.
  intros Hy Hi Hk p n (j & tj & r & Hj & Hp & Hr & ->) Hu. destruct (decide (j = i)) as [->|Hne].
  - assert (tj = t) as -> by congruence. apply change_used in Hu as [Hu|(k & tk & Hne & Hk' & Hu)].
    + destruct (Hk p r Hp Hu Hr) as (r' & Hr' & <-). exists i, t', r'. split; [apply lookup_insert_eq|done].
    + exfalso. by apply Hne, (one_owner y L k i tk t p).
  - exists j, tj, r. split; [cbn; by rewrite lookup_insert_ne|done].
Qed.

(** Two blocks in use do not overlap. *)
Lemma blocks_disjoint y L p q n m :
  sys_ok y L → block_size y p n → block_size y q m → p ≠ q → p + n ≤ q ∨ q + m ≤ p.
Proof.
  intros Hy (i & t & r & Hi & Hp & Hr & ->) (j & t' & r' & Hj & Hq & Hr' & ->) Hne.
  pose proof (sy_threads _ _ Hy i t Hi) as Ht. pose proof (sy_threads _ _ Hy j t' Hj) as Ht'.
  destruct (live_block L i t p Ht (proj1 Hp)) as (r0 & Hr0 & Hb). assert (r0 = r) as -> by congruence.
  destruct (live_block L j t' q Ht' (proj1 Hq)) as (r0' & Hr0' & Hb'). assert (r0' = r') as -> by congruence.
  destruct (Z.le_gt_cases (p + nbytes (rindex r)) q) as [|H1]; [by left|].
  destruct (Z.le_gt_cases (q + nbytes (rindex r')) p) as [|H2]; [by right|]. exfalso.
  pose proof (nbytes_pos _ (proj1 Hb)). pose proof (nbytes_pos _ (proj1 Hb')).
  assert (extent t (region_of p) (Z.max p q)) as Hx by (apply (in_own t _ r p); [done|done|lia]).
  assert (extent t' (region_of q) (Z.max p q)) as Hx' by (apply (in_own t' _ r' q); [done|done|lia]).
  assert (i = j) as <- by (apply (sy_disj _ _ Hy i j t t' (Z.max p q)); [done|done|by eexists|by eexists]).
  assert (t' = t) as -> by congruence. assert (region_of p = region_of q) as E by (by apply (thread_disj L i t Ht _ _ (Z.max p q))).
  assert (r' = r) as -> by congruence. destruct Hb as (_ & _ & _ & _ & _ & _ & k & Ek), Hb' as (_ & _ & _ & _ & _ & _ & k' & Ek').
  rewrite E in Ek. set (b := region_of q + data_off (rindex r)) in *. assert (k ≠ k') by congruence.
  assert (k < k' + 1 ∧ k' < k + 1) as [? ?] by (split; apply Z.mul_lt_mono_pos_r with (nbytes (rindex r)); lia). lia.
Qed.

(** ** Allocating *)

Lemma used_split y i t q : threads y !! i = Some t →
  sys_used y q ↔ in_use t q ∨ ∃ j tj, j ≠ i ∧ threads y !! j = Some tj ∧ in_use tj q.
Proof.
  intros Hi. split.
  - intros (j & tj & Hj & Hq). destruct (decide (j = i)) as [->|Hne]; [left; by simplify_eq|right; by exists j, tj].
  - intros [Hq|(j & tj & _ & Hj & Hq)]; [by exists i, t|by exists j, tj].
Qed.

Lemma run_thread y L i t : sys_ok y L → threads y !! i = Some t → exited t = false → i ∉ L → run_inv t.
Proof.
  intros Hy Hi He HL. pose proof (sy_threads _ _ Hy i t Hi) as H. unfold thread_inv in H.
  by rewrite He, decide_False in H.
Qed.

Lemma run_not_free y L i t : sys_ok y L → threads y !! i = Some t → exited t = false → i ∉ freeThreads y.
Proof. intros Hy Hi He Hin. destruct (proj2 (sy_free _ _ Hy) i Hin) as (t' & ? & ? & _). congruence. Qed.

Lemma class_of bytes : 0 ≤ bytes ≤ 2 ^ 46 → class_ok (getSizeClass bytes) ∧ bytes ≤ nbytes (getSizeClass bytes).
Proof.
  intros Hb. destruct (getSizeClass_spec bytes) as (H1 & H2 & H3); [lia|]. split; [|exact H2]. unfold class_ok. split; [|lia].
  destruct (Z.le_gt_cases 18 (getSizeClass bytes)) as [|Hlt]; [done|]. exfalso.
  assert (2 ^ 47 ≤ 2 ^ (64 - getSizeClass bytes)) as Hp by (apply Z.pow_le_mono_r; lia).
  destruct (Z.le_gt_cases bytes 8) as [Hsm|]; [|lia].
  assert (getSizeClass bytes = 61); [|lia]. rewrite getSizeClass_log by lia.
  assert (Z.log2 (Z.max bytes 1 - 1) ≤ 2); [|lia]. change 2 with (Z.log2 7). apply Z.log2_le_mono. lia.
Qed.

Lemma running_put y L i t g' t' free : threads y !! i = Some t → exited t' = exited t →
  ∀ j, running (put_thread y i g' t' free) L j ↔ running y L j.
Proof.
  intros Hi He j. unfold running. setoid_rewrite step_lookup. destruct (decide (j = i)) as [->|Hj]; [|done].
  split; intros (t0 & Ht0 & E & ?); [exists t|exists t']; (split; [done|]); (split; [|done]); congruence.
Qed.

Section alloc.
Context (mmap : Globals → Z → Z → option Z) (rngSeed : Z) (Hmmap : mmap_ok mmap).

Lemma sys_alloc_ok y L i bytes : sys_ok y L → running y L i → 0 ≤ bytes ≤ 2 ^ 46 →
  sys_alloc mmap rngSeed y i bytes = Throw BadAlloc ∨
  ∃ p y', sys_alloc mmap rngSeed y i bytes = Ok (p, y') ∧ sys_ok y' L ∧ ¬ sys_used y p ∧
    (∀ q, sys_used y' q ↔ sys_used y q ∨ q = p) ∧ (∀ j, running y' L j ↔ running y L j) ∧
    block_size y' p (nbytes (getSizeClass bytes)) ∧ sizes_kept y y'.
Proof using Hmmap.
  intros Hy (t & Hi & He & HL) Hb. destruct (class_of bytes Hb) as [Hc _].
  pose proof (run_thread y L i t Hy Hi He HL) as Hrun. pose proof (thread_globals y L i t Hy Hi) as Hg.
  unfold sys_alloc. rewrite Hi. cbn [of_option obind].
  destruct (moo_alloc_ok (others y i) mmap rngSeed (mkState (sglob y) t) bytes Hmmap) as [->|(p & s' & -> & Hal)];
    [by apply alloc_inv_run|done|by left|]. right. cbn [obind].
  destruct Hal as [Hinv Hfresh Hused Hkept Hex (r & Hr & Hri)]. apply alloc_inv_run in Hinv as [Hrun' Hg']. cbn in Hex, Hused, Hfresh.
  exists p, (put_thread y i (glob s') (thr s') false). split; [done|].
  assert (thread_inv L i (thr s')) as Ht' by (unfold thread_inv; rewrite Hex, He, decide_False; done).
  assert (sys_ok (put_thread y i (glob s') (thr s') false) L) as Hy'.
  { apply (step_ok y L L i t); try done. intros Hin. by destruct (run_not_free y L i t Hy Hi He). }
  assert (in_use (thr s') p) as Hp by (apply Hused; by right).
  assert (block_size (put_thread y i (glob s') (thr s') false) p (nbytes (getSizeClass bytes))) as Hsz.
  { exists i, (thr s'), r. split; [apply lookup_insert_eq|]. split; [done|]. split; [done|congruence]. }
  split; [done|]. split; [|split; [|split; [|split; [done|by eapply sizes_change]]]].
  - rewrite (used_split y i t p Hi). intros [Hp0|(j & tj & Hne & Hj & Hp0)]; [done|].
    destruct (live_block L i (thr s') p Ht' (proj1 Hp)) as (r1 & Hr1 & Hb1).
    destruct (live_block L j tj p (sy_threads _ _ Hy j tj Hj) (proj1 Hp0)) as (r2 & Hr2 & Hb2).
    apply Hne. apply (sy_disj _ _ Hy' j i tj (thr s') p).
    + rewrite step_lookup. by rewrite decide_False.
    + apply lookup_insert_eq.
    + exists (region_of p). apply (in_own tj _ r2 p); [done|done|]. pose proof (nbytes_pos _ (proj1 Hb2)). lia.
    + exists (region_of p). apply (in_own (thr s') _ r1 p); [done|done|]. pose proof (nbytes_pos _ (proj1 Hb1)). lia.
  - intros q. rewrite step_used, (used_split y i t q Hi). specialize (Hused q). unfold used in Hused. cbn in Hused.
    unfold in_use. rewrite Hused. tauto.
  - by apply (running_put y L i t).
Qed.
End alloc.

(** ** Freeing *)

(** The thread of a block is found from its address. *)
Lemma region_thread_ok y L i t r a : sys_ok y L → threads y !! i = Some t → regions t !! a = Some r →
  region_thread y a = Some i.
Proof.
  intros Hy Hi Ha. unfold region_thread.
  destruct (filter _ (map_to_list (threads y))) as [|[j tj] l] eqn:E.
  - exfalso. assert ((i, t) ∈ filter (λ it : nat * Thread, is_Some (regions it.2 !! a)) (map_to_list (threads y))) as Hin.
    { apply list_elem_of_filter. split; [by exists r|by apply elem_of_map_to_list]. }
    rewrite E in Hin. set_solver.
  - assert ((j, tj) ∈ filter (λ it : nat * Thread, is_Some (regions it.2 !! a)) (map_to_list (threads y))) as Hin
      by (rewrite E; set_solver).
    apply list_elem_of_filter in Hin as [[r' Ha'] Hj%elem_of_map_to_list]. cbn. f_equal. cbn in Ha'.
    apply (sy_disj _ _ Hy j i tj t a Hj Hi); eapply region_in_own; [by eapply sy_threads|done|by eapply sy_threads|done].
Qed.

(** A thread loses exactly one block. *)
Definition lost (t t' : Thread) (p : Z) : Prop := ∀ q, in_use t' q ↔ in_use t q ∧ q ≠ p.

Lemma lost_used y L i t p g' t' free : sys_ok y L → threads y !! i = Some t → in_use t p → lost t t' p →
  ∀ q, sys_used (put_thread y i g' t' free) q ↔ sys_used y q ∧ q ≠ p.
Proof.
  intros Hy Hi Hp Hl q. rewrite step_used, (used_split y i t q Hi), (Hl q). split.
  - intros [[? ?]|(j & tj & Hne & Hj & Hq)]; [tauto|]. split; [right; by exists j, tj|]. intros ->. apply Hne.
    by apply (one_owner y L j i tj t p).
  - intros [[?|?] ?]; tauto.
Qed.

(** The block goes on the list of a thread that has not exited. *)
Lemma remote_inv t p : run_inv t → in_use t p → run_inv (set_remote t (p :: remoteFreeList t)).
Proof.
  intros [[] ? ? Hr] [Hl Hn]. constructor; tred; [by constructor|done|by constructor|].
  intros q [->|Hq]%elem_of_cons; [done|by apply Hr].
Qed.

Lemma remote_lost t p : lost t (set_remote t (p :: remoteFreeList t)) p.
Proof. intros q. unfold in_use. tred. rewrite not_elem_of_cons. tauto. Qed.

Lemma thread_remote L i t p : exited t = false → thread_inv L i t → in_use t p →
  thread_inv L i (set_remote t (p :: remoteFreeList t)).
Proof.
  intros He Ht Hp. unfold thread_inv in *. tred. rewrite He in *. destruct (decide _); [|by apply remote_inv].
  destruct Ht as [Hn Ht]. split; [done|]. apply (remote_inv (set_fast t new_fast) p Ht). split; [|apply Hp].
  by apply live_no_bins, Hp.
Qed.

Lemma globals_remote O g t l : globals_ok O g t → globals_ok O g (set_remote t l).
Proof. intros []. by constructor. Qed.

Lemma gave_back_kept t t' : loose_thread t' → no_bins t' →
  (∀ a r r', regions t !! a = Some r → regions t' !! a = Some r' → rindex r' = rindex r) → thread_kept t t'.
Proof.
  intros Hl Hn Hi p r _ [Hp _] Hr. apply uses_live in Hp; [|done].
  destruct (uses_place t' p Hl Hp) as (r' & x & Hr' & _). eauto.
Qed.

(** What a free does to the process. *)
Definition freed_sys (y : System) (L : gset nat) (p : Z) (y' : System) : Prop :=
  sys_ok y' L ∧ (∀ q, sys_used y' q ↔ sys_used y q ∧ q ≠ p) ∧ (∀ j, running y' L j ↔ running y L j) ∧ sizes_kept y y'.

Lemma free_remote_ok y L i t p : sys_ok y L → threads y !! i = Some t → in_use t p →
  ∃ y', moo_free_remote y i p = Ok y' ∧ freed_sys y L p y'.
Proof.
  intros Hy Hi Hp. pose proof (thread_globals y L i t Hy Hi) as Hg. pose proof (sy_threads _ _ Hy i t Hi) as Ht.
  unfold moo_free_remote. rewrite Hi. cbn [of_option obind]. tred. destruct (exited t) eqn:He.
  - unfold thread_inv in Ht. rewrite He in Ht. destruct Ht as (Ho & Hu & Hr). rewrite Hr.
    assert (uses t p) as Hup by (apply uses_live; [apply Ho|apply Hp]).
    destruct (drain_orphan_ok (others y i) (sglob y) t [p]) as (g' & t' & free & -> & [[Ho' Hu' Hg' He' Hr'] Huses Hown Hidx Hfree]).
    { by constructor. } { apply NoDup_singleton. } { by intros q ->%list_elem_of_singleton. }
    cbn [obind]. eexists. split; [reflexivity|].
    assert (lost t t' p) as Hlost.
    { intros q. unfold in_use. rewrite !uses_live, Huses, Hr, Hr' by (apply Ho || apply Ho'). set_solver. }
    assert (thread_kept t t') as Hk.
    { apply gave_back_kept; [apply Ho'|apply Ho'|done]. }
    split; [|split; [by eapply lost_used|split; [by apply (running_put y L i t); congruence|by eapply sizes_change]]].
    apply (step_ok y L L i t); try done.
    + unfold thread_inv. by rewrite He'.
    + intros Hin. destruct (sy_leaving _ _ Hy i Hin) as (t0 & ? & ?). congruence.
    + intros Hin. destruct (proj2 (sy_free _ _ Hy) i Hin) as (t0 & Ht0 & _ & E). exfalso.
      destruct Hup as (a & r & Ha & _). assert (t0 = t) as -> by congruence. by rewrite E in Ha.
    + intros Hf. split; [done|by apply Hfree].
  - eexists. split; [reflexivity|]. split; [|split; [eapply lost_used; [done..|apply remote_lost]|
      split; [by apply (running_put y L i t)|by eapply sizes_change, thread_kept_same]]].
    apply (step_ok y L L i t); try done; [by apply globals_remote|by apply thread_remote|].
    intros Hin. by destruct (run_not_free y L i t Hy Hi He).
Qed.

Lemma sys_free_ok y L i p : sys_ok y L → running y L i → sys_used y p →
  ∃ y', sys_free y i p = Ok y' ∧ freed_sys y L p y'.
Proof.
  intros Hy (t & Hi & He & HL) (j & tj & Hj & Hp).
  destruct (live_block L j tj p (sy_threads _ _ Hy j tj Hj) (proj1 Hp)) as (r & Hr & Hb).
  destruct Hb as (_ & [_ Hpos] & _). unfold sys_free. rewrite (proj2 (Z.eqb_neq _ _)) by lia.
  rewrite (region_thread_ok y L j tj r) by done. cbn [of_option obind].
  destruct (decide (j = i)) as [->|Hne]; [|by eapply free_remote_ok].
  assert (tj = t) as -> by congruence. rewrite Hi. cbn [of_option obind].
  pose proof (run_thread y L i t Hy Hi He HL) as Hrun. pose proof (thread_globals y L i t Hy Hi) as Hg.
  destruct Hp as [Hp Hnp]. destruct Hrun as [Hok Hsm Hn Hrem].
  destruct (moo_free_ok (others y i) (mkState (sglob y) t) p) as (s' & -> & [[Hok' Hg'] Hsm' Hl Hk [Er Ex]]); [done..|].
  cbn [obind]. cbn in Hl, Er, Ex. eexists. split; [reflexivity|].
  assert (lost t (thr s') p) as Hlost.
  { intros q. unfold in_use. rewrite Hl, Er. tauto. }
  split; [|split; [eapply lost_used; done|split; [by apply (running_put y L i t)|by eapply sizes_change, kept_thread]]].
  apply (step_ok y L L i t); try done.
  - unfold thread_inv. rewrite Ex, He, decide_False by done. constructor; [done|done|by rewrite Er|].
    intros q. rewrite Er, Hl. intros Hq. split; [auto|]. by intros ->.
  - intros Hin. by destruct (run_not_free y L i t Hy Hi He).
Qed.

(** ** Threads that come and go *)

Lemma sys_leave_ok y L i : sys_ok y L → running y L i →
  ∃ y', sys_leave y i = Ok y' ∧ sys_ok y' ({[i]} ∪ L) ∧ (∀ q, sys_used y' q ↔ sys_used y q) ∧ sizes_kept y y'.
Proof.
  intros Hy (t & Hi & He & HL). pose proof (run_thread y L i t Hy Hi He HL) as Hrun.
  pose proof (thread_globals y L i t Hy Hi) as Hg. unfold sys_leave. rewrite Hi. cbn [of_option obind].
  destruct (leave_ok (others y i) (mkState (sglob y) t)) as (s' & -> & [Hnb Hinv] & Hu & Hk & Hex & Hrem); [by apply alloc_inv_run|].
  cbn [obind]. apply alloc_inv_run in Hinv as [Hrun' Hg']. cbn in Hex. eexists. split; [reflexivity|]. split; [|split; [|by eapply sizes_change]].
  - apply (step_ok y L _ i t); try done.
    + destruct Hg'. by constructor.
    + unfold thread_inv. rewrite Hex, He, decide_True by set_solver. done.
    + set_solver.
    + congruence.
    + intros Hin. by destruct (run_not_free y L i t Hy Hi He).
  - intros q. rewrite step_used, (used_split y i t q Hi). specialize (Hu q). unfold used in Hu. cbn in Hu.
    unfold in_use. by rewrite Hu.
Qed.

Lemma sys_orphan_ok y L i : sys_ok y L → i ∈ L →
  ∃ y', sys_orphan y i = Ok y' ∧ sys_ok y' (L ∖ {[i]}) ∧ (∀ q, sys_used y' q ↔ sys_used y q) ∧ sizes_kept y y'.
Proof.
  intros Hy HL. destruct (sy_leaving _ _ Hy i HL) as (t & Hi & He).
  pose proof (sy_threads _ _ Hy i t Hi) as Ht. unfold thread_inv in Ht. rewrite He, decide_True in Ht by done.
  destruct Ht as [Hnb Hrun]. pose proof (thread_globals y L i t Hy Hi) as Hg. unfold sys_orphan. rewrite Hi. cbn [of_option obind].
  destruct (orphan_thread_ok (others y i) (mkState (sglob y) t)) as (g' & t' & free & E & [[Ho' Hu' Hg' He' Hr'] Huses Hown Hidx Hfree]).
  { constructor; [done|]. apply alloc_inv_run. split; [done|]. destruct Hg. by constructor. }
  cbn [glob thr] in E, Hidx. rewrite E. cbn [obind].
  assert (thread_kept t t') as Hk by (apply gave_back_kept; [apply Ho'|apply Ho'|done]).
  eexists. split; [reflexivity|]. split; [|split; [|by eapply sizes_change]].
  - apply (step_ok y L _ i t); try done.
    + unfold thread_inv. by rewrite He'.
    + set_solver.
    + set_solver.
    + intros Hin. by destruct (run_not_free y L i t Hy Hi He).
    + intros Hf. split; [done|by apply Hfree].
  - intros q. rewrite step_used, (used_split y i t q Hi). unfold in_use. rewrite !uses_live by (done || apply Ho').
    rewrite Huses, Hr'. cbn. set_solver.
Qed.

(** A thread without regions. *)
Lemma empty_thread_inv t : regions t = ∅ → allRegions t = [] → (∀ j, activeRegions t j = [] ∧ emptyRegions t j = [] ∧ numEmptyRegions t j = 0) →
  remoteFreeList t = [] → fast t = new_fast → run_inv t.
Proof.
  intros E1 E2 E3 E4 E5. constructor; [constructor| | |].
  - intros a r. by rewrite E1.
  - intros j. destruct (E3 j) as (-> & _). split; [constructor|]. intros a. rewrite E1. set_solver.
  - intros j. destruct (E3 j) as (_ & -> & ->). split; [constructor|]. split; [done|]. intros a. rewrite E1. set_solver.
  - unfold all_ok. rewrite E2, E1. split; [constructor|]. intros a. split; [set_solver|]. by intros ?%is_Some_None.
  - intros a a' x (r & Ha & _). by rewrite E1 in Ha.
  - intros j. rewrite E5. done.
  - intros j. destruct (E3 j) as (_ & -> & _). cbn. lia.
  - rewrite E4. constructor.
  - rewrite E4. set_solver.
Qed.

Lemma no_regions t : regions t = ∅ → (∀ x, ¬ own t x) ∧ ∀ p, ¬ in_use t p.
Proof.
  intros E. split.
  - intros x (a & r & Ha & _). by rewrite E in Ha.
  - intros p [(a & r & Ha & _) _]. by rewrite E in Ha.
Qed.

Lemma globals_empty y L i t : sys_ok y L → regions t = ∅ → globals_ok (others y i) (sglob y) t.
Proof.
  intros Hy E. destruct (no_regions t E) as [Hno _]. destruct (sy_globals _ _ Hy) as [? ? Hf _ Hall ? ?].
  assert (∀ x, others y i x → owned y x) as Hin by (intros x (j & tj & _ & ? & ?); by exists j, tj).
  constructor; try done.
  - intros x Hx. split; [apply Hno|]. intros Hx'. by apply (Hf x Hx), Hin.
  - intros x Hx. by apply Hno in Hx.
  - intros x [Hx|[Hx|Hx]]; [apply Hall; by left|by apply Hno in Hx|apply Hall; right; right; auto].
Qed.

Lemma sys_create_ok y L : sys_ok y L →
  ∃ i y', createThread y = Ok (i, y') ∧ sys_ok y' L ∧ running y' L i ∧ ¬ running y L i ∧ (∀ q, sys_used y' q ↔ sys_used y q) ∧ sizes_kept y y'.
Proof.
  intros Hy. unfold createThread. destruct (sy_free _ _ Hy) as [Hn Hfr].
  destruct (last (freeThreads y)) as [i|] eqn:Elast.
  - apply last_Some in Elast as [l E]. destruct (Hfr i) as (t & Hi & He & Hreg); [rewrite E; set_solver|].
    assert (i ∉ L) as HL by (intros Hin; destruct (sy_leaving _ _ Hy i Hin) as (t0 & ? & ?); congruence).
    rewrite Hi. cbn [of_option obind]. exists i. eexists. split; [reflexivity|].
    assert (regions (clear_thread t) = ∅) as Hreg' by done.
    rewrite E in Hn |- *. rewrite length_app. cbn [length]. rewrite Nat.add_sub, take_app_length.
    apply NoDup_app in Hn as (Hnl & Hnot & _). split.
    { apply (change_ok y L); try done.
      - by apply (globals_empty y L).
      - unfold thread_inv. cbn. rewrite decide_False by done. by apply empty_thread_inv.
      - split; [done|]. intros j Hj. right. split; [intros ->; by apply (Hnot i Hj), list_elem_of_singleton|].
        rewrite E. set_solver. }
    split; [exists (clear_thread t); split; [apply lookup_insert_eq|done]|].
    split; [intros (t0 & ? & ? & _); congruence|]. split; [|by eapply sizes_change, thread_kept_same].
    intros q. rewrite change_used, (used_split y i t q Hi). destruct (no_regions _ Hreg) as [_ H1], (no_regions _ Hreg') as [_ H2]. specialize (H1 q). specialize (H2 q). tauto.
  - set (i := fresh (dom (threads y))). assert (threads y !! i = None) as Hi.
    { apply not_elem_of_dom. apply is_fresh. }
    assert (i ∉ L) as HL by (intros Hin; destruct (sy_leaving _ _ Hy i Hin) as (t0 & ? & ?); congruence).
    exists i. eexists. split; [reflexivity|]. split.
    { apply (change_ok y L); try done.
      - by apply (globals_empty y L).
      - unfold thread_inv. cbn. rewrite decide_False by done. by apply empty_thread_inv.
      - split; [done|]. intros j Hj. right. split; [|done]. intros ->. destruct (Hfr i Hj) as (t0 & ? & _). congruence. }
    split; [exists new_thread; split; [apply lookup_insert_eq|done]|].
    split; [intros (t0 & ? & ? & _); congruence|]. split.
    2: { intros p n (j & tj & r & Hj & Hp & Hr & ->) _. exists j, tj, r. split; [|done].
         cbn. rewrite lookup_insert_ne; [done|]. intros <-. congruence. }
    intros q. rewrite change_used. split.
    + intros [Hq|(j & tj & _ & ? & ?)]; [by apply (no_regions new_thread eq_refl) in Hq|by exists j, tj].
    + intros (j & tj & Hj & Hq). right. exists j, tj. split; [|done]. intros ->. congruence.
Qed.
