(* ===== verification/MooClaims.v ===== *)
(** * What the internal allocator guarantees

    The theorems on core/moo_allocator_impl.h: every state that the process
    reaches, and each call in such a state. *)

From Stdlib Require Import ZArith Lia.
From stdpp Require Import base gmap option list.
From S2P Require Import Prelude Moo MooSystem MooSpanFacts MooFacts MooAllocFacts MooMediumFacts MooMemoryFacts.
From S2P Require Import SerializationFacts.
From S2P Require Import MooTotalFacts MooExitFacts MooOrphanFacts MooSystemFacts.

Local Set Warnings "-clear-no-such-hyp".

(** ** Executions *)

Lemma init_ok : sys_ok (mkSystem (mkGlobals [] [] None 0 0 0 0) ∅ []) ∅.
Proof.
  constructor; cbn; try done.
  - constructor; cbn; try done.
    + split; [done|constructor].
    + split; [done|constructor].
    + intros x H. by apply covers_nil in H.
    + intros x H. by apply own_new in H.
    + intros x [H|[H|(i & t & H & _)]]; [done|by apply own_new in H|done].
  - split; [constructor|]. set_solver.
Qed.


Section reachable.
Context (mmap : Globals → Z → Z → option Z) (rngSeed : Z).

(** The states of the process, with the blocks that its clients hold and their
    sizes, and the threads that are about to exit.  Clients call [free] only for
    blocks that they hold. *)
Inductive reachable : System → gset nat → gmap Z Z → Prop :=
  | reach_init : reachable (mkSystem (mkGlobals [] [] None 0 0 0 0) ∅ []) ∅ ∅
  | reach_create y L h i y' :
      reachable y L h → createThread y = Ok (i, y') → reachable y' L h
  | reach_alloc y L h i bytes p y' :
      reachable y L h → running y L i → 0 ≤ bytes ≤ 2 ^ 46 → sys_alloc mmap rngSeed y i bytes = Ok (p, y') →
      reachable y' L (<[p := nbytes (getSizeClass bytes)]> h)
  | reach_free y L h i p y' :
      reachable y L h → running y L i → is_Some (h !! p) → sys_free y i p = Ok y' → reachable y' L (delete p h)
  | reach_leave y L h i y' :
      reachable y L h → running y L i → sys_leave y i = Ok y' → reachable y' ({[i]} ∪ L) h
  | reach_orphan y L h i y' :
      reachable y L h → i ∈ L → sys_orphan y i = Ok y' → reachable y' (L ∖ {[i]}) h.

(** The clients hold the blocks that are in use. *)
Definition holds (y : System) (h : gmap Z Z) : Prop := ∀ p n, h !! p = Some n ↔ block_size y p n.

Lemma size_fun y L p n m : sys_ok y L → block_size y p n → block_size y p m → n = m.
Proof using.
  intros Hy (i & t & r & Hi & Hp & Hr & ->) (j & t' & r' & Hj & Hp' & Hr' & ->).
  assert (i = j) as <- by (by apply (one_owner y L i j t t' p)). congruence.
Qed.

Lemma size_used y L p : sys_ok y L → sys_used y p ↔ ∃ n, block_size y p n.
Proof using.
  intros Hy. split.
  - intros (i & t & Hi & Hp). destruct (live_block L i t p (sy_threads _ _ Hy i t Hi) (proj1 Hp)) as (r & Hr & _).
    exists (nbytes (rindex r)). by exists i, t, r.
  - intros (n & i & t & r & Hi & Hp & _). by exists i, t.
Qed.

(** The blocks after a call that neither allocates nor frees. *)
Lemma holds_same y y' L h : sys_ok y L → holds y h → (∀ L', sys_ok y' L' → (∀ q, sys_used y' q ↔ sys_used y q) →
  sizes_kept y y' → holds y' h).
Proof using.
  intros Hy Hh L' Hy' Hu Hk p n. rewrite (Hh p n). split.
  - intros Hp. apply Hk; [done|]. apply Hu. apply (size_used y L p Hy). eauto.
  - intros Hp. assert (sys_used y p) as Hup by (apply Hu, (size_used y' L' p Hy'); eauto).
    apply (size_used y L p Hy) in Hup as [m Hm]. assert (block_size y' p m) as Hm'.
    { apply Hk; [done|]. apply (size_used y' L' p Hy'). eauto. }
    by rewrite (size_fun y' L' p n m Hy' Hp Hm').
Qed.

Lemma holds_alloc y y' L h p n : sys_ok y L → sys_ok y' L → holds y h → ¬ sys_used y p →
  (∀ q, sys_used y' q ↔ sys_used y q ∨ q = p) → block_size y' p n → sizes_kept y y' → holds y' (<[p := n]> h).
Proof using.
  intros Hy Hy' Hh Hnp Hu Hsz Hk q m. rewrite lookup_insert_Some, (Hh q m). split.
  - intros [[<- <-]|[Hne Hq]]; [done|]. apply Hk; [done|]. apply Hu. left. apply (size_used y L q Hy). eauto.
  - intros Hq. destruct (decide (p = q)) as [->|Hne]; [left; split; [done|by apply (size_fun y' L q)]|right; split; [done|]].
    assert (sys_used y q) as Huq.
    { assert (sys_used y' q) as H by (apply (size_used y' L q Hy'); eauto). apply Hu in H as [?| ->]; done. }
    apply (size_used y L q Hy) in Huq as [k Hk']. assert (block_size y' q k) as Hk''.
    { apply Hk; [done|]. apply (size_used y' L q Hy'). eauto. }
    by rewrite (size_fun y' L q m k Hy' Hq Hk'').
Qed.

Lemma holds_free y y' L h p : sys_ok y L → holds y h → freed_sys y L p y' → holds y' (delete p h).
Proof using.
  intros Hy Hh (Hy' & Hu & _ & Hk) q m. rewrite lookup_delete_Some, (Hh q m). split.
  - intros [Hne Hq]. apply Hk; [done|]. apply Hu. split; [|done]. apply (size_used y L q Hy). eauto.
  - intros Hq. assert (sys_used y' q) as Huq by (apply (size_used y' L q Hy'); eauto).
    apply Hu in Huq as [Huq Hne]. split; [done|]. apply (size_used y L q Hy) in Huq as [k Hk'].
    assert (block_size y' q k) as Hk'' by (apply Hk; [done|]; apply (size_used y' L q Hy'); eauto).
    by rewrite (size_fun y' L q m k Hy' Hq Hk'').
Qed.

Context (Hmmap : mmap_ok mmap).

Lemma reachable_ok y L h : reachable y L h → sys_ok y L ∧ holds y h.
Proof using Hmmap.
  induction 1 as [|y L h i y' _ [Hy Hh] E|y L h i bytes p y' _ [Hy Hh] Hr Hb E|y L h i p y' _ [Hy Hh] Hr Hp E|
    y L h i y' _ [Hy Hh] Hr E|y L h i y' _ [Hy Hh] HL E].
  - split; [apply init_ok|]. intros p n. split; [done|]. intros (i & t & r & Hi & _). done.
  - destruct (sys_create_ok y L Hy) as (j & y1 & E1 & Hy' & _ & _ & Hu & Hk).
    assert (y1 = y') as -> by congruence. split; [done|]. exact (holds_same y y' L h Hy Hh _ Hy' Hu Hk).
  - destruct (sys_alloc_ok mmap rngSeed Hmmap y L i bytes Hy Hr Hb) as [E1|(p1 & y1 & E1 & Hy' & Hn & Hu & _ & Hsz & Hk)]; [congruence|].
    assert (p1 = p ∧ y1 = y') as [-> ->] by (split; congruence). split; [done|]. by apply (holds_alloc y y' L).
  - assert (sys_used y p) as Hup by (destruct Hp as [n Hp%Hh]; apply (size_used y L p Hy); eauto).
    destruct (sys_free_ok y L i p Hy Hr Hup) as (y1 & E1 & Hf). assert (y1 = y') as -> by congruence.
    split; [apply Hf|]. by apply (holds_free y y' L).
  - destruct (sys_leave_ok y L i Hy Hr) as (y1 & E1 & Hy' & Hu & Hk). assert (y1 = y') as -> by congruence.
    split; [done|]. exact (holds_same y y' L h Hy Hh _ Hy' Hu Hk).
  - destruct (sys_orphan_ok y L i Hy HL) as (y1 & E1 & Hy' & Hu & Hk). assert (y1 = y') as -> by congruence.
    split; [done|]. exact (holds_same y y' L h Hy Hh _ Hy' Hu Hk).
Qed.
End reachable.

(** ** A process for the witnesses *)

(** [mmap] that takes the memory above everything that is mapped. *)
Definition mmap_above (g : Globals) (addr bytes : Z) : option Z :=
  let top := foldr (λ v m, Z.max (send v) m) alignment (allMappedRegions g) in
  if top + bytes <=? addr_max then Some top else None.

Lemma mmap_above_ok : mmap_ok mmap_above.
Proof.
  intros g addr bytes rv. unfold mmap_above.
  set (top := foldr _ _ _). destruct (Z.leb_spec (top + bytes) addr_max) as [Hle|]; [|done]. intros [= <-].
  assert (∀ l, alignment ≤ foldr (λ v m, Z.max (send v) m) alignment l ∧
    ∀ x, covers l x → x < foldr (λ v m, Z.max (send v) m) alignment l) as Htop.
  { induction l as [|v l [IH1 IH2]]; cbn [foldr]; [split; [done|]; intros x H; by apply covers_nil in H|].
    split; [lia|]. intros x [Hx|Hx]%covers_cons; [lia|]. specialize (IH2 x Hx). lia. }
  destruct (Htop (allMappedRegions g)) as [H1 H2]. split; [unfold alignment in *; lia|]. split; [done|].
  intros x Hx Hc. specialize (H2 x Hc). lia.
Qed.

Definition proc0 : System := mkSystem (mkGlobals [] [] None 0 0 0 0) ∅ [].
Definition snd_ok {A B} (d : B) (o : outcome (A * B)) : B := match o with Ok (_, y) => y | _ => d end.
Definition ok_or {B} (d : B) (o : outcome B) : B := match o with Ok y => y | _ => d end.

(** Two threads; the first one allocates a block of 100 bytes. *)
Definition proc1 : System := snd_ok proc0 (createThread proc0).
Definition proc2 : System := snd_ok proc0 (createThread proc1).
Definition proc3 : System := snd_ok proc0 (sys_alloc mmap_above 1 proc2 0 100).
Definition block0 : Z := match sys_alloc mmap_above 1 proc2 0 100 with Ok (p, _) => p | _ => 0 end.
(** The first thread exits with the block in use, and the second one frees it. *)
Definition proc4 : System := ok_or proc0 (sys_leave proc3 0).
Definition proc5 : System := ok_or proc0 (sys_orphan proc4 0).
Definition proc6 : System := ok_or proc0 (sys_free proc5 1 block0).

Definition held : gmap Z Z := {[ block0 := 128 ]}.

Lemma proc3_eq : sys_alloc mmap_above 1 proc2 0 100 = Ok (block0, proc3).
Proof. unfold proc3, block0, snd_ok. destruct (sys_alloc mmap_above 1 proc2 0 100) as [[p y]| | | |] eqn:E; [done|..]; exfalso; by vm_compute in E. Qed.

Definition runs (y : System) (i : nat) : bool := match threads y !! i with Some t => negb (exited t) | None => false end.

Lemma runs_running y i : runs y i = true → running y ∅ i.
Proof.
  unfold runs, running. destruct (threads y !! i) as [t|]; [|done]. intros He%negb_true_iff. exists t. set_solver.
Qed.

Lemma is_ok_eq {B} (d : B) (o : outcome B) : match o with Ok _ => true | _ => false end = true → o = Ok (ok_or d o).
Proof. by destruct o. Qed.

Lemma snd_ok_eq {A B} (d : B) (o : outcome (A * B)) :
  match o with Ok _ => true | _ => false end = true → ∃ a, o = Ok (a, snd_ok d o).
Proof. destruct o as [[a b]| | | |]; [|done..]. by exists a. Qed.

Lemma reach2 : reachable mmap_above 1 proc2 ∅ ∅.
Proof.
  destruct (snd_ok_eq proc0 (createThread proc0)) as [i Ei]; [by vm_compute|].
  destruct (snd_ok_eq proc0 (createThread proc1)) as [j Ej]; [by vm_compute|].
  eapply reach_create; [|exact Ej]. eapply reach_create; [|exact Ei]. apply reach_init.
Qed.

Lemma reach3 : reachable mmap_above 1 proc3 ∅ held.
Proof.
  replace held with (<[block0 := nbytes (getSizeClass 100)]> ∅ : gmap Z Z) by (unfold held; f_equal; by vm_compute).
  apply (reach_alloc mmap_above 1 proc2 ∅ ∅ 0 100); [apply reach2|apply runs_running; by vm_compute|lia|apply proc3_eq].
Qed.

Lemma reach4 : reachable mmap_above 1 proc4 {[0%nat]} held.
Proof.
  replace ({[0%nat]} : gset nat) with ({[0%nat]} ∪ ∅ : gset nat) by set_solver.
  apply (reach_leave mmap_above 1 proc3); [apply reach3|apply runs_running; by vm_compute|].
  apply (is_ok_eq proc0). by vm_compute.
Qed.

Lemma reach5 : reachable mmap_above 1 proc5 ∅ held.
Proof.
  replace (∅ : gset nat) with ({[0%nat]} ∖ {[0%nat]} : gset nat) by set_solver.
  apply (reach_orphan mmap_above 1 proc4); [apply reach4|set_solver|]. apply (is_ok_eq proc0). by vm_compute.
Qed.

Lemma reach6 : reachable mmap_above 1 proc6 ∅ ∅.
Proof.
  replace (∅ : gmap Z Z) with (delete block0 held) by (unfold held; by rewrite delete_singleton_eq).
  apply (reach_free mmap_above 1 proc5 ∅ held 1); [apply reach5|apply runs_running; by vm_compute| |].
  - unfold held. rewrite lookup_singleton_eq. by eexists.
  - apply (is_ok_eq proc0). by vm_compute.
Qed.

(** ** The theorems *)

Section claims.
Context (mmap : Globals → Z → Z → option Z) (rngSeed : Z).

Lemma block_bounds y L p n : sys_ok y L → block_size y p n →
  ∃ i t r, threads y !! i = Some t ∧ regions t !! region_of p = Some r ∧ n = nbytes (rindex r) ∧
    block_in (region_of p) r p ∧ ∀ x, p ≤ x < p + n → own t x.
Proof using.
  intros Hy (i & t & r & Hi & Hp & Hr & ->).
  destruct (live_block L i t p (sy_threads _ _ Hy i t Hi) (proj1 Hp)) as (r' & Hr' & Hb). assert (r' = r) as -> by congruence.
  exists i, t, r. split; [done|]. split; [done|]. split; [done|]. split; [done|]. intros x Hx.
  exists (region_of p). by apply (in_own t _ r p).
Qed.

Lemma block_aligned a r p : block_in a r p → p mod Z.min 4096 (nbytes (rindex r)) = 0.
Proof using.
  intros (Hc & [Hal _] & _ & _ & _ & _ & k & ->). destruct (lf_align _ (layout_ok _ Hc)) as [H1 H2].
  destruct (align_pow _ Hc) as (e & He & E). rewrite E in *. apply aligned_mult in Hal as [j ->].
  assert (2 ^ e ≠ 0) by (apply Z.pow_nonzero; lia).
  assert (∃ d, nbytes (rindex r) = d * 2 ^ e) as [d Ed].
  { destruct (Z.min_spec 4096 (nbytes (rindex r))) as [[_ Em]|[_ Em]]; rewrite E in Em.
    - exists (2 ^ (64 - rindex r - e)). unfold nbytes. rewrite <- Z.pow_add_r; [f_equal; lia| |lia].
      destruct (Z.le_gt_cases e (64 - rindex r)) as [|Hlt]; [lia|]. exfalso.
      assert (2 ^ (64 - rindex r) < 2 ^ e) by (apply Z.pow_lt_mono_r; lia). unfold nbytes, class_ok in *. lia.
    - exists 1. lia. }
  apply Z.mod_divide in H1, H2; [|done..]. destruct H1 as [m1 ->], H2 as [m2 ->].
  apply Z.mod_divide; [done|]. exists (j * m2 + m1 + k * d). rewrite Ed. ring.
Qed.
End claims.











(** The search through the table of mapped memory. *)
Lemma region_search_spec lo l x : spans_from lo l → -1 ≤ lo →
  (¬ covers l x ∧ region_search l x = (0, 0)) ∨
  (∃ v, v ∈ l ∧ sbegin v ≤ x < send v ∧ region_search l x = (sbegin v, send v - sbegin v)).
Proof.
  revert lo. induction l as [|v l IH]; intros lo; cbn [region_search spans_from].
  { left. split; [|done]. intros []%covers_nil. }
  intros (H1 & H2 & H3) Hlo. rewrite Z.geb_leb.
  destruct (Z.leb_spec (sbegin v) x), (Z.ltb_spec x (send v)); cbn [andb].
  - right. exists v. split; [left|done].
  - destruct (IH _ H3) as [[Hn E]|(w & Hw & Hx & E)]; [lia|left|right].
    + split; [rewrite covers_cons; intros [?|?]; [lia|done]|done].
    + exists w. split; [by right|done].
  - destruct (IH _ H3) as [[Hn E]|(w & Hw & Hx & E)]; [lia|left|right].
    + split; [rewrite covers_cons; intros [?|?]; [lia|done]|done].
    + exists w. split; [by right|done].
  - lia.
Qed.

Lemma regionAt_spec g x : spans_ok (allMappedRegions g) →
  publishedRegions g = (match allMappedRegions g with [] => None | l => Some l end) →
  (¬ covers (allMappedRegions g) x ∧ regionAt g x = (0, 0)) ∨
  (∃ v, v ∈ allMappedRegions g ∧ sbegin v ≤ x < send v ∧ regionAt g x = (sbegin v, send v - sbegin v)).
Proof.
  intros Hs E. unfold regionAt. rewrite E. destruct (allMappedRegions g) as [|v l].
  - left. split; [|done]. intros []%covers_nil.
  - apply (region_search_spec (-1)); [done|lia].
Qed.

Lemma span_unique l u v x : spans_ok l → u ∈ l → v ∈ l → sbegin u ≤ x < send u → sbegin v ≤ x < send v → u = v.
Proof.
  intros Hs [i Hi]%list_elem_of_lookup [j Hj]%list_elem_of_lookup Hu Hv.
  destruct (lt_eq_lt_dec i j) as [[Hij| ->]|Hij]; [|by simplify_eq|].
  - pose proof (spans_from_lookup _ l i j u v Hs Hi Hj Hij). lia.
  - pose proof (spans_from_lookup _ l j i v u Hs Hj Hi Hij). lia.
Qed.

(** C39: [moo_alloc_size] gives the size that the block was allocated with, and
    [regionAt] a mapped interval that contains the whole of it. [owns] is exactly
    membership in the memory that the allocator has mapped. *)
Theorem moo_lookup_correct mmap rngSeed y L h :
  mmap_ok mmap → reachable mmap rngSeed y L h →
  (∀ x, owns (sglob y) x = true ↔ covers (allMappedRegions (sglob y)) x) ∧
  (∀ p n, h !! p = Some n →
     (∃ i t, region_thread y (region_of p) = Some i ∧ threads y !! i = Some t ∧ moo_alloc_size t p = Ok n) ∧
     let '(b, size) := regionAt (sglob y) p in b ≤ p ∧ p + n ≤ b + size).
Proof.
  intros Hm Hr. destruct (reachable_ok mmap rngSeed Hm y L h Hr) as [Hy Hh].
  destruct (sy_globals _ _ Hy) as [_ [Hs _] _ _ _ Hsnap _]. pose proof (regionAt_spec (sglob y)) as Hat. split.
  - intros x. unfold owns. destruct (Hat x Hs Hsnap) as [[Hn E]|(v & Hv & Hx & E)]; rewrite E; cbn [snd].
    + by split.
    + rewrite (proj2 (Z.eqb_neq _ _)) by lia. split; [intros _|done]. apply Exists_exists. eauto.
  - intros p n Hp%Hh. destruct (block_bounds y L p n Hy Hp) as (i & t & r & Hi & Ha & -> & Hb & Hown).
    pose proof (thread_globals y L i t Hy Hi) as Hg. split.
    + exists i, t. split; [by apply (region_thread_ok y L i t r)|]. split; [done|].
      destruct Hb as (Hc & [_ Hpos] & _). unfold moo_alloc_size. rewrite (proj2 (Z.eqb_neq _ _)) by lia.
      rewrite Ha. cbn [of_option obind]. rewrite (class_bytes_nb _ Hc). cbn [obind]. f_equal.
      unfold nbytes, class_ok in *. assert (2 ^ 3 ≤ 2 ^ (64 - rindex r)) by (apply Z.pow_le_mono_r; lia). lia.
    + assert (0 < nbytes (rindex r)) by (apply Z.pow_pos_nonneg; unfold block_in, class_ok in Hb; lia).
      destruct (proj1 (Exists_exists _ _) (covered_interval _ p (p + nbytes (rindex r)) Hs ltac:(lia)
        (λ x Hx, go_all _ _ _ Hg x (or_intror (or_introl (Hown x Hx)))))) as (v & Hv & H1 & H2).
      destruct (Hat p Hs Hsnap) as [[[] _]|(w & Hw & Hx & ->)]; [apply Exists_exists; exists v; split; [done|lia]|].
      assert (w = v) as -> by (eapply (span_unique _ w v p); eauto; lia). lia.
Qed.

Lemma moo_lookup_correct_witness : let '(b, size) := regionAt (sglob proc5) block0 in b ≤ block0 ∧ block0 + 128 ≤ b + size.
Proof.
  destruct (moo_lookup_correct mmap_above 1 proc5 ∅ held mmap_above_ok reach5) as [_ H].
  destruct (H block0 128) as [_ H']; [apply lookup_singleton_eq|exact H'].
Defined.

(** C40: [add_span] adds a range that is not in a table of free or mapped memory: the
    table stays sorted and merged, covers the range as well and nothing else, and
    every end point that is a multiple of a page stays one. *)
Theorem add_span_correct s b e :
  spans_ok s → Z.of_nat (length s) < 2 ^ 62 → 0 ≤ b < e → (∀ x, b ≤ x < e → ¬ covers s x) →
  ∃ s', add_span s b e = Ok s' ∧ spans_ok s' ∧ (∀ x, covers s' x ↔ covers s x ∨ b ≤ x < e) ∧
    (endpoint b → endpoint e → endpoints s → endpoints s').
Proof.
  intros Hs Hl Hbe Hd. destruct (add_span_spec s b e Hs Hl Hbe Hd) as (s' & E & H1 & H2 & H3).
  exists s'. split; [done|]. split; [done|]. split; [done|]. apply H3.
Qed.

Lemma add_span_correct_witness : ∃ s', add_span [mkSpan 0 4; mkSpan 8 16] 4 8 = Ok s' ∧ spans_ok s'.
Proof.
  destruct (add_span_correct [mkSpan 0 4; mkSpan 8 16] 4 8) as (s' & E & H & _); [cbn; lia|cbn; lia|lia| |by exists s'].
  intros x Hx [H|[H|[]%covers_nil]%covers_cons]%covers_cons; cbn in H; lia.
Defined.

(** The size class of a request of at most 2^63 bytes fits the tables of the
    allocator, its blocks hold the request, and waste less than half of the block.
    The classes grow with the request. *)
Theorem size_class_bounds bytes bytes' :
  0 ≤ bytes ≤ bytes' → bytes' ≤ 2 ^ 63 →
  ∃ n, class_bytes (getSizeClass bytes) = Ok n ∧ 0 < getSizeClass bytes < 64 ∧
    bytes ≤ n ∧ (8 < bytes → n < 2 * bytes) ∧ getSizeClass bytes' ≤ getSizeClass bytes.
Proof.
  intros Hb Hb'. destruct (getSizeClass_spec bytes) as (H1 & H2 & H3); [lia|].
  exists (2 ^ (64 - getSizeClass bytes)). split; [apply class_bytes_ok; lia|]. split; [lia|]. split; [done|]. split; [done|].
  rewrite !getSizeClass_log by lia. pose proof (Z.log2_le_mono (Z.max bytes 1 - 1) (Z.max bytes' 1 - 1)). lia.
Qed.

Lemma size_class_bounds_witness :
  ∃ n, class_bytes (getSizeClass 100) = Ok n ∧ 0 < getSizeClass 100 < 64 ∧
    100 ≤ n ∧ (8 < 100 → n < 2 * 100) ∧ getSizeClass 200 ≤ getSizeClass 100.
Proof. apply (size_class_bounds 100 200); lia. Defined.

(** The buffers of the serializer grow into what the allocator really reserved. *)
#[export] Instance moo_AllocSize sizeofBuffer : 8 ≤ sizeofBuffer < 0x80 →
  AllocSize sizeofBuffer (λ n, nbytes (getSizeClass n)).
Proof.
  intros Hs. constructor.
  - lia.
  - intros n Hn. apply getSizeClass_spec. lia.
  - intros n Hn. destruct (getSizeClass_spec n) as (_ & _ & H); [lia|].
    destruct (Z.eq_dec n 8) as [->|]; [by vm_compute|]. unfold nbytes. lia.
Qed.
