(* ===== verification/StoreTopology.v ===== *)
(** * Model of core/store.cc: the mesh of ranks

    The ranks form a ring with random shortcuts.  Every rank builds the same
    graph from the key of the store and searches it for the first hop to every
    other rank.

    Ranks are natural numbers below the world size, which is an [int], so none
    of the [uint32_t] computations here wraps. *)

From Stdlib Require Import ZArith Lia.
From stdpp Require Import base list option strings.
From S2P Require Import Prelude.

(** ** Hashing *)

(** [stringHash]. *)
Definition hash_step (r : Z) (x : Ascii.ascii) : Z := u32 (r * 42643801 + Z.of_N (Ascii.N_of_ascii x)).

Definition stringHash (s : string) : Z :=
  foldl hash_step 524287 (String.list_ascii_of_string s) mod 2147483647.

(** ** Vectors *)

(** [v.at(i)] and [v[i]]. *)
Definition vec_at {A} (l : list A) (i : nat) : outcome A :=
  match l !! i with Some x => Ok x | None => Throw OutOfRange end.
Definition vec_get {A} (l : list A) (i : nat) : outcome A := of_option (l !! i).
Definition vec_set {A} (l : list A) (i : nat) (x : A) : outcome (list A) :=
  if bool_decide (i < length l)%nat then Ok (<[i := x]> l) else Undef.

Section topology.
Context (worldSize : nat).

(** [storeRank]: the rank that holds a key. *)
Definition storeRank (key : string) : nat := Z.to_nat (stringHash key mod Z.of_nat worldSize).

(** ** The graph *)

Definition addedge (edges : list (list nat)) (i e : nat) : outcome (list (list nat)) :=
  if bool_decide (i = e) then Ok edges
  else
    let! v := vec_at edges i in
    if bool_decide (e ∈ v) then Ok edges
    else
      let edges := <[i := v ++ [e]]> edges in
      let! v2 := vec_at edges e in
      CHECK (negb (bool_decide (i ∈ v2))) ;;!
      Ok (<[e := v2 ++ [i]]> edges).

Fixpoint addedges (edges : list (list nat)) (l : list (nat * nat)) : outcome (list (list nat)) :=
  match l with
  | [] => Ok edges
  | (i, e) :: l => let! edges := addedge edges i e in addedges edges l
  end.

Definition ring : list (nat * nat) := (λ i, (i, (i + 1) mod worldSize)%nat) <$> seq 0 worldSize.

(** *** Shortcuts *)

Definition neighbors (a b : nat) : bool :=
  let x := if (b <? a)%nat then (a - b)%nat else (b - a)%nat in
  (x =? 1)%nat || (x =? worldSize - 1)%nat.

(** [std::swap(connections[i], connections[x])]. *)
Definition swap (c : list nat) (i x : nat) : outcome (list nat) :=
  let! a := vec_get c i in
  let! b := vec_get c x in
  let! c := vec_set c i b in
  vec_set c x a.

(** The condition of the [while] loop. *)
Definition unsuitable (c : list nat) (i : nat) : outcome bool :=
  let! ci := vec_get c i in
  let! cci := vec_get c ci in
  Ok ((ci =? i)%nat || neighbors i ci || (cci =? i)%nat).

(** The [while] loop, with the numbers that the generator gives; what is left of
    them is returned as well. *)
Fixpoint reroll (draws : list nat) (c : list nat) (i : nat) : outcome (list nat * list nat) :=
  let! b := unsuitable c i in
  if b then
    match draws with
    | [] => NoFuel
    | x :: draws =>
        let! ci := vec_get c i in
        if neighbors x ci then reroll draws c i
        else let! c := swap c i x in reroll draws c i
    end
  else Ok (c, draws).

Fixpoint rerolls (draws : list nat) (c : list nat) (l : list nat) : outcome (list nat * list nat) :=
  match l with
  | [] => Ok (c, draws)
  | i :: l => let! '(c, draws) := reroll draws c i in rerolls draws c l
  end.

(** The generator [std::mt19937_64] for a seed: how it shuffles, and the numbers
    below the world size that it gives afterwards. *)
Context (shuffle : Z → list nat → list nat) (draws : Z → list nat).

Definition shortcuts (seed : Z) : outcome (list (nat * nat)) :=
  if (4 <? worldSize)%nat then
    let! '(c, _) := rerolls (draws seed) (shuffle seed (seq 0 worldSize)) (seq 0 worldSize) in
    Ok (imap (λ i e, (i, e)) c)
  else Ok [].

(** The graph that all ranks agree on. *)
Definition mesh (storekey : string) : outcome (list (list nat)) :=
  let! edges := addedges (replicate worldSize []) ring in
  let! l := shortcuts (64 + stringHash storekey) in
  addedges edges l.

(** ** The search for first hops *)

Record Node := mkNode { ni : nat; nfirst : nat; ndistance : nat }.

Record search := mkSearch { visited : list bool; open : list Node; hops : list nat }.

(** One neighbor that has not been visited. *)
Definition discover (s : search) (x : Node) : outcome search :=
  let! vi := vec_set (visited s) (ni x) true in
  let! fh := vec_set (hops s) (ni x) (nfirst x) in
  Ok (mkSearch vi (open s ++ [x]) fh).

(** The loop over [edges[rank]]. *)
Fixpoint start_edges (s : search) (l : list nat) : outcome search :=
  match l with
  | [] => Ok s
  | v :: l =>
      let! b := vec_get (visited s) v in
      CHECK (negb b) ;;!
      let! s := discover s (mkNode v v 1) in
      start_edges s l
  end.

(** The loop over [edges[x.i]]. *)
Fixpoint visit_edges (s : search) (x : Node) (l : list nat) : outcome search :=
  match l with
  | [] => Ok s
  | v :: l =>
      let! b := vec_get (visited s) v in
      if b then visit_edges s x l
      else
        let! s := discover s (mkNode v (nfirst x) (ndistance x + 1)) in
        visit_edges s x l
  end.

Fixpoint search_loop (fuel : nat) (edges : list (list nat)) (s : search) : outcome search :=
  match open s with
  | [] => Ok s
  | x :: open =>
      match fuel with
      | O => NoFuel
      | S fuel =>
          let! es := vec_get edges (ni x) in
          let! s := visit_edges (mkSearch (visited s) open (hops s)) x es in
          search_loop fuel edges s
      end
  end.

(** Every rank is queued at most once. *)
Definition search_fuel : nat := worldSize.

Definition first_hops (edges : list (list nat)) (rank : nat) : outcome (list nat) :=
  let! fh := vec_set (replicate worldSize worldSize) rank rank in
  let! vi := vec_set (replicate worldSize false) rank true in
  let! es := vec_get edges rank in
  let! s := start_edges (mkSearch vi [] fh) es in
  let! s := search_loop search_fuel edges s in
  CHECK (forallb id (visited s)) ;;!
  Ok (hops s).

(** How this process shuffles the neighbors of each rank. *)
Context (shuffle_edges : nat → list nat → list nat).

Definition findPaths (storekey : string) (rank : nat) : outcome (list (list nat) * list nat) :=
  let! edges := mesh storekey in
  let edges := imap shuffle_edges edges in
  let! firsthop := first_hops edges rank in
  Ok (edges, firsthop).

(** The ranks that a first hop leads to. *)
Definition getBroadcastForwardRanks (firsthop : list nat) (edge : nat) : outcome (list nat) :=
  if bool_decide (worldSize ≤ length firsthop)%nat then
    Ok (filter (λ r, firsthop !! r = Some edge) (seq 0 worldSize))
  else Undef.
End topology.
