(* ===== verification/StoreTopologyFacts.v ===== *)
(** * The mesh of ranks is connected, and the first hops are on shortest paths

    Facts about file StoreTopology. *)

From Stdlib Require Import ZArith Lia Sorted.
From stdpp Require Import base gmap list option strings sorting.
From S2P Require Import Prelude StoreTopology.

Local Set Warnings "-clear-no-such-hyp".

(** ** Graphs *)

Definition edge (G : list (list nat)) (a b : nat) : Prop := ∃ l, G !! a = Some l ∧ b ∈ l.

Inductive walk (G : list (list nat)) : nat → nat → nat → Prop :=
  | walk_nil a : walk G a a 0
  | walk_cons a b c n : edge G a b → walk G b c n → walk G a c (S n).

(** The number of hops between two ranks. *)
Definition dist (G : list (list nat)) (a b n : nat) : Prop := walk G a b n ∧ ∀ m, walk G a b m → (n ≤ m)%nat.

Record graph_ok (worldSize : nat) (G : list (list nat)) : Prop := {
  gr_length : length G = worldSize;
  gr_sym a b : edge G a b → edge G b a;
  gr_irrefl a : ¬ edge G a a;
  gr_nodup a l : G !! a = Some l → NoDup l
}.

Lemma walk_trans G a b c n m : walk G a b n → walk G b c m → walk G a c (n + m).
Proof. induction 1; [done|]. intros. cbn. econstructor; eauto. Qed.

Lemma walk_snoc G a b c n : walk G a b n → edge G b c → walk G a c (S n).
Proof. intros H1 H2. replace (S n) with (n + 1)%nat by lia. eapply walk_trans; [done|]. econstructor; [done|constructor]. Qed.

Lemma walk_rev G : (∀ a b, edge G a b → edge G b a) → ∀ a b n, walk G a b n → walk G b a n.
Proof. intros Hs. induction 1; [constructor|]. eapply walk_snoc; [done|]. by apply Hs. Qed.

Lemma dist_fun G a b n m : dist G a b n → dist G a b m → n = m.
Proof. intros [H1 H2] [H3 H4]. apply Nat.le_antisymm; auto. Qed.

Lemma edge_bound worldSize G a b : graph_ok worldSize G → edge G a b → (a < worldSize ∧ b < worldSize)%nat.
Proof.
  intros HG He. pose proof (gr_sym _ _ HG _ _ He) as (k & Hk & _). destruct He as (l & Hl & _).
  rewrite <- (gr_length _ _ HG). eauto using lookup_lt_Some.
Qed.

(** ** Building the graph *)

Lemma edge_insert G i l a b : (i < length G)%nat →
  edge (<[i := l]> G) a b ↔ if decide (a = i) then b ∈ l else edge G a b.
Proof.
  intros Hi. unfold edge. destruct (decide (a = i)) as [->|].
  - rewrite list_lookup_insert_eq by done. split; [by intros (? & [= <-] & ?)|eauto].
  - by rewrite list_lookup_insert_ne by done.
Qed.

Section build.
Context (worldSize : nat).

Lemma addedge_ok G i e : graph_ok worldSize G → (i < worldSize)%nat → (e < worldSize)%nat →
  ∃ G', addedge G i e = Ok G' ∧ graph_ok worldSize G' ∧
    (∀ a b, edge G' a b ↔ edge G a b ∨ (i ≠ e ∧ (a = i ∧ b = e ∨ a = e ∧ b = i))) ∧
    (∀ a l l', G !! a = Some l → G' !! a = Some l' →
       (length l' ≤ length l + (if decide (i = a) then 1 else 0) + (if decide (e = a) then 1 else 0))%nat).
Proof using Type.
  intros HG Hi He. unfold addedge, vec_at. case_bool_decide as Hie.
  { exists G. split; [done|]. split; [done|]. split; [naive_solver|]. intros. simplify_eq. lia. }
  pose proof (gr_length _ _ HG) as Hl.
  destruct (lookup_lt_is_Some_2 G i) as [v Hv]; [lia|]. rewrite Hv. cbn [obind]. case_bool_decide as Hin.
  { exists G. split; [done|]. split; [done|]. split; [|intros; simplify_eq; lia].
    intros a b. split; [tauto|]. assert (edge G i e) by (by exists v).
    intros [?|(_ & [[-> ->]|[-> ->]])]; [done|done|by apply HG]. }
  rewrite list_lookup_insert_ne by done. destruct (lookup_lt_is_Some_2 G e) as [w Hw]; [lia|]. rewrite Hw. cbn [obind].
  assert (i ∉ w) as Hiw.
  { intros Hiw. apply Hin. assert (edge G e i) as He' by (by exists w). apply HG in He' as (v' & Hv' & ?). congruence. }
  rewrite bool_decide_false by done. cbn [negb CHECK obind]. eexists. split; [done|].
  assert (∀ a b, edge (<[e:=w ++ [i]]> (<[i:=v ++ [e]]> G)) a b ↔
    edge G a b ∨ (i ≠ e ∧ (a = i ∧ b = e ∨ a = e ∧ b = i))) as Hedge.
  { intros a b. rewrite edge_insert by (rewrite length_insert; lia). pose proof (edge_insert G i (v ++ [e]) a b ltac:(lia)) as H1.
    repeat case_decide; subst; rewrite ?H1; unfold edge; rewrite ?Hv, ?Hw; set_solver. }
  split; [|split; [done|]].
  - constructor.
    + by rewrite !length_insert.
    + intros a b. rewrite !Hedge. intros [?|?]; [left; by apply HG|right; tauto].
    + intros a. rewrite Hedge. intros [?%(gr_irrefl _ _ HG)|?]; [done|naive_solver].
    + intros a l. destruct (decide (a = e)) as [->|]; [|destruct (decide (a = i)) as [->|]].
      * rewrite list_lookup_insert_eq by (rewrite length_insert; lia). intros [= <-]. apply NoDup_app.
        split; [by eapply HG|]. split; [set_solver|apply NoDup_singleton].
      * rewrite list_lookup_insert_ne, list_lookup_insert_eq by (done || lia). intros [= <-]. apply NoDup_app.
        split; [by eapply HG|]. split; [set_solver|apply NoDup_singleton].
      * rewrite !list_lookup_insert_ne by done. apply HG.
  - intros a l l' Hla. destruct (decide (a = e)) as [->|]; [|destruct (decide (a = i)) as [->|]].
    + rewrite list_lookup_insert_eq by (rewrite length_insert; lia). intros [= <-]. rewrite length_app. cbn [length].
      simplify_eq. repeat case_decide; try done; lia.
    + rewrite list_lookup_insert_ne, list_lookup_insert_eq by (done || lia). intros [= <-]. rewrite length_app. cbn [length].
      simplify_eq. repeat case_decide; try done; lia.
    + rewrite !list_lookup_insert_ne by done. intros. simplify_eq. lia.
Qed.

(** How often a rank occurs as the first or the second end of a pair. *)
Definition ends (P : list (nat * nat)) (a : nat) : nat :=
  (length (filter (λ p, p.1 = a) P) + length (filter (λ p, p.2 = a) P))%nat.

Lemma ends_cons i e P a :
  ends ((i, e) :: P) a = (ends P a + (if decide (i = a) then 1 else 0) + (if decide (e = a) then 1 else 0))%nat.
Proof using Type.
  unfold ends. rewrite !filter_cons. cbn [fst snd]. repeat case_decide; cbn [length]; lia.
Qed.

Lemma addedges_ok P G : graph_ok worldSize G →
  Forall (λ p, (p.1 < worldSize)%nat ∧ (p.2 < worldSize)%nat) P →
  ∃ G', addedges G P = Ok G' ∧ graph_ok worldSize G' ∧
    (∀ a b, edge G' a b ↔ edge G a b ∨ (a ≠ b ∧ ((a, b) ∈ P ∨ (b, a) ∈ P))) ∧
    (∀ a l l', G !! a = Some l → G' !! a = Some l' → (length l' ≤ length l + ends P a)%nat).
Proof using Type.
  revert G. induction P as [|[i e] P IH]; intros G HG HP.
  { exists G. split; [done|]. split; [done|]. split; [set_solver|]. intros. simplify_eq. lia. }
  apply Forall_cons in HP as [[Hi He] HP]. cbn [fst snd] in *. cbn [addedges].
  destruct (addedge_ok G i e HG Hi He) as (G1 & -> & HG1 & Hed1 & Hlen1). cbn [obind].
  destruct (IH G1 HG1 HP) as (G2 & -> & HG2 & Hed2 & Hlen2). exists G2. split; [done|]. split; [done|]. split.
  - intros a b. rewrite Hed2, Hed1, !elem_of_cons. clear. split.
    + intros [[?|(? & [[-> ->]|[-> ->]])]|?]; naive_solver.
    + intros [?|(? & [[[= -> ->]|?]|[[= -> ->]|?]])]; naive_solver.
  - intros a l l' Hl Hl'. destruct (lookup_lt_is_Some_2 G1 a) as [l1 Hl1].
    { rewrite (gr_length _ _ HG1), <- (gr_length _ _ HG). eauto using lookup_lt_Some. }
    specialize (Hlen1 a l l1 Hl Hl1). specialize (Hlen2 a l1 l' Hl1 Hl'). rewrite ends_cons. lia.
Qed.

Lemma empty_graph_ok : graph_ok worldSize (replicate worldSize []).
Proof using Type.
  assert (∀ a b, ¬ edge (replicate worldSize []) a b) as H.
  { intros a b (l & [-> _]%lookup_replicate & ?). set_solver. }
  constructor; [apply length_replicate|naive_solver|naive_solver|]. intros a l [-> _]%lookup_replicate. constructor.
Qed.

(** Each rank is an end of two pairs when the firsts and the seconds are distinct. *)
Lemma ends_le P a : NoDup P.*1 → NoDup P.*2 → (ends P a ≤ 2)%nat.
Proof using Type.
  assert (∀ (f : nat * nat → nat) (Q : list (nat * nat)), NoDup (f <$> Q) → (length (filter (λ p, f p = a) Q) ≤ 1)%nat) as H.
  { intros f Q. induction Q as [|q Q IH]; [cbn; lia|]. rewrite fmap_cons, NoDup_cons, filter_cons. intros [Hq HQ].
    case_decide as E; [|by apply IH]. cbn [length].
    assert (filter (λ p, f p = a) Q = []) as ->; [|cbn; lia]. apply elem_of_nil_inv.
    intros p [Ep Hp]%list_elem_of_filter. apply Hq. rewrite E, <- Ep. by apply list_elem_of_fmap_2. }
  intros H1 H2. unfold ends. pose proof (H fst P H1). pose proof (H snd P H2). lia.
Qed.

Lemma ends_app P Q a : ends (P ++ Q) a = (ends P a + ends Q a)%nat.
Proof using Type. unfold ends. rewrite !filter_app, !length_app. lia. Qed.
End build.

(** ** The ring and the shortcuts *)

Section mesh.
Context (worldSize : nat).

Lemma ring_fst : (ring worldSize).*1 = seq 0 worldSize.
Proof using Type. unfold ring. rewrite <- list_fmap_compose. apply list_fmap_id. Qed.

Lemma ring_bound : Forall (λ p, (p.1 < worldSize)%nat ∧ (p.2 < worldSize)%nat) (ring worldSize).
Proof using Type.
  apply Forall_forall. intros p (i & -> & Hi%elem_of_seq)%list_elem_of_fmap. cbn. split; [lia|]. apply Nat.mod_upper_bound. lia.
Qed.

Lemma succ_mod i : (i < worldSize)%nat → ((i + 1) mod worldSize = if decide (i + 1 = worldSize) then 0 else i + 1)%nat.
Proof using Type.
  intros Hi. case_decide as E; [rewrite E; apply Nat.Div0.mod_same|apply Nat.mod_small; lia].
Qed.

Lemma ring_snd : NoDup (ring worldSize).*2.
Proof using Type.
  unfold ring. rewrite <- list_fmap_compose. apply NoDup_fmap_2_strong; [|apply NoDup_seq].
  intros i j Hi%elem_of_seq Hj%elem_of_seq. cbn. rewrite !succ_mod by lia. repeat case_decide; lia.
Qed.

Lemma swap_ok c i x : (i < length c)%nat → (x < length c)%nat → ∃ c', swap c i x = Ok c' ∧ c' ≡ₚ c ∧
  (∀ j, c' !! j = if decide (j = i) then c !! x else if decide (j = x) then c !! i else c !! j).
Proof using Type.
  intros Hi Hx. unfold swap, vec_get, vec_set. destruct (lookup_lt_is_Some_2 c i Hi) as [a Ha].
  destruct (lookup_lt_is_Some_2 c x Hx) as [b Hb]. rewrite Ha, Hb. cbn [of_option obind].
  rewrite bool_decide_true by done. cbn [obind]. rewrite bool_decide_true by (by rewrite length_insert).
  eexists. split; [done|]. split.
  - apply (Permutation_insert_swap c i x a b Ha Hb).
  - intros j. destruct (decide (j = i)) as [->|]; [destruct (decide (i = x)) as [->|]|destruct (decide (j = x)) as [->|]].
    + rewrite list_lookup_insert_eq by (by rewrite length_insert). congruence.
    + by rewrite list_lookup_insert_ne, list_lookup_insert_eq.
    + rewrite list_lookup_insert_eq by (by rewrite length_insert). congruence.
    + by rewrite !list_lookup_insert_ne.
Qed.

(** *** The loop that improves the shortcuts *)

(** The ranks in some order. *)
Local Abbreviation perm c := (c ≡ₚ seq 0 worldSize).

Lemma perm_length c : perm c → length c = worldSize.
Proof using Type. intros H. by rewrite H, length_seq. Qed.

Lemma perm_lookup c i : perm c → (i < worldSize)%nat → ∃ a, c !! i = Some a ∧ (a < worldSize)%nat.
Proof using Type.
  intros Hc Hi. destruct (lookup_lt_is_Some_2 c i) as [a Ha]; [by rewrite (perm_length c)|].
  exists a. split; [done|]. apply list_elem_of_lookup_2 in Ha. rewrite Hc in Ha. apply elem_of_seq in Ha. lia.
Qed.

Lemma perm_inj c i j a : perm c → c !! i = Some a → c !! j = Some a → i = j.
Proof using Type. intros Hc. apply NoDup_lookup. rewrite Hc. apply NoDup_seq. Qed.

Lemma unsuitable_eq c i : perm c → (i < worldSize)%nat → ∃ a b, c !! i = Some a ∧ c !! a = Some b ∧ (a < worldSize)%nat ∧
  unsuitable worldSize c i = Ok ((a =? i)%nat || neighbors worldSize i a || (b =? i)%nat).
Proof using Type.
  intros Hc Hi. destruct (perm_lookup c i Hc Hi) as (a & Ha & Ha'). destruct (perm_lookup c a Hc Ha') as (b & Hb & _).
  exists a, b. split; [done|]. split; [done|]. split; [done|]. unfold unsuitable, vec_get. rewrite Ha. cbn [of_option obind]. by rewrite Hb.
Qed.

Lemma reroll_ok d c i : perm c → (i < worldSize)%nat → Forall (λ x, (x < worldSize)%nat) d →
  reroll worldSize d c i = NoFuel ∨
  ∃ c' d', reroll worldSize d c i = Ok (c', d') ∧ perm c' ∧ Forall (λ x, (x < worldSize)%nat) d' ∧ unsuitable worldSize c' i = Ok false.
Proof using Type.
  intros Hc Hi Hd. revert c Hc. induction Hd as [|x d Hx Hd IH]; intros c Hc; cbn [reroll];
    destruct (unsuitable_eq c i Hc Hi) as (a & b & Ha & Hb & Ha' & E); rewrite E; cbn [obind];
    destruct ((a =? i)%nat || neighbors worldSize i a || (b =? i)%nat) eqn:E'.
  - by left.
  - right. exists c, []. split; [done|]. split; [done|]. split; [constructor|]. by rewrite E, ?E'.
  - unfold vec_get. rewrite Ha. cbn [of_option obind]. case_match; [by apply IH|].
    destruct (swap_ok c i x) as (c' & -> & Hc' & _); [by rewrite (perm_length c)..|]. cbn [obind]. apply IH. by rewrite Hc'.
  - right. exists c, (x :: d). split; [done|]. split; [done|]. split; [by constructor|]. by rewrite E, ?E'.
Qed.

Lemma rerolls_ok l d c : perm c → Forall (λ i, (i < worldSize)%nat) l → Forall (λ x, (x < worldSize)%nat) d →
  rerolls worldSize d c l = NoFuel ∨ ∃ c' d', rerolls worldSize d c l = Ok (c', d') ∧ perm c'.
Proof using Type.
  intros Hc Hl. revert d c Hc. induction Hl as [|i l Hi Hl IH]; intros d c Hc Hd; cbn [rerolls]; [right; eauto|].
  destruct (reroll_ok d c i Hc Hi Hd) as [->|(c' & d' & -> & Hc' & Hd' & _)]; cbn [obind]; [by left|]. by apply IH.
Qed.

(** *** The mesh *)

Context (shuffle : Z → list nat → list nat) (draws : Z → list nat).

(** What is used of the generator: it shuffles, and draws numbers in the range. *)
Class Generator : Prop := {
  shuffle_perm seed l : shuffle seed l ≡ₚ l;
  draws_range seed : Forall (λ x, (x < worldSize)%nat) (draws seed)
}.
Context {Hgen : Generator}.

Lemma shortcuts_ok seed : shortcuts worldSize shuffle draws seed = NoFuel ∨
  ∃ P, shortcuts worldSize shuffle draws seed = Ok P ∧ NoDup P.*1 ∧ NoDup P.*2 ∧
    Forall (λ p, (p.1 < worldSize)%nat ∧ (p.2 < worldSize)%nat) P.
Proof using Hgen.
  unfold shortcuts. case_match; [|right; exists []; repeat split; constructor].
  assert (Forall (λ i, (i < worldSize)%nat) (seq 0 worldSize)) as Hseq.
  { apply Forall_forall. intros i Hi%elem_of_seq. lia. }
  destruct (rerolls_ok (seq 0 worldSize) (draws seed) (shuffle seed (seq 0 worldSize))) as [->|(c & d & -> & Hc)];
    [apply shuffle_perm|done|apply draws_range|by left|]. cbn [obind]. right. eexists. split; [done|].
  assert ((imap (λ i e, (i, e)) c).*2 = c) as E2.
  { apply list_eq. intros j. rewrite list_lookup_fmap, list_lookup_imap. by destruct (c !! j). }
  assert ((imap (λ i e, (i, e)) c).*1 = seq 0 worldSize) as E1.
  { rewrite <- (perm_length c Hc). apply list_eq. intros j. rewrite list_lookup_fmap, list_lookup_imap.
    destruct (c !! j) as [a|] eqn:Ej; cbn.
    - symmetry. apply lookup_seq. split; [done|]. eauto using lookup_lt_Some.
    - symmetry. apply lookup_seq_ge. by apply lookup_ge_None. }
  rewrite E1, E2. split; [apply NoDup_seq|]. split; [rewrite Hc; apply NoDup_seq|].
  apply Forall_forall. intros p Hp. split.
  - assert (p.1 ∈ seq 0 worldSize) as H1%elem_of_seq by (rewrite <- E1; by apply list_elem_of_fmap_2). lia.
  - assert (p.2 ∈ c) as H1 by (rewrite <- E2; by apply list_elem_of_fmap_2). rewrite Hc in H1. apply elem_of_seq in H1. lia.
Qed.

(** The ring makes the graph connected. *)
Definition has_ring (G : list (list nat)) : Prop :=
  ∀ i, (i < worldSize)%nat → ((i + 1) mod worldSize)%nat ≠ i → edge G i ((i + 1) mod worldSize)%nat.

Lemma ring_walk G a k : has_ring G → (a + k < worldSize)%nat → walk G a (a + k) k.
Proof using Type.
  intros HG. induction k as [|k IH]; intros Hk; [rewrite Nat.add_0_r; constructor|].
  eapply walk_snoc; [apply IH; lia|]. pose proof (HG (a + k)%nat) as He. rewrite succ_mod in He by lia.
  destruct (decide (a + k + 1 = worldSize)%nat); [lia|]. replace (a + S k)%nat with (a + k + 1)%nat by lia. apply He; lia.
Qed.

Lemma connected G a b : graph_ok worldSize G → has_ring G → (a < worldSize)%nat → (b < worldSize)%nat → ∃ n, walk G a b n ∧ (n < worldSize)%nat.
Proof using Type.
  intros HG HR Ha Hb. destruct (Nat.le_gt_cases a b) as [Hab|Hab].
  - exists (b - a)%nat. split; [|lia]. replace b with (a + (b - a))%nat at 1 by lia. apply ring_walk; [done|lia].
  - exists (a - b)%nat. split; [|lia]. apply walk_rev; [apply HG|]. replace a with (b + (a - b))%nat at 1 by lia.
    apply ring_walk; [done|lia].
Qed.

Lemma mesh_ok storekey : mesh worldSize shuffle draws storekey = NoFuel ∨
  ∃ G, mesh worldSize shuffle draws storekey = Ok G ∧ graph_ok worldSize G ∧ has_ring G ∧
    ∀ a l, G !! a = Some l → (length l ≤ 4)%nat.
Proof using Hgen.
  unfold mesh. destruct (addedges_ok worldSize (ring worldSize) (replicate worldSize [])) as (G1 & -> & HG1 & He1 & Hl1);
    [apply empty_graph_ok|apply ring_bound|]. cbn [obind].
  destruct (shortcuts_ok (64 + stringHash storekey)) as [->|(P & -> & HP1 & HP2 & HP)]; cbn [obind]; [by left|].
  destruct (addedges_ok worldSize P G1 HG1 HP) as (G & -> & HG & He & Hl). right. exists G. split; [done|]. split; [done|]. split.
  - intros i Hi Hne. apply He. left. apply He1. right. split; [done|]. left.
    apply list_elem_of_fmap. exists i. split; [done|]. apply elem_of_seq. lia.
  - intros a l Ha. destruct (lookup_lt_is_Some_2 G1 a) as [l1 Ha1].
    { rewrite (gr_length _ _ HG1), <- (gr_length _ _ HG). eauto using lookup_lt_Some. }
    assert (replicate worldSize ([] : list nat) !! a = Some []) as Ha0.
    { apply lookup_replicate. split; [done|]. rewrite <- (gr_length _ _ HG). eauto using lookup_lt_Some. }
    specialize (Hl1 a _ _ Ha0 Ha1). specialize (Hl a _ _ Ha1 Ha). cbn [length] in *.
    pose proof (ends_le P a HP1 HP2). pose proof (ends_le (ring worldSize) a) as Hring.
    rewrite ring_fst in Hring. specialize (Hring (NoDup_seq _ _) ring_snd). lia.
Qed.
End mesh.

(** ** The loop over the shortcuts can always end

    Each round draws a number; from every assignment at most four draws out of
    all that are possible make the condition false. *)

Section reroll.
Context (worldSize : nat).

(** Some draws, no more than [fuel], end the loop. *)
Definition can_end (fuel : nat) (c : list nat) (i : nat) : Prop :=
  ∃ d c', (length d ≤ fuel)%nat ∧ Forall (λ x, (x < worldSize)%nat) d ∧ reroll worldSize d c i = Ok (c', []).

(** [existsb] that stops at the first hit. *)
Fixpoint some_of (f : nat → bool) (l : list nat) : bool :=
  match l with [] => false | x :: l => if f x then true else some_of f l end.

Lemma some_of_exists f l : some_of f l = true → ∃ x, x ∈ l ∧ f x = true.
Proof using Type.
  induction l as [|x l IH]; cbn; [done|]. destruct (f x) eqn:E; [exists x; split; [left|done]|].
  intros (y & ? & ?)%IH. exists y. split; [by right|done].
Qed.

Fixpoint can_end_check (fuel : nat) (c : list nat) (i : nat) : bool :=
  match unsuitable worldSize c i with
  | Ok false => true
  | Ok true =>
      match fuel with
      | O => false
      | S fuel =>
          some_of (λ x,
            match c !! i with
            | Some ci =>
                if neighbors worldSize x ci then false
                else match swap c i x with Ok c => can_end_check fuel c i | _ => false end
            | None => false
            end) (seq 0 worldSize)
      end
  | _ => false
  end.

Lemma can_end_step fuel c c' i x a : (x < worldSize)%nat → c !! i = Some a → neighbors worldSize x a = false →
  unsuitable worldSize c i = Ok true → swap c i x = Ok c' → can_end fuel c' i → can_end (S fuel) c i.
Proof using Type.
  intros Hx Ha Hn Hu Hs (d & c'' & Hl & Hd & E). exists (x :: d), c''. split; [cbn; lia|]. split; [by constructor|].
  cbn [reroll]. rewrite Hu. cbn [obind]. unfold vec_get. rewrite Ha. cbn [of_option obind]. rewrite Hn, Hs. exact E.
Qed.

Lemma can_end_now fuel c i : unsuitable worldSize c i = Ok false → can_end fuel c i.
Proof using Type. intros H. exists [], c. split; [cbn; lia|]. split; [constructor|]. cbn [reroll]. by rewrite H. Qed.

Lemma can_end_sound fuel c i : can_end_check fuel c i = true → can_end fuel c i.
Proof using Type.
  revert c. induction fuel as [|fuel IH]; intros c; cbn [can_end_check];
    destruct (unsuitable worldSize c i) as [[]| | | |] eqn:Hu; try done; try (intros _; by apply can_end_now).
  intros (x & Hx%elem_of_seq & H)%some_of_exists.
  destruct (c !! i) as [a|] eqn:Ha; [|done]. destruct (neighbors worldSize x a) eqn:Hn; [done|].
  destruct (swap c i x) as [c'| | | |] eqn:Hs; try done. apply (can_end_step fuel c c' i x a); auto. lia.
Qed.

Lemma can_end_mono f f' c i : (f ≤ f')%nat → can_end f c i → can_end f' c i.
Proof using Type. intros Hle (d & c' & Hl & H). exists d, c'. split; [lia|done]. Qed.

(** A rank outside of a short list. *)
Lemma pick (F : list nat) : (length F < worldSize)%nat → ∃ x, (x < worldSize)%nat ∧ x ∉ F.
Proof using Type.
  intros HF. destruct (decide (Exists (λ x, x ∉ F) (seq 0 worldSize))) as [(x & Hx%elem_of_seq & H)%Exists_exists|Hn].
  - exists x. split; [lia|done].
  - exfalso. assert (seq 0 worldSize ⊆+ F) as Hs%submseteq_length.
    { apply NoDup_submseteq; [apply NoDup_seq|]. intros x Hx. destruct (decide (x ∈ F)); [done|].
      exfalso. apply Hn, Exists_exists. eauto. }
    rewrite length_seq in Hs. lia.
Qed.

(** The two neighbors of a rank on the ring. *)
Definition around (a : nat) : list nat := [(a + 1) mod worldSize; (a + worldSize - 1) mod worldSize]%nat.

Lemma neighbors_around x a : (x < worldSize)%nat → (a < worldSize)%nat → x ∉ around a → neighbors worldSize x a = false.
Proof using Type.
  intros Hx Ha Hn. unfold neighbors, around in *. apply not_elem_of_cons in Hn as [H1 H2%not_elem_of_cons]. destruct H2 as [H2 _].
  rewrite succ_mod in H1 by done.
  assert ((a + worldSize - 1) mod worldSize = if decide (a = 0) then worldSize - 1 else a - 1)%nat as E.
  { destruct (decide (a = 0)%nat) as [->|]; [apply Nat.mod_small; lia|]. replace (a + worldSize - 1)%nat with (a - 1 + 1 * worldSize)%nat by lia.
    rewrite Nat.Div0.mod_add. apply Nat.mod_small. lia. }
  rewrite E in H2. apply orb_false_intro; apply Nat.eqb_neq; destruct (Nat.ltb_spec a x); repeat case_decide; lia.
Qed.

Lemma neighbors_sym a b : neighbors worldSize a b = neighbors worldSize b a.
Proof using Type.
  unfold neighbors. destruct (Nat.ltb_spec b a), (Nat.ltb_spec a b); try done; try lia. by replace b with a by lia.
Qed.

Local Abbreviation perm c := (c ≡ₚ seq 0 worldSize).

(** Where a value is. *)
Lemma perm_find c v : perm c → (v < worldSize)%nat → ∃ p, c !! p = Some v.
Proof using Type. intros Hc Hv. apply list_elem_of_lookup. rewrite Hc. apply elem_of_seq. lia. Qed.

(** A connection to another rank: one draw is enough. *)
Lemma can_end_away c i a : (8 ≤ worldSize)%nat → perm c → (i < worldSize)%nat → c !! i = Some a → a ≠ i → can_end 1 c i.
Proof using Type.
  intros Hw Hc Hi Ha Hai. destruct (unsuitable worldSize c i) as [[]| | | |] eqn:Hu;
    try (by apply can_end_now); try (destruct (unsuitable_eq worldSize c i Hc Hi) as (?&?&_&_&_&E); congruence).
  destruct (perm_find c i Hc Hi) as [p Hp]. assert (p < worldSize)%nat as Hpw by (rewrite <- (perm_length worldSize c Hc); eauto using lookup_lt_Some).
  destruct (perm_find c ((i + 1) mod worldSize) Hc) as [q1 Hq1]; [apply Nat.mod_upper_bound; lia|].
  destruct (perm_find c ((i + worldSize - 1) mod worldSize) Hc) as [q2 Hq2]; [apply Nat.mod_upper_bound; lia|].
  destruct (perm_find c p Hc Hpw) as [r Hr].
  assert (a < worldSize)%nat as Haw.
  { destruct (perm_lookup worldSize c i Hc Hi) as (a' & Ha' & ?). congruence. }
  destruct (pick (i :: p :: q1 :: q2 :: r :: around a)) as (x & Hx & Hn); [cbn; lia|].
  rewrite !not_elem_of_cons in Hn. destruct Hn as (Nxi & Nxp & Nxq1 & Nxq2 & Nxr & Nxa).
  destruct (perm_lookup worldSize c x Hc Hx) as (b & Hb & Hbw).
  destruct (swap_ok c i x) as (c' & Hs & Hc' & Hl); [by rewrite (perm_length worldSize c)..|].
  eapply (can_end_step 0 c c' i x a); [done|done|by apply neighbors_around; auto using not_elem_of_cons| done|done|].
  apply can_end_now. unfold unsuitable, vec_get. rewrite Hl, decide_True by done. rewrite Hb. cbn [of_option obind].
  assert (b ≠ i) as Hbi by (intros ->; apply Nxp; by apply (perm_inj worldSize c x p i)).
  rewrite Hl, decide_False by done.
  assert (∃ y, (if decide (b = x) then c !! i else c !! b) = Some y ∧ y ≠ i) as (y & -> & Hy).
  { case_decide; [by exists a|]. destruct (perm_lookup worldSize c b Hc Hbw) as (y & Hy & _). exists y. split; [done|].
    intros ->. apply Nxr. assert (b = p) as -> by (by apply (perm_inj worldSize c b p i)). by apply (perm_inj worldSize c x r p). }
  cbn [of_option obind]. rewrite (proj2 (Nat.eqb_neq b i)), (proj2 (Nat.eqb_neq y i)), neighbors_sym by done.
  rewrite neighbors_around; [done|done|done|]. unfold around. rewrite !not_elem_of_cons. split_and!; [| |apply not_elem_of_nil].
  - intros ->. apply Nxq1. by apply (perm_inj worldSize c x q1 ((i + 1) mod worldSize)%nat).
  - intros ->. apply Nxq2. by apply (perm_inj worldSize c x q2 ((i + worldSize - 1) mod worldSize)%nat).
Qed.

Lemma can_end_large c i : (8 ≤ worldSize)%nat → perm c → (i < worldSize)%nat → can_end 4 c i.
Proof using Type.
  intros Hw Hc Hi. destruct (perm_lookup worldSize c i Hc Hi) as (a & Ha & Haw).
  destruct (decide (a = i)) as [->|Hne]; [|eapply can_end_mono; [|by eapply can_end_away]; lia].
  destruct (pick (i :: around i)) as (x & Hx & [Hxi Hxa]%not_elem_of_cons); [cbn; lia|].
  destruct (swap_ok c i x) as (c' & Hs & Hc' & Hl); [by rewrite (perm_length worldSize c)..|].
  destruct (perm_lookup worldSize c x Hc Hx) as (b & Hb & _).
  apply (can_end_mono 2); [lia|]. eapply (can_end_step 1 c c' i x i); [done|done|by apply neighbors_around| |done|].
  - destruct (unsuitable_eq worldSize c i Hc Hi) as (a' & b' & Ha' & _ & _ & ->). simplify_eq. by rewrite Nat.eqb_refl.
  - apply (can_end_away c' i b); [done|by rewrite Hc'|done|by rewrite Hl, decide_True|].
    intros ->. by apply Hxi, (perm_inj worldSize c x i i).
Qed.
End reroll.

(** The small worlds, by going through all assignments. *)
Definition small_check (worldSize : nat) : bool :=
  forallb (λ c, forallb (λ i, can_end_check worldSize 4 c i) (seq 0 worldSize)) (permutations (seq 0 worldSize)).

Lemma small_checked : small_check 5 && small_check 6 && small_check 7 = true.
Proof. by vm_compute. Qed.

Lemma can_end_small worldSize c i : small_check worldSize = true → c ≡ₚ seq 0 worldSize → (i < worldSize)%nat → can_end worldSize 4 c i.
Proof.
  unfold small_check. rewrite forallb_forall. intros H Hc Hi. apply can_end_sound.
  assert (In c (permutations (seq 0 worldSize))) as Hin by (apply list_elem_of_In, permutations_Permutation; by rewrite Hc).
  specialize (H c Hin). rewrite forallb_forall in H. apply H, list_elem_of_In, elem_of_seq. lia.
Qed.

Lemma reroll_can_end worldSize c i : (5 ≤ worldSize)%nat → c ≡ₚ seq 0 worldSize → (i < worldSize)%nat → can_end worldSize 4 c i.
Proof.
  intros Hw Hc Hi. destruct (Nat.le_gt_cases 8 worldSize); [by apply can_end_large|].
  pose proof small_checked as [[H5 H6]%andb_true_iff H7]%andb_true_iff.
  assert (worldSize = 5 ∨ worldSize = 6 ∨ worldSize = 7)%nat as [->|[->| ->]] by lia.
  - exact (can_end_small 5 c i H5 Hc Hi).
  - exact (can_end_small 6 c i H6 Hc Hi).
  - exact (can_end_small 7 c i H7 Hc Hi).
Qed.

(** ** The search *)

Section search.
Context (worldSize : nat) (G : list (list nat)) (HG : graph_ok worldSize G) (s : nat).

Definition vis (st : search) (v : nat) : Prop := visited st !! v = Some true.

(** The first hop of a rank starts a shortest path to it. *)
Definition good_hop (f v : nat) : Prop := edge G s f ∧ ∃ m, walk G f v m ∧ dist G s v (S m).

(** [cur] are the ranks whose neighbors are being looked at; nobody who is still
    queued is closer than [d]. *)
Record search_ok (cur : nat → Prop) (d : nat) (st : search) : Prop := {
  so_visited : length (visited st) = worldSize;
  so_hops : length (hops st) = worldSize;
  so_source : vis st s ∧ hops st !! s = Some s;
  so_good v : vis st v → v ≠ s → ∃ f, hops st !! v = Some f ∧ good_hop f v;
  so_open x : x ∈ open st → vis st (ni x) ∧ ni x ≠ s ∧ hops st !! ni x = Some (nfirst x) ∧
    dist G s (ni x) (ndistance x) ∧ (d ≤ ndistance x ≤ d + 1)%nat;
  so_sorted : StronglySorted (λ x y, (ndistance x ≤ ndistance y)%nat) (open st);
  so_cur u : cur u → ∃ n, dist G s u n ∧ (d ≤ n)%nat;
  so_expanded u w : vis st u → edge G u w → vis st w ∨ cur u ∨ ∃ x, x ∈ open st ∧ ni x = u
}.

Lemma vis_dec st v : length (visited st) = worldSize → (v < worldSize)%nat → vis st v ∨ visited st !! v = Some false.
Proof using Type.
  intros Hl Hv. unfold vis. destruct (lookup_lt_is_Some_2 (visited st) v) as [[] ?]; [lia|by left|by right].
Qed.

(** The step of a walk out of the visited ranks. *)
Lemma walk_leaves st u v k : length (visited st) = worldSize → walk G u v k → vis st u → ¬ vis st v →
  ∃ w w' j, walk G u w j ∧ edge G w w' ∧ vis st w ∧ ¬ vis st w' ∧ (j + 1 ≤ k)%nat.
Proof using HG.
  intros Hl. induction 1 as [|a b c n Hab Hbc IH]; [done|]. intros Ha Hc.
  destruct (vis_dec st b Hl) as [Hb|Hb]; [apply (edge_bound worldSize G a b HG Hab)| |].
  - destruct (IH Hb Hc) as (w & w' & j & ? & ? & ? & ? & ?). exists w, w', (S j). split; [by econstructor|]. split; [done|].
    split; [done|]. split; [done|lia].
  - exists a, b, 0%nat. split; [constructor|]. split; [done|]. split; [done|]. split; [unfold vis; congruence|lia].
Qed.

Lemma unvisited_far cur d st v k : search_ok cur d st → ¬ vis st v → walk G s v k → (d + 1 ≤ k)%nat.
Proof using HG.
  intros H Hv Hw. destruct (walk_leaves st s v k (so_visited _ _ _ H) Hw (proj1 (so_source _ _ _ H)) Hv) as (w & w' & j & Hj & Hww & Hvw & Hvw' & Hk).
  destruct (so_expanded _ _ _ H w w' Hvw Hww) as [?|[Hc|(x & Hx & <-)]]; [done| |].
  - destruct (so_cur _ _ _ H w Hc) as (n & [_ Hn] & Hd). specialize (Hn j Hj). lia.
  - destruct (so_open _ _ _ H x Hx) as (_ & _ & _ & [_ Hn] & Hd). specialize (Hn j Hj). lia.
Qed.

Definition unvisited (st : search) : nat := length (filter (λ b, b = false) (visited st)).

Lemma unvisited_set l v : l !! v = Some false →
  length (filter (λ b, b = false) l) = S (length (filter (λ b, b = false) (<[v := true]> l))).
Proof using Type.
  intros Hv. rewrite <- (take_drop_middle l v false Hv) at 1. rewrite insert_take_drop by (eauto using lookup_lt_Some).
  rewrite !filter_app, !filter_cons, !length_app, decide_True, decide_False by done. cbn [length]. lia.
Qed.

(** The ranks of the state that go on. *)
Definition grows (st st' : search) : Prop :=
  (∀ v, vis st v → vis st' v) ∧ (length (open st') + unvisited st' = length (open st) + unvisited st)%nat.

Lemma grows_trans a b c : grows a b → grows b c → grows a c.
Proof using Type. intros [H1 H2] [H3 H4]. split; [auto|lia]. Qed.

Lemma discover_ok cur d st c f v : search_ok cur d st → cur c → edge G c v → visited st !! v = Some false →
  dist G s c d → edge G s f → walk G f v d →
  ∃ st', discover st (mkNode v f (d + 1)) = Ok st' ∧ search_ok cur d st' ∧ grows st st' ∧ vis st' v.
Proof using HG.
  intros H Hcur Hcv Hv Hd Hf Hw. unfold discover, vec_set. cbn [ni nfirst].
  pose proof (so_visited _ _ _ H) as Hl. pose proof (so_hops _ _ _ H) as Hl2.
  assert (v < worldSize)%nat as Hvw by (rewrite <- Hl; eauto using lookup_lt_Some).
  rewrite !bool_decide_true by lia. cbn [obind]. eexists. split; [done|].
  assert (¬ vis st v) as Hnv by (unfold vis; congruence).
  assert (v ≠ s) as Hvs by (intros ->; apply Hnv, H).
  assert (dist G s v (d + 1)) as Hdist.
  { split; [replace (d + 1)%nat with (S d) by lia; eapply walk_cons; eauto|]. intros k Hk. by apply (unvisited_far cur d st v k). }
  assert (∀ u, vis (mkSearch (<[v:=true]> (visited st)) (open st ++ [mkNode v f (d + 1)]) (<[v:=f]> (hops st))) u ↔ vis st u ∨ u = v) as Hvis.
  { intros u. unfold vis. cbn [visited]. destruct (decide (u = v)) as [->|]; [rewrite list_lookup_insert_eq by lia; tauto|].
    rewrite list_lookup_insert_ne by done. tauto. }
  assert (∀ u, vis st u → u ≠ v) as Hne by (by intros u ? ->). split; [|split].
  - constructor; cbn [visited open hops].
    + by rewrite length_insert.
    + by rewrite length_insert.
    + rewrite Hvis. rewrite list_lookup_insert_ne by done. split; [left; apply H|apply H].
    + intros u [Hu| ->]%Hvis Hus.
      * rewrite list_lookup_insert_ne by (apply not_eq_sym; auto). by apply H.
      * exists f. rewrite list_lookup_insert_eq by lia. split; [done|]. split; [done|]. exists d. split; [done|].
        by replace (S d) with (d + 1)%nat by lia.
    + intros x [Hx|Hx%list_elem_of_singleton]%elem_of_app.
      * destruct (so_open _ _ _ H x Hx) as (H1 & H2 & H3 & H4). rewrite Hvis, list_lookup_insert_ne by (apply not_eq_sym; auto). auto.
      * subst x. cbn [ni nfirst ndistance]. rewrite Hvis, list_lookup_insert_eq by lia. split_and!; auto; lia.
    + apply StronglySorted_app_2; [|apply H|repeat constructor]. intros x y Hx ->%list_elem_of_singleton.
      cbn. apply (so_open _ _ _ H x Hx).
    + apply H.
    + intros u w [Hu| ->]%Hvis Huw.
      * destruct (so_expanded _ _ _ H u w Hu Huw) as [?|[?|(x & Hx & E)]]; [rewrite Hvis; tauto|tauto|].
        right; right. exists x. split; [|done]. apply elem_of_app. by left.
      * right; right. eexists. split; [apply elem_of_app; right; by apply list_elem_of_singleton|done].
  - split; [intros u Hu; apply Hvis; by left|]. unfold unvisited. cbn [visited open].
    rewrite (unvisited_set _ v Hv), length_app. cbn. lia.
  - apply Hvis. by right.
Qed.

(** The loop over the neighbors of a rank. *)
Lemma visit_edges_ok x l st : search_ok (λ u, u = ni x) (ndistance x) st → dist G s (ni x) (ndistance x) → ni x ≠ s →
  good_hop (nfirst x) (ni x) → Forall (edge G (ni x)) l →
  ∃ st', visit_edges st x l = Ok st' ∧ search_ok (λ u, u = ni x) (ndistance x) st' ∧ grows st st' ∧ Forall (vis st') l.
Proof using HG.
  intros H Hd Hxs Hf Hl. revert st H. induction Hl as [|v l Hv Hl IH]; intros st H; cbn [visit_edges].
  { exists st. split; [done|]. split; [done|]. split; [done|constructor]. }
  unfold vec_get. destruct (vis_dec st v) as [Hvis|Hvis]; [apply H|apply (edge_bound worldSize G _ _ HG Hv)| |].
  - rewrite Hvis. cbn [of_option obind]. destruct (IH st H) as (st' & E & H' & Hg & Hall). exists st'. split; [done|]. split; [done|].
    split; [done|]. constructor; [by apply Hg|done].
  - rewrite Hvis. cbn [of_option obind]. destruct Hf as (He & m & Hw & Hdm).
    assert (ndistance x = S m) as E by (by eapply dist_fun).
    destruct (discover_ok (λ u, u = ni x) (ndistance x) st (ni x) (nfirst x) v) as (st1 & -> & H1 & Hg1 & Hv1); try done.
    { rewrite E. by eapply walk_snoc. }
    cbn [obind]. destruct (IH st1 H1) as (st' & -> & H' & Hg & Hall). exists st'. split; [done|]. split; [done|].
    split; [by eapply grows_trans|]. constructor; [by apply Hg|done].
Qed.

Lemma start_edges_ok l st : search_ok (λ u, u = s) 0 st → NoDup l → Forall (λ v, visited st !! v = Some false) l → Forall (edge G s) l →
  ∃ st', start_edges st l = Ok st' ∧ search_ok (λ u, u = s) 0 st' ∧ grows st st' ∧ Forall (vis st') l.
Proof using HG.
  intros H Hnd Hun Hl. revert st H Hun. induction Hl as [|v l Hv Hl IH]; intros st H Hun; cbn [start_edges].
  { exists st. split; [done|]. split; [done|]. split; [done|constructor]. }
  apply NoDup_cons in Hnd as [Hvl Hnd]. apply Forall_cons in Hun as [Hun Huns].
  unfold vec_get. rewrite Hun. cbn [of_option obind negb CHECK].
  assert (dist G s s 0) as Hd by (split; [constructor|lia]).
  destruct (discover_ok (λ u, u = s) 0 st s v v H) as (st1 & E & H1 & Hg1 & Hv1); try done; [constructor|].
  change (0 + 1)%nat with 1%nat in E. rewrite E. cbn [obind].
  destruct (IH Hnd st1 H1) as (st' & -> & H' & Hg & Hall).
  { unfold discover, vec_set in E. cbn [ni nfirst] in E. repeat case_bool_decide; try done. cbn [obind] in E. injection E as <-. cbn [visited].
    rewrite Forall_forall in Huns |- *. intros u Hu. rewrite list_lookup_insert_ne; [by apply Huns|]. by intros ->. }
  exists st'. split; [done|]. split; [done|]. split; [by eapply grows_trans|]. constructor; [by apply Hg|done].
Qed.

(** All neighbors have been seen. *)
Lemma expanded cur d st : search_ok cur d st → (∀ u w, cur u → edge G u w → vis st w) → search_ok (λ _, False) d st.
Proof using Type.
  intros H Hc. destruct H as [H1 H2 H3 H4 H5 H6 H7 H8]. constructor; try done.
  intros u w Hu He. destruct (H8 u w Hu He) as [?|[?|?]]; [tauto|left; eauto|tauto].
Qed.

Lemma edges_of u : (u < worldSize)%nat → ∃ l, G !! u = Some l ∧ Forall (edge G u) l ∧ (∀ w, edge G u w → w ∈ l).
Proof using HG.
  intros Hu. destruct (lookup_lt_is_Some_2 G u) as [l Hl]; [by rewrite (gr_length _ _ HG)|]. exists l. split; [done|]. split.
  - apply Forall_forall. intros w Hw. by exists l.
  - intros w (l' & Hl' & Hw). congruence.
Qed.

Lemma search_loop_ok fuel d st : search_ok (λ _, False) d st → (length (open st) + unvisited st ≤ fuel)%nat →
  ∃ st' d', search_loop fuel G st = Ok st' ∧ search_ok (λ _, False) d' st' ∧ open st' = [].
Proof using HG.
  revert d st. induction fuel as [|fuel IH]; intros d st H Hf; cbn [search_loop]; destruct (open st) as [|x o] eqn:Ho; [eauto..| |].
  { cbn in Hf. lia. } { eauto. }
  assert (x ∈ open st) as Hx by (rewrite Ho; left).
  destruct (so_open _ _ _ H x Hx) as (Hvx & Hxs & Hfx & Hdx & Hdr).
  pose proof (so_sorted _ _ _ H) as Hsort. rewrite Ho in Hsort. apply StronglySorted_inv in Hsort as [Hsort Hmin].
  destruct (edges_of (ni x)) as (l & Hl & Hle & Hall).
  { rewrite <- (so_visited _ _ _ H). eauto using lookup_lt_Some. }
  unfold vec_get. rewrite Hl. cbn [of_option obind].
  set (st1 := mkSearch (visited st) o (hops st)).
  assert (search_ok (λ u, u = ni x) (ndistance x) st1) as H1.
  { destruct H as [H1 H2 H3 H4 H5 H6 H7 H8]. constructor; try done.
    - intros y Hy. cbn [open st1] in Hy. assert (y ∈ open st) as Hy' by (rewrite Ho; by right).
      destruct (H5 y Hy') as (? & ? & ? & ? & ?). rewrite Forall_forall in Hmin. specialize (Hmin y Hy). split_and!; try done; lia.
    - intros u ->. eauto.
    - intros u w Hu He. destruct (H8 u w Hu He) as [?|[?|(y & Hy & Ey)]]; [tauto|tauto|].
      rewrite Ho in Hy. apply elem_of_cons in Hy as [->|Hy]; [right; left; by rewrite Ey|]. right; right. by exists y. }
  destruct (visit_edges_ok x l st1 H1 Hdx Hxs) as (st2 & -> & H2 & [_ Hg] & Hv2); [|done|].
  { destruct (so_good _ _ _ H (ni x) Hvx Hxs) as (f & Ef & Hgood). congruence. }
  cbn [obind]. apply (IH (ndistance x)).
  - apply (expanded _ _ _ H2). intros u w -> He. rewrite Forall_forall in Hv2. auto.
  - unfold unvisited in *. cbn [open visited st1 length] in *. lia.
Qed.
End search.

(** ** First hops *)

Section first_hops.
Context (worldSize : nat) (G : list (list nat)) (HG : graph_ok worldSize G) (HR : has_ring worldSize G) (s : nat) (Hs : (s < worldSize)%nat).

Lemma initial_search_ok :
  search_ok worldSize G s (λ u, u = s) 0 (mkSearch (<[s := true]> (replicate worldSize false)) [] (<[s := s]> (replicate worldSize worldSize))).
Proof using Hs.
  assert (∀ v, vis (mkSearch (<[s := true]> (replicate worldSize false)) [] (<[s := s]> (replicate worldSize worldSize))) v → v = s) as Hv.
  { intros v. unfold vis. cbn [visited]. destruct (decide (v = s)); [done|]. rewrite list_lookup_insert_ne by done.
    by intros [? _]%lookup_replicate. }
  constructor; cbn [visited hops open].
  - by rewrite length_insert, length_replicate.
  - by rewrite length_insert, length_replicate.
  - unfold vis. cbn [visited]. rewrite !list_lookup_insert_eq by (by rewrite length_replicate). done.
  - by intros v ->%Hv.
  - intros x Hx. by apply elem_of_nil in Hx.
  - constructor.
  - intros u ->. exists 0%nat. split; [split; [constructor|lia]|lia].
  - intros u w Hu%Hv. tauto.
Qed.

Lemma first_hops_ok : ∃ fh, first_hops worldSize G s = Ok fh ∧ length fh = worldSize ∧ fh !! s = Some s ∧
  ∀ v, (v < worldSize)%nat → v ≠ s → ∃ f, fh !! v = Some f ∧ good_hop G s f v.
Proof using HG HR Hs.
  unfold first_hops, vec_set, vec_get. rewrite !length_replicate, !bool_decide_true by done. cbn [obind].
  destruct (edges_of worldSize G HG s Hs) as (l & Hl & Hle & Hall). rewrite Hl. cbn [of_option obind].
  destruct (start_edges_ok worldSize G HG s l _ initial_search_ok) as (st1 & -> & H1 & [_ Hg1] & Hv1); [by eapply HG| |done|].
  { eapply Forall_impl; [exact Hle|]. intros v Hv. cbn [visited].
    assert (v ≠ s) by (intros ->; by apply (gr_irrefl _ _ HG s)). rewrite list_lookup_insert_ne by done.
    apply lookup_replicate. split; [done|]. apply (edge_bound worldSize G s v HG Hv). }
  cbn [obind]. destruct (search_loop_ok worldSize G HG s (search_fuel worldSize) 0 st1) as (st2 & d & -> & H2 & Ho).
  - apply (expanded _ _ _ _ _ _ H1). intros u w -> He. rewrite Forall_forall in Hv1. auto.
  - rewrite Hg1. unfold unvisited, search_fuel. cbn [open visited length].
    etransitivity; [apply Nat.add_le_mono_l, length_filter|]. by rewrite length_insert, length_replicate.
  - cbn [obind]. assert (∀ v, (v < worldSize)%nat → vis st2 v) as Hvis.
    { intros v Hv. destruct (vis_dec worldSize st2 v (so_visited _ _ _ _ _ _ H2) Hv) as [?|Hf]; [done|exfalso].
      destruct (connected worldSize G s v HG HR Hs Hv) as (n & Hw & _).
      destruct (walk_leaves worldSize G HG st2 s v n (so_visited _ _ _ _ _ _ H2) Hw) as (w & w' & j & _ & He & Hw1 & Hw2 & _).
      - apply H2. - unfold vis. congruence.
      - destruct (so_expanded _ _ _ _ _ _ H2 w w' Hw1 He) as [?|[[]|(x & Hx & _)]]; [done|]. rewrite Ho in Hx. by apply elem_of_nil in Hx. }
    rewrite (proj2 (forallb_forall _ _)).
    + cbn [CHECK obind]. exists (hops st2). split; [done|]. split; [apply H2|]. split; [apply H2|].
      intros v Hv Hne. apply (so_good _ _ _ _ _ _ H2); [by apply Hvis|done].
    + intros b [v Hb]%list_elem_of_In%list_elem_of_lookup. cbn. assert (vis st2 v) as E; [|unfold vis in E; congruence].
      apply Hvis. rewrite <- (so_visited _ _ _ _ _ _ H2). eauto using lookup_lt_Some.
Qed.
End first_hops.

Lemma good_hop_dist G s f v : good_hop G s f v → edge G s f ∧ ∃ m, dist G f v m ∧ dist G s v (S m).
Proof.
  intros (He & m & Hw & Hd). split; [done|]. exists m. split; [|done]. split; [done|]. intros k Hk.
  assert (S m ≤ S k)%nat; [|lia]. apply Hd. by econstructor.
Qed.

(** ** Shuffling the neighbors of each rank *)

Section shuffled.
Context (shuffle_edges : nat → list nat → list nat) (Hsh : ∀ i l, shuffle_edges i l ≡ₚ l).

Lemma edge_shuffled G a b : edge (imap shuffle_edges G) a b ↔ edge G a b.
Proof using Hsh.
  unfold edge. rewrite list_lookup_imap. destruct (G !! a) as [l|]; cbn; [|naive_solver]. split.
  - intros (k & [= <-] & Hb). exists l. by rewrite Hsh in Hb.
  - intros (k & [= <-] & Hb). eexists. split; [done|]. by rewrite Hsh.
Qed.

Lemma walk_shuffled G a b n : walk (imap shuffle_edges G) a b n ↔ walk G a b n.
Proof using Hsh. split; induction 1; econstructor; eauto; by apply edge_shuffled. Qed.

Lemma dist_shuffled G a b n : dist (imap shuffle_edges G) a b n ↔ dist G a b n.
Proof using Hsh. unfold dist. rewrite walk_shuffled. split; intros [? H]; (split; [done|]); intros m Hm; by apply H, walk_shuffled. Qed.

Lemma graph_shuffled worldSize G : graph_ok worldSize G → graph_ok worldSize (imap shuffle_edges G).
Proof using Hsh.
  intros [H1 H2 H3 H4]. constructor.
  - by rewrite length_imap.
  - intros a b. rewrite !edge_shuffled. apply H2.
  - intros a. rewrite edge_shuffled. apply H3.
  - intros a l. rewrite list_lookup_imap. destruct (G !! a) as [k|] eqn:Hk; cbn; [|done]. intros [= <-]. rewrite Hsh. by eapply H4.
Qed.
End shuffled.

(** ** The tables of a rank *)

Section paths.
Context (worldSize : nat) (shuffle : Z → list nat → list nat) (draws : Z → list nat) {Hgen : Generator worldSize shuffle draws}.
Context (shuffle_edges : nat → list nat → list nat) (Hsh : ∀ i l, shuffle_edges i l ≡ₚ l).

(** The tables fit the graph that all ranks agree on. *)
Record tables_ok (G : list (list nat)) (rank : nat) (edges : list (list nat)) (firsthop : list nat) : Prop := {
  ta_edges : length edges = worldSize;
  ta_edge a b : edge edges a b ↔ edge G a b;
  ta_nodup a l : edges !! a = Some l → NoDup l;
  ta_degree a l : edges !! a = Some l → (length l ≤ 4)%nat;
  ta_hops : length firsthop = worldSize;
  ta_self : firsthop !! rank = Some rank;
  ta_hop v : (v < worldSize)%nat → v ≠ rank → ∃ f, firsthop !! v = Some f ∧ edge G rank f ∧ ∃ m, dist G f v m ∧ dist G rank v (S m)
}.

Lemma findPaths_ok storekey rank : (rank < worldSize)%nat → mesh worldSize shuffle draws storekey ≠ NoFuel →
  ∃ G edges fh, mesh worldSize shuffle draws storekey = Ok G ∧ graph_ok worldSize G ∧ has_ring worldSize G ∧
    findPaths worldSize shuffle draws shuffle_edges storekey rank = Ok (edges, fh) ∧ tables_ok G rank edges fh.
Proof using Hgen Hsh.
  intros Hr Hm. destruct (mesh_ok worldSize shuffle draws storekey) as [?|(G & E & HG & HR & Hdeg)]; [done|].
  unfold findPaths. rewrite E. cbn [obind]. set (G' := imap shuffle_edges G).
  assert (graph_ok worldSize G') as HG' by (by apply graph_shuffled).
  destruct (first_hops_ok worldSize G' HG') with rank as (fh & -> & Hl & Hself & Hhop); [|done|].
  { intros i Hi Hne. by apply edge_shuffled, HR. }
  cbn [obind]. exists G, G', fh. split_and!; try done. constructor; try done.
  - apply HG'.
  - intros a b. by apply edge_shuffled.
  - apply HG'.
  - intros a l. unfold G'. rewrite list_lookup_imap. destruct (G !! a) as [k|] eqn:Hk; cbn; [|done]. intros [= <-].
    rewrite Hsh. by eapply Hdeg.
  - intros v Hv Hne. destruct (Hhop v Hv Hne) as (f & Hf & (He & m & H1 & H2)%good_hop_dist). exists f. split; [done|].
    split; [by apply (edge_shuffled shuffle_edges Hsh)|]. exists m. split; by apply (dist_shuffled shuffle_edges Hsh).
Qed.
End paths.
