(* ===== verification/Store.v ===== *)
(** * Model of core/store.cc: one rank of the distributed store

    The state of a [StoreImpl] and its message handlers.  A message is routed
    over the mesh of file StoreTopology, one edge at a time; every edge numbers
    its messages and keeps them until the peer has acknowledged them.

    A call runs with the mutex held and at one point in time [now], in
    milliseconds.  What it does to the outside (writes to connections, datagrams,
    callbacks) is collected in [out].  A message is its header and its content;
    file Serialization has the bytes.  Maps are finite maps, which HashMap
    implements.  Which of the UDP sockets sends is random, and left out. *)

From Stdlib Require Import ZArith Lia.
From stdpp Require Import base gmap option list strings.
From S2P Require Import Prelude StoreTopology.

(** ** Messages *)

(** What [messageDone] carries: nothing, a flag, or a value. *)
Inductive Reply := ReplyNone | ReplyBool (b : bool) | ReplyValue (v : list Z).

(** The message type and what follows the header. *)
Inductive Message :=
  | messageDone (r : Reply)
  | messageSet (key : string) (value : list Z)
  | messageGet (key : string)
  | messageCheck (key : string)
  | messageWait (key : string)
  | messageShutdown (originRank : nat)
  | messageExit (originRank : nat)
  | messageExitAck
  | messageDiagnosticSource (addrs : list string).

Record MessageHeader := mkHeader {
  ttl : Z;
  hseq : Z;
  destinationRank : nat;
  hid : Z;
  sourceRank : nat;
  diagnosticSource : nat;
  broadcast : bool
}.

Record Buffer := mkBuffer { hdr : MessageHeader; body : Message }.

(** The fields that are patched in a buffer. *)
Definition patch_ttl (b : Buffer) (t : Z) : Buffer :=
  let h := hdr b in
  mkBuffer (mkHeader t (hseq h) (destinationRank h) (hid h) (sourceRank h) (diagnosticSource h) (broadcast h)) (body b).
Definition patch_seq (b : Buffer) (s : Z) : Buffer :=
  let h := hdr b in
  mkBuffer (mkHeader (ttl h) s (destinationRank h) (hid h) (sourceRank h) (diagnosticSource h) (broadcast h)) (body b).
Definition patch_dest (b : Buffer) (d : nat) : Buffer :=
  let h := hdr b in
  mkBuffer (mkHeader (ttl h) (hseq h) d (hid h) (sourceRank h) (diagnosticSource h) (broadcast h)) (body b).

Record TcpConnectMessage := mkTcpConnect {
  tkey : string;
  tsourceRank : nat;
  tsourceId : string;
  tdestinationRank : nat;
  tdestinationId : string;
  broadcastForwardRanks : list nat
}.

(** What is written to a TCP connection, by signature. *)
Inductive Packet :=
  | PConnect (m : TcpConnectMessage)
  | PConnectAck (m : TcpConnectMessage)
  | PMessage (b : Buffer)
  | PMessageAck (seq : Z)
  | PKeepalive
  | PKeepaliveAck.

(** An [enum] of one byte; a byte that was received need not be one of its names. *)
Inductive DiagnosticKind := Transient | Error | Success | OtherKind (b : Z).

#[global] Instance DiagnosticKind_eq_dec : EqDecision DiagnosticKind.
Proof. solve_decision. Defined.

(** Datagrams, by signature. *)
Inductive Datagram :=
  | DConnect (key : string) (source : nat) (uid networkKey : string) (addresses : list (Z * string))
  | DConnectAck (key : string) (source : nat) (uid : string) (addresses : list Z)
  | DAddresses (key : string) (source : nat) (sourceId networkKey : string) (addresses : list (Z * string))
  | DAddressesAck (key : string) (source edge : nat)
  | DDiagnosticHello (key : string) (source : nat)
  | DDiagnosticHelloAck (key : string) (source : nat)
  | DDiagnosticInfo (key : string) (reportingRank stuckEdge : nat) (kind : DiagnosticKind) (reason : string).

(** The texts of diagnostics, before formatting. *)
Inductive Reason :=
  | WaitingReconnect (edge : nat)
  | WaitingConnect (edge : nat)
  | NoConnection (edge : nat)
  | MessagePending (edge : nat) (age : Z)
  | Established (edge : nat)
  | ConnectionLost (edge : nat) (error : string).

Inductive Callback :=
  | CloseMachine
  | TryHello (diagnosticSource : nat)
  | ConnectEdge (edge : nat)
  | ConnectAddress (address : string) (edge : nat) (uid : string)
  | Keepalive
  | Connect
  | ConnectPort (port : Z)
  | Resolved (addr : list Z)
  | SendConnect (addr : list Z)
  | SendAddresses (source edge : nat).

Inductive Effect :=
  | Write (c : nat) (p : Packet)
  | CloseConnection (c : nat)
  | SendTo (socket : option nat) (addr : list Z) (d : Datagram)
  | Resolve (hostname : string) (port : Z)
  | CloseSockets.

(** ** State *)

Record ConnectionInfo := mkConn { lastReceive : Z; csource : option nat; cclosed : bool }.

Record OutgoingMessage := mkOutgoing { oseq : Z; obuffer : Buffer; queueTime : Z; odiag : nat }.

Record EdgeAddr := mkEdgeAddr {
  uid : string;
  networkKey : string;
  addresses : gmap Z string;
  udpaddr : list Z;
  udpSocket : option nat;
  lastConnectEdge : Z
}.

Record EdgeInfo := mkEdge {
  eaddr : EdgeAddr;
  tcpconnections : list nat;
  everConnected : bool;
  incomingSeq : Z;
  incomingQueue : list (Z * Buffer);
  outgoingSeq : Z;
  outgoingQueue : list OutgoingMessage;
  sentDiagnosticSourceFor : gset nat;
  broadcastForwardFor : gset nat;
  pendingBroadcasts : list (nat * Buffer)
}.

Record ShutdownState := mkShutdownState { peer_shutdown : bool; peer_exited : bool; peer_exitAck : bool }.

Record DiagnosticSourceInfo := mkDiagSource {
  addrStrings : list string;
  resolvedAddrs : list (list Z);
  verified : bool;
  verifiedAddr : list Z;
  verifiedSocket : option nat;
  lastAttempt : Z;
  attemptCount : Z
}.

Record ReceivedDiagnostic := mkDiag {
  reportingRank : nat;
  stuckEdge : nat;
  dkind : DiagnosticKind;
  dreason : string;
  receiveTime : Z
}.

Inductive CloseState := NotStarted | WaitShutdownAck | WaitExit | WaitExitAck | Done.

#[global] Instance CloseState_eq_dec : EqDecision CloseState.
Proof. solve_decision. Defined.

Record Shutdown := mkShutdown {
  closed : bool;
  shuttingDown : bool;
  exited : bool;
  exitSourceRank : option nat;
  closeState : CloseState;
  shutdownDeadline : Z;
  shutdownBackoff : Z;
  shutdownStates : list ShutdownState
}.

(** An operation that a caller waits for; the rank in an error is the one that
    shut the store down, if it is another one. *)
Record Wait := mkWait {
  wb : bool;
  wdata : list Z;
  futex : bool;
  werror : option (option nat);
  wend : Z;
  targetRank : nat;
  firstHopEdge : nat
}.

(** A callback that waits for a key: whom to answer, and whether with the value. *)
Record Waiter := mkWaiter { wget : bool; wsource : nat; wid : Z; wdiag : nat }.

(** [Wait] objects are shared by the caller and [waits]; here they are numbered. *)
Record KV := mkKV {
  nextId : Z;
  waits : gmap Z nat;
  waitObjs : gmap nat Wait;
  store : gmap string (list Z);
  storeWaiters : gmap string (list Waiter)
}.

(** The callbacks of the timer thread, and those that were added since it last looked. *)
Record Timer := mkTimer {
  callbacks : list (Z * Callback);
  queuedCallbacks : list (Z * Callback);
  anyQueued : bool
}.

(** What rank 0 knows of another rank. *)
Record RankInfo := mkRankInfo {
  ruid : string;
  rnetworkKey : string;
  raddresses : gmap Z string;
  rudpaddr : list Z;
  rudpSocket : option nat;
  rconnected : gset nat
}.

(** The exchange of addresses over UDP; a socket is its port and whether it is for IPv6. *)
Record Boot := mkBoot {
  hostname : string;
  port : Z;
  udps : list (Z * bool);
  connectAcked : bool;
  connectCounter : Z;
  unackedAddresses : gmap Z string;
  rankInfos : list (option RankInfo);
  prevConnectTime : Z
}.

Record Config := mkConfig {
  worldSize : nat;
  rank : nat;
  storekey : string;
  myId : string;
  edges : list (list nat);
  firsthop : list nat;
  myUdpAddresses : list string
}.

Record StoreImpl := mkStore {
  cfg : Config;
  edgePeers : list (nat * EdgeInfo);
  conns : gmap nat ConnectionInfo;
  floatingConnections : list nat;
  diagnosticSources : gmap nat DiagnosticSourceInfo;
  receivedDiagnostics : list ReceivedDiagnostic;
  shut : Shutdown;
  kv : KV;
  timer : Timer;
  boot : Boot;
  out : list Effect
}.

(** *** Updates *)

Definition set_peers (st : StoreImpl) (l : list (nat * EdgeInfo)) : StoreImpl :=
  mkStore (cfg st) l (conns st) (floatingConnections st) (diagnosticSources st) (receivedDiagnostics st) (shut st) (kv st) (timer st) (boot st) (out st).
Definition set_conns (st : StoreImpl) (c : gmap nat ConnectionInfo) : StoreImpl :=
  mkStore (cfg st) (edgePeers st) c (floatingConnections st) (diagnosticSources st) (receivedDiagnostics st) (shut st) (kv st) (timer st) (boot st) (out st).
Definition set_floating (st : StoreImpl) (l : list nat) : StoreImpl :=
  mkStore (cfg st) (edgePeers st) (conns st) l (diagnosticSources st) (receivedDiagnostics st) (shut st) (kv st) (timer st) (boot st) (out st).
Definition set_sources (st : StoreImpl) (m : gmap nat DiagnosticSourceInfo) : StoreImpl :=
  mkStore (cfg st) (edgePeers st) (conns st) (floatingConnections st) m (receivedDiagnostics st) (shut st) (kv st) (timer st) (boot st) (out st).
Definition set_received (st : StoreImpl) (l : list ReceivedDiagnostic) : StoreImpl :=
  mkStore (cfg st) (edgePeers st) (conns st) (floatingConnections st) (diagnosticSources st) l (shut st) (kv st) (timer st) (boot st) (out st).
Definition set_shut (st : StoreImpl) (s : Shutdown) : StoreImpl :=
  mkStore (cfg st) (edgePeers st) (conns st) (floatingConnections st) (diagnosticSources st) (receivedDiagnostics st) s (kv st) (timer st) (boot st) (out st).
Definition set_kv (st : StoreImpl) (k : KV) : StoreImpl :=
  mkStore (cfg st) (edgePeers st) (conns st) (floatingConnections st) (diagnosticSources st) (receivedDiagnostics st) (shut st) k (timer st) (boot st) (out st).
Definition emit (st : StoreImpl) (e : Effect) : StoreImpl :=
  mkStore (cfg st) (edgePeers st) (conns st) (floatingConnections st) (diagnosticSources st) (receivedDiagnostics st) (shut st) (kv st)
    (timer st) (boot st) (out st ++ [e]).
Definition set_timer (st : StoreImpl) (t : Timer) : StoreImpl :=
  mkStore (cfg st) (edgePeers st) (conns st) (floatingConnections st) (diagnosticSources st) (receivedDiagnostics st) (shut st) (kv st)
    t (boot st) (out st).
Definition set_boot (st : StoreImpl) (b : Boot) : StoreImpl :=
  mkStore (cfg st) (edgePeers st) (conns st) (floatingConnections st) (diagnosticSources st) (receivedDiagnostics st) (shut st) (kv st)
    (timer st) b (out st).

Definition set_sent (e : EdgeInfo) (s : gset nat) : EdgeInfo :=
  mkEdge (eaddr e) (tcpconnections e) (everConnected e) (incomingSeq e) (incomingQueue e) (outgoingSeq e) (outgoingQueue e)
    s (broadcastForwardFor e) (pendingBroadcasts e).
Definition set_outgoing (e : EdgeInfo) (seq : Z) (q : list OutgoingMessage) : EdgeInfo :=
  mkEdge (eaddr e) (tcpconnections e) (everConnected e) (incomingSeq e) (incomingQueue e) seq q
    (sentDiagnosticSourceFor e) (broadcastForwardFor e) (pendingBroadcasts e).
Definition set_incoming (e : EdgeInfo) (seq : Z) (q : list (Z * Buffer)) : EdgeInfo :=
  mkEdge (eaddr e) (tcpconnections e) (everConnected e) seq q (outgoingSeq e) (outgoingQueue e)
    (sentDiagnosticSourceFor e) (broadcastForwardFor e) (pendingBroadcasts e).
Definition set_pending (e : EdgeInfo) (l : list (nat * Buffer)) : EdgeInfo :=
  mkEdge (eaddr e) (tcpconnections e) (everConnected e) (incomingSeq e) (incomingQueue e) (outgoingSeq e) (outgoingQueue e)
    (sentDiagnosticSourceFor e) (broadcastForwardFor e) l.
Definition set_connected (e : EdgeInfo) (l : list nat) (ever : bool) (f : gset nat) : EdgeInfo :=
  mkEdge (eaddr e) l ever (incomingSeq e) (incomingQueue e) (outgoingSeq e) (outgoingQueue e)
    (sentDiagnosticSourceFor e) f (pendingBroadcasts e).

Definition set_states (s : Shutdown) (l : list ShutdownState) : Shutdown :=
  mkShutdown (closed s) (shuttingDown s) (exited s) (exitSourceRank s) (closeState s) (shutdownDeadline s) (shutdownBackoff s) l.
Definition set_exit (s : Shutdown) (ex : bool) (src : option nat) : Shutdown :=
  mkShutdown (closed s) (shuttingDown s) ex src (closeState s) (shutdownDeadline s) (shutdownBackoff s) (shutdownStates s).
Definition set_phase (s : Shutdown) (c : CloseState) (deadline backoff : Z) : Shutdown :=
  mkShutdown (closed s) (shuttingDown s) (exited s) (exitSourceRank s) c deadline backoff (shutdownStates s).

Definition set_waits (k : KV) (w : gmap Z nat) (o : gmap nat Wait) : KV :=
  mkKV (nextId k) w o (store k) (storeWaiters k).
Definition set_store (k : KV) (s : gmap string (list Z)) (w : gmap string (list Waiter)) : KV :=
  mkKV (nextId k) (waits k) (waitObjs k) s w.

(** ** Edges *)

Fixpoint find_peer (l : list (nat * EdgeInfo)) (r : nat) : option EdgeInfo :=
  match l with
  | [] => None
  | (r', e) :: l => if bool_decide (r' = r) then Some e else find_peer l r
  end.

Fixpoint put_peer (l : list (nat * EdgeInfo)) (r : nat) (e : EdgeInfo) : list (nat * EdgeInfo) :=
  match l with
  | [] => []
  | (r', e') :: l => if bool_decide (r' = r) then (r', e) :: l else (r', e') :: put_peer l r e
  end.

Definition findEdge (st : StoreImpl) (r : nat) : option EdgeInfo := find_peer (edgePeers st) r.

Definition getEdge (st : StoreImpl) (r : nat) : outcome EdgeInfo :=
  match findEdge st r with Some e => Ok e | None => Throw CheckFailed end.

Definition putEdge (st : StoreImpl) (r : nat) (e : EdgeInfo) : StoreImpl := set_peers st (put_peer (edgePeers st) r e).

(** ** Callbacks *)

Definition addCallback (st : StoreImpl) (time : Z) (f : Callback) : StoreImpl :=
  let t := timer st in
  if closed (shut st) then st else set_timer st (mkTimer (callbacks t) (queuedCallbacks t ++ [(time, f)]) true).

Section handlers.
(** The formatting of texts, name resolution, and the order in which resolved
    addresses are tried. *)
Context (fmt : Reason → string) (resolveAddressSync : string → list (list Z)) (shuffle_addrs : list (list Z) → list (list Z)).
(** The time of the call. *)
Context (now : Z).

(** ** Diagnostics *)

(** [pop_front] while the front is older than a minute. *)
Fixpoint drop_old (cutoff : Z) (l : list ReceivedDiagnostic) : list ReceivedDiagnostic :=
  match l with
  | [] => []
  | d :: l' => if receiveTime d <? cutoff then drop_old cutoff l' else l
  end.

Definition addDiagnosticIfNew (l : list ReceivedDiagnostic) (reporting stuck : nat) (kind : DiagnosticKind) (reason : string) :
    bool * list ReceivedDiagnostic :=
  let last := head (filter (λ d, reportingRank d = reporting ∧ stuckEdge d = stuck) (rev l)) in
  if (match last with Some d => bool_decide (dreason d = reason) | None => false end) then (false, l)
  else (true, drop_old (now - 60000) (l ++ [mkDiag reporting stuck kind reason now])).

Definition sendDiagnosticInfo (st : StoreImpl) (source stuck : nat) (kind : DiagnosticKind) (reason : Reason) : StoreImpl :=
  let c := cfg st in
  if bool_decide (source = rank c) then
    set_received st (addDiagnosticIfNew (receivedDiagnostics st) (rank c) stuck kind (fmt reason)).2
  else
    match diagnosticSources st !! source with
    | None => st
    | Some info =>
        let d := DDiagnosticInfo (storekey c) (rank c) stuck kind (fmt reason) in
        match verifiedAddr info, resolvedAddrs info with
        | _ :: _, _ => emit st (SendTo (verifiedSocket info) (verifiedAddr info) d)
        | [], a :: _ => emit st (SendTo None a d)
        | [], [] => st
        end
    end.

Definition tryDiagnosticHello (st : StoreImpl) (source : nat) : StoreImpl :=
  match diagnosticSources st !! source with
  | None => st
  | Some info =>
      if verified info || (match resolvedAddrs info with [] => true | _ => false end) then st
      else if (attemptCount info >? 0) && (now - lastAttempt info <? 500) then st
      else
        let n := attemptCount info + 1 in
        let info := mkDiagSource (addrStrings info) (resolvedAddrs info) (verified info) (verifiedAddr info) (verifiedSocket info) now n in
        let i := (n - 1) mod Z.of_nat (length (resolvedAddrs info)) in
        let st := set_sources st (<[source := info]> (diagnosticSources st)) in
        let st :=
          match resolvedAddrs info !! Z.to_nat i with
          | Some a => emit st (SendTo None a (DDiagnosticHello (storekey (cfg st)) (rank (cfg st))))
          | None => st
          end in
        if n <? 10 then addCallback st (now + 500 * n) (TryHello source) else st
  end.

(** Why nothing was written to an edge that has no connection. *)
Definition stuck_reason (edge : nat) (pi : EdgeInfo) : Reason :=
  if bool_decide (addresses (eaddr pi) = ∅) then
    if everConnected pi then WaitingReconnect edge else WaitingConnect edge
  else NoConnection edge.

Definition checkStuckMessages (st : StoreImpl) : StoreImpl :=
  foldl (λ st '(edge, pi),
    foldl (λ st m,
      if now - queueTime m <? 5000 then st
      else
        let reason := match tcpconnections pi with
                      | [] => stuck_reason edge pi
                      | _ => MessagePending edge (now - queueTime m)
                      end in
        sendDiagnosticInfo st (odiag m) edge Transient reason) st (outgoingQueue pi))
    st (edgePeers st).

(** ** Waiting callers *)

(** [exitWait] of a [Wait] object. *)
Definition exitWait (st : StoreImpl) (w : nat) : StoreImpl :=
  let src := match exitSourceRank (shut st) with
             | Some r => if bool_decide (r = rank (cfg st)) then None else Some r
             | None => None
             end in
  let k := kv st in
  set_kv st (set_waits k (waits k)
    (alter (λ x, mkWait (wb x) (wdata x) true (Some src) (wend x) (targetRank x) (firstHopEdge x)) w (waitObjs k))).

Definition exitWaits (st : StoreImpl) : StoreImpl :=
  foldr (λ w st, exitWait st w) st (map_to_list (waits (kv st))).*2.

(** ** Sending and receiving messages *)

Section calls.
Context (processMessage : StoreImpl → Buffer → nat → outcome StoreImpl).
Context (sendMessage : StoreImpl → nat → Buffer → nat → outcome StoreImpl).

Definition sendMessageTo (st : StoreImpl) (dest : nat) (id : Z) (diag : nat) (m : Message) : outcome StoreImpl :=
  let c := cfg st in
  let! edge := vec_get (firsthop c) dest in
  let b := mkBuffer (mkHeader (Z.of_nat (worldSize c)) 0 dest id (rank c) diag false) m in
  if bool_decide (edge = rank c) then processMessage st b edge
  else let! _ := getEdge st edge in sendMessage st edge b diag.

(** The edge learns where to send diagnostics, once. *)
Definition ensureDiagnosticSourceSent (st : StoreImpl) (edge diag : nat) : outcome StoreImpl :=
  let c := cfg st in
  if bool_decide (edge = rank c) then Ok st
  else
    let! pi := getEdge st edge in
    if bool_decide (diag ∈ sentDiagnosticSourceFor pi) then Ok st
    else
      let st := putEdge st edge (set_sent pi ({[diag]} ∪ sentDiagnosticSourceFor pi)) in
      let addrs :=
        if bool_decide (diag = rank c) then myUdpAddresses c
        else match diagnosticSources st !! diag with Some info => addrStrings info | None => [] end in
      match addrs with
      | [] => Ok st
      | _ => sendMessageTo st edge 0 diag (messageDiagnosticSource addrs)
      end.

(** [sendMessage]: number the message, queue it, and write it when there is a
    connection. *)
Definition send_body (st : StoreImpl) (edge : nat) (b : Buffer) (diag : nat) : outcome StoreImpl :=
  if bool_decide (edge = rank (cfg st)) then processMessage st b edge
  else
    let! st := ensureDiagnosticSourceSent st edge diag in
    let! pi := getEdge st edge in
    let seq := outgoingSeq pi in
    let b := patch_seq b seq in
    let pi := set_outgoing pi (u32 (seq + 1)) (outgoingQueue pi ++ [mkOutgoing seq b now diag]) in
    let st := putEdge st edge pi in
    match tcpconnections pi with
    | c :: _ => Ok (emit st (Write c (PMessage b)))
    | [] => Ok (sendDiagnosticInfo st diag edge Transient (stuck_reason edge pi))
    end.

Fixpoint broadcast_edges (st : StoreImpl) (l : list nat) (m : Message) : outcome StoreImpl :=
  match l with
  | [] => Ok st
  | edge :: l =>
      let c := cfg st in
      let b := mkBuffer (mkHeader (Z.of_nat (worldSize c)) 0 edge 0 (rank c) (rank c) true) m in
      let! st := sendMessage st edge b (rank c) in
      broadcast_edges st l m
  end.

(** To all edges; each of them forwards to those that reach us through it. *)
Definition broadcastMessage (st : StoreImpl) (m : Message) : outcome StoreImpl :=
  broadcast_edges st (edgePeers st).*1 m.

Fixpoint forward_edges (st : StoreImpl) (l : list nat) (source : nat) (b : Buffer) (t : Z) (senderEdge : nat) : outcome StoreImpl :=
  match l with
  | [] => Ok st
  | edge :: l =>
      let! pi := getEdge st edge in
      if bool_decide (edge = senderEdge) then forward_edges st l source b t senderEdge
      else if everConnected pi && negb (bool_decide (source ∈ broadcastForwardFor pi)) then forward_edges st l source b t senderEdge
      else
        let b' := patch_dest (patch_ttl b t) edge in
        let! st :=
          if everConnected pi then sendMessage st edge b' (rank (cfg st))
          else Ok (putEdge st edge (set_pending pi (pendingBroadcasts pi ++ [(source, b')]))) in
        forward_edges st l source b t senderEdge
  end.

Definition forwardBroadcast (st : StoreImpl) (source : nat) (b : Buffer) (senderEdge : nat) : outcome StoreImpl :=
  CHECK (negb (ttl (hdr b) =? 0)) ;;!
  forward_edges st (edgePeers st).*1 source b (u32 (ttl (hdr b) - 1)) senderEdge.

Fixpoint replay_edges (st : StoreImpl) (edge : nat) (l : list (nat * Buffer)) : outcome StoreImpl :=
  match l with
  | [] => Ok st
  | (source, b) :: l =>
      let! pi := getEdge st edge in
      let! st := if bool_decide (source ∈ broadcastForwardFor pi) then sendMessage st edge b (rank (cfg st)) else Ok st in
      replay_edges st edge l
  end.

Definition replayPendingBroadcasts (st : StoreImpl) (edge : nat) : outcome StoreImpl :=
  let! pi := getEdge st edge in
  let! st := replay_edges st edge (pendingBroadcasts pi) in
  let! pi := getEdge st edge in
  Ok (putEdge st edge (set_pending pi [])).

(** *** The table of keys *)

(** What a waiting callback sends. *)
Definition answer (st : StoreImpl) (w : Waiter) (value : list Z) : outcome StoreImpl :=
  sendMessageTo st (wsource w) (wid w) (wdiag w) (messageDone (if wget w then ReplyValue value else ReplyNone)).

Fixpoint answer_all (st : StoreImpl) (l : list Waiter) (value : list Z) : outcome StoreImpl :=
  match l with
  | [] => Ok st
  | w :: l => let! st := answer st w value in answer_all st l value
  end.

Definition internalStoreSetValue (st : StoreImpl) (key : string) (value : list Z) : outcome StoreImpl :=
  let k := kv st in
  let st := set_kv st (set_store k (<[key := value]> (store k)) (storeWaiters k)) in
  match storeWaiters k !! key with
  | None => Ok st
  | Some vec =>
      let k := kv st in
      let st := set_kv st (set_store k (store k) (delete key (storeWaiters k))) in
      let! st := answer_all st vec value in
      CHECK (bool_decide (store (kv st) !! key = Some value)) ;;!
      Ok st
  end.

Definition internalStoreGetValue (st : StoreImpl) (key : string) (w : Waiter) : outcome StoreImpl :=
  let k := kv st in
  match store k !! key with
  | Some value => answer st w value
  | None => Ok (set_kv st (set_store k (store k) (<[key := default [] (storeWaiters k !! key) ++ [w]]> (storeWaiters k))))
  end.

(** *** The handlers *)

(** A message for another rank: on to the next hop. *)
Definition forward (st : StoreImpl) (b : Buffer) : outcome StoreImpl :=
  let h := hdr b in
  CHECK (negb (ttl h =? 0)) ;;!
  let b := patch_ttl b (u32 (ttl h - 1)) in
  let! edge := vec_get (firsthop (cfg st)) (destinationRank h) in
  CHECK (negb (bool_decide (edge = worldSize (cfg st)))) ;;!
  let! _ := getEdge st edge in
  sendMessage st edge b (diagnosticSource h).

(** [messageDone]: the caller that waits for this id is woken. *)
Definition handle_done (st : StoreImpl) (id : Z) (r : Reply) : StoreImpl :=
  let b := match r with ReplyBool b => b | _ => false end in
  let value := match r with ReplyValue v => v | _ => [] end in
  let k := kv st in
  match waits k !! id with
  | None => st
  | Some w =>
      set_kv st (set_waits k (delete id (waits k))
        (alter (λ x, mkWait b value true (werror x) (wend x) (targetRank x) (firstHopEdge x)) w (waitObjs k)))
  end.

Definition mark_state (f : ShutdownState → ShutdownState) (st : StoreImpl) (r : nat) : StoreImpl :=
  let s := shut st in
  set_shut st (set_states s (alter f r (shutdownStates s))).

Definition handle_shutdown (st : StoreImpl) (source origin : nat) : StoreImpl :=
  let st := mark_state (λ x, mkShutdownState true (peer_exited x) (peer_exitAck x)) st source in
  let s := shut st in
  match exitSourceRank s with
  | Some _ => st
  | None => set_shut st (set_exit s (exited s) (Some origin))
  end.

Definition handle_exit (st : StoreImpl) (source origin : nat) : outcome StoreImpl :=
  let st := mark_state (λ x, mkShutdownState (peer_shutdown x) true (peer_exitAck x)) st source in
  let s := shut st in
  if exited s then Ok st
  else
    let src := match exitSourceRank s with
               | None => if shuttingDown s then None else Some origin
               | Some r => Some r
               end in
    let st := exitWaits (set_shut st (set_exit s true src)) in
    broadcastMessage st (messageExit origin).

Definition handle_diagnostic_source (st : StoreImpl) (diag : nat) (addrs : list string) : StoreImpl :=
  let info := default (mkDiagSource [] [] false [] None 0 0) (diagnosticSources st !! diag) in
  let resolved := shuffle_addrs (resolvedAddrs info ++ mjoin (resolveAddressSync <$> addrs)) in
  let info := mkDiagSource addrs resolved (verified info) (verifiedAddr info) (verifiedSocket info) (lastAttempt info) (attemptCount info) in
  let st := set_sources st (<[diag := info]> (diagnosticSources st)) in
  match resolved with
  | _ :: _ => if verified info then st else tryDiagnosticHello st diag
  | [] => st
  end.

Definition process_body (st : StoreImpl) (b : Buffer) (edgeRank : nat) : outcome StoreImpl :=
  let h := hdr b in
  if negb (bool_decide (destinationRank h = rank (cfg st))) then forward st b
  else
    let! st := if broadcast h then forwardBroadcast st (sourceRank h) b edgeRank else Ok st in
    let src := sourceRank h in
    match body b with
    | messageSet key value =>
        let! st := internalStoreSetValue st key value in
        sendMessageTo st src (hid h) (diagnosticSource h) (messageDone ReplyNone)
    | messageDone r => Ok (handle_done st (hid h) r)
    | messageGet key => internalStoreGetValue st key (mkWaiter true src (hid h) (diagnosticSource h))
    | messageWait key => internalStoreGetValue st key (mkWaiter false src (hid h) (diagnosticSource h))
    | messageCheck key =>
        let r := bool_decide (is_Some (store (kv st) !! key)) in
        sendMessageTo st src (hid h) (diagnosticSource h) (messageDone (ReplyBool r))
    | messageShutdown origin => Ok (handle_shutdown st src origin)
    | messageExit origin => handle_exit st src origin
    | messageExitAck => Ok (mark_state (λ x, mkShutdownState (peer_shutdown x) (peer_exited x) true) st src)
    | messageDiagnosticSource addrs => Ok (handle_diagnostic_source st (diagnosticSource h) addrs)
    end.
End calls.

Fixpoint process_rec (fuel : nat) (st : StoreImpl) (b : Buffer) (edgeRank : nat) : outcome StoreImpl :=
  match fuel with
  | O => NoFuel
  | S fuel => process_body (process_rec fuel) (send_rec fuel) st b edgeRank
  end
with send_rec (fuel : nat) (st : StoreImpl) (edge : nat) (b : Buffer) (diag : nat) : outcome StoreImpl :=
  match fuel with
  | O => NoFuel
  | S fuel => send_body (process_rec fuel) (send_rec fuel) st edge b diag
  end.

(** A handler sends; sending may send the addresses of the diagnostic source first;
    an answer to this rank itself is processed at once, and sends nothing. *)
Definition call_fuel : nat := 3.

Definition processMessage := process_rec call_fuel.
Definition sendMessage := send_rec call_fuel.

(** ** Operations of callers *)

(** [doWaitOp]: the answer is the number of the [Wait] object. *)
Definition doWaitOp (st : StoreImpl) (timeout : Z) (key : string) (m : Message) : outcome (nat * StoreImpl) :=
  let c := cfg st in
  let k := kv st in
  let id := nextId k in
  let w := fresh (dom (waitObjs k)) in
  let r := storeRank (worldSize c) key in
  let! edge := vec_get (firsthop c) r in
  CHECK (negb (bool_decide (edge = worldSize c))) ;;!
  let obj := mkWait false [] false None (now + timeout) r edge in
  let k := mkKV (u32 (id + 1)) (waits k) (<[w := obj]> (waitObjs k)) (store k) (storeWaiters k) in
  let st := set_kv st k in
  if exited (shut st) then Ok (w, exitWait st w)
  else
    let st := set_kv st (set_waits k (<[id := w]> (waits k)) (waitObjs k)) in
    let! st := sendMessageTo processMessage sendMessage st r id (rank c) m in
    Ok (w, st).

(** What [Wait::wait] finds when it looks: it goes on waiting, it returns, or it
    reports that the store was shut down or that time is up. *)
Inductive WaitResult := Waiting | WaitDone (b : bool) (data : list Z) | WaitShutDown (on : option nat) | WaitTimeout.

Definition wait_now (w : Wait) : WaitResult :=
  if futex w then
    match werror w with Some src => WaitShutDown src | None => WaitDone (wb w) (wdata w) end
  else if now >=? wend w then
    match werror w with Some src => WaitShutDown src | None => WaitTimeout end
  else Waiting.

(** ** Shutting down *)

Definition allPeers (f : ShutdownState → bool) (st : StoreImpl) : outcome bool :=
  let c := cfg st in
  if bool_decide (worldSize c ≤ length (shutdownStates (shut st)))%nat then
    Ok (forallb (λ r, bool_decide (r = rank c) ||
                      match shutdownStates (shut st) !! r with Some x => f x | None => false end) (seq 0 (worldSize c)))
  else Undef.

Definition allPeersShutdown := allPeers peer_shutdown.
Definition allPeersExited := allPeers peer_exited.
Definition allPeersExitAcked := allPeers peer_exitAck.

(** [closeResources]: all connections and sockets are closed. *)
Definition close_edge (e : EdgeInfo) : EdgeInfo := set_connected e [] (everConnected e) (broadcastForwardFor e).

Definition closeResources (st : StoreImpl) : StoreImpl :=
  let all := floatingConnections st ++ mjoin (tcpconnections <$> (edgePeers st).*2) in
  let st := set_floating st [] in
  let st := set_peers st (prod_map id close_edge <$> edgePeers st) in
  let st := set_conns st (foldr (alter (λ c, mkConn (lastReceive c) (csource c) true)) (conns st) all) in
  let st := emit (foldl (λ st c, emit st (CloseConnection c)) st all) CloseSockets in
  set_timer st (mkTimer (callbacks (timer st)) [] (anyQueued (timer st))).

Definition begin_shutdown (st : StoreImpl) : outcome StoreImpl :=
  let s := shut st in
  let src := match exitSourceRank s with Some r => r | None => rank (cfg st) end in
  let st := set_shut st (mkShutdown (closed s) true (exited s) (Some src) (closeState s) (shutdownDeadline s) (shutdownBackoff s) (shutdownStates s)) in
  let! st := broadcastMessage sendMessage st (messageShutdown (rank (cfg st))) in
  Ok (set_shut st (set_phase (shut st) WaitShutdownAck (now + 2000) 1)).

Definition begin_exit (st : StoreImpl) : outcome StoreImpl :=
  let s := shut st in
  let! st :=
    if exited s then Ok st
    else
      let st := exitWaits (set_shut st (set_exit s true (exitSourceRank s))) in
      let! src := of_option (exitSourceRank (shut st)) in
      broadcastMessage sendMessage st (messageExit src) in
  Ok (set_shut st (set_phase (shut st) WaitExit (now + 1000) 1)).

Definition begin_exit_ack (st : StoreImpl) : outcome StoreImpl :=
  let! st := broadcastMessage sendMessage st messageExitAck in
  Ok (set_shut st (set_phase (shut st) WaitExitAck (now + 50) 1)).

Definition finish_close (st : StoreImpl) : StoreImpl :=
  let s := shut st in
  let st := set_shut st (mkShutdown true (shuttingDown s) (exited s) (exitSourceRank s) Done (shutdownDeadline s) (shutdownBackoff s) (shutdownStates s)) in
  closeResources (set_timer st (mkTimer (callbacks (timer st)) (queuedCallbacks (timer st)) true)).

(** The loop around the [switch]. *)
Fixpoint close_steps (fuel : nat) (st : StoreImpl) : outcome StoreImpl :=
  match fuel with
  | O => NoFuel
  | S fuel =>
      let due := now >=? shutdownDeadline (shut st) in
      match closeState (shut st) with
      | NotStarted => let! st := begin_shutdown st in close_steps fuel st
      | WaitShutdownAck =>
          let! b := allPeersShutdown st in
          if b || due then let! st := begin_exit st in close_steps fuel st else Ok st
      | WaitExit =>
          let! b := allPeersExited st in
          if b || due then let! st := begin_exit_ack st in close_steps fuel st else Ok st
      | WaitExitAck =>
          let! b := allPeersExitAcked st in
          if b || due then Ok (finish_close st) else Ok st
      | Done => Ok st
      end
  end.

(** No phase is entered twice. *)
Definition close_fuel : nat := 4.

Definition runCloseStateMachine (st : StoreImpl) : outcome StoreImpl :=
  let! st := close_steps close_fuel st in
  match closeState (shut st) with
  | Done => Ok st
  | _ =>
      let s := shut st in
      let nextTime := now + shutdownBackoff s in
      let st := set_shut st (set_phase s (closeState s) (shutdownDeadline s) (Z.min (shutdownBackoff s * 2) 64)) in
      Ok (addCallback st nextTime CloseMachine)
  end.

Definition close (st : StoreImpl) : StoreImpl :=
  let s := shut st in
  if shuttingDown s then st
  else
    addCallback (set_shut st (mkShutdown (closed s) true (exited s) (exitSourceRank s) (closeState s) (shutdownDeadline s) (shutdownBackoff s) (shutdownStates s)))
      now CloseMachine.

(** ** TCP connections *)

(** [reaptcpconnections]. *)
Definition reaptcpconnections (st : StoreImpl) (edge : nat) : outcome StoreImpl :=
  let! pi := getEdge st edge in
  let live := filter (λ c, cclosed <$> conns st !! c = Some false) (tcpconnections pi) in
  Ok (putEdge st edge (set_connected pi live (everConnected pi) (broadcastForwardFor pi))).

Definition touch (st : StoreImpl) (c : nat) : StoreImpl :=
  set_conns st (alter (λ x, mkConn now (csource x) (cclosed x)) c (conns st)).

(** A peer introduces itself. *)
Definition accept_peer (st : StoreImpl) (c : nat) (m : TcpConnectMessage) (reply : bool) : outcome StoreImpl :=
  let g := cfg st in
  let src := tsourceRank m in
  let! pi := getEdge st src in
  if closed (shut st) || negb (bool_decide (tcpconnections pi = [])) then
    Ok (emit (set_conns st (alter (λ x, mkConn (lastReceive x) (csource x) true) c (conns st))) (CloseConnection c))
  else
    let st := set_conns st (alter (λ x, mkConn now (Some src) (cclosed x)) c (conns st)) in
    let st := putEdge st src (set_connected pi [c] true (list_to_set (broadcastForwardRanks m) ∪ broadcastForwardFor pi)) in
    let! st := replayPendingBroadcasts sendMessage st src in
    let! pi := getEdge st src in
    let st := emit st (SendTo (udpSocket (eaddr pi)) (udpaddr (eaddr pi)) (DAddressesAck (tkey m) (rank g) src)) in
    let! st :=
      if reply then
        let! f := getBroadcastForwardRanks (worldSize g) (firsthop g) src in
        Ok (emit st (Write c (PConnectAck (mkTcpConnect (tkey m) (rank g) (myId g) src (tsourceId m) f))))
      else Ok st in
    let st := foldl (λ st o, sendDiagnosticInfo st (odiag o) src Success (Established src)) st (outgoingQueue pi) in
    Ok (foldl (λ st o, emit st (Write c (PMessage (obuffer o)))) st (outgoingQueue pi)).

(** *** Numbered messages *)

(** [(int32_t)x]. *)
Definition i32 (x : Z) : Z := let y := u32 x in if y <? 2 ^ 31 then y else y - 2 ^ 32.

(** [std::ranges::sort] of the queue by the distance from the next message. *)
Fixpoint insert_sorted (base : Z) (x : Z * Buffer) (l : list (Z * Buffer)) : list (Z * Buffer) :=
  match l with
  | [] => [x]
  | y :: l => if i32 (y.1 - base) <? i32 (x.1 - base) then y :: insert_sorted base x l else x :: y :: l
  end.

Definition sort_incoming (base : Z) (l : list (Z * Buffer)) : list (Z * Buffer) := foldr (insert_sorted base) [] l.

(** The [while] loop over the queue. *)
Fixpoint drain_incoming (fuel : nat) (st : StoreImpl) (src : nat) : outcome StoreImpl :=
  let! pi := getEdge st src in
  match incomingQueue pi with
  | [] => Ok st
  | (seq, b) :: q =>
      match fuel with
      | O => NoFuel
      | S fuel =>
          if i32 (seq - incomingSeq pi) <? 0 then
            drain_incoming fuel (putEdge st src (set_incoming pi (incomingSeq pi) q)) src
          else if negb (seq =? incomingSeq pi) then Ok st
          else
            let! st := processMessage (putEdge st src (set_incoming pi (incomingSeq pi) q)) b src in
            let! pi := getEdge st src in
            drain_incoming fuel (putEdge st src (set_incoming pi (u32 (incomingSeq pi + 1)) (incomingQueue pi))) src
      end
  end.

Definition receive_message (st : StoreImpl) (c : nat) (src : nat) (b : Buffer) : outcome StoreImpl :=
  CHECK (negb (ttl (hdr b) =? 0)) ;;!
  let seq := hseq (hdr b) in
  let! pi := getEdge st src in
  let st := emit (touch st c) (Write c (PMessageAck seq)) in
  if i32 (seq - incomingSeq pi) >=? 0 then
    if seq =? incomingSeq pi then
      let! st := processMessage st b src in
      let! pi := getEdge st src in
      let base := u32 (incomingSeq pi + 1) in
      let st := putEdge st src (set_incoming pi base (sort_incoming base (incomingQueue pi))) in
      drain_incoming (length (incomingQueue pi)) st src
    else Ok (putEdge st src (set_incoming pi (incomingSeq pi) (incomingQueue pi ++ [(seq, b)])))
  else Ok st.

(** The first message with the number is dropped. *)
Fixpoint erase_seq (seq : Z) (l : list OutgoingMessage) : list OutgoingMessage :=
  match l with
  | [] => []
  | o :: l => if oseq o =? seq then l else o :: erase_seq seq l
  end.

Definition receive_ack (st : StoreImpl) (c : nat) (src : nat) (seq : Z) : outcome StoreImpl :=
  let! pi := getEdge (touch st c) src in
  Ok (putEdge (touch st c) src (set_outgoing pi (outgoingSeq pi) (erase_seq seq (outgoingQueue pi)))).

Definition onreadtcp (st : StoreImpl) (c : nat) (p : Packet) : outcome StoreImpl :=
  let g := cfg st in
  let! ci := of_option (conns st !! c) in
  let introduce (m : TcpConnectMessage) (reply : bool) : outcome StoreImpl :=
    if bool_decide (tkey m = storekey g) && bool_decide (tdestinationRank m = rank g) && bool_decide (tdestinationId m = myId g) then
      let! es := vec_get (edges g) (rank g) in
      if bool_decide (tsourceRank m ∈ es) then accept_peer st c m reply else Ok st
    else Ok st in
  match p with
  | PConnect m => introduce m true
  | PConnectAck m => introduce m false
  | PMessage b =>
      match csource ci with
      | Some src => if bool_decide (src < worldSize g)%nat then receive_message st c src b else Ok st
      | None => Ok st
      end
  | PMessageAck seq =>
      match csource ci with
      | Some src => receive_ack st c src seq
      | None => Throw CheckFailed
      end
  | PKeepalive => Ok (emit (touch st c) (Write c PKeepaliveAck))
  | PKeepaliveAck => Ok (touch st c)
  end.
End handlers.

(** ** Construction *)

Definition new_edge : EdgeInfo := mkEdge (mkEdgeAddr "" "" ∅ [] None 0) [] false 0 [] 0 [] ∅ ∅ [].

Definition maxEdgePeers : nat := 4.

(** What the constructor finds: a random name, the time, the addresses of the UDP sockets and of the listeners, and
    whether a UDP socket can be bound, given the ones that are open. *)
Record Host := mkHost {
  h_id : string;
  h_time : Z;
  h_udp : list string;
  h_local : list string;
  h_bind : list (Z * bool) → Z → bool → bool
}.

Definition listen (h : Host) (udps : list (Z * bool)) (port : Z) (ipv6 : bool) : bool * list (Z * bool) :=
  if h_bind h udps port ipv6 then (true, udps ++ [(port, ipv6)]) else (false, udps).

(** The first of the ports that can be bound. *)
Fixpoint listen_ports (h : Host) (udps : list (Z * bool)) (l : list Z) : list (Z * bool) :=
  match l with
  | [] => udps
  | p :: l =>
      let '(a, udps) := listen h udps p true in
      let '(b, udps) := listen h udps p false in
      if a || b then udps else listen_ports h udps l
  end.

Definition open_sockets (h : Host) (rank : nat) (port : Z) : list (Z * bool) :=
  if (rank =? 0)%nat then
    let '(a, udps) := listen h [] port true in
    let '(b, udps) := listen h udps port false in
    listen_ports h udps ((λ i, 57360 + Z.of_nat i) <$> seq 0 (if a || b then 4 else 16))
  else
    let '(_, udps) := listen h [] 0 true in
    (listen h udps 0 false).2.

(** The addresses of the listeners, numbered. *)
Definition local_addresses (l : list string) : gmap Z string := foldl (λ m x, <[Z.of_nat (size m) := x]> m) ∅ l.

(** The constructor, with the tables that [findPaths] gives. *)
Definition new_store (paths : outcome (list (list nat) * list nat)) (worldSize rank : nat) (storekey hostname : string) (port : Z)
    (h : Host) : outcome StoreImpl :=
  CHECK (0 <? worldSize)%nat ;;!
  CHECK (rank <? worldSize)%nat ;;!
  let! '(edges, firsthop) := paths in
  let! es := vec_get edges rank in
  CHECK (length es <=? maxEdgePeers)%nat ;;!
  let udps := open_sockets h rank port in
  if bool_decide (udps = []) then Throw RuntimeError
  else
    let st := mkStore (mkConfig worldSize rank storekey (h_id h) edges firsthop (h_udp h)) ((λ e, (e, new_edge)) <$> es) ∅ [] ∅ []
      (mkShutdown false false false None NotStarted 0 1 (replicate worldSize (mkShutdownState false false false)))
      (mkKV 1 ∅ ∅ ∅ ∅) (mkTimer [] [] false)
      (mkBoot hostname port udps false 0 (local_addresses (h_local h)) (replicate worldSize None) 0) [] in
    Ok (addCallback (addCallback st (h_time h) Connect) (h_time h + 8000) Keepalive).

(** ** The operations *)

Section operations.
Context (fmt : Reason → string) (resolveAddressSync : string → list (list Z)) (shuffle_addrs : list (list Z) → list (list Z)).
Context (now : Z).

Local Abbreviation doWaitOp := (doWaitOp fmt resolveAddressSync shuffle_addrs now).

(** [set], [get] and [check] up to the wait. *)
Definition begin_set (st : StoreImpl) (timeout : Z) (key : string) (value : list Z) : outcome (nat * StoreImpl) :=
  doWaitOp st timeout key (messageSet key value).
Definition begin_get (st : StoreImpl) (timeout : Z) (key : string) : outcome (nat * StoreImpl) :=
  doWaitOp st timeout key (messageGet key).
Definition begin_check (st : StoreImpl) (timeout : Z) (key : string) : outcome (nat * StoreImpl) :=
  doWaitOp st timeout key (messageCheck key).

(** [wait]: all keys at once. *)
Fixpoint begin_wait (st : StoreImpl) (timeout : Z) (keys : list string) : outcome (list nat * StoreImpl) :=
  match keys with
  | [] => Ok ([], st)
  | k :: keys =>
      let! '(w, st) := doWaitOp st timeout k (messageWait k) in
      let! '(ws, st) := begin_wait st timeout keys in
      Ok (w :: ws, st)
  end.

(** What the operations return or throw once the wait is over; [None] while it is not. *)
Definition finish {A} (w : Wait) (f : bool → list Z → A) : option (outcome A) :=
  match wait_now now w with
  | Waiting => None
  | WaitDone b data => Some (Ok (f b data))
  | WaitShutDown _ | WaitTimeout => Some (Throw RuntimeError)
  end.

Definition finish_set (w : Wait) : option (outcome unit) := finish w (λ _ _, tt).
Definition finish_get (w : Wait) : option (outcome (list Z)) := finish w (λ _ data, data).
Definition finish_check (w : Wait) : option (outcome bool) := finish w (λ b _, b).
End operations.
