(* ===== verification/StoreConn.v ===== *)
(** * Model of core/store.cc: connections

    Opening connections to the peers of the mesh and noticing when they are
    lost: [addConnection], [connectEdge], [keepalive] and the callbacks that
    they register.  Connections are numbered; the number of a new one is given by
    the caller, as [context.connect] and the listener give the connection. *)

From Stdlib Require Import ZArith Lia.
From stdpp Require Import base gmap option list strings.
From S2P Require Import Prelude StoreTopology Store.

(** [connection->close()]. *)
Definition close_conn (st : StoreImpl) (c : nat) : StoreImpl :=
  emit (set_conns st (alter (λ x, mkConn (lastReceive x) (csource x) true) c (conns st))) (CloseConnection c).

Definition set_eaddr (e : EdgeInfo) (a : EdgeAddr) : EdgeInfo :=
  mkEdge a (tcpconnections e) (everConnected e) (incomingSeq e) (incomingQueue e) (outgoingSeq e) (outgoingQueue e)
    (sentDiagnosticSourceFor e) (broadcastForwardFor e) (pendingBroadcasts e).

Section conn.
(** The formatting of texts, and [TcpContext::isReachable]. *)
Context (fmt : Reason → string) (isReachable : string → string → bool).
Context (now : Z).

Definition addConnection (st : StoreImpl) (c : nat) : outcome StoreImpl :=
  CHECK (negb (closed (shut st))) ;;!
  Ok (set_conns (set_floating st (floatingConnections st ++ [c])) (<[c := mkConn now None false]> (conns st))).

(** The accept callback of a listener. *)
Definition accept_connection (st : StoreImpl) (c : nat) : outcome StoreImpl :=
  if closed (shut st) then Ok st else addConnection st c.

(** Reading from the connection has failed. *)
Definition connection_lost (st : StoreImpl) (c : nat) (error : string) : outcome StoreImpl :=
  let! ci := of_option (conns st !! c) in
  match csource ci with
  | None => Ok st
  | Some src =>
      let! st := reaptcpconnections st src in
      let! pi := getEdge st src in
      let st := foldl (λ st v, sendDiagnosticInfo fmt now st (odiag v) src Error (ConnectionLost src error)) st (outgoingQueue pi) in
      if bool_decide (addresses (eaddr pi) = ∅) then Ok st else Ok (addCallback st (now + 1000) (ConnectEdge src))
  end.

(** A callback for every address that can be reached, 250 ms apart. *)
Fixpoint connect_addresses (st : StoreImpl) (edge : nat) (uid networkKey : string) (l : list string) (n : Z) : StoreImpl :=
  match l with
  | [] => st
  | a :: l =>
      if isReachable networkKey a then
        connect_addresses (addCallback st (now + 250 * n) (ConnectAddress a edge uid)) edge uid networkKey l (n + 1)
      else connect_addresses st edge uid networkKey l n
  end.

Definition connectEdge (st : StoreImpl) (edge : nat) : outcome StoreImpl :=
  if closed (shut st) then Ok st
  else
    let! st := reaptcpconnections st edge in
    let! pi := getEdge st edge in
    let a := eaddr pi in
    if negb (bool_decide (tcpconnections pi = [])) then Ok st
    else if now - lastConnectEdge a <=? 1000 then Ok st
    else
      let st := putEdge st edge (set_eaddr pi (mkEdgeAddr (uid a) (networkKey a) (addresses a) (udpaddr a) (udpSocket a) now)) in
      Ok (connect_addresses st edge (uid a) (networkKey a) (map_to_list (addresses a)).*2 0).

(** The callback: [c] is the new connection, if one is opened. *)
Definition connect_address (st : StoreImpl) (edge : nat) (uid : string) (c : nat) : outcome StoreImpl :=
  let g := cfg st in
  let! ei := getEdge st edge in
  let! s := (if closed (shut st) || negb (bool_decide (tcpconnections ei = [])) then Ok true
             else let! s := vec_get (shutdownStates (shut st)) edge in Ok (peer_exited s || exited (shut st))) in
  if s then Ok st
  else
    let! f := getBroadcastForwardRanks (worldSize g) (firsthop g) edge in
    addConnection (emit st (Write c (PConnect (mkTcpConnect (storekey g) (rank g) (myId g) edge uid f)))) c.

(** *** [keepalive] *)

(** One connection of an edge; the answer is whether to connect again. *)
Definition keepalive_conn (st : StoreImpl) (c : nat) : outcome (bool * StoreImpl) :=
  let! ci := of_option (conns st !! c) in
  if (now - lastReceive ci >=? 40000) || cclosed ci then Ok (true, close_conn st c)
  else if now - lastReceive ci >=? 20000 then Ok (false, emit st (Write c PKeepalive))
  else Ok (false, st).

(** The connections of an edge; [known] says that there are addresses to connect to. *)
Fixpoint keepalive_conns (st : StoreImpl) (known : bool) (l : list nat) : outcome (list (option nat) * StoreImpl) :=
  match l with
  | [] => Ok ([], st)
  | c :: l =>
      let! '(again, st) := keepalive_conn st c in
      let! ci := of_option (conns st !! c) in
      let! '(r, st) := keepalive_conns st known l in
      Ok (if again && known then (csource ci :: r, st) else (r, st))
  end.

Definition keepalive_edge (st : StoreImpl) (edge : nat) : outcome (list (option nat) * StoreImpl) :=
  let! pi := getEdge st edge in
  let known := negb (bool_decide (addresses (eaddr pi) = ∅)) in
  let! '(r, st) := keepalive_conns st known (tcpconnections pi) in
  let! st := reaptcpconnections st edge in
  Ok (if bool_decide (tcpconnections pi = []) && known then Some edge :: r else r, st).

Fixpoint keepalive_edges (st : StoreImpl) (l : list nat) : outcome (list (option nat) * StoreImpl) :=
  match l with
  | [] => Ok ([], st)
  | e :: l =>
      let! '(r, st) := keepalive_edge st e in
      let! '(r', st) := keepalive_edges st l in
      Ok (r ++ r', st)
  end.

(** Connections that have not introduced themselves: the ones to keep, and the ones to close. *)
Fixpoint keepalive_floating (st : StoreImpl) (l : list nat) : outcome (list nat * StoreImpl) :=
  match l with
  | [] => Ok ([], st)
  | c :: l =>
      let! ci := of_option (conns st !! c) in
      match csource ci with
      | Some _ => keepalive_floating st l
      | None =>
          if now - lastReceive ci >=? 20000 then keepalive_floating (close_conn st c) l
          else let! '(k, st) := keepalive_floating st l in Ok (c :: k, st)
      end
  end.

Fixpoint reconnect_edges (st : StoreImpl) (l : list (option nat)) : outcome StoreImpl :=
  match l with
  | [] => Ok st
  | e :: l =>
      let! st := match e with
                 | Some e => connectEdge st e
                 | None => if closed (shut st) then Ok st else Throw CheckFailed
                 end in
      reconnect_edges st l
  end.

(** [random] is the number of seconds until the next round. *)
Definition keepalive (st : StoreImpl) (random : Z) : outcome StoreImpl :=
  let! '(reconnect, st) := keepalive_edges st (edgePeers st).*1 in
  let! '(f, st) := keepalive_floating st (floatingConnections st) in
  let! st := reconnect_edges (set_floating st f) reconnect in
  let st := checkStuckMessages fmt now st in
  Ok (addCallback st (now + random * 1000) Keepalive).
End conn.
