(* ===== verification/StoreBoot.v ===== *)
(** * Model of core/store.cc: the start of the store

    How ranks find each other.  Every rank sends the addresses of its listeners
    to rank 0 over UDP until rank 0 has acknowledged all of them ([connect]); rank
    0 passes them on to the neighbors of the rank ([sendAddresses]) until those
    report a connection; [onreadudp] handles what arrives. *)

From Stdlib Require Import ZArith Lia.
From stdpp Require Import base gmap option list strings.
From S2P Require Import Prelude StoreTopology Store StoreConn.

Definition set_infos (b : Boot) (l : list (option RankInfo)) : Boot :=
  mkBoot (hostname b) (port b) (udps b) (connectAcked b) (connectCounter b) (unackedAddresses b) l (prevConnectTime b).
Definition set_unacked (b : Boot) (acked : bool) (m : gmap Z string) : Boot :=
  mkBoot (hostname b) (port b) (udps b) acked (connectCounter b) m (rankInfos b) (prevConnectTime b).
Definition set_counter (b : Boot) (n : Z) : Boot :=
  mkBoot (hostname b) (port b) (udps b) (connectAcked b) n (unackedAddresses b) (rankInfos b) (prevConnectTime b).
Definition set_prevConnectTime (b : Boot) (t : Z) : Boot :=
  mkBoot (hostname b) (port b) (udps b) (connectAcked b) (connectCounter b) (unackedAddresses b) (rankInfos b) t.

(** [HashMap::insert] of several pairs: a number that is there keeps its address. *)
Definition insert_new (m : gmap Z string) (l : list (Z * string)) : gmap Z string :=
  foldl (λ m '(i, a), match m !! i with Some _ => m | None => <[i := a]> m end) m l.

(** The network: whether an address can be reached, and the name of our own network. *)
Record Net := mkNet { isReachable : string → string → bool; getNetworkKey : string }.

Section boot.
Context (net : Net) (shuffle : list (Z * string) → list (Z * string)).
(** The time of the call. *)
Context (now : Z).

(** At most eight addresses fit into a datagram. *)
Definition some_addresses (m : gmap Z string) : list (Z * string) :=
  let l := map_to_list m in
  if (8 <? length l)%nat then take 8 (shuffle l) else l.

(** The addresses of [source], for [edge]; again in a while.  [taken] is whether [sendto] succeeds. *)
Definition sendAddresses (st : StoreImpl) (source edge : nat) (taken : bool) : outcome StoreImpl :=
  let! ri := vec_get (rankInfos (boot st)) source in
  match ri with
  | None => Throw CheckFailed
  | Some ri =>
      let! ri2 := vec_get (rankInfos (boot st)) edge in
      match ri2 with
      | None => Ok st
      | Some ri2 =>
          if bool_decide (source ∈ rconnected ri2) then Ok st
          else
            let d := DAddresses (storekey (cfg st)) source (ruid ri) (rnetworkKey ri) (some_addresses (raddresses ri)) in
            Ok (addCallback (emit st (SendTo (rudpSocket ri2) (rudpaddr ri2) d)) (now + if taken then 2000 else 250) (SendAddresses source edge))
      end
  end.

Fixpoint send_to_edges (st : StoreImpl) (source : nat) (l : list nat) (taken : nat → bool) : outcome StoreImpl :=
  match l with
  | [] => Ok st
  | e :: l => let! st := sendAddresses st source e (taken e) in send_to_edges st source l taken
  end.

(** *** [onreadudp] *)

(** Rank 0 hears from a rank; [None] when another process claims the same rank. *)
Definition register (ri : option RankInfo) (uid networkKey : string) (addrs : list (Z * string)) (from : list Z) (socket : nat) : option RankInfo :=
  match ri with
  | Some ri =>
      if bool_decide (ruid ri = uid) then Some (mkRankInfo uid networkKey (insert_new (raddresses ri) addrs) from (Some socket) (rconnected ri)) else None
  | None => Some (mkRankInfo uid networkKey (insert_new ∅ addrs) from (Some socket) ∅)
  end.

Definition read_connect (st : StoreImpl) (socket : nat) (from : list Z) (key : string) (source : nat) (uid networkKey : string)
    (addrs : list (Z * string)) (taken : nat → bool) : outcome StoreImpl :=
  let c := cfg st in
  if bool_decide (key = storekey c) && (source <? worldSize c)%nat && (rank c =? 0)%nat then
    match rankInfos (boot st) !! source with
    | None => Throw OutOfRange
    | Some opt =>
        match register opt uid networkKey addrs from socket with
        | None => Ok st
        | Some ri =>
            let st := set_boot st (set_infos (boot st) (<[source := Some ri]> (rankInfos (boot st)))) in
            let st := emit st (SendTo (Some socket) from (DConnectAck key source uid addrs.*1)) in
            let! es := vec_get (edges c) source in
            send_to_edges st source es taken
        end
    end
  else Ok st.

Definition read_connect_ack (st : StoreImpl) (key : string) (source : nat) (uid : string) (l : list Z) : StoreImpl :=
  let c := cfg st in
  if bool_decide (key = storekey c) && (source =? rank c)%nat && bool_decide (uid = myId c) then
    let m := foldl (λ m i, delete i m) (unackedAddresses (boot st)) l in
    set_boot st (set_unacked (boot st) (connectAcked (boot st) || bool_decide (m = ∅)) m)
  else st.

Definition learn (pi : EdgeInfo) (sourceId networkKey : string) (addrs : list (Z * string)) (from : list Z) (socket : nat) : EdgeInfo :=
  let a := eaddr pi in
  set_eaddr pi (mkEdgeAddr sourceId networkKey (insert_new (addresses a) addrs) from (Some socket) (lastConnectEdge a)).

Definition read_addresses (st : StoreImpl) (socket : nat) (from : list Z) (key : string) (source : nat) (sourceId networkKey : string)
    (addrs : list (Z * string)) : outcome StoreImpl :=
  let c := cfg st in
  if bool_decide (key = storekey c) && (source <? worldSize c)%nat then
    let! ei := getEdge st source in
    let st := putEdge st source (learn ei sourceId networkKey addrs from socket) in
    let st := if bool_decide (tcpconnections ei = []) then st
              else emit st (SendTo (Some socket) from (DAddressesAck (storekey c) (rank c) source)) in
    connectEdge (isReachable net) now st source
  else Ok st.

Definition read_addresses_ack (st : StoreImpl) (key : string) (source edge : nat) : outcome StoreImpl :=
  let c := cfg st in
  if bool_decide (key = storekey c) && (source <? worldSize c)%nat then
    let! ri := vec_get (rankInfos (boot st)) source in
    match ri with
    | None => Ok st
    | Some ri =>
        let ri := mkRankInfo (ruid ri) (rnetworkKey ri) (raddresses ri) (rudpaddr ri) (rudpSocket ri) ({[edge]} ∪ rconnected ri) in
        Ok (set_boot st (set_infos (boot st) (<[source := Some ri]> (rankInfos (boot st)))))
    end
  else Ok st.

(** [diagnosticSources[source]] creates the entry if there is none. *)
Definition read_hello (st : StoreImpl) (socket : nat) (from : list Z) (key : string) (source : nat) (reply : bool) : StoreImpl :=
  let c := cfg st in
  if bool_decide (key = storekey c) && (source <? worldSize c)%nat then
    let info := default (mkDiagSource [] [] false [] None 0 0) (diagnosticSources st !! source) in
    let info := if verified info then info
                else mkDiagSource (addrStrings info) (resolvedAddrs info) true from (Some socket) (lastAttempt info) (attemptCount info) in
    let st := set_sources st (<[source := info]> (diagnosticSources st)) in
    if reply then emit st (SendTo (Some socket) from (DDiagnosticHelloAck key (rank c))) else st
  else st.

Definition read_info (st : StoreImpl) (key : string) (reporting stuck : nat) (kind : DiagnosticKind) (reason : string) : StoreImpl :=
  let c := cfg st in
  if bool_decide (key = storekey c) && (reporting <? worldSize c)%nat then
    set_received st (addDiagnosticIfNew now (receivedDiagnostics st) reporting stuck kind reason).2
  else st.

(** A datagram from address [from]; [None] when it is too short, of no known kind or cannot be read. *)
Definition onreadudp (st : StoreImpl) (socket : nat) (from : list Z) (d : option Datagram) (taken : nat → bool) : outcome StoreImpl :=
  match d with
  | None => Ok st
  | Some (DConnect key source uid networkKey addrs) => read_connect st socket from key source uid networkKey addrs taken
  | Some (DConnectAck key source uid l) => Ok (read_connect_ack st key source uid l)
  | Some (DAddresses key source sourceId networkKey addrs) => read_addresses st socket from key source sourceId networkKey addrs
  | Some (DAddressesAck key source edge) => read_addresses_ack st key source edge
  | Some (DDiagnosticHello key source) => Ok (read_hello st socket from key source true)
  | Some (DDiagnosticHelloAck key source) => Ok (read_hello st socket from key source false)
  | Some (DDiagnosticInfo key reporting stuck kind reason) => Ok (read_info st key reporting stuck kind reason)
  end.

(** *** [connect] *)

(** The function [t]: look up the address of rank 0 for a port. *)
Definition resolve_port (st : StoreImpl) (port : Z) : StoreImpl :=
  if connectAcked (boot st) then st else emit st (Resolve (hostname (boot st)) port).

(** The address has been found. *)
Definition resolved (st : StoreImpl) (addr : list Z) : StoreImpl := addCallback st now (Resolved addr).

(** One message for every socket, 250 ms apart. *)
Fixpoint schedule_connects (st : StoreImpl) (addr : list Z) (n : nat) : StoreImpl :=
  match n with
  | O => st
  | S n =>
      let t := Z.min (Z.max (prevConnectTime (boot st) + 250) now) (now + 2000) in
      schedule_connects (addCallback (set_boot st (set_prevConnectTime (boot st) t)) t (SendConnect addr)) addr n
  end.

Definition send_connect (st : StoreImpl) (addr : list Z) : StoreImpl :=
  let b := boot st in
  let c := cfg st in
  if connectAcked b then st
  else emit st (SendTo None addr (DConnect (storekey c) (rank c) (myId c) (getNetworkKey net) (some_addresses (unackedAddresses b)))).

Definition connect (st : StoreImpl) : StoreImpl :=
  if connectAcked (boot st) then st
  else
    let st := resolve_port st (port (boot st)) in
    let st := foldl (λ st i, addCallback st (now + 1000 * Z.of_nat i) (ConnectPort (57360 + Z.of_nat i))) st (seq 0 16) in
    let n := connectCounter (boot st) in
    addCallback (set_boot st (set_counter (boot st) (n + 1))) (now + 1000 * Z.min (1 + n) 30) Connect.
End boot.
