(* ===== verification/StoreTimer.v ===== *)
(** * Model of core/store.cc: the timer thread

    [threadEntry] runs the callbacks that [addCallback] has queued, each when
    its time has come. *)

From Stdlib Require Import ZArith Lia.
From stdpp Require Import base gmap option list strings.
From S2P Require Import Prelude StoreTopology Store StoreConn StoreBoot.

(** What a callback finds: the number of the connection that it opens, the seconds that it draws, and whether [sendto]
    succeeds. *)
Record Choice := mkChoice { ch_conn : nat; ch_random : Z; ch_taken : bool }.

Section thread.
Context (fmt : Reason → string) (resolveAddressSync : string → list (list Z)) (shuffle_addrs : list (list Z) → list (list Z)).
Context (net : Net) (shuffle : list (Z * string) → list (Z * string)).
(** [std::sort] by time. *)
Context (sort : list (Z * Callback) → list (Z * Callback)).
Context (now : Z).

(** The loop over [queuedCallbacks]; the answer says whether the callbacks are out of order. *)
Fixpoint take_queued (unsorted : bool) (l q : list (Z * Callback)) : bool * list (Z * Callback) :=
  match q with
  | [] => (unsorted, l)
  | v :: q =>
      let late := match last l with Some b => v.1 <? b.1 | None => false end in
      take_queued (unsorted || late) (l ++ [v]) q
  end.

Definition absorb (t : Timer) : Timer :=
  if anyQueued t then
    let '(unsorted, l) := take_queued false (callbacks t) (queuedCallbacks t) in
    mkTimer (if unsorted then sort l else l) [] false
  else t.

Definition run_callback (st : StoreImpl) (f : Callback) (ch : Choice) : outcome StoreImpl :=
  match f with
  | CloseMachine => runCloseStateMachine fmt resolveAddressSync shuffle_addrs now st
  | TryHello source => Ok (tryDiagnosticHello now st source)
  | ConnectEdge edge => connectEdge (isReachable net) now st edge
  | ConnectAddress _ edge uid => connect_address now st edge uid (ch_conn ch)
  | Keepalive => keepalive fmt (isReachable net) now st (ch_random ch)
  | Connect => Ok (connect now st)
  | ConnectPort port => Ok (resolve_port st port)
  | Resolved addr => Ok (schedule_connects now st addr (length (udps (boot st))))
  | SendConnect addr => Ok (send_connect net shuffle st addr)
  | SendAddresses source edge => sendAddresses shuffle now st source edge (ch_taken ch)
  end.

(** One round of the loop.  When the store is closed the loop ends, and the callbacks are dropped. *)
Definition thread_step (st : StoreImpl) (ch : Choice) : outcome StoreImpl :=
  if closed (shut st) then Ok (set_timer st (mkTimer [] (queuedCallbacks (timer st)) (anyQueued (timer st))))
  else
    let t := absorb (timer st) in
    match callbacks t with
    | [] => Ok (set_timer st t)
    | (time, f) :: l =>
        if now >=? time then run_callback (set_timer st (mkTimer l (queuedCallbacks t) (anyQueued t))) f ch
        else Ok (set_timer st t)
    end.
End thread.
