(* ===== verification/StoreRun.v ===== *)
(** * Model of core/store.cc: runs of all ranks

    What can happen to the ranks of a store, one action at a time, together with
    the calls that were made and the requests that were carried out, in order. *)

From Stdlib Require Import ZArith Lia.
From stdpp Require Import base gmap option list sorting strings.
From S2P Require Import Prelude StoreTopology Store StoreConn StoreBoot StoreTimer.

(** A call that was made and has not been refused: who made it, its number, what
    it asks for and its [Wait] object. *)
Record Call := mkCall { c_rank : nat; c_id : Z; c_msg : Message; c_wait : nat }.

(** A request that has been carried out, with the answer to it. *)
Record Entry := mkEntry { e_rank : nat; e_id : Z; e_msg : Message; e_reply : Reply }.

(** The key that a request is about; [None] for other messages. *)
Definition op_key (m : Message) : option string :=
  match m with messageSet key _ | messageGet key | messageCheck key | messageWait key => Some key | _ => None end.

(** A waiting callback as a request that is carried out now. *)
Definition waiter_msg (key : string) (w : Waiter) : Message := if wget w then messageGet key else messageWait key.
Definition waiter_entry (key : string) (value : list Z) (w : Waiter) : Entry :=
  mkEntry (wsource w) (wid w) (waiter_msg key w) (if wget w then ReplyValue value else ReplyNone).

(** What is carried out when a message reaches its destination. *)
Definition executed (k : KV) (b : Buffer) : list Entry :=
  let e := mkEntry (sourceRank (hdr b)) (hid (hdr b)) (body b) in
  match body b with
  | messageSet key value => e ReplyNone :: (waiter_entry key value <$> default [] (storeWaiters k !! key))
  | messageGet key => match store k !! key with Some v => [e (ReplyValue v)] | None => [] end
  | messageWait key => match store k !! key with Some _ => [e ReplyNone] | None => [] end
  | messageCheck key => [e (ReplyBool (bool_decide (is_Some (store k !! key))))]
  | _ => []
  end.

Definition executed_at (st : StoreImpl) (b : Buffer) : list Entry :=
  if bool_decide (destinationRank (hdr b) = rank (cfg st)) then executed (kv st) b else [].

(** The request of a call at [st]. *)
Definition request (st : StoreImpl) (key : string) (m : Message) : Buffer :=
  let c := cfg st in
  mkBuffer (mkHeader (Z.of_nat (worldSize c)) 0 (storeRank (worldSize c) key) (nextId (kv st)) (rank c) (rank c) false) m.

(** The same requests on a single table: the table after a request, if the answer
    is the one that the table gives. *)
Definition apply_entry (M : gmap string (list Z)) (e : Entry) : option (gmap string (list Z)) :=
  match e_msg e, e_reply e with
  | messageSet key value, ReplyNone => Some (<[key := value]> M)
  | messageGet key, ReplyValue v => if bool_decide (M !! key = Some v) then Some M else None
  | messageWait key, ReplyNone => if bool_decide (is_Some (M !! key)) then Some M else None
  | messageCheck key, ReplyBool b => if bool_decide (b = bool_decide (is_Some (M !! key))) then Some M else None
  | _, _ => None
  end.

Fixpoint replay (M : gmap string (list Z)) (l : list Entry) : option (gmap string (list Z)) :=
  match l with
  | [] => Some M
  | e :: l => match apply_entry M e with Some M => replay M l | None => None end
  end.

(** ** The ranks and the wires between them

    Every rank runs the code of files Store and StoreConn.  The messages that [x]
    has ever put on the edge to [y] are [sent x y], and [seen x y] is how many of
    them [y] has handled; both only record what the code does.

    Datagrams are lost, repeated and reordered: any datagram that a rank has sent
    to an address of another may arrive, and so may those of other stores.

    Packets are lost with their connection, and written again on the next one, so
    any message that was sent may arrive, again and again, in any order, on any
    connection between the two ranks, and so may the acknowledgement of any
    message that has arrived.  Numbers have 32 bits: what arrives is less than
    2^31 messages away from the one that is expected, and an acknowledgement is
    not older than 2^32 messages. *)

Record World := mkWorld {
  ranks : list StoreImpl;
  sent : nat → nat → list OutgoingMessage;
  seen : nat → nat → nat;
  calls : list Call;
  log : list Entry
}.

(** The messages that a step from [st] to [st'] puts on the edge to [y]. *)
Definition queued (st st' : StoreImpl) (y : nat) : list OutgoingMessage :=
  match findEdge st y, findEdge st' y with
  | Some pi, Some pi' => drop (length (outgoingQueue pi)) (outgoingQueue pi')
  | _, _ => []
  end.

Definition note_sent (f : nat → nat → list OutgoingMessage) (x : nat) (st st' : StoreImpl) (a b : nat) : list OutgoingMessage :=
  if (a =? x)%nat then f a b ++ queued st st' b else f a b.

Definition note_seen (f : nat → nat → nat) (x y n : nat) (a b : nat) : nat :=
  if ((a =? x) && (b =? y))%nat then (f a b + n)%nat else f a b.

Definition is_edge (net : list StoreImpl) (x y : nat) : bool :=
  match net !! x with Some st => bool_decide (y ∈ (edgePeers st).*1) | None => false end.

(** The peer of connection [c] at rank [x]. *)
Definition peer_of (net : list StoreImpl) (x c : nat) : option nat := st ← net !! x; ci ← conns st !! c; csource ci.

(** Message [i] of [x] has arrived at [y]. *)
Definition arrived (w : World) (x y i : nat) : bool :=
  (i <? seen w x y)%nat ||
  (Z.of_nat i <? Z.of_nat (seen w x y) + 2 ^ 31) &&
  match ranks w !! y ≫= λ sy, findEdge sy x with
  | Some pj => existsb (λ p, p.1 =? u32 (Z.of_nat i)) (incomingQueue pj)
  | None => false
  end.

(** What surrounds the ranks: the network as each of them sees it, the rank whose socket has an address, and the
    random shuffle and the sort of the standard library. *)
Record Env := mkEnv {
  e_net : nat → Net;
  e_owner : list Z → option nat;
  e_shuffle : list (Z * string) → list (Z * string);
  e_sort : list (Z * Callback) → list (Z * Callback)
}.

Record env_ok (env : Env) : Prop := {
  eo_shuffle l : e_shuffle env l ≡ₚ l;
  eo_perm l : e_sort env l ≡ₚ l;
  eo_sorted l : StronglySorted Z.le (e_sort env l).*1
}.

Definition datagram_key (d : Datagram) : string :=
  match d with
  | DConnect key _ _ _ _ | DConnectAck key _ _ _ | DAddresses key _ _ _ _ | DAddressesAck key _ _
  | DDiagnosticHello key _ | DDiagnosticHelloAck key _ | DDiagnosticInfo key _ _ _ _ => key
  end.

#[global] Instance Datagram_eq_dec : EqDecision Datagram.
Proof. solve_decision. Defined.
#[global] Instance Callback_eq_dec : EqDecision Callback.
Proof. solve_decision. Defined.

Section run.
Context (fmt : Reason → string) (resolveAddressSync : string → list (list Z)) (shuffle_addrs : list (list Z) → list (list Z)).
Context (env : Env).

Inductive Action :=
  | AData (now : Z) (x y c i : nat)          (** [y] reads message [i] of [x] *)
  | AAck (now : Z) (x y c i : nat)           (** [x] reads the acknowledgement of its message [i] to [y] *)
  | AIntroduce (now : Z) (x y c : nat) (reply : bool)   (** [x] reads the introduction of [y], or its reply *)
  | APing (now : Z) (x c : nat) (reply : bool)
  | AAccept (now : Z) (x c : nat)
  | AFail (x c : nat)
  | ALost (now : Z) (x c : nat) (error : string)
  | AUdp (now : Z) (x socket : nat) (from : list Z) (d : option Datagram) (taken : nat → bool)
  | AResolved (now : Z) (x : nat) (addr : list Z)
  | AThread (now : Z) (x : nat) (ch : Choice)            (** a round of the timer thread *)
  | ACall (now : Z) (x : nat) (timeout : Z) (key : string) (m : Message)
  | AClose (now : Z) (x : nat).

Local Abbreviation processMessage := (processMessage fmt resolveAddressSync shuffle_addrs).
Local Abbreviation onreadtcp := (onreadtcp fmt resolveAddressSync shuffle_addrs).

(** The requests that are carried out while the messages [l] from [src] are handled. *)
Fixpoint handle_log (now : Z) (st : StoreImpl) (src : nat) (l : list Buffer) : list Entry :=
  match l with
  | [] => []
  | b :: l => executed_at st b ++ match processMessage now st b src with Ok st => handle_log now st src l | _ => [] end
  end.

(** [st] handles exactly the messages [l] from [src], in this order, and apart from
    that only acknowledges packets and changes what it expects and keeps of [src]. *)
Inductive handled (now : Z) (src : nat) : StoreImpl → list Buffer → StoreImpl → Prop :=
  | handled_nil st : handled now src st [] st
  | handled_note st pi s q l st' : findEdge st src = Some pi → handled now src (putEdge st src (set_incoming pi s q)) l st' → handled now src st l st'
  | handled_ack st c seq l st' : handled now src (emit (touch now st c) (Write c (PMessageAck seq))) l st' → handled now src st l st'
  | handled_message st b st1 l st' : processMessage now st b src = Ok st1 → handled now src st1 l st' → handled now src st (b :: l) st'.

(** A step of one rank. *)
Definition at_rank (w : World) (x : nat) (f : StoreImpl → outcome StoreImpl) : outcome World :=
  let! st := of_option (ranks w !! x) in
  let! st' := f st in
  Ok (mkWorld (<[x := st']> (ranks w)) (note_sent (sent w) x st st') (seen w) (calls w) (log w)).

(** How [y] introduces itself to [x]. *)
Definition introduction (net : list StoreImpl) (x y : nat) : outcome TcpConnectMessage :=
  let! sx := of_option (net !! x) in
  let! sy := of_option (net !! y) in
  let! f := getBroadcastForwardRanks (worldSize (cfg sy)) (firsthop (cfg sy)) x in
  Ok (mkTcpConnect (storekey (cfg sx)) y (myId (cfg sy)) x (myId (cfg sx)) f).

(** [y] reads a message of [x]: the number of messages that it has handled grows by
    as much as the number that it expects next. *)
Definition read_data (w : World) (now : Z) (x y c i : nat) : outcome World :=
  let! sy := of_option (ranks w !! y) in
  let! pj := getEdge sy x in
  let! o := of_option (sent w x y !! i) in
  let! sy' := onreadtcp now sy c (PMessage (obuffer o)) in
  let! pj' := getEdge sy' x in
  let n := Z.to_nat (u32 (incomingSeq pj' - incomingSeq pj)) in
  let l := obuffer <$> take n (drop (seen w x y) (sent w x y)) in
  Ok (mkWorld (<[y := sy']> (ranks w)) (note_sent (sent w) y sy sy') (note_seen (seen w) x y n) (calls w) (log w ++ handle_log now sy x l)).

Definition make_call (w : World) (now : Z) (x : nat) (timeout : Z) (key : string) (m : Message) : outcome World :=
  let! st := of_option (ranks w !! x) in
  let! '(o, st') := doWaitOp fmt resolveAddressSync shuffle_addrs now st timeout key m in
  let net := <[x := st']> (ranks w) in
  let s := note_sent (sent w) x st st' in
  if exited (shut st) then Ok (mkWorld net s (seen w) (calls w) (log w))
  else Ok (mkWorld net s (seen w) (calls w ++ [mkCall x (nextId (kv st)) m o]) (log w ++ executed_at st (request st key m))).

Definition act (w : World) (a : Action) : outcome World :=
  match a with
  | AData now x y c i => read_data w now x y c i
  | AAck now x y c i => at_rank w x (λ st, onreadtcp now st c (PMessageAck (u32 (Z.of_nat i))))
  | AIntroduce now x y c reply =>
      let! m := introduction (ranks w) x y in
      at_rank w x (λ st, onreadtcp now st c (if reply then PConnectAck m else PConnect m))
  | APing now x c reply => at_rank w x (λ st, onreadtcp now st c (if reply then PKeepaliveAck else PKeepalive))
  | AAccept now x c => at_rank w x (λ st, accept_connection now st c)
  | AFail x c => at_rank w x (λ st, Ok (close_conn st c))
  | ALost now x c error => at_rank w x (λ st, connection_lost fmt now st c error)
  | AUdp now x socket from d taken => at_rank w x (λ st, onreadudp (e_net env x) (e_shuffle env) now st socket from d taken)
  | AResolved now x addr => at_rank w x (λ st, Ok (resolved now st addr))
  | AThread now x ch =>
      at_rank w x (λ st, thread_step fmt resolveAddressSync shuffle_addrs (e_net env x) (e_shuffle env) (e_sort env) now st ch)
  | ACall now x timeout key m => make_call w now x timeout key m
  | AClose now x => at_rank w x (λ st, Ok (close now st))
  end.

(** The datagram was sent from address [from], to an address of [x]. *)
Definition delivered (net : list StoreImpl) (x : nat) (from : list Z) (d : Datagram) : bool :=
  match e_owner env from ≫= λ y, net !! y with
  | Some sy => existsb (λ e, match e with
                             | SendTo _ a d' => bool_decide (d' = d) && bool_decide (e_owner env a = Some x)
                             | _ => false
                             end) (out sy)
  | None => false
  end.

(** What the environment may do: packets come from the peer of the connection and
    are within the window of their numbers, connections are those that the rank
    has, new ones have new numbers, calls ask for something, and no rank runs out
    of call numbers. *)
Definition has_conn (net : list StoreImpl) (x c : nat) : bool :=
  match net !! x with Some st => bool_decide (is_Some (conns st !! c)) | None => false end.

Definition enabled (w : World) (a : Action) : bool :=
  let net := ranks w in
  match a with
  | AData _ x y c i =>
      bool_decide (peer_of net y c = Some x) && (i <? length (sent w x y))%nat &&
      (Z.of_nat i <? Z.of_nat (seen w x y) + 2 ^ 31) && (Z.of_nat (seen w x y) <=? Z.of_nat i + 2 ^ 31)
  | AAck _ x y c i =>
      bool_decide (peer_of net x c = Some y) && arrived w x y i && (Z.of_nat (length (sent w x y)) <=? Z.of_nat i + 2 ^ 32)
  | AIntroduce _ x y c _ => is_edge net x y && has_conn net x c
  | APing _ x c _ | AFail x c | ALost _ x c _ => has_conn net x c
  | AAccept _ x c => bool_decide (x < length net)%nat && negb (has_conn net x c)
  | AUdp _ x _ from d _ =>
      match net !! x, d with
      | Some st, Some d => negb (bool_decide (datagram_key d = storekey (cfg st))) || delivered net x from d
      | Some _, None => true
      | None, _ => false
      end
  | AThread _ x ch => bool_decide (x < length net)%nat && negb (has_conn net x (ch_conn ch))
  | ACall _ x _ key m =>
      match net !! x with
      | Some st => bool_decide (op_key m = Some key) && (nextId (kv st) <? 2 ^ 32 - 1)
      | None => false
      end
  | AResolved _ x _ | AClose _ x => bool_decide (x < length net)%nat
  end.

Fixpoint acts (w : World) (l : list Action) : outcome World :=
  match l with
  | [] => Ok w
  | a :: l => let! w := act w a in acts w l
  end.

Fixpoint all_enabled (w : World) (l : list Action) : bool :=
  match l with
  | [] => true
  | a :: l => enabled w a && match act w a with Ok w => all_enabled w l | _ => false end
  end.

Inductive steps : World → World → Prop :=
  | steps_refl w : steps w w
  | steps_step w w1 w2 a : steps w w1 → enabled w1 a = true → act w1 a = Ok w2 → steps w w2.

(** The message that is expected next arrives. *)
Definition progress (w w' : World) : Prop :=
  ∃ now x y c, let a := AData now x y c (seen w x y) in enabled w a = true ∧ act w a = Ok w'.

(** Every message has been handled. *)
Definition at_rest (w : World) : Prop := ∀ x y, is_edge (ranks w) x y = true → seen w x y = length (sent w x y).

(** *** The start *)

Context (worldSize : nat) (shuffle : Z → list nat → list nat) (draws : Z → list nat).
(** How each rank shuffles its copy of the graph, and the machine that it runs on. *)
Context (shuffle_edges : nat → nat → list nat → list nat) (hosts : nat → Host).
Context (storekey hostname : string) (port : Z).

Definition new_rank (r : nat) : outcome StoreImpl :=
  new_store (findPaths worldSize shuffle draws (shuffle_edges r) storekey r) worldSize r storekey hostname port (hosts r).

Fixpoint new_ranks (l : list nat) : outcome (list StoreImpl) :=
  match l with
  | [] => Ok []
  | r :: l => let! st := new_rank r in let! net := new_ranks l in Ok (st :: net)
  end.

Definition start : outcome World := let! net := new_ranks (seq 0 worldSize) in Ok (mkWorld net (λ _ _, []) (λ _ _, 0%nat) [] []).

Definition reachable (w : World) : Prop := ∃ w0, start = Ok w0 ∧ steps w0 w.
End run.
