(* ===== verification/StoreFormat.v ===== *)
(** * Model of core/store.cc: the bytes of its messages

    The structs that ranks send to each other, as types of file Serialization, and
    what [onreadudp], [onreadtcp] and [processMessage] make of the bytes that
    arrive: the signature, the message that follows it, and the exception that
    they catch.  A [Field] is a C++ type together with the values that the model
    uses for its objects; a struct is built from the fields that its [serialize]
    lists. *)

From Stdlib Require Import ZArith Lia Ascii String.
From stdpp Require Import base gmap option list strings.
From S2P Require Import Prelude Serialization StoreTopology Store.

Declare Scope wire_scope.
Open Scope wire_scope.

(** ** Signatures *)

Definition signatureConnect : Z := 0x120a63c0941561a4.
Definition signatureConnectAck : Z := 0x120a63c0941561a5.
Definition signatureAddresses : Z := 0x10f963c0941561a6.
Definition signatureAddressesAck : Z := 0x10f963c0941561a7.
Definition signatureMessage : Z := 0x220a74d1a52672b8.
Definition signatureMessageAck : Z := 0x220a74d1a52672b9.
Definition signatureKeepalive : Z := 0x220a74d1a53772ba.
Definition signatureKeepaliveAck : Z := 0x220a74d1a53772bb.
Definition signatureDiagnosticHello : Z := 0x330b85e2b63783cc.
Definition signatureDiagnosticHelloAck : Z := 0x330b85e2b63783cd.
Definition signatureDiagnosticInfo : Z := 0x330b85e2b63783ce.

(** ** Fields *)

(** A type, the object for a value, and the value of an object ([None] for an object of another type). *)
Record Field (A : Type) := mkField {
  f_ty : ty;
  f_val : A → val;
  f_get : val → option A
}.
Arguments mkField {A}.
Arguments f_ty {A}.
Arguments f_val {A}.
Arguments f_get {A}.

(** The arguments of one call of the archive. *)
Record Fields (A : Type) := mkFields {
  fs_ty : list ty;
  fs_val : A → list val;
  fs_get : list val → option A
}.
Arguments mkFields {A}.
Arguments fs_ty {A}.
Arguments fs_val {A}.
Arguments fs_get {A}.

Definition fnil : Fields unit := mkFields [] (λ _, []) (λ vs, match vs with [] => Some tt | _ => None end).
Definition fcons {A B} (f : Field A) (fs : Fields B) : Fields (A * B) :=
  mkFields (f_ty f :: fs_ty fs) (λ p, f_val f p.1 :: fs_val fs p.2)
    (λ vs, match vs with v :: vs => a ← f_get f v; b ← fs_get fs vs; Some (a, b) | [] => None end).
Notation "f ▷ fs" := (fcons f fs) (at level 60, right associativity) : wire_scope.
Notation "∎" := fnil : wire_scope.

(** An unsigned integer of [n] bytes. *)
Definition fuint (n : nat) : Field Z :=
  mkField (TPod (Z.of_nat n) (Z.of_nat n)) (λ x, VPod (le_bytes n x)) (λ v, match v with VPod b => Some (le_value b) | _ => None end).

(** The same objects, standing for other values. *)
Definition fmap_field {A B} (to : A → B) (from : B → A) (f : Field A) : Field B :=
  mkField (f_ty f) (λ b, f_val f (from b)) (λ v, to <$> f_get f v).

Fixpoint bytes_of_string (s : string) : list Z :=
  match s with
  | EmptyString => []
  | String c s => Z.of_N (N_of_ascii c) :: bytes_of_string s
  end.
Fixpoint string_of_bytes (b : list Z) : string :=
  match b with
  | [] => EmptyString
  | x :: b => String (ascii_of_N (Z.to_N x)) (string_of_bytes b)
  end.

Definition kind_byte (k : DiagnosticKind) : Z :=
  match k with Transient => 0 | Error => 1 | Success => 2 | OtherKind b => b end.
Definition kind_of_byte (b : Z) : DiagnosticKind :=
  if b =? 0 then Transient else if b =? 1 then Error else if b =? 2 then Success else OtherKind b.

(** [uint32_t], also for the number of a rank; [bool]; [DiagnosticKind]. *)
Definition fu32 : Field Z := fuint 4.
Definition frank : Field nat := fmap_field Z.to_nat Z.of_nat fu32.
Definition fbool : Field bool := fmap_field (λ b, negb (b =? 0)) (λ b : bool, if b then 1 else 0) (fuint 1).
Definition fkind : Field DiagnosticKind := fmap_field kind_of_byte kind_byte (fuint 1).

(** [std::string_view] and [std::string]. *)
Definition fview : Field string :=
  mkField (TView 1) (λ s, VView 1 (bytes_of_string s)) (λ v, match v with VView _ b => Some (string_of_bytes b) | _ => None end).
Definition fstring : Field string :=
  mkField TString (λ s, VString (bytes_of_string s)) (λ v, match v with VString b => Some (string_of_bytes b) | _ => None end).

(** [std::vector] and [Vector]; a struct or a pair. *)
Definition flist {A} (f : Field A) : Field (list A) :=
  mkField (TVec (f_ty f)) (λ l, VVec (f_val f <$> l)) (λ v, match v with VVec l => mapM (f_get f) l | _ => None end).
Definition frec {A} (k : rec_kind) (fs : Fields A) : Field A :=
  mkField (TRec k (fs_ty fs)) (λ a, VRec (fs_val fs a)) (λ v, match v with VRec vs => fs_get fs vs | _ => None end).

Definition fbytes : Field (list Z) := flist (fuint 1).
Definition faddresses : Field (list (Z * (string * unit))) := flist (frec KPair (fu32 ▷ fstring ▷ ∎)).

(** ** Datagrams *)

Definition DiagnosticInfoMessage := frec KMember (fview ▷ frank ▷ frank ▷ fkind ▷ fview ▷ ∎).
Definition DiagnosticHelloMessage := frec KMember (fview ▷ frank ▷ ∎).
Definition UdpConnectMessage := frec KMember (fview ▷ frank ▷ fview ▷ fview ▷ faddresses ▷ ∎).
Definition UdpConnectAckMessage := frec KMember (fview ▷ frank ▷ fview ▷ flist fu32 ▷ ∎).
Definition AddressesMessage := frec KMember (fview ▷ frank ▷ fview ▷ fview ▷ faddresses ▷ ∎).
Definition AddressesAckMessage := frec KMember (fview ▷ frank ▷ frank ▷ ∎).

Definition pairs (l : list (Z * string)) : list (Z * (string * unit)) := (λ p, (p.1, (p.2, tt))) <$> l.
Definition unpairs (l : list (Z * (string * unit))) : list (Z * string) := (λ p, (p.1, p.2.1)) <$> l.

(** The arguments of [serializeToBuffer]: the signature and the struct. *)
Definition datagram_vals (d : Datagram) : list val :=
  let sig (s : Z) := f_val (fuint 8) s in
  match d with
  | DConnect key source uid networkKey addrs =>
      [sig signatureConnect; f_val UdpConnectMessage (key, (source, (uid, (networkKey, (pairs addrs, tt)))))]
  | DConnectAck key source uid l => [sig signatureConnectAck; f_val UdpConnectAckMessage (key, (source, (uid, (l, tt))))]
  | DAddresses key source uid networkKey addrs =>
      [sig signatureAddresses; f_val AddressesMessage (key, (source, (uid, (networkKey, (pairs addrs, tt)))))]
  | DAddressesAck key source edge => [sig signatureAddressesAck; f_val AddressesAckMessage (key, (source, (edge, tt)))]
  | DDiagnosticHello key source => [sig signatureDiagnosticHello; f_val DiagnosticHelloMessage (key, (source, tt))]
  | DDiagnosticHelloAck key source => [sig signatureDiagnosticHelloAck; f_val DiagnosticHelloMessage (key, (source, tt))]
  | DDiagnosticInfo key reporting stuck kind reason =>
      [sig signatureDiagnosticInfo; f_val DiagnosticInfoMessage (key, (reporting, (stuck, (kind, (reason, tt)))))]
  end.

Definition write_datagram (fill : Z) (d : Datagram) : outcome (list Z) := serializeTo fill (datagram_vals d).

(** ** Packets *)

Definition TcpConnectFields := frec KMember (fview ▷ frank ▷ fview ▷ frank ▷ fview ▷ flist frank ▷ ∎).

(** [MessageHeader] has no [serialize]: it is copied as it is in memory, with two bytes of padding at the end. *)
Definition header_bytes (pad : list Z) (h : MessageHeader) (type : Z) : list Z :=
  le_bytes 4 (ttl h) ++ le_bytes 4 (hseq h) ++ le_bytes 4 (Z.of_nat (destinationRank h)) ++ le_bytes 4 (hid h) ++
  le_bytes 4 (Z.of_nat (sourceRank h)) ++ le_bytes 4 (Z.of_nat (diagnosticSource h)) ++ [type; if broadcast h then 1 else 0] ++ pad.

Definition header_of_bytes (b : list Z) : MessageHeader * Z :=
  let at_ (i n : Z) := le_value (take (Z.to_nat n) (drop (Z.to_nat i) b)) in
  (mkHeader (at_ 0 4) (at_ 4 4) (Z.to_nat (at_ 8 4)) (at_ 12 4) (Z.to_nat (at_ 16 4)) (Z.to_nat (at_ 20 4)) (negb (at_ 25 1 =? 0)), at_ 24 1).

(** [pad] is what the padding happens to hold. *)
Definition fheader (pad : list Z) : Field (MessageHeader * Z) :=
  mkField (TPod 28 4) (λ p, VPod (header_bytes pad p.1 p.2)) (λ v, match v with VPod b => Some (header_of_bytes b) | _ => None end).

Definition message_type (m : Message) : Z :=
  match m with
  | messageDone _ => 3 | messageSet _ _ => 4 | messageGet _ => 5 | messageCheck _ => 6 | messageWait _ => 7
  | messageShutdown _ => 8 | messageExit _ => 9 | messageExitAck => 10 | messageDiagnosticSource _ => 11
  end.

(** The arguments after the message type in the calls of [sendMessageTo], [broadcastMessage] and [doWaitOp]. *)
Definition message_args (m : Message) : list val :=
  match m with
  | messageDone ReplyNone | messageExitAck => []
  | messageDone (ReplyBool b) => [f_val fbool b]
  | messageDone (ReplyValue v) => [f_val fbytes v]
  | messageSet key value => [f_val fview key; f_val fbytes value]
  | messageGet key | messageCheck key | messageWait key => [f_val fview key]
  | messageShutdown r | messageExit r => [f_val frank r]
  | messageDiagnosticSource addrs => [f_val (flist fstring) addrs]
  end.

Definition tcp_connect (m : TcpConnectMessage) : val :=
  f_val TcpConnectFields (tkey m, (tsourceRank m, (tsourceId m, (tdestinationRank m, (tdestinationId m, (broadcastForwardRanks m, tt)))))).

Definition packet_vals (pad : list Z) (p : Packet) : list val :=
  let sig (s : Z) := f_val (fuint 8) s in
  match p with
  | PConnect m => [sig signatureConnect; tcp_connect m]
  | PConnectAck m => [sig signatureConnectAck; tcp_connect m]
  | PMessage b => sig signatureMessage :: f_val (fheader pad) (hdr b, message_type (body b)) :: message_args (body b)
  | PMessageAck seq => [sig signatureMessageAck; f_val fu32 seq]
  | PKeepalive => [sig signatureKeepalive]
  | PKeepaliveAck => [sig signatureKeepaliveAck]
  end.

Definition write_packet (fill : Z) (pad : list Z) (p : Packet) : outcome (list Z) := serializeTo fill (packet_vals pad p).

(** The [memcpy]s that change a message where it lies. *)
Definition write_ttl (buf : list Z) (t : Z) : outcome (list Z) := mem_write buf 8 (le_bytes 4 t).
Definition write_seq (buf : list Z) (s : Z) : outcome (list Z) := mem_write buf 12 (le_bytes 4 s).
Definition write_dest (buf : list Z) (d : nat) : outcome (list Z) := mem_write buf 16 (le_bytes 4 (Z.of_nat d)).
Definition read_ttl (buf : list Z) : outcome Z := let! b := mem_read buf 8 4 in Ok (le_value b).

(** ** Reading *)

(** [catch (const SerializationError&)]: what was received is dropped. *)
Definition catch {A} (o : outcome (option A)) : outcome (option A) :=
  match o with
  | Throw SerializationError => Ok None
  | o => o
  end.

Section reading.
(** The most elements that a container agrees to hold. *)
Context (max_elems : Z).

(** [deserializeBufferPart(view, args...)]. *)
Definition read_args {A} (fs : Fields A) (view : list Z) : outcome (A * list Z) :=
  let! '(vs, rest) := deserializeBufferPart max_elems view (fs_ty fs) in
  let! a := of_option (fs_get fs vs) in
  Ok (a, rest).

Definition read_struct {A B} (f : Field A) (mk : A → B) (view : list Z) : outcome (option B) :=
  let! '(a, _) := read_args (f ▷ ∎) view in
  Ok (Some (mk a.1)).

(** The struct that a signature announces. *)
Definition signed_datagram (signature : Z) (view : list Z) : outcome (option Datagram) :=
  if signature =? signatureConnect then
    read_struct UdpConnectMessage (λ '(key, (source, (uid, (nk, (l, _))))), DConnect key source uid nk (unpairs l)) view
  else if signature =? signatureConnectAck then
    read_struct UdpConnectAckMessage (λ '(key, (source, (uid, (l, _)))), DConnectAck key source uid l) view
  else if signature =? signatureAddresses then
    read_struct AddressesMessage (λ '(key, (source, (uid, (nk, (l, _))))), DAddresses key source uid nk (unpairs l)) view
  else if signature =? signatureAddressesAck then
    read_struct AddressesAckMessage (λ '(key, (source, (edge, _))), DAddressesAck key source edge) view
  else if signature =? signatureDiagnosticHello then
    read_struct DiagnosticHelloMessage (λ '(key, (source, _)), DDiagnosticHello key source) view
  else if signature =? signatureDiagnosticHelloAck then
    read_struct DiagnosticHelloMessage (λ '(key, (source, _)), DDiagnosticHelloAck key source) view
  else if signature =? signatureDiagnosticInfo then
    read_struct DiagnosticInfoMessage (λ '(key, (r, (e, (kind, (reason, _))))), DDiagnosticInfo key r e kind reason) view
  else Ok None.

(** The first eight bytes, and what follows them; [None] for less than that. *)
Definition signed {A} (read : Z → list Z → outcome (option A)) (buf : list Z) : outcome (option A) :=
  if zlength buf <? 8 then Ok None
  else
    let! s := mem_read buf 0 8 in
    catch (read (le_value s) (drop 8 buf)).

(** The start of [onreadudp]: the datagram that was received.  The buffer has 4096 bytes. *)
Definition read_datagram (buf : list Z) : outcome (option Datagram) := signed signed_datagram (take (Z.to_nat 0x1000) buf).

(** What follows the header, by message type; [None] for a type that does not exist. *)
Definition read_content (type : Z) (view : list Z) : outcome (option Message) :=
  if type =? 4 then
    let! '(a, _) := read_args (fstring ▷ fbytes ▷ ∎) view in
    Ok (Some (messageSet a.1 a.2.1))
  else if type =? 3 then
    if zlength view =? 0 then Ok (Some (messageDone ReplyNone))
    else if zlength view =? 1 then read_struct fbool (λ b, messageDone (ReplyBool b)) view
    else read_struct fbytes (λ v, messageDone (ReplyValue v)) view
  else if type =? 5 then read_struct fstring messageGet view
  else if type =? 7 then read_struct fstring messageWait view
  else if type =? 6 then read_struct fstring messageCheck view
  else if type =? 8 then read_struct frank messageShutdown view
  else if type =? 9 then read_struct frank messageExit view
  else if type =? 10 then Ok (Some messageExitAck)
  else if type =? 11 then read_struct (flist fstring) messageDiagnosticSource view
  else Ok None.

(** [processMessage], where the message is for this rank; [view] is what follows the signature. *)
Definition read_message (view : list Z) : outcome (option Buffer) :=
  let! '(a, view) := read_args (fheader [] ▷ ∎) view in
  let! m := read_content a.1.2 view in
  Ok (mkBuffer a.1.1 <$> m).

Definition get_connect (f : TcpConnectMessage → Packet) : string * (nat * (string * (nat * (string * (list nat * unit))))) → Packet :=
  λ '(key, (source, (sourceId, (dest, (destId, (l, _)))))), f (mkTcpConnect key source sourceId dest destId l).

Definition signed_packet (signature : Z) (view : list Z) : outcome (option Packet) :=
  if signature =? signatureConnect then read_struct TcpConnectFields (get_connect PConnect) view
  else if signature =? signatureConnectAck then read_struct TcpConnectFields (get_connect PConnectAck) view
  else if signature =? signatureMessage then
    let! '(ttl_seq, _) := read_args (fu32 ▷ fu32 ▷ ∎) view in
    let! b := read_message view in
    Ok (PMessage <$> b)
  else if signature =? signatureMessageAck then read_struct fu32 PMessageAck view
  else if signature =? signatureKeepalive then Ok (Some PKeepalive)
  else if signature =? signatureKeepaliveAck then Ok (Some PKeepaliveAck)
  else Ok None.

(** The start of [onreadtcp], with the message that [processMessage] finds. *)
Definition read_packet (buf : list Z) : outcome (option Packet) := signed signed_packet buf.
End reading.
