(* ===== verification/StoreSendFacts.v ===== *)
(** * What a message handler sends

    Every handler of file Store is described by the messages that it puts on
    the edges, in order, and by what it does to the keys, the waiting callers
    and the shutdown. *)

From Stdlib Require Import ZArith Lia.
From stdpp Require Import base gmap option list strings.
From S2P Require Import Prelude StoreTopology Store.

Local Set Warnings "-clear-no-such-hyp".

(** ** The table of edges *)

Lemma find_put l r e r' : is_Some (find_peer l r) →
  find_peer (put_peer l r e) r' = if decide (r = r') then Some e else find_peer l r'.
Proof.
  induction l as [|[k f] l IH]; cbn [find_peer put_peer]; [by intros []|].
  case_bool_decide; subst; cbn [find_peer].
  - intros _. case_decide; subst; [by rewrite bool_decide_true|by rewrite !bool_decide_false].
  - intros Hl. case_bool_decide; subst; [by rewrite decide_False by done|by apply IH].
Qed.

Lemma put_put l r e e' : put_peer (put_peer l r e) r e' = put_peer l r e'.
Proof.
  induction l as [|[k f] l IH]; cbn [put_peer]; [done|]. case_bool_decide; subst; cbn [put_peer].
  - by rewrite bool_decide_true.
  - rewrite bool_decide_false by done. by f_equal.
Qed.

Lemma put_fst l r e : (put_peer l r e).*1 = l.*1.
Proof.
  induction l as [|[k f] l IH]; cbn [put_peer]; [done|]. case_bool_decide; cbn; [done|]. by f_equal.
Qed.

Lemma find_is_Some l r : is_Some (find_peer l r) ↔ r ∈ l.*1.
Proof.
  induction l as [|[k f] l IH]; cbn [find_peer fmap list_fmap fst].
  - split; [by intros []|by intros ?%elem_of_nil].
  - rewrite elem_of_cons. case_bool_decide; subst; [split; [by left|by eexists]|]. rewrite IH. naive_solver.
Qed.

(** ** What is sent *)

(** A message put on an edge, or kept until the edge has connected. *)
Inductive Out := OSend (edge : nat) (b : Buffer) | OPend (edge : nat) (source : nat) (b : Buffer).

Definition out_edge (o : Out) : nat := match o with OSend e _ | OPend e _ _ => e end.

(** The messages for one edge. *)
Definition on_edge (y : nat) (l : list Out) : list Out := filter (λ o, out_edge o = y) l.

Lemma on_edge_app y l k : on_edge y (l ++ k) = on_edge y l ++ on_edge y k.
Proof. apply filter_app. Qed.

Lemma on_edge_all y l : Forall (λ o, out_edge o = y) l → on_edge y l = l.
Proof.
  unfold on_edge. induction 1 as [|o l Ho Hl IH]; [done|]. rewrite filter_cons_True by done. by f_equal.
Qed.

Lemma on_edge_none y z l : Forall (λ o, out_edge o = y) l → y ≠ z → on_edge z l = [].
Proof.
  unfold on_edge. intros H Hyz. induction H as [|o l Ho Hl IH]; [done|]. by rewrite filter_cons_False by congruence.
Qed.

(** [outgoingQueue] with one more message. *)
Definition push (pi : EdgeInfo) (t : Z) (b : Buffer) (d : nat) : EdgeInfo :=
  set_outgoing pi (u32 (outgoingSeq pi + 1)) (outgoingQueue pi ++ [mkOutgoing (outgoingSeq pi) (patch_seq b (outgoingSeq pi)) t d]).

Section edge.
Context (c : Config).

(** The addresses of a diagnostic source, for an edge. *)
Definition diag_message (y d : nat) (addrs : list string) : Buffer :=
  mkBuffer (mkHeader (Z.of_nat (worldSize c)) 0 y 0 (rank c) d false) (messageDiagnosticSource addrs).

Inductive grown (y : nat) : EdgeInfo → list Out → EdgeInfo → Prop :=
  | grown_nil pi : grown y pi [] pi
  | grown_send pi l pi1 b t d : grown y pi l pi1 → grown y pi (l ++ [OSend y b]) (push pi1 t b d)
  | grown_mark pi l pi1 d : grown y pi l pi1 → (d < worldSize c)%nat → d ∉ sentDiagnosticSourceFor pi1 →
      grown y pi l (set_sent pi1 ({[d]} ∪ sentDiagnosticSourceFor pi1))
  | grown_diag pi l pi1 d t addrs : grown y pi l pi1 → (d < worldSize c)%nat → d ∉ sentDiagnosticSourceFor pi1 →
      grown y pi l (push (set_sent pi1 ({[d]} ∪ sentDiagnosticSourceFor pi1)) t (diag_message y d addrs) d)
  | grown_pend pi l pi1 s b : grown y pi l pi1 → everConnected pi1 = false →
      grown y pi (l ++ [OPend y s b]) (set_pending pi1 (pendingBroadcasts pi1 ++ [(s, b)])).

Lemma grown_trans y pi l pi1 k pi2 : grown y pi l pi1 → grown y pi1 k pi2 → grown y pi (l ++ k) pi2.
Proof.
  intros H. induction 1; rewrite ?app_nil_r, ?(assoc_L (++)); [done|constructor; auto..].
Qed.

(** What never changes when messages are sent. *)
Lemma grown_same y pi l pi' : grown y pi l pi' →
  eaddr pi' = eaddr pi ∧ tcpconnections pi' = tcpconnections pi ∧ everConnected pi' = everConnected pi ∧
  incomingSeq pi' = incomingSeq pi ∧ incomingQueue pi' = incomingQueue pi ∧ broadcastForwardFor pi' = broadcastForwardFor pi.
Proof. induction 1; cbn; naive_solver. Qed.

(** Sending does not depend on what is pending. *)
Lemma grown_clear y pi l pi' : Forall (λ o, match o with OSend _ _ => True | _ => False end) l →
  grown y pi l pi' → grown y (set_pending pi []) l (set_pending pi' []).
Proof.
  intros Hl. induction 1 as [pi|pi l pi1 b t d Hg IH|pi l pi1 d Hg IH Hd Hn|pi l pi1 d t addrs Hg IH Hd Hn|pi l pi1 s b Hg IH Hev].
  - constructor.
  - apply Forall_app in Hl as [Hl _]. exact (grown_send y _ l _ b t d (IH Hl)).
  - exact (grown_mark y _ l _ d (IH Hl) Hd Hn).
  - exact (grown_diag y _ l _ d t addrs (IH Hl) Hd Hn).
  - rewrite Forall_app, Forall_singleton in Hl. tauto.
Qed.

(** The messages [l] have been sent. *)
Record outs (st : StoreImpl) (l : list Out) (st' : StoreImpl) : Prop := {
  os_cfg : cfg st' = cfg st;
  os_conns : conns st' = conns st;
  os_floating : floatingConnections st' = floatingConnections st;
  os_peers : (edgePeers st').*1 = (edgePeers st).*1;
  os_grown y pi : findEdge st y = Some pi → ∃ pi', findEdge st' y = Some pi' ∧ grown y pi (on_edge y l) pi'
}.

(** The keys, the waiting callers and the shutdown are as before. *)
Definition same_rest (st st' : StoreImpl) : Prop := kv st' = kv st ∧ shut st' = shut st.

Lemma outs_refl st st' : cfg st' = cfg st → conns st' = conns st → floatingConnections st' = floatingConnections st →
  edgePeers st' = edgePeers st → outs st [] st'.
Proof.
  intros H1 H2 H3 H4. constructor; [done|done|done|by rewrite H4|]. intros y pi. unfold findEdge. rewrite H4.
  exists pi. split; [done|constructor].
Qed.

Lemma outs_trans st l st1 k st2 : outs st l st1 → outs st1 k st2 → outs st (l ++ k) st2.
Proof.
  intros [A1 A2 A3 A4 A5] [B1 B2 B3 B4 B5]. constructor; [congruence..|].
  intros y pi Hy. destruct (A5 y pi Hy) as (pi1 & Hy1 & G1). destruct (B5 y pi1 Hy1) as (pi2 & Hy2 & G2).
  exists pi2. split; [done|]. rewrite on_edge_app. by eapply grown_trans.
Qed.

Lemma same_rest_trans a b d : same_rest a b → same_rest b d → same_rest a d.
Proof. intros [] []. split; congruence. Qed.

(** One edge changes. *)
Lemma outs_put st y pi l pi' : findEdge st y = Some pi → grown y pi l pi' → Forall (λ o, out_edge o = y) l →
  outs st l (putEdge st y pi').
Proof.
  intros Hy Hg Hl. constructor; cbn; [done..|by apply put_fst|]. intros z pz Hz. unfold findEdge in *. cbn [edgePeers putEdge set_peers].
  rewrite find_put by (by eexists). case_decide as E.
  - subst z. exists pi'. split; [done|]. assert (pz = pi) as -> by congruence.
    by rewrite on_edge_all.
  - exists pz. split; [done|]. rewrite (on_edge_none y) by done. constructor.
Qed.
End edge.

(** ** Sending *)

Section send.
Context (fmt : Reason → string) (resolveAddressSync : string → list (list Z)) (shuffle_addrs : list (list Z) → list (list Z)) (now : Z).
Context (c : Config).

Local Abbreviation process_rec := (process_rec fmt resolveAddressSync shuffle_addrs now).
Local Abbreviation send_rec := (send_rec fmt resolveAddressSync shuffle_addrs now).
Local Abbreviation outs := (outs c).
Local Abbreviation grown := (grown c).

Lemma send_unfold f st y b d : send_rec (S f) st y b d = send_body fmt now (process_rec f) (send_rec f) st y b d.
Proof using Type. done. Qed.

Lemma process_unfold f st b e :
  process_rec (S f) st b e = process_body resolveAddressSync shuffle_addrs now (process_rec f) (send_rec f) st b e.
Proof using Type. done. Qed.

(** Only the diagnostics and the output differ. *)
Definition silent (st st' : StoreImpl) : Prop :=
  cfg st' = cfg st ∧ conns st' = conns st ∧ floatingConnections st' = floatingConnections st ∧ edgePeers st' = edgePeers st ∧ same_rest st st'.

Lemma silent_refl st : silent st st.
Proof using Type. done. Qed.

Lemma silent_trans a b d : silent a b → silent b d → silent a d.
Proof using Type. intros (?&?&?&?&?&?) (?&?&?&?&?&?). repeat split; congruence. Qed.

Lemma quiet_outs st st' : silent st st' → outs st [] st'.
Proof using Type. intros (?&?&?&?&_). by apply outs_refl. Qed.

Lemma emit_quiet st e : silent st (emit st e).
Proof using Type. done. Qed.

Lemma sendDiagnosticInfo_quiet st s y k r : silent st (sendDiagnosticInfo fmt now st s y k r).
Proof using Type. unfold sendDiagnosticInfo. repeat case_match; done. Qed.

Lemma addCallback_quiet st t f : silent st (addCallback st t f).
Proof using Type. unfold addCallback. by case_match. Qed.

Lemma tryDiagnosticHello_quiet st s : silent st (tryDiagnosticHello now st s).
Proof using Type.
  unfold tryDiagnosticHello. repeat case_match; try done; (eapply silent_trans; [|apply addCallback_quiet]); done.
Qed.

(** Messages written out, when they have a connection. *)
Lemma send_marked f st y b d pi : cfg st = c → y ≠ rank c → findEdge st y = Some pi → d ∈ sentDiagnosticSourceFor pi →
  ∃ st', send_rec (S f) st y b d = Ok st' ∧ findEdge st' y = Some (push pi now b d) ∧ silent (putEdge st y (push pi now b d)) st'.
Proof using Type.
  intros Hc Hy Hpi Hd. rewrite send_unfold. unfold send_body. rewrite Hc, bool_decide_false by done.
  assert (getEdge st y = Ok pi) as Hget by (unfold getEdge; by rewrite Hpi).
  unfold ensureDiagnosticSourceSent. rewrite Hc, bool_decide_false by done. rewrite Hget. cbn [obind]. rewrite bool_decide_true by done.
  cbn [obind]. rewrite Hget. cbn [obind]. fold (push pi now b d).
  assert (findEdge (putEdge st y (push pi now b d)) y = Some (push pi now b d)) as Hfind.
  { unfold findEdge, putEdge. cbn. rewrite find_put by (by eexists). by rewrite decide_True. }
  destruct (tcpconnections (push pi now b d)); eexists; (split; [done|]).
  - pose proof (sendDiagnosticInfo_quiet (putEdge st y (push pi now b d)) d y Transient (stuck_reason y (push pi now b d))) as Hq.
    split; [|exact Hq]. unfold findEdge in *. destruct Hq as (_&_&_&->&_). done.
  - split; [done|apply emit_quiet].
Qed.

Lemma send_ok f st y b d : cfg st = c → (d < worldSize c)%nat → y ≠ rank c → y ∈ (edgePeers st).*1 → firsthop c !! y = Some y →
  ∃ st', send_rec (S (S f)) st y b d = Ok st' ∧ outs st [OSend y b] st' ∧ same_rest st st'.
Proof using Type.
  intros Hc Hdw Hy [pi Hpi]%find_is_Some Hhop. change (find_peer (edgePeers st) y) with (findEdge st y) in Hpi.
  destruct (decide (d ∈ sentDiagnosticSourceFor pi)) as [Hd|Hd].
  { destruct (send_marked (S f) st y b d pi Hc Hy Hpi Hd) as (st' & -> & _ & Hq). exists st'. split; [done|]. split; [|apply Hq].
    change [OSend y b] with ([OSend y b] ++ []). eapply outs_trans; [|by apply quiet_outs].
    eapply outs_put; [done| |by repeat constructor]. apply (grown_send c y pi [] pi). constructor. }
  set (pi1 := set_sent pi ({[d]} ∪ sentDiagnosticSourceFor pi)). set (st1 := putEdge st y pi1).
  assert (findEdge st1 y = Some pi1) as Hpi1.
  { unfold findEdge, st1, putEdge. cbn. rewrite find_put by (by eexists). by rewrite decide_True. }
  assert (outs st [] st1) as Ho1.
  { eapply outs_put; [done| |constructor]. by apply (grown_mark c y pi [] pi d); [constructor|..]. }
  assert (cfg st1 = c) as Hc1 by done.
  assert (d ∈ sentDiagnosticSourceFor pi1) as Hd1 by (cbn; set_solver).
  assert (∃ st2 pi2, ensureDiagnosticSourceSent (process_rec (S f)) (send_rec (S f)) st y d = Ok st2 ∧ cfg st2 = c ∧
    findEdge st2 y = Some pi2 ∧ d ∈ sentDiagnosticSourceFor pi2 ∧ outs st [] st2 ∧ same_rest st st2) as (st2 & pi2 & E & Hc2 & Hpi2 & Hd2 & Ho2 & Hr2).
  { unfold ensureDiagnosticSourceSent, getEdge. rewrite Hc, bool_decide_false by done. rewrite Hpi. cbn [obind].
    rewrite bool_decide_false by done. fold pi1. fold st1.
    destruct (if bool_decide (d = rank c) then _ else _) as [|a addrs] eqn:Ea; [by exists st1, pi1|].
    unfold sendMessageTo, vec_get, getEdge. rewrite Hc1, Hhop. cbn [of_option obind]. rewrite bool_decide_false by done. rewrite Hpi1. cbn [obind].
    destruct (send_marked f st1 y (diag_message c y d (a :: addrs)) d pi1 Hc1 Hy Hpi1 Hd1) as (st2 & E1 & Hf2 & Hq).
    unfold diag_message in E1. rewrite E1.
    exists st2, (push pi1 now (diag_message c y d (a :: addrs)) d). split; [done|]. split; [destruct Hq as [-> _]; done|].
    split; [done|]. split; [done|]. split; [|apply Hq]. change [] with (@nil Out ++ []). eapply outs_trans; [|by apply quiet_outs].
    unfold st1, putEdge. cbn [edgePeers set_peers]. rewrite put_put. eapply (outs_put c st y pi); [done| |constructor].
    apply grown_diag; [constructor|done|done]. }
  destruct (send_marked (S f) st2 y b d pi2 Hc2 Hy Hpi2 Hd2) as (st3 & E3 & _ & Hq3). exists st3. split.
  - rewrite send_unfold in E3 |- *. unfold send_body in E3 |- *. rewrite Hc2 in E3. rewrite Hc. rewrite bool_decide_false in E3 |- * by done.
    rewrite E. cbn [obind].
    unfold ensureDiagnosticSourceSent in E3. rewrite Hc2, bool_decide_false in E3 by done.
    unfold getEdge in E3 |- *. rewrite Hpi2 in E3 |- *. cbn [obind] in E3 |- *. rewrite bool_decide_true in E3 by done. cbn [obind] in E3.
    by rewrite Hpi2 in E3.
  - split; [|eapply same_rest_trans; [exact Hr2|apply Hq3]].
    change [OSend y b] with ([] ++ [OSend y b] ++ []). eapply outs_trans; [exact Ho2|]. eapply outs_trans; [|by apply quiet_outs].
    eapply outs_put; [done| |by repeat constructor]. apply (grown_send c y pi2 [] pi2). constructor.
Qed.
End send.
