(* ===== verification/StoreCalmFacts.v ===== *)
(** * What the handlers leave to the start of the store

    Most handlers leave the tables with which ranks find each other alone: what
    rank 0 knows of the ranks, and what a rank knows of its edges.  The callbacks
    that they add and the datagrams that they send say only what is in these
    tables. *)

From Stdlib Require Import ZArith Lia.
From stdpp Require Import base gmap option list strings.
From S2P Require Import Prelude StoreTopology Store StoreConn StoreSendFacts.

Local Set Warnings "-clear-no-such-hyp".

Definition same_addr (a b : EdgeAddr) : Prop := uid b = uid a ∧ networkKey b = networkKey a ∧ addresses b = addresses a.

(** Connections come and go; that there has been one is never forgotten. *)
Definition edge_calm (pi pi' : EdgeInfo) : Prop :=
  same_addr (eaddr pi) (eaddr pi') ∧ (everConnected pi = true → everConnected pi' = true) ∧
  ((tcpconnections pi ≠ [] → everConnected pi = true) → tcpconnections pi' ≠ [] → everConnected pi' = true).

(** The tables; the times of attempts do not matter. *)
Definition same_boot (a b : Boot) : Prop :=
  rankInfos b = rankInfos a ∧ unackedAddresses b = unackedAddresses a ∧ connectAcked b = connectAcked a.

(** The addresses [l] are in the table [m]. *)
Definition listed (l : list (Z * string)) (m : gmap Z string) : Prop := ∀ i a, (i, a) ∈ l → m !! i = Some a.

Definition registered (st : StoreImpl) (s : nat) (ri : RankInfo) : Prop := rankInfos (boot st) !! s = Some (Some ri).

Definition mesh_edge (st : StoreImpl) (s e : nat) : Prop := ∃ es, edges (cfg st) !! s = Some es ∧ e ∈ es.

Definition plain_callback (st : StoreImpl) (f : Callback) : Prop :=
  match f with
  | ConnectEdge y => y ∈ (edgePeers st).*1
  | ConnectAddress a y u => ∃ pi i, findEdge st y = Some pi ∧ uid (eaddr pi) = u ∧ addresses (eaddr pi) !! i = Some a
  | SendAddresses s e => mesh_edge st s e ∧ ∃ ri, registered st s ri
  | _ => True
  end.

Definition ever_connected (st : StoreImpl) (y : nat) : Prop := ∃ pi, findEdge st y = Some pi ∧ everConnected pi = true.

Definition plain_datagram (st : StoreImpl) (addr : list Z) (d : Datagram) : Prop :=
  match d with
  | DConnect _ s u _ l => s = rank (cfg st) ∧ u = myId (cfg st) ∧ listed l (unackedAddresses (boot st))
  | DConnectAck _ s _ l => rank (cfg st) = 0%nat ∧ ∃ ri, registered st s ri ∧ ∀ i, i ∈ l → is_Some (raddresses ri !! i)
  | DAddresses _ s u _ l =>
      ∃ e ri rj, mesh_edge st s e ∧ registered st s ri ∧ registered st e rj ∧ addr = rudpaddr rj ∧ u = ruid ri ∧ listed l (raddresses ri)
  | DAddressesAck _ x y => x = rank (cfg st) ∧ ever_connected st y
  | _ => True
  end.

Definition plain_effect (st : StoreImpl) (e : Effect) : Prop :=
  match e with SendTo _ addr d => plain_datagram st addr d | _ => True end.

Record calm (st st' : StoreImpl) : Prop := {
  ca_cfg : cfg st' = cfg st;
  ca_boot : same_boot (boot st) (boot st');
  ca_peers : (edgePeers st').*1 = (edgePeers st).*1;
  ca_closed : closed (shut st) = true → closed (shut st') = true;
  ca_callbacks : callbacks (timer st') = callbacks (timer st);
  ca_new p : p ∈ queuedCallbacks (timer st') → p ∈ queuedCallbacks (timer st) ∨ plain_callback st p.2;
  ca_keep : closed (shut st') = false → queuedCallbacks (timer st) `prefix_of` queuedCallbacks (timer st');
  ca_any : (queuedCallbacks (timer st) ≠ [] → anyQueued (timer st) = true) → queuedCallbacks (timer st') ≠ [] → anyQueued (timer st') = true;
  ca_out : ∃ l, out st' = out st ++ l ∧ Forall (plain_effect st') l;
  ca_edge y pi : findEdge st y = Some pi → ∃ pi', findEdge st' y = Some pi' ∧ edge_calm pi pi'
}.

Lemma edge_calm_refl pi : edge_calm pi pi.
Proof. by repeat split. Qed.

Lemma edge_calm_trans a b d : edge_calm a b → edge_calm b d → edge_calm a d.
Proof. intros ((?&?&?)&?&?) ((?&?&?)&?&?). split; [repeat split; congruence|]. auto. Qed.

Lemma ever_calm st st' y : calm st st' → ever_connected st y → ever_connected st' y.
Proof. intros Hc (pi & Hpi & He). destruct (ca_edge _ _ Hc y pi Hpi) as (pi' & Hpi' & _ & H & _). exists pi'. auto. Qed.

Lemma registered_calm st st' s ri : calm st st' → registered st' s ri ↔ registered st s ri.
Proof. intros Hc. unfold registered. by rewrite (proj1 (ca_boot _ _ Hc)). Qed.

Lemma mesh_calm st st' s e : calm st st' → mesh_edge st' s e ↔ mesh_edge st s e.
Proof. intros Hc. unfold mesh_edge. by rewrite (ca_cfg _ _ Hc). Qed.

Lemma plain_calm st st' e : calm st st' → plain_effect st e → plain_effect st' e.
Proof.
  intros Hc. destruct e as [| |socket addr d| |]; try done. unfold plain_effect, plain_datagram. pose proof (λ s ri, proj2 (registered_calm st st' s ri Hc)) as Hreg.
  pose proof (λ s e, proj2 (mesh_calm st st' s e Hc)) as Hmesh. rewrite (ca_cfg _ _ Hc), (proj1 (proj2 (ca_boot _ _ Hc))). destruct d; try done; try naive_solver.
  intros [-> H]. split; [done|by eapply ever_calm].
Qed.

Lemma callback_calm st st' f : calm st st' → plain_callback st' f → plain_callback st f.
Proof.
  intros Hc. unfold plain_callback. destruct f as [| |y|a y u| | | | | |s e]; try done; [by rewrite (ca_peers _ _ Hc)| |].
  - intros (pi & i & Hpi & Hu & Ha). assert (is_Some (findEdge st y)) as [p Hp] by (unfold findEdge; rewrite find_is_Some, <- (ca_peers _ _ Hc), <- find_is_Some; by exists pi).
    destruct (ca_edge _ _ Hc y p Hp) as (p' & Hp' & (E1 & _ & E2) & _). assert (p' = pi) as -> by congruence. exists p, i. by rewrite <- E1, <- E2.
  - rewrite (mesh_calm st st' s e Hc). intros [H [ri Hri]]. split; [done|]. exists ri. by apply (registered_calm st st').
Qed.

Lemma calm_refl st : calm st st.
Proof.
  constructor; try done; [by left|exists []; by rewrite app_nil_r|]. intros y pi Hy. exists pi. split; [done|apply edge_calm_refl].
Qed.

Lemma calm_trans a b d : calm a b → calm b d → calm a d.
Proof.
  intros A B. pose proof (λ e, plain_calm b d e B) as Hp. pose proof (λ f, callback_calm a b f A) as Hf. destruct A as [A1 A2 A3 A4 A5 A6 A7 A8 A9 A10], B as [B1 B2 B3 B4 B5 B6 B7 B8 B9 B10].
  constructor; [congruence|destruct A2 as (?&?&?), B2 as (?&?&?); repeat split; congruence|congruence|auto|congruence| | |auto| |].
  - intros p [H|H]%B6; [by apply A6|]. right. auto.
  - intros H. specialize (B7 H). etransitivity; [apply A7|done]. destruct (closed (shut b)); [|done]. by rewrite B4 in H.
  - destruct A9 as (l & El & Hl), B9 as (k & Ek & Hk). exists (l ++ k). rewrite Ek, El, (assoc_L (++)). split; [done|]. apply Forall_app. split; [|done]. eapply Forall_impl; [exact Hl|auto].
  - intros y pi (p1 & H1 & E1)%A10. destruct (B10 y p1 H1) as (p2 & H2 & E2). exists p2. split; [done|by eapply edge_calm_trans].
Qed.

(** ** The primitives *)

Lemma calm_same st st' : cfg st' = cfg st → same_boot (boot st) (boot st') → edgePeers st' = edgePeers st → timer st' = timer st → out st' = out st →
  (closed (shut st) = true → closed (shut st') = true) → calm st st'.
Proof.
  intros E1 E2 E3 E4 E5 E6. constructor; try done; rewrite ?E3, ?E4, ?E5; try done; [by left|exists []; by rewrite app_nil_r|].
  intros y pi. unfold findEdge. rewrite E3. intros Hy. exists pi. split; [done|apply edge_calm_refl].
Qed.

Lemma calm_emit st e : plain_effect st e → calm st (emit st e).
Proof.
  intros He. constructor; try done; [by left| |]; cbn.
  - exists [e]. split; [done|]. by apply Forall_singleton.
  - intros y pi Hy. exists pi. split; [done|apply edge_calm_refl].
Qed.

Lemma calm_add st t f : plain_callback st f → calm st (addCallback st t f).
Proof.
  intros Hf. unfold addCallback. destruct (closed (shut st)) eqn:Ec; [apply calm_refl|]. constructor; try done; cbn.
  - intros p. rewrite elem_of_app, list_elem_of_singleton. intros [?| ->]; [by left|by right].
  - intros _. by apply prefix_app_r.
  - exists []. by rewrite app_nil_r.
  - intros y pi Hy. exists pi. split; [done|apply edge_calm_refl].
Qed.

Lemma calm_put st y pi pi' : findEdge st y = Some pi → edge_calm pi pi' → calm st (putEdge st y pi').
Proof.
  intros Hy He. constructor; try done; cbn; [by rewrite put_fst|by left|exists []; by rewrite app_nil_r|].
  intros z pz Hz. unfold findEdge, putEdge in *. cbn. rewrite find_put by (by eexists). case_decide as E; [subst z|exists pz; split; [done|apply edge_calm_refl]].
  exists pi'. split; [done|]. by assert (pz = pi) as -> by congruence.
Qed.

Lemma calm_foldl {A} (f : StoreImpl → A → StoreImpl) l st : (∀ st a, calm st (f st a)) → calm st (foldl f st l).
Proof. intros H. revert st. induction l as [|a l IH]; intros st; cbn [foldl]; [apply calm_refl|]. eapply calm_trans; [apply H|apply IH]. Qed.

(** ** Outcomes *)

Definition calms (st : StoreImpl) (o : outcome StoreImpl) : Prop := ∀ st', o = Ok st' → calm st st'.

Lemma calms_ok st st' : calm st st' → calms st (Ok st').
Proof. by intros H ? [= <-]. Qed.

Lemma calms_no st o : (∀ st', o ≠ Ok st') → calms st o.
Proof. intros H st' E. by apply H in E. Qed.

Lemma calms_bind st o f : calms st o → (∀ st1, calms st1 (f st1)) → calms st (obind o f).
Proof. intros Ho Hf st'. destruct o as [st1| | | |]; try done. cbn [obind]. intros E. eapply calm_trans; [by apply Ho|by apply (Hf st1)]. Qed.

Lemma calms_skip {A} st (o : outcome A) f : (∀ a, o = Ok a → calms st (f a)) → calms st (obind o f).
Proof. intros Hf st'. destruct o as [a| | | |]; try done. cbn [obind]. by apply Hf. Qed.

Lemma calms_trans st st1 o : calm st st1 → calms st1 o → calms st o.
Proof. intros H Ho st' E. eapply calm_trans; [done|by apply Ho]. Qed.

Lemma calms_edge st y f : (∀ pi, findEdge st y = Some pi → calms st (f pi)) → calms st (obind (getEdge st y) f).
Proof. intros H. apply calms_skip. intros pi. unfold getEdge. destruct (findEdge st y); [|done]. intros [= <-]. by apply H. Qed.

Create HintDb calm.
#[export] Hint Resolve calm_refl edge_calm_refl calms_ok : calm.

(** ** Messages *)

Section handlers.
Context (fmt : Reason → string) (resolveAddressSync : string → list (list Z)) (shuffle_addrs : list (list Z) → list (list Z)).
Context (now : Z).

Lemma calm_diagnostic st source stuck kind reason : calm st (sendDiagnosticInfo fmt now st source stuck kind reason).
Proof using Type. unfold sendDiagnosticInfo. repeat case_match; try apply calm_refl; try (by apply calm_emit). by apply calm_same. Qed.

Lemma calm_hello st source : calm st (tryDiagnosticHello now st source).
Proof using Type.
  unfold tryDiagnosticHello. repeat case_match; try apply calm_refl; cbn zeta; (eapply calm_trans; [|by (apply calm_add || apply calm_refl)]);
    try (eapply calm_trans; [|by apply calm_emit]); by apply calm_same.
Qed.

Lemma calm_stuck st : calm st (checkStuckMessages fmt now st).
Proof using Type. apply calm_foldl. intros st1 [edge pi]. apply calm_foldl. intros st2 m. case_match; [apply calm_refl|apply calm_diagnostic]. Qed.

Lemma calm_exitWaits st : calm st (exitWaits st).
Proof using Type.
  unfold exitWaits. assert (∀ l, let st' := foldr (λ w st, exitWait st w) st l in cfg st' = cfg st ∧ same_boot (boot st) (boot st') ∧ edgePeers st' = edgePeers st ∧ timer st' = timer st ∧ out st' = out st ∧ shut st' = shut st) as H.
  { induction l as [|w l IH]; [done|]. exact IH. }
  destruct (H (map_to_list (waits (kv st))).*2) as (?&?&?&?&?&E). apply calm_same; try done. by rewrite E.
Qed.

Section calls.
Context (process : StoreImpl → Buffer → nat → outcome StoreImpl) (send : StoreImpl → nat → Buffer → nat → outcome StoreImpl).
Context (Hprocess : ∀ st b e, calms st (process st b e)) (Hsend : ∀ st e b d, calms st (send st e b d)).

Lemma calms_sendTo st dest id diag m : calms st (sendMessageTo process send st dest id diag m).
Proof using Hprocess Hsend. unfold sendMessageTo. apply calms_skip. intros edge _. case_match; [apply Hprocess|]. apply calms_edge. auto. Qed.

Lemma calms_ensure st edge diag : calms st (ensureDiagnosticSourceSent process send st edge diag).
Proof using Hprocess Hsend.
  unfold ensureDiagnosticSourceSent. case_match; [auto with calm|]. apply calms_edge. intros pi Hpi. case_match; [auto with calm|]. cbn zeta.
  set (st1 := putEdge _ _ _). assert (calm st st1) as H1 by (eapply calm_put; [done|by repeat split]). generalize (if bool_decide (diag = rank (cfg st)) then myUdpAddresses (cfg st) else match diagnosticSources st1 !! diag with Some info => addrStrings info | None => [] end).
  intros [|a l]; [by apply calms_ok|]. eapply calms_trans; [done|apply calms_sendTo].
Qed.

Lemma calms_send_body st edge b diag : calms st (send_body fmt now process send st edge b diag).
Proof using Hprocess Hsend.
  unfold send_body. case_match; [apply Hprocess|]. apply calms_bind; [apply calms_ensure|]. intros st1. apply calms_edge. intros pi Hpi. cbn zeta.
  set (pi1 := set_outgoing _ _ _). assert (calm st1 (putEdge st1 edge pi1)) as H1 by (eapply calm_put; [done|by repeat split]).
  case_match; apply calms_ok; (eapply calm_trans; [exact H1|]); [apply calm_diagnostic|by apply calm_emit].
Qed.

Lemma calms_broadcast_edges st l m : calms st (broadcast_edges send st l m).
Proof using Hsend. revert st. induction l as [|e l IH]; intros st; cbn [broadcast_edges]; [auto with calm|]. by apply calms_bind. Qed.

Lemma calms_broadcast st m : calms st (broadcastMessage send st m).
Proof using Hsend. apply calms_broadcast_edges. Qed.

Lemma calms_forward_edges st l source b t sender : calms st (forward_edges send st l source b t sender).
Proof using Hsend.
  revert st. induction l as [|e l IH]; intros st; cbn [forward_edges]; [auto with calm|]. apply calms_edge. intros pi Hpi. do 2 (case_match; [apply IH|]).
  apply calms_bind; [|done]. case_match; [apply Hsend|]. apply calms_ok. by eapply calm_put; [done|repeat split].
Qed.

Lemma calms_forwardBroadcast st source b sender : calms st (forwardBroadcast send st source b sender).
Proof using Hsend. unfold forwardBroadcast. apply calms_skip. intros _ _. apply calms_forward_edges. Qed.

Lemma calms_replay_edges st e l : calms st (replay_edges send st e l).
Proof using Hsend.
  revert st. induction l as [|[s b] l IH]; intros st; cbn [replay_edges]; [auto with calm|]. apply calms_edge. intros pi Hpi. apply calms_bind; [|done]. case_match; [apply Hsend|auto with calm].
Qed.

Lemma calms_replay st e : calms st (replayPendingBroadcasts send st e).
Proof using Hsend.
  unfold replayPendingBroadcasts. apply calms_edge. intros pi _. apply calms_bind; [apply calms_replay_edges|]. intros st1. apply calms_edge. intros p1 Hp1. apply calms_ok.
  by eapply calm_put; [done|repeat split].
Qed.

Lemma calms_answer_all st l v : calms st (answer_all process send st l v).
Proof using Hprocess Hsend. revert st. induction l as [|w l IH]; intros st; cbn [answer_all]; [auto with calm|]. apply calms_bind; [apply calms_sendTo|done]. Qed.

Lemma calms_set st key v : calms st (internalStoreSetValue process send st key v).
Proof using Hprocess Hsend.
  unfold internalStoreSetValue. cbn zeta. case_match; [|by apply calms_ok, calm_same]. eapply calms_trans; [|apply calms_bind; [apply calms_answer_all|]]; [by apply calm_same|].
  intros st1. apply calms_skip. intros _ _. auto with calm.
Qed.

Lemma calms_get st key w : calms st (internalStoreGetValue process send st key w).
Proof using Hprocess Hsend. unfold internalStoreGetValue. case_match; [apply calms_sendTo|by apply calms_ok, calm_same]. Qed.

Lemma calms_process_body st b e : calms st (process_body resolveAddressSync shuffle_addrs now process send st b e).
Proof using Hprocess Hsend.
  unfold process_body. case_match.
  - unfold forward. do 3 (apply calms_skip; intros ? _). apply calms_edge. auto.
  - apply calms_bind; [case_match; [apply calms_forwardBroadcast|auto with calm]|]. intros st1. destruct (body b) as [| | | | | | | |]; try apply calms_get; try apply calms_sendTo.
    + apply calms_ok. unfold handle_done. case_match; [by apply calm_same|apply calm_refl].
    + apply calms_bind; [apply calms_set|]. intros st2. apply calms_sendTo.
    + apply calms_ok. unfold handle_shutdown. cbn zeta. case_match; by apply calm_same.
    + unfold handle_exit. cbn zeta. case_match; [by apply calms_ok, calm_same|]. eapply calms_trans; [|apply calms_broadcast]. eapply calm_trans; [|apply calm_exitWaits]. by apply calm_same.
    + by apply calms_ok, calm_same.
    + apply calms_ok. unfold handle_diagnostic_source. cbn zeta. set (st2 := set_sources _ _). assert (calm st1 st2) as H1 by by apply calm_same.
      repeat case_match; try done. eapply calm_trans; [exact H1|apply calm_hello].
Qed.
End calls.

Lemma calms_rec fuel : (∀ st b e, calms st (process_rec fmt resolveAddressSync shuffle_addrs now fuel st b e)) ∧
  (∀ st e b d, calms st (send_rec fmt resolveAddressSync shuffle_addrs now fuel st e b d)).
Proof using Type.
  induction fuel as [|fuel [IH1 IH2]]; [by split; intros; apply calms_no|]. split; intros; [by apply calms_process_body|by apply calms_send_body].
Qed.

Lemma calms_process st b e : calms st (processMessage fmt resolveAddressSync shuffle_addrs now st b e).
Proof using Type. apply calms_rec. Qed.

Lemma calms_send st e b d : calms st (sendMessage fmt resolveAddressSync shuffle_addrs now st e b d).
Proof using Type. apply calms_rec. Qed.

(** ** Calls, shutdown and connections *)

Lemma calm_call st timeout key m o st' : doWaitOp fmt resolveAddressSync shuffle_addrs now st timeout key m = Ok (o, st') → calm st st'.
Proof using Type.
  unfold doWaitOp. destruct (vec_get _ _) as [edge| | | |]; try done. cbn [obind]. destruct (CHECK _); try done. cbn [obind]. case_match.
  - intros [= <- <-]. by apply calm_same.
  - match goal with |- obind (sendMessageTo _ _ ?s _ _ _ _) _ = _ → _ => set (st1 := s) end. destruct (sendMessageTo _ _ _ _ _ _ _) as [st2| | | |] eqn:E; try done. cbn [obind]. intros [= <- <-].
    eapply calm_trans; [|eapply calms_sendTo; [apply calms_process|apply calms_send|exact E]]. by apply calm_same.
Qed.

Lemma findEdge_map st f y : findEdge (set_peers st (prod_map id f <$> edgePeers st)) y = f <$> findEdge st y.
Proof using Type. unfold findEdge. cbn. induction (edgePeers st) as [|[k e] l IH]; [done|]. cbn. by case_bool_decide. Qed.

Lemma calm_finish st : calm st (finish_close st).
Proof using Type.
  unfold finish_close, closeResources. cbn zeta. set (l := floatingConnections _ ++ _). set (st0 := set_conns _ _).
  assert (calm st0 (emit (foldl (λ st c, emit st (CloseConnection c)) st0 l) CloseSockets)) as H.
  { eapply calm_trans; [|by apply calm_emit]. apply calm_foldl. intros st1 c. by apply calm_emit. }
  set (st1 := emit _ _) in *. clearbody st1. destruct H as [H1 H2 H3 H4 H5 H6 _ _ H9 H10]. constructor; cbn; try done.
  - rewrite H3. cbn. rewrite <- list_fmap_compose. by apply list_fmap_ext.
  - intros _. by apply H4.
  - by intros p ?%elem_of_nil.
  - intros Hc. by rewrite H4 in Hc.
  - intros y pi Hy. destruct (H10 y (close_edge pi)) as (pi' & Hpi' & He).
    + change (findEdge (set_peers st (prod_map id close_edge <$> edgePeers st)) y = Some (close_edge pi)). by rewrite findEdge_map, Hy.
    + exists pi'. split; [done|]. eapply edge_calm_trans; [|exact He]. by repeat split.
Qed.

Lemma calms_close_steps fuel st : calms st (close_steps fmt resolveAddressSync shuffle_addrs now fuel st).
Proof using Type.
  revert st. induction fuel as [|fuel IH]; intros st; cbn [close_steps]; [by apply calms_no|]. destruct (closeState (shut st)).
  - apply calms_bind; [|done]. unfold begin_shutdown. cbn zeta. eapply calms_trans; [|apply calms_bind; [apply calms_broadcast, calms_send|]]; [by apply calm_same|].
    intros st1. by apply calms_ok, calm_same.
  - apply calms_skip. intros b _. case_match; [|auto with calm]. apply calms_bind; [|done]. unfold begin_exit. apply calms_bind; [|intros st1; by apply calms_ok, calm_same].
    case_match; [auto with calm|]. cbn zeta. apply calms_skip. intros src _. eapply calms_trans; [|apply calms_broadcast, calms_send]. eapply calm_trans; [|apply calm_exitWaits]. by apply calm_same.
  - apply calms_skip. intros b _. case_match; [|auto with calm]. apply calms_bind; [|done]. unfold begin_exit_ack. apply calms_bind; [apply calms_broadcast, calms_send|].
    intros st1. by apply calms_ok, calm_same.
  - apply calms_skip. intros b _. case_match; [|auto with calm]. apply calms_ok, calm_finish.
  - auto with calm.
Qed.

Lemma calms_machine st : calms st (runCloseStateMachine fmt resolveAddressSync shuffle_addrs now st).
Proof using Type.
  unfold runCloseStateMachine. apply calms_bind; [apply calms_close_steps|]. intros st1. case_match; [apply calms_ok; (eapply calm_trans; [|by apply calm_add]); by apply calm_same..|auto with calm].
Qed.

Lemma calm_close st : calm st (close now st).
Proof using Type. unfold close. case_match; [apply calm_refl|]. eapply calm_trans; [|by apply calm_add]. by apply calm_same. Qed.

Lemma calms_reap st y : calms st (reaptcpconnections st y).
Proof using Type.
  unfold reaptcpconnections. apply calms_edge. intros pi Hpi. apply calms_ok. eapply calm_put; [done|]. split; [done|]. split; [done|]. cbn. intros H Hn. apply H. intros E. by rewrite E in Hn.
Qed.

Lemma calms_accept st c m reply : calms st (accept_peer fmt resolveAddressSync shuffle_addrs now st c m reply).
Proof using Type.
  unfold accept_peer. apply calms_edge. intros pi Hpi. case_match; [apply calms_ok; (eapply calm_trans; [|by apply calm_emit]); by apply calm_same|].
  set (st1 := set_conns st _). set (st2 := putEdge st1 _ _).
  assert (calm st st2) as H2. { apply calm_trans with st1; [by apply calm_same|]. by eapply calm_put; [exact Hpi|repeat split]. }
  assert (ever_connected st2 (tsourceRank m)) as Hev.
  { eexists. split; [unfold st2, findEdge, putEdge; cbn; rewrite find_put by (by exists pi); by rewrite decide_True|done]. }
  eapply calms_trans; [exact H2|]. intros st'. destruct (replayPendingBroadcasts _ _ _) as [st3| | | |] eqn:E3; try done. cbn [obind].
  assert (calm st2 st3) as H3 by (eapply calms_replay; [|exact E3]; apply calms_send).
  destruct (getEdge st3 _) as [p3| | | |]; try done. cbn [obind]. set (st4 := emit st3 _).
  assert (calm st2 st4) as H4.
  { eapply calm_trans; [exact H3|]. apply calm_emit. cbn. split; [|by eapply ever_calm]. rewrite (ca_cfg _ _ H3). apply (f_equal rank). symmetry. apply (ca_cfg _ _ H2). }
  destruct (if reply then _ else _) as [st5| | | |] eqn:E5; try done. cbn [obind]. intros [= <-].
  assert (calm st4 st5) as H5.
  { destruct reply; [|injection E5 as <-; apply calm_refl]. bind_inv E5. injection E5 as <-. by apply calm_emit. }
  eapply calm_trans; [exact H4|]. eapply calm_trans; [exact H5|]. eapply calm_trans; [|apply calm_foldl; intros; by apply calm_emit]. apply calm_foldl. intros. apply calm_diagnostic.
Qed.

Lemma calm_touch st c : calm st (touch now st c).
Proof using Type. by apply calm_same. Qed.

Lemma calms_drain fuel st src : calms st (drain_incoming fmt resolveAddressSync shuffle_addrs now fuel st src).
Proof using Type.
  revert st. induction fuel as [|fuel IH]; intros st; cbn [drain_incoming]; apply calms_edge; intros pi Hpi; (case_match; [auto with calm|]); case_match; [by apply calms_no|].
  set (st1 := putEdge _ _ _). assert (calm st st1) as H1 by (by eapply calm_put; [exact Hpi|repeat split]).
  case_match; [by eapply calms_trans|]. case_match; [auto with calm|]. eapply calms_trans; [exact H1|]. apply calms_bind; [apply calms_process|].
  intros st2. apply calms_edge. intros p2 Hp2. eapply calms_trans; [|apply IH]. by eapply calm_put; [exact Hp2|repeat split].
Qed.

Lemma calms_receive st c src b : calms st (receive_message fmt resolveAddressSync shuffle_addrs now st c src b).
Proof using Type.
  unfold receive_message. apply calms_skip. intros _ _. apply calms_edge. intros pi Hpi. set (st1 := emit _ _).
  assert (calm st st1) as H1 by (eapply calm_trans; [apply calm_touch|by apply calm_emit]).
  case_match; [|by apply calms_ok]. case_match; eapply calms_trans; [exact H1| |exact H1|].
  - apply calms_bind; [apply calms_process|]. intros st2. apply calms_edge. intros p2 Hp2. eapply calms_trans; [|apply calms_drain]. by eapply calm_put; [exact Hp2|repeat split].
  - apply calms_ok. by eapply calm_put; [exact Hpi|repeat split].
Qed.

Lemma calms_read st c p : calms st (onreadtcp fmt resolveAddressSync shuffle_addrs now st c p).
Proof using Type.
  unfold onreadtcp. apply calms_skip. intros ci _.
  assert (∀ m reply, calms st (if bool_decide (tkey m = storekey (cfg st)) && bool_decide (tdestinationRank m = rank (cfg st)) && bool_decide (tdestinationId m = myId (cfg st))
    then let! es := vec_get (edges (cfg st)) (rank (cfg st)) in if bool_decide (tsourceRank m ∈ es) then accept_peer fmt resolveAddressSync shuffle_addrs now st c m reply else Ok st else Ok st)) as Hi.
  { intros m reply. case_match; [|auto with calm]. apply calms_skip. intros es _. case_match; [apply calms_accept|auto with calm]. }
  destruct p; [apply Hi|apply Hi| | | |].
  - repeat case_match; try (by auto with calm). apply calms_receive.
  - case_match; [|by apply calms_no]. unfold receive_ack. eapply calms_trans; [apply calm_touch|]. apply calms_edge. intros pi Hpi. apply calms_ok. by eapply calm_put; [exact Hpi|repeat split].
  - apply calms_ok. eapply calm_trans; [apply calm_touch|by apply calm_emit].
  - apply calms_ok, calm_touch.
Qed.

Lemma find_peers st y pi : findEdge st y = Some pi → y ∈ (edgePeers st).*1.
Proof using Type. intros H. apply find_is_Some. by exists pi. Qed.

Lemma calms_addConnection st c : calms st (addConnection now st c).
Proof using Type. unfold addConnection. apply calms_skip. intros _ _. by apply calms_ok, calm_same. Qed.

Lemma calm_close_conn st c : calm st (close_conn st c).
Proof using Type. eapply calm_trans; [|by apply calm_emit]. by apply calm_same. Qed.

Lemma calms_lost st c error : calms st (connection_lost fmt now st c error).
Proof using Type.
  unfold connection_lost. apply calms_skip. intros ci _. case_match; [|auto with calm]. apply calms_bind; [apply calms_reap|]. intros st1. apply calms_edge. intros pi Hpi.
  set (st2 := foldl _ _ _). assert (calm st1 st2) as H2 by (apply calm_foldl; intros; apply calm_diagnostic).
  case_match; apply calms_ok; [done|]. eapply calm_trans; [exact H2|]. apply calm_add. cbn. rewrite (ca_peers _ _ H2). by eapply find_peers.
Qed.

Context (isReachable : string → string → bool).

Lemma calm_addresses st edge pi k l n : findEdge st edge = Some pi → (∀ a, a ∈ l → ∃ i, addresses (eaddr pi) !! i = Some a) →
  calm st (connect_addresses isReachable now st edge (uid (eaddr pi)) k l n).
Proof using Type.
  revert st n. induction l as [|a l IH]; intros st n He Hl; cbn [connect_addresses]; [apply calm_refl|].
  assert (∀ b, b ∈ l → ∃ i, addresses (eaddr pi) !! i = Some b) as Hl' by (intros b Hb; apply Hl; by right). case_match; [|by apply IH].
  eapply calm_trans; [|apply IH; [|done]].
  - apply calm_add. destruct (Hl a) as [i Hi]; [by left|]. by exists pi, i.
  - unfold addCallback. by destruct (closed (shut st)).
Qed.

Lemma calms_connectEdge st edge : calms st (connectEdge isReachable now st edge).
Proof using Type.
  unfold connectEdge. case_match; [auto with calm|]. apply calms_bind; [apply calms_reap|]. intros st1. apply calms_edge. intros pi Hpi. do 2 (case_match; [auto with calm|]).
  apply calms_ok. set (p2 := set_eaddr _ _). set (st2 := putEdge _ _ _). assert (calm st1 st2) as H2 by (by eapply calm_put; [exact Hpi|repeat split]). eapply calm_trans; [exact H2|].
  apply (calm_addresses st2 edge p2).
  - unfold st2, findEdge, putEdge. cbn. rewrite find_put by (by exists pi). by rewrite decide_True.
  - intros a ([i b] & -> & Hin)%list_elem_of_fmap. exists i. by apply elem_of_map_to_list in Hin.
Qed.

Lemma calms_connect_address st edge u c : calms st (connect_address now st edge u c).
Proof using Type.
  unfold connect_address. apply calms_edge. intros pi Hpi. apply calms_skip. intros b _. case_match; [auto with calm|]. apply calms_skip. intros f _.
  eapply calms_trans; [|apply calms_addConnection]. by apply calm_emit.
Qed.

Lemma calm_keep_conn st c b st' : keepalive_conn now st c = Ok (b, st') → calm st st'.
Proof using Type.
  unfold keepalive_conn. destruct (conns st !! c) as [ci|]; [|done]. cbn [of_option obind]. repeat case_match; intros [= <- <-]; [apply calm_close_conn|by apply calm_emit|apply calm_refl].
Qed.

Lemma calm_keep_conns st known l r st' : keepalive_conns now st known l = Ok (r, st') → calm st st'.
Proof using Type.
  revert st r st'. induction l as [|c l IH]; intros st r st'; cbn [keepalive_conns]; [intros [= <- <-]; apply calm_refl|].
  destruct (keepalive_conn now st c) as [[b st1]| | | |] eqn:E1; try done. cbn [obind]. destruct (conns st1 !! c); [|done]. cbn [of_option obind].
  destruct (keepalive_conns now st1 known l) as [[r1 st2]| | | |] eqn:E2; try done. cbn [obind]. intros E. assert (st2 = st') as -> by (destruct (b && known); congruence).
  eapply calm_trans; [by eapply calm_keep_conn|by eapply IH].
Qed.

Lemma calm_keep_edge st e r st' : keepalive_edge now st e = Ok (r, st') → calm st st'.
Proof using Type.
  unfold keepalive_edge. destruct (getEdge st e) as [pi| | | |]; try done. cbn [obind]. destruct (keepalive_conns _ _ _ _) as [[r1 st1]| | | |] eqn:E1; try done. cbn [obind].
  destruct (reaptcpconnections st1 e) as [st2| | | |] eqn:E2; try done. cbn [obind]. intros [= _ <-]. eapply calm_trans; [by eapply calm_keep_conns|by eapply calms_reap].
Qed.

Lemma calm_keep_edges st l r st' : keepalive_edges now st l = Ok (r, st') → calm st st'.
Proof using Type.
  revert st r st'. induction l as [|e l IH]; intros st r st'; cbn [keepalive_edges]; [intros [= <- <-]; apply calm_refl|].
  destruct (keepalive_edge now st e) as [[r1 st1]| | | |] eqn:E1; try done. cbn [obind]. destruct (keepalive_edges now st1 l) as [[r2 st2]| | | |] eqn:E2; try done. intros [= <- <-].
  eapply calm_trans; [by eapply calm_keep_edge|by eapply IH].
Qed.

Lemma calm_keep_floating st l r st' : keepalive_floating now st l = Ok (r, st') → calm st st'.
Proof using Type.
  revert st r st'. induction l as [|c l IH]; intros st r st'; cbn [keepalive_floating]; [intros [= <- <-]; apply calm_refl|].
  destruct (conns st !! c) as [ci|]; [|done]. cbn [of_option obind]. case_match; [apply IH|]. case_match; [intros H1%IH; eapply calm_trans; [apply calm_close_conn|exact H1]|].
  destruct (keepalive_floating now st l) as [[k st1]| | | |] eqn:E1; try done. intros [= <- <-]. by eapply IH.
Qed.

Lemma calms_reconnect st l : calms st (reconnect_edges isReachable now st l).
Proof using Type.
  revert st. induction l as [|e l IH]; intros st; cbn [reconnect_edges]; [auto with calm|]. apply calms_bind; [|done]. case_match; [apply calms_connectEdge|].
  case_match; [auto with calm|by apply calms_no].
Qed.

Lemma calms_keepalive st random : calms st (keepalive fmt isReachable now st random).
Proof using Type.
  unfold keepalive. intros st'. destruct (keepalive_edges _ _ _) as [[r st1]| | | |] eqn:E1; try done. cbn [obind].
  destruct (keepalive_floating _ _ _) as [[f st2]| | | |] eqn:E2; try done. cbn [obind]. destruct (reconnect_edges _ _ _ _) as [st3| | | |] eqn:E3; try done. intros [= <-].
  eapply calm_trans; [by eapply calm_keep_edges|]. eapply calm_trans; [by eapply calm_keep_floating|]. eapply calm_trans; [|eapply calm_trans; [by eapply calms_reconnect|]]; [by apply calm_same|].
  eapply calm_trans; [apply calm_stuck|by apply calm_add].
Qed.
End handlers.
