(* ===== verification/StoreReactFacts.v ===== *)
(** * Reactions to messages

    What [processMessage] does, as a function of the state: the new keys and
    waiting callers, the new state of the shutdown, and the messages sent. *)

From Stdlib Require Import ZArith Lia.
From stdpp Require Import base gmap option list strings.
From S2P Require Import Prelude StoreTopology Store StoreSendFacts.

Local Set Warnings "-clear-no-such-hyp".

(** ** Replies *)

(** [handle_done] on the waiting callers. *)
Definition done_kv (k : KV) (id : Z) (r : Reply) : KV :=
  match waits k !! id with
  | None => k
  | Some w =>
      set_waits k (delete id (waits k))
        (alter (λ x, mkWait (match r with ReplyBool b => b | _ => false end) (match r with ReplyValue v => v | _ => [] end)
                       true (werror x) (wend x) (targetRank x) (firstHopEdge x)) w (waitObjs k))
  end.

Lemma done_kv_store k id r : store (done_kv k id r) = store k ∧ storeWaiters (done_kv k id r) = storeWaiters k ∧ nextId (done_kv k id r) = nextId k.
Proof. unfold done_kv. by destruct (waits k !! id). Qed.

Lemma handle_done_eq st id r :
  kv (handle_done st id r) = done_kv (kv st) id r ∧ shut (handle_done st id r) = shut st ∧ cfg (handle_done st id r) = cfg st ∧
  conns (handle_done st id r) = conns st ∧ floatingConnections (handle_done st id r) = floatingConnections st ∧
  edgePeers (handle_done st id r) = edgePeers st.
Proof. unfold handle_done, done_kv. by destruct (waits (kv st) !! id). Qed.

Section node.
Context (fmt : Reason → string) (resolveAddressSync : string → list (list Z)) (shuffle_addrs : list (list Z) → list (list Z)) (now : Z).
Context (c : Config) (nbrs : list nat).

(** The tables of the rank lead somewhere. *)
Record routes : Prop := {
  rt_rank : (rank c < worldSize c)%nat;
  rt_self : firsthop c !! rank c = Some (rank c);
  rt_nbr y : y ∈ nbrs → y ≠ rank c ∧ (y < worldSize c)%nat ∧ firsthop c !! y = Some y;
  rt_hop d : (d < worldSize c)%nat → d ≠ rank c → ∃ y, firsthop c !! d = Some y ∧ y ∈ nbrs
}.
Context (Hr : routes).

Definition hop (d : nat) : nat := default 0%nat (firsthop c !! d).

Definition wf (st : StoreImpl) : Prop := cfg st = c ∧ (edgePeers st).*1 = nbrs.

Local Abbreviation process_rec := (process_rec fmt resolveAddressSync shuffle_addrs now).
Local Abbreviation send_rec := (send_rec fmt resolveAddressSync shuffle_addrs now).
Local Abbreviation outs := (outs c).
Local Abbreviation x := (rank c).
Local Abbreviation N := (worldSize c).

Lemma outs_wf st l st' : outs st l st' → wf st → wf st'.
Proof using Type. intros [H1 _ _ H2 _] [H3 H4]. split; congruence. Qed.

Lemma send_nbr f st y b d : wf st → y ∈ nbrs → (d < N)%nat →
  ∃ st', send_rec (S (S f)) st y b d = Ok st' ∧ outs st [OSend y b] st' ∧ same_rest st st'.
Proof using Hr. intros [Hc Hn] Hy Hd. destruct (rt_nbr Hr y Hy) as (H1 & _ & H2). apply send_ok; [done|done|done|by rewrite Hn|done]. Qed.

(** A message made by this rank. *)
Definition made (dest : nat) (id : Z) (diag : nat) (m : Message) : Buffer :=
  mkBuffer (mkHeader (Z.of_nat N) 0 dest id x diag false) m.

Lemma hop_nbr d : (d < N)%nat → d ≠ x → firsthop c !! d = Some (hop d) ∧ hop d ∈ nbrs.
Proof using Hr. intros Hd Hne. destruct (rt_hop Hr d Hd Hne) as (y & E & Hy). unfold hop. rewrite E. done. Qed.

Lemma getEdge_nbr st y : wf st → y ∈ nbrs → ∃ pi, getEdge st y = Ok pi ∧ findEdge st y = Some pi.
Proof using Type.
  intros [_ Hn] Hy. rewrite <- Hn in Hy. apply find_is_Some in Hy as [pi Hpi]. exists pi. unfold getEdge, findEdge. by rewrite Hpi.
Qed.

Lemma sendTo_remote f g st d id diag m : wf st → (d < N)%nat → d ≠ x → (diag < N)%nat →
  ∃ st', sendMessageTo (process_rec g) (send_rec (S (S f))) st d id diag m = Ok st' ∧
    outs st [OSend (hop d) (made d id diag m)] st' ∧ same_rest st st'.
Proof using Hr.
  intros Hwf Hd Hne Hdi. destruct (hop_nbr d Hd Hne) as [E Hy]. unfold sendMessageTo, vec_get.
  destruct Hwf as [Hc Hn]. rewrite Hc, E. cbn [of_option obind]. rewrite bool_decide_false by (by apply (rt_nbr Hr)).
  destruct (getEdge_nbr st (hop d)) as (pi & -> & _); [done|done|]. cbn [obind]. by apply send_nbr.
Qed.

Definition reply_out (dest : nat) (id : Z) (diag : nat) (r : Reply) : list Out :=
  if decide (dest = x) then [] else [OSend (hop dest) (made dest id diag (messageDone r))].
Definition reply_kv (k : KV) (dest : nat) (id : Z) (r : Reply) : KV := if decide (dest = x) then done_kv k id r else k.

Lemma reply_kv_store k d id r :
  store (reply_kv k d id r) = store k ∧ storeWaiters (reply_kv k d id r) = storeWaiters k ∧ nextId (reply_kv k d id r) = nextId k.
Proof using Type. unfold reply_kv. case_decide; [apply done_kv_store|done]. Qed.

Lemma process_done f st id diag r : cfg st = c → process_rec (S f) st (made x id diag (messageDone r)) x = Ok (handle_done st id r).
Proof using Type. intros Hc. rewrite process_unfold. unfold process_body. cbn. rewrite Hc. by rewrite bool_decide_true. Qed.

Lemma reply_ok f st d id diag r : wf st → (d < N)%nat → (diag < N)%nat →
  ∃ st', sendMessageTo (process_rec (S (S f))) (send_rec (S (S f))) st d id diag (messageDone r) = Ok st' ∧
    outs st (reply_out d id diag r) st' ∧ kv st' = reply_kv (kv st) d id r ∧ shut st' = shut st.
Proof using Hr.
  intros Hwf Hd Hdi. unfold reply_out, reply_kv. case_decide as E.
  - subst d. unfold sendMessageTo, vec_get. destruct Hwf as [Hc Hn]. rewrite Hc, (rt_self Hr). cbn [of_option obind].
    rewrite bool_decide_true by done. fold (made x id diag (messageDone r)). rewrite process_done by done.
    exists (handle_done st id r). split; [done|]. destruct (handle_done_eq st id r) as (H1 & H2 & H3 & H4 & H5 & H6).
    split; [by apply outs_refl|done].
  - destruct (sendTo_remote f (S (S f)) st d id diag (messageDone r) Hwf Hd E Hdi) as (st' & -> & Ho & Hk & Hs). by exists st'.
Qed.

(** *** Several replies *)

Definition answer_reply (w : Waiter) (v : list Z) : Reply := if wget w then ReplyValue v else ReplyNone.

Definition answers_kv (k : KV) (l : list Waiter) (v : list Z) : KV :=
  foldl (λ k w, reply_kv k (wsource w) (wid w) (answer_reply w v)) k l.
Definition answers_out (l : list Waiter) (v : list Z) : list Out :=
  mjoin ((λ w, reply_out (wsource w) (wid w) (wdiag w) (answer_reply w v)) <$> l).

Lemma answers_kv_store l k v :
  store (answers_kv k l v) = store k ∧ storeWaiters (answers_kv k l v) = storeWaiters k ∧ nextId (answers_kv k l v) = nextId k.
Proof using Type.
  revert k. induction l as [|w l IH]; intros k; [done|]. cbn [answers_kv foldl]. fold (answers_kv (reply_kv k (wsource w) (wid w) (answer_reply w v)) l v).
  destruct (IH (reply_kv k (wsource w) (wid w) (answer_reply w v))) as (-> & -> & ->). apply reply_kv_store.
Qed.

Lemma answer_all_ok f l v st : wf st → Forall (λ w, (wsource w < N)%nat ∧ (wdiag w < N)%nat) l →
  ∃ st', answer_all (process_rec (S (S f))) (send_rec (S (S f))) st l v = Ok st' ∧
    outs st (answers_out l v) st' ∧ kv st' = answers_kv (kv st) l v ∧ shut st' = shut st.
Proof using Hr.
  intros Hwf Hl. revert st Hwf. induction Hl as [|w l Hw Hl IH]; intros st Hwf; cbn [answer_all].
  { exists st. split; [done|]. split; [by apply outs_refl|done]. }
  unfold answer. fold (answer_reply w v).
  destruct (reply_ok f st (wsource w) (wid w) (wdiag w) (answer_reply w v) Hwf (proj1 Hw) (proj2 Hw)) as (st1 & -> & Ho & Hk & Hs). cbn [obind].
  destruct (IH st1 (outs_wf _ _ _ Ho Hwf)) as (st2 & -> & Ho2 & Hk2 & Hs2). exists st2. split; [done|].
  split; [by apply (outs_trans c st _ st1)|]. split; [|congruence]. rewrite Hk2, Hk. done.
Qed.

(** *** Broadcasts *)

(** A broadcast made by this rank. *)
Definition cast (m : Message) (y : nat) : Buffer := mkBuffer (mkHeader (Z.of_nat N) 0 y 0 x x true) m.

Lemma broadcast_edges_ok f l m st : wf st → Forall (λ y, y ∈ nbrs) l →
  ∃ st', broadcast_edges (send_rec (S (S f))) st l m = Ok st' ∧ outs st ((λ y, OSend y (cast m y)) <$> l) st' ∧ same_rest st st'.
Proof using Hr.
  intros Hwf Hl. revert st Hwf. induction Hl as [|y l Hy Hl IH]; intros st Hwf; cbn [broadcast_edges].
  { exists st. split; [done|]. split; [by apply outs_refl|done]. }
  destruct Hwf as [Hc Hn]. rewrite Hc. fold (cast m y). destruct (send_nbr f st y (cast m y) x) as (st1 & -> & Ho & Hs); [done|done|apply Hr|]. cbn [obind].
  destruct (IH st1 (outs_wf _ _ _ Ho (conj Hc Hn))) as (st2 & -> & Ho2 & Hs2). exists st2. split; [done|].
  split; [exact (outs_trans c st _ st1 _ st2 Ho Ho2)|by eapply same_rest_trans].
Qed.

Lemma broadcast_ok f m st : wf st →
  ∃ st', broadcastMessage (send_rec (S (S f))) st m = Ok st' ∧ outs st ((λ y, OSend y (cast m y)) <$> nbrs) st' ∧ same_rest st st'.
Proof using Hr.
  intros Hwf. unfold broadcastMessage. rewrite (proj2 Hwf). apply broadcast_edges_ok; [done|]. by apply Forall_forall.
Qed.

(** What is sent on to an edge. *)
Definition forward_out (st : StoreImpl) (s : nat) (b : Buffer) (t : Z) (sender y : nat) : list Out :=
  match findEdge st y with
  | None => []
  | Some pi =>
      let b' := patch_dest (patch_ttl b t) y in
      if decide (y = sender) then []
      else if everConnected pi then (if decide (s ∈ broadcastForwardFor pi) then [OSend y b'] else [])
      else [OPend y s b']
  end.

Lemma forward_out_same st l st' s b t sender y : outs st l st' → wf st → y ∈ nbrs → forward_out st' s b t sender y = forward_out st s b t sender y.
Proof using Type.
  intros Ho Hwf Hy. destruct (getEdge_nbr st y Hwf Hy) as (pi & _ & Hpi). destruct (os_grown _ _ _ _ Ho y pi Hpi) as (pi' & Hpi' & Hg).
  apply grown_same in Hg as (_ & _ & E1 & _ & _ & E2). unfold forward_out. by rewrite Hpi, Hpi', E1, E2.
Qed.

Lemma forward_edges_ok f l s b t sender st : wf st → Forall (λ y, y ∈ nbrs) l →
  ∃ st', forward_edges (send_rec (S (S f))) st l s b t sender = Ok st' ∧
    outs st (mjoin (forward_out st s b t sender <$> l)) st' ∧ same_rest st st'.
Proof using Hr.
  intros Hwf Hl. revert st Hwf. induction Hl as [|y l Hy Hl IH]; intros st Hwf; cbn [forward_edges].
  { exists st. split; [done|]. split; [by apply outs_refl|done]. }
  destruct (getEdge_nbr st y Hwf Hy) as (pi & -> & Hpi). cbn [obind fmap list_fmap mjoin list_join].
  assert (∀ st1 o, outs st o st1 → same_rest st st1 → o = forward_out st s b t sender y →
    ∃ st', forward_edges (send_rec (S (S f))) st1 l s b t sender = Ok st' ∧
      outs st (forward_out st s b t sender y ++ mjoin (forward_out st s b t sender <$> l)) st' ∧ same_rest st st') as Hgo.
  { intros st1 o Ho Hs ->. destruct (IH st1 (outs_wf _ _ _ Ho Hwf)) as (st2 & -> & Ho2 & Hs2). exists st2. split; [done|].
    split; [|by eapply same_rest_trans]. eapply outs_trans; [exact Ho|].
    replace (forward_out st s b t sender <$> l) with (forward_out st1 s b t sender <$> l); [done|].
    apply list_fmap_ext. intros i z Hz. apply (forward_out_same st _ st1 s b t sender z Ho Hwf).
    rewrite Forall_forall in Hl. apply Hl. by eapply list_elem_of_lookup_2. }
  assert (forward_out st s b t sender y = let b' := patch_dest (patch_ttl b t) y in
      if decide (y = sender) then []
      else if everConnected pi then (if decide (s ∈ broadcastForwardFor pi) then [OSend y b'] else [])
      else [OPend y s b']) as E by (unfold forward_out; by rewrite Hpi).
  cbn zeta in E. destruct (decide (y = sender)) as [Hys|Hys].
  { rewrite bool_decide_true by done. apply (Hgo st []); [by apply outs_refl|done|done]. }
  rewrite bool_decide_false by done. destruct (everConnected pi) eqn:Hev; cbn [andb].
  - destruct (decide (s ∈ broadcastForwardFor pi)) as [Hin|Hin].
    + rewrite bool_decide_true by done. cbn [negb]. destruct Hwf as [Hc Hn]. rewrite Hc.
      destruct (send_nbr f st y (patch_dest (patch_ttl b t) y) x) as (st1 & -> & Ho & Hs); [done|done|apply Hr|]. cbn [obind]. by eapply Hgo.
    + rewrite bool_decide_false by done. cbn [negb]. apply (Hgo st []); [by apply outs_refl|done|done].
  - cbn [obind]. eapply Hgo; [|done|symmetry; exact E]. eapply outs_put; [done| |by repeat constructor].
    apply (grown_pend c y pi []); [constructor|done].
Qed.

(** ** The reaction to a message *)

(** Callers that are told that the store was shut down. *)
Definition exit_objs (s : Shutdown) (l : list nat) (objs : gmap nat Wait) : gmap nat Wait :=
  let src := match exitSourceRank s with Some r => if bool_decide (r = x) then None else Some r | None => None end in
  foldr (alter (λ w, mkWait (wb w) (wdata w) true (Some src) (wend w) (targetRank w) (firstHopEdge w))) objs l.

Definition exit_kv (s : Shutdown) (k : KV) : KV := set_waits k (waits k) (exit_objs s (map_to_list (waits k)).*2 (waitObjs k)).

Lemma exit_list_ok st l : cfg st = c →
  let st' := foldr (λ w st, exitWait st w) st l in
  kv st' = set_waits (kv st) (waits (kv st)) (exit_objs (shut st) l (waitObjs (kv st))) ∧ shut st' = shut st ∧ cfg st' = c ∧
  conns st' = conns st ∧ floatingConnections st' = floatingConnections st ∧ edgePeers st' = edgePeers st.
Proof using Type.
  intros Hc. induction l as [|w l IH]; cbn zeta in *; cbn [foldr exit_objs].
  - split; [by destruct (kv st)|done].
  - destruct IH as (H1 & H2 & H3 & H4 & H5 & H6). set (st1 := foldr _ _ l) in *. unfold exitWait. cbn. rewrite H1, H2, H3. done.
Qed.

Lemma exitWaits_ok st : cfg st = c →
  kv (exitWaits st) = exit_kv (shut st) (kv st) ∧ shut (exitWaits st) = shut st ∧ cfg (exitWaits st) = c ∧
  conns (exitWaits st) = conns st ∧ floatingConnections (exitWaits st) = floatingConnections st ∧ edgePeers (exitWaits st) = edgePeers st.
Proof using Type. intros Hc. by apply exit_list_ok. Qed.

(** How a message about a shutdown is noted. *)
Definition note (f : ShutdownState → ShutdownState) (s : Shutdown) (r : nat) : Shutdown := set_states s (alter f r (shutdownStates s)).

Definition note_shutdown (s : Shutdown) (r origin : nat) : Shutdown :=
  let s := note (λ p, mkShutdownState true (peer_exited p) (peer_exitAck p)) s r in
  match exitSourceRank s with Some _ => s | None => set_exit s (exited s) (Some origin) end.

Definition note_exit (s : Shutdown) (r origin : nat) : Shutdown :=
  let s := note (λ p, mkShutdownState (peer_shutdown p) true (peer_exitAck p)) s r in
  if exited s then s
  else set_exit s true (match exitSourceRank s with None => if shuttingDown s then None else Some origin | Some q => Some q end).

Definition note_exit_ack (s : Shutdown) (r : nat) : Shutdown := note (λ p, mkShutdownState (peer_shutdown p) (peer_exited p) true) s r.

Definition get_kv (k : KV) (key : string) (w : Waiter) : KV :=
  match store k !! key with
  | Some v => reply_kv k (wsource w) (wid w) (answer_reply w v)
  | None => set_store k (store k) (<[key := default [] (storeWaiters k !! key) ++ [w]]> (storeWaiters k))
  end.
Definition get_out (k : KV) (key : string) (w : Waiter) : list Out :=
  match store k !! key with
  | Some v => reply_out (wsource w) (wid w) (wdiag w) (answer_reply w v)
  | None => []
  end.

Definition set_kv_of (k : KV) (key : string) (value : list Z) : KV :=
  answers_kv (set_store k (<[key := value]> (store k)) (delete key (storeWaiters k))) (default [] (storeWaiters k !! key)) value.
Definition set_out_of (k : KV) (key : string) (value : list Z) : list Out := answers_out (default [] (storeWaiters k !! key)) value.

(** For a message whose destination is this rank. *)
Definition reaction_kv (k : KV) (s : Shutdown) (b : Buffer) : KV :=
  let h := hdr b in
  let src := sourceRank h in
  match body b with
  | messageSet key value => reply_kv (set_kv_of k key value) src (hid h) ReplyNone
  | messageDone r => done_kv k (hid h) r
  | messageGet key => get_kv k key (mkWaiter true src (hid h) (diagnosticSource h))
  | messageWait key => get_kv k key (mkWaiter false src (hid h) (diagnosticSource h))
  | messageCheck key => reply_kv k src (hid h) (ReplyBool (bool_decide (is_Some (store k !! key))))
  | messageExit origin => if exited s then k else exit_kv (note_exit s src origin) k
  | _ => k
  end.

Definition reaction_shut (s : Shutdown) (b : Buffer) : Shutdown :=
  let src := sourceRank (hdr b) in
  match body b with
  | messageShutdown origin => note_shutdown s src origin
  | messageExit origin => note_exit s src origin
  | messageExitAck => note_exit_ack s src
  | _ => s
  end.

Definition reaction_out (k : KV) (s : Shutdown) (b : Buffer) : list Out :=
  let h := hdr b in
  let src := sourceRank h in
  match body b with
  | messageSet key value => set_out_of k key value ++ reply_out src (hid h) (diagnosticSource h) ReplyNone
  | messageGet key => get_out k key (mkWaiter true src (hid h) (diagnosticSource h))
  | messageWait key => get_out k key (mkWaiter false src (hid h) (diagnosticSource h))
  | messageCheck key => reply_out src (hid h) (diagnosticSource h) (ReplyBool (bool_decide (is_Some (store k !! key))))
  | messageExit origin => if exited s then [] else (λ y, OSend y (cast (messageExit origin) y)) <$> nbrs
  | _ => []
  end.

(** The copies of a broadcast for other edges. *)
Definition reaction_forward (st : StoreImpl) (b : Buffer) (sender : nat) : list Out :=
  if broadcast (hdr b) then mjoin (forward_out st (sourceRank (hdr b)) b (u32 (ttl (hdr b) - 1)) sender <$> nbrs) else [].

Lemma process_forward f st b e : wf st → (destinationRank (hdr b) < N)%nat → destinationRank (hdr b) ≠ x → ttl (hdr b) ≠ 0 →
  (diagnosticSource (hdr b) < N)%nat →
  ∃ st', process_rec (S (S (S f))) st b e = Ok st' ∧
    outs st [OSend (hop (destinationRank (hdr b))) (patch_ttl b (u32 (ttl (hdr b) - 1)))] st' ∧ same_rest st st'.
Proof using Hr.
  intros Hwf Hd Hne Ht Hdi. destruct (hop_nbr _ Hd Hne) as [E Hy]. rewrite process_unfold. unfold process_body, forward, vec_get.
  destruct Hwf as [Hc Hn]. rewrite Hc, bool_decide_false by done. cbn [negb]. rewrite (proj2 (Z.eqb_neq _ _)) by done. cbn [negb CHECK obind].
  rewrite E. cbn [of_option obind]. rewrite bool_decide_false by (destruct (rt_nbr Hr _ Hy) as (_ & ? & _); lia). cbn [negb CHECK obind].
  destruct (getEdge_nbr st _ (conj Hc Hn) Hy) as (pi & -> & _). cbn [obind]. by apply send_nbr.
Qed.

(** Whom this rank has to answer later. *)
Definition waiters_ok (k : KV) : Prop := ∀ key l, storeWaiters k !! key = Some l → Forall (λ w, (wsource w < N)%nat ∧ (wdiag w < N)%nat) l.

(** The state after part of a reaction. *)
Definition did (st : StoreImpl) (l : list Out) (k : KV) (s : Shutdown) (o : outcome StoreImpl) : Prop :=
  ∃ st', o = Ok st' ∧ outs st l st' ∧ kv st' = k ∧ shut st' = s.

Lemma did_state st st1 l k s o : outs st [] st1 → did st1 l k s o → did st l k s o.
Proof using Type. intros H (st' & -> & Ho & ?). exists st'. split; [done|]. split; [|done]. exact (outs_trans c st [] st1 l st' H Ho). Qed.

Lemma set_value_ok f st key value : wf st → waiters_ok (kv st) →
  did st (set_out_of (kv st) key value) (set_kv_of (kv st) key value) (shut st)
    (internalStoreSetValue (process_rec (S (S f))) (send_rec (S (S f))) st key value).
Proof using Hr.
  intros Hwf Hw. unfold internalStoreSetValue, set_out_of, set_kv_of. destruct (storeWaiters (kv st) !! key) as [l|] eqn:El; cbn [default].
  - set (st2 := set_kv (set_kv _ _) _). assert (wf st2) as Hwf2 by done.
    destruct (answer_all_ok f l value st2 Hwf2 (Hw key l El)) as (st3 & -> & Ho & Hk & Hs). cbn [obind].
    destruct (answers_kv_store l (kv st2) value) as (E1 & _). rewrite bool_decide_true; [|rewrite Hk, E1; cbn; by rewrite lookup_insert_eq].
    cbn [CHECK obind]. exists st3. split; [done|]. split; [|by rewrite Hk, Hs].
    exact (outs_trans c st [] st2 _ st3 (outs_refl c st st2 eq_refl eq_refl eq_refl eq_refl) Ho).
  - eexists. split; [done|]. split; [by apply outs_refl|]. split; [|done]. cbn. by rewrite delete_id.
Qed.

Lemma get_value_ok f st key w : wf st → (wsource w < N)%nat → (wdiag w < N)%nat →
  did st (get_out (kv st) key w) (get_kv (kv st) key w) (shut st)
    (internalStoreGetValue (process_rec (S (S f))) (send_rec (S (S f))) st key w).
Proof using Hr.
  intros Hwf Hw Hwd. unfold internalStoreGetValue, get_out, get_kv. destruct (store (kv st) !! key) as [v|] eqn:Ev.
  - unfold answer. fold (answer_reply w v). destruct (reply_ok f st (wsource w) (wid w) (wdiag w) (answer_reply w v) Hwf Hw Hwd) as (st' & -> & Ho & Hk & Hs).
    by exists st'.
  - eexists. split; [done|]. split; [by apply outs_refl|done].
Qed.

Lemma exit_ok f st r origin : wf st →
  did st (if exited (shut st) then [] else (λ y, OSend y (cast (messageExit origin) y)) <$> nbrs)
    (if exited (shut st) then kv st else exit_kv (note_exit (shut st) r origin) (kv st)) (note_exit (shut st) r origin)
    (handle_exit (send_rec (S (S f))) st r origin).
Proof using Hr.
  intros Hwf. unfold handle_exit, note_exit, note, mark_state. cbn [shut set_shut exited set_states].
  destruct (exited (shut st)) eqn:Ex. { eexists. split; [done|]. split; [by apply outs_refl|done]. }
  cbn [exitSourceRank shuttingDown set_states]. set (st1 := set_shut (set_shut st _) _).
  destruct (exitWaits_ok st1 (proj1 Hwf)) as (H1 & H2 & H3 & H4 & H5 & H6).
  assert (outs st [] (exitWaits st1)) as Ho1 by (apply outs_refl; [rewrite H3; symmetry; apply Hwf|done..]).
  destruct (broadcast_ok f (messageExit origin) (exitWaits st1) (outs_wf _ _ _ Ho1 Hwf)) as (st' & -> & Ho & Hk & Hs).
  exists st'. split; [done|]. split; [exact (outs_trans c st [] _ _ st' Ho1 Ho)|]. rewrite Hk, Hs, H1, H2. done.
Qed.

Lemma diagnostic_source_quiet st d addrs : silent st (handle_diagnostic_source resolveAddressSync shuffle_addrs now st d addrs).
Proof using Type.
  unfold handle_diagnostic_source. repeat case_match; try done.
  all: (eapply silent_trans; [|apply tryDiagnosticHello_quiet]; done).
Qed.

Lemma forward_broadcast_ok f st b e : wf st → (broadcast (hdr b) = true → ttl (hdr b) ≠ 0) →
  did st (reaction_forward st b e) (kv st) (shut st)
    (if broadcast (hdr b) then forwardBroadcast (send_rec (S (S f))) st (sourceRank (hdr b)) b e else Ok st).
Proof using Hr.
  intros Hwf Ht. unfold reaction_forward. destruct (broadcast (hdr b)).
  - unfold forwardBroadcast. rewrite (proj2 (Z.eqb_neq _ _)) by auto. cbn [negb CHECK obind]. rewrite (proj2 Hwf).
    destruct (forward_edges_ok f nbrs (sourceRank (hdr b)) b (u32 (ttl (hdr b) - 1)) e st Hwf) as (st' & -> & Ho & Hk & Hs); [by apply Forall_forall|].
    by exists st'.
  - exists st. split; [done|]. split; [by apply outs_refl|done].
Qed.

Lemma process_local f st b e : wf st → destinationRank (hdr b) = x → (sourceRank (hdr b) < N)%nat → (diagnosticSource (hdr b) < N)%nat → (broadcast (hdr b) = true → ttl (hdr b) ≠ 0) →
  waiters_ok (kv st) →
  did st (reaction_forward st b e ++ reaction_out (kv st) (shut st) b) (reaction_kv (kv st) (shut st) b) (reaction_shut (shut st) b)
    (process_rec (S (S (S f))) st b e).
Proof using Hr.
  intros Hwf Hd Hs Hdi Ht Hw. rewrite process_unfold. unfold process_body. rewrite (proj1 Hwf), Hd, bool_decide_true by done. cbn [negb].
  destruct (forward_broadcast_ok f st b e Hwf Ht) as (st1 & -> & Ho1 & Hk1 & Hs1). cbn [obind].
  assert (wf st1) as Hwf1 by (by eapply outs_wf). rewrite <- Hk1, <- Hs1. rewrite <- Hk1 in Hw.
  assert (∀ o, did st1 (reaction_out (kv st1) (shut st1) b) (reaction_kv (kv st1) (shut st1) b) (reaction_shut (shut st1) b) o →
    did st (reaction_forward st b e ++ reaction_out (kv st1) (shut st1) b) (reaction_kv (kv st1) (shut st1) b) (reaction_shut (shut st1) b) o) as Hgo.
  { intros o (st' & -> & Ho & ?). exists st'. split; [done|]. split; [by eapply outs_trans|done]. }
  apply Hgo. clear Hgo. unfold reaction_out, reaction_kv, reaction_shut. destruct (body b) as [r|key value|key|key|key|origin|origin| |addrs].
  - destruct (handle_done_eq st1 (hid (hdr b)) r) as (H1 & H2 & H3 & H4 & H5 & H6). eexists. split; [done|]. split; [by apply outs_refl|done].
  - destruct (set_value_ok f st1 key value Hwf1 Hw) as (st2 & -> & Ho2 & Hk2 & Hs2). cbn [obind].
    destruct (reply_ok f st2 (sourceRank (hdr b)) (hid (hdr b)) (diagnosticSource (hdr b)) ReplyNone (outs_wf _ _ _ Ho2 Hwf1) Hs Hdi) as (st3 & -> & Ho3 & Hk3 & Hs3).
    exists st3. split; [done|]. split; [by eapply outs_trans|]. by rewrite Hk3, Hk2, Hs3, Hs2.
  - by apply get_value_ok.
  - destruct (reply_ok f st1 (sourceRank (hdr b)) (hid (hdr b)) (diagnosticSource (hdr b)) (ReplyBool (bool_decide (is_Some (store (kv st1) !! key)))) Hwf1 Hs Hdi)
      as (st3 & -> & Ho3 & Hk3 & Hs3). by exists st3.
  - by apply get_value_ok.
  - eexists. split; [done|]. split; [|split].
    + unfold handle_shutdown. case_match; by apply outs_refl.
    + unfold handle_shutdown. by case_match.
    + unfold handle_shutdown, note_shutdown, note, mark_state. cbn. by destruct (exitSourceRank (shut st1)).
  - by apply exit_ok.
  - eexists. split; [done|]. split; [by apply outs_refl|done].
  - eexists. split; [done|]. destruct (diagnostic_source_quiet st1 (diagnosticSource (hdr b)) addrs) as (H1 & H2 & H3 & H4 & H5 & H6).
    split; [by apply outs_refl|done].
Qed.
End node.
