(* ===== verification/StoreStepFacts.v ===== *)
(** * Calls, shutdown and connections, as messages sent

    The entry points of file Store other than [processMessage]. *)

From Stdlib Require Import ZArith Lia.
From stdpp Require Import base gmap option list strings.
From S2P Require Import Prelude StoreTopology Store StoreSendFacts StoreReactFacts.

Local Set Warnings "-clear-no-such-hyp".

(** The parts of an edge that matter to the other ranks. *)
Definition core_eq (a b : EdgeInfo) : Prop :=
  everConnected b = everConnected a ∧ outgoingQueue b = outgoingQueue a ∧ sentDiagnosticSourceFor b = sentDiagnosticSourceFor a ∧
  broadcastForwardFor b = broadcastForwardFor a ∧ pendingBroadcasts b = pendingBroadcasts a ∧
  incomingSeq b = incomingSeq a ∧ incomingQueue b = incomingQueue a ∧ outgoingSeq b = outgoingSeq a.

(** ** Connections *)

(** The rank at the other end of a connection, once it has introduced itself. *)
Definition source (st : StoreImpl) (conn : nat) : option nat := conns st !! conn ≫= csource.

(** No connection is lost track of, and none changes its peer. *)
Record kept (st st' : StoreImpl) : Prop := {
  kp_source conn : source st' conn = source st conn;
  kp_conns conn : is_Some (conns st !! conn) → is_Some (conns st' !! conn);
  kp_floating conn : conn ∈ floatingConnections st' → conn ∈ floatingConnections st ∨ is_Some (conns st' !! conn);
  kp_edges y pi' : findEdge st' y = Some pi' → ∃ pi, findEdge st y = Some pi ∧ ∀ conn, conn ∈ tcpconnections pi' → conn ∈ tcpconnections pi
}.

(** The same, but [conn] is now a connection to [y]. *)
Record joined (st : StoreImpl) (y conn : nat) (st' : StoreImpl) : Prop := {
  jo_source c : source st' c = if decide (c = conn) then Some y else source st c;
  jo_conns c : is_Some (conns st !! c) → is_Some (conns st' !! c);
  jo_floating c : c ∈ floatingConnections st' → c ∈ floatingConnections st ∨ is_Some (conns st' !! c);
  jo_edges z pi' : findEdge st' z = Some pi' → ∃ pi, findEdge st z = Some pi ∧ ∀ c, c ∈ tcpconnections pi' → c ∈ tcpconnections pi ∨ c = conn
}.

Lemma kept_refl st : kept st st.
Proof. constructor; eauto. Qed.

Lemma edges_kept_trans a b d : kept a b → kept b d → kept a d.
Proof.
  intros [A1 A2 A3 A4] [B1 B2 B3 B4]. constructor.
  - intros conn. by rewrite B1.
  - auto.
  - intros conn [H|H]%B3; [|by right]. destruct (A3 conn H) as [?|?]; [by left|right; auto].
  - intros y pi (p1 & H1 & H2)%B4. destruct (A4 y p1 H1) as (p0 & H0 & H). exists p0. split; [done|]. auto.
Qed.

Lemma kept_same st st' : conns st' = conns st → floatingConnections st' = floatingConnections st → edgePeers st' = edgePeers st → kept st st'.
Proof.
  intros E1 E2 E3. constructor; unfold source, findEdge; rewrite ?E1, ?E2, ?E3; eauto.
Qed.

(** Changes of connections that keep their peers. *)
Lemma alters_same (f : ConnectionInfo → ConnectionInfo) (m : gmap nat ConnectionInfo) l conn : (∀ x, csource (f x) = csource x) →
  (foldr (alter f) m l !! conn ≫= csource) = (m !! conn ≫= csource) ∧ (is_Some (foldr (alter f) m l !! conn) ↔ is_Some (m !! conn)).
Proof.
  intros H. induction l as [|c l [IH1 IH2]]; cbn [foldr]; [done|]. destruct (decide (c = conn)) as [->|Hne]; [|by rewrite lookup_alter_ne].
  rewrite lookup_alter_eq. rewrite <- IH1, <- IH2. destruct (foldr (alter f) m l !! conn) as [x|]; cbn; [|done]. rewrite H. split; [done|]. by split; intros _; eexists.
Qed.

Lemma alters_kept st f l : (∀ x, csource (f x) = csource x) → kept st (set_conns st (foldr (alter f) (conns st) l)).
Proof.
  intros H. constructor; [|intros conn; cbn; by rewrite (proj2 (alters_same f (conns st) l conn H))|by left|eauto].
  intros conn. exact (proj1 (alters_same f (conns st) l conn H)).
Qed.

Lemma joined_kept a y conn b d : joined a y conn b → kept b d → joined a y conn d.
Proof.
  intros [A1 A2 A3 A4] [B1 B2 B3 B4]. constructor.
  - intros c. by rewrite B1.
  - auto.
  - intros c [H|H]%B3; [|by right]. destruct (A3 c H) as [?|?]; [by left|right; auto].
  - intros z pi (p1 & H1 & H2)%B4. destruct (A4 z p1 H1) as (p0 & H0 & H). exists p0. split; [done|]. auto.
Qed.

(** An edge changes, but not its connections. *)
Lemma put_kept st y pi pi' : findEdge st y = Some pi → (∀ conn, conn ∈ tcpconnections pi' → conn ∈ tcpconnections pi) → kept st (putEdge st y pi').
Proof.
  intros Hy H. constructor; [done|done|by left|]. intros z pz. unfold findEdge, putEdge in *. cbn. rewrite find_put by (by eexists). case_decide as E; [|eauto].
  subst z. intros [= <-]. eauto.
Qed.

Lemma silent_kept st st' : silent st st' → kept st st'.
Proof. intros (_ & E1 & E2 & E3 & _). by apply kept_same. Qed.

Section steps.
Context (fmt : Reason → string) (resolveAddressSync : string → list (list Z)) (shuffle_addrs : list (list Z) → list (list Z)) (now : Z).
Context (c : Config) (nbrs : list nat) (Hr : routes c nbrs).

Local Abbreviation doWaitOp := (doWaitOp fmt resolveAddressSync shuffle_addrs now).
Local Abbreviation sendMessage := (sendMessage fmt resolveAddressSync shuffle_addrs now).
Local Abbreviation outs := (outs c).
Local Abbreviation wf := (wf c nbrs).
Local Abbreviation x := (rank c).
Local Abbreviation N := (worldSize c).

(** Messages sent, whatever happened to the connections. *)
Record moved (st : StoreImpl) (l : list Out) (st' : StoreImpl) : Prop := {
  mv_cfg : cfg st' = cfg st;
  mv_peers : (edgePeers st').*1 = (edgePeers st).*1;
  mv_edge y pi : findEdge st y = Some pi → ∃ pi1 pi', findEdge st' y = Some pi' ∧ grown c y pi (on_edge y l) pi1 ∧ core_eq pi1 pi';
  mv_kept : kept st st'
}.

Lemma outs_kept st l st' : outs st l st' → kept st st'.
Proof using Type.
  intros [H1 H2 H3 H4 H5]. constructor; unfold source; rewrite ?H2, ?H3; auto. intros y pi' Hy.
  assert (∃ pi, findEdge st y = Some pi) as [pi Hpi] by (apply find_is_Some; rewrite <- H4; apply find_is_Some; eauto).
  destruct (H5 y pi Hpi) as (p & Hp & (_ & E & _)%grown_same). exists pi. split; [done|]. assert (p = pi') as -> by congruence. by rewrite E.
Qed.

Lemma outs_moved st l st' : outs st l st' → moved st l st'.
Proof using Type.
  intros Ho. pose proof (outs_kept _ _ _ Ho) as Hk. destruct Ho as [H1 _ _ H2 H3]. constructor; [done|done| |done]. intros y pi Hy. destruct (H3 y pi Hy) as (pi' & ? & ?). exists pi', pi'. by repeat split.
Qed.

Lemma outs_around a b l d e : outs a [] b → outs b l d → outs d [] e → outs a l e.
Proof using Type.
  intros H1 H2 H3. rewrite <- (app_nil_r l). eapply outs_trans; [|exact H3]. exact (outs_trans c a [] b l d H1 H2).
Qed.

Lemma outs_same st st' : cfg st' = cfg st → conns st' = conns st → floatingConnections st' = floatingConnections st →
  edgePeers st' = edgePeers st → outs st [] st'.
Proof using Type. apply outs_refl. Qed.

(** *** Calls *)

Lemma storeRank_lt key : (storeRank N key < N)%nat.
Proof using Hr. unfold storeRank. pose proof (rt_rank _ _ Hr). pose proof (Z.mod_pos_bound (stringHash key) (Z.of_nat N)). lia. Qed.

(** The new [Wait] object, and the callers that wait. *)
Definition call_obj (timeout : Z) (key : string) : Wait :=
  let r := storeRank N key in mkWait false [] false None (now + timeout) r (hop c r).

Definition call_kv (k : KV) (timeout : Z) (key : string) (register : bool) : KV :=
  let w := fresh (dom (waitObjs k)) in
  mkKV (u32 (nextId k + 1)) (if register then <[nextId k := w]> (waits k) else waits k)
    (<[w := call_obj timeout key]> (waitObjs k)) (store k) (storeWaiters k).

Lemma hop_lt d : (d < N)%nat → firsthop c !! d = Some (hop c d) ∧ hop c d ≠ N.
Proof using Hr.
  intros Hd. pose proof (rt_rank _ _ Hr). destruct (decide (d = x)) as [->|Hne].
  - unfold hop. rewrite (rt_self _ _ Hr). cbn. split; [done|lia].
  - destruct (hop_nbr c nbrs Hr d Hd Hne) as [E Hy]. split; [done|]. destruct (rt_nbr _ _ Hr _ Hy) as (_ & ? & _). lia.
Qed.

Lemma call_ok st timeout key m : wf st → waiters_ok c (kv st) →
  ∃ st', doWaitOp st timeout key m = Ok (fresh (dom (waitObjs (kv st))), st') ∧
    let r := storeRank N key in
    let k := call_kv (kv st) timeout key (negb (exited (shut st))) in
    let b := made c r (nextId (kv st)) x m in
    if exited (shut st) then outs st [] st' ∧ kv st' = set_waits k (waits k) (exit_objs c (shut st) [fresh (dom (waitObjs (kv st)))] (waitObjs k)) ∧ shut st' = shut st
    else if decide (r = x) then outs st (reaction_out c nbrs k (shut st) b) st' ∧ kv st' = reaction_kv c k (shut st) b ∧ shut st' = reaction_shut (shut st) b
    else outs st [OSend (hop c r) b] st' ∧ kv st' = k ∧ shut st' = shut st.
Proof using Hr.
  intros [Hc Hn] Hw. unfold Store.doWaitOp, vec_get. rewrite Hc. destruct (hop_lt (storeRank N key) (storeRank_lt key)) as [-> HN].
  cbn [of_option obind]. rewrite bool_decide_false by done. cbn [negb CHECK obind]. fold (call_obj timeout key). cbn [shut set_kv].
  destruct (exited (shut st)) eqn:Ex.
  { eexists. split; [done|]. split; [|split; [|done]].
    - apply outs_refl; done.
    - unfold exitWait, exit_objs. cbn [kv shut cfg set_kv foldr]. by rewrite Hc. }
  cbn [negb]. set (st1 := set_kv (set_kv st _) _).
  assert (wf st1) as Hwf1 by done. assert (outs st [] st1) as Ho1 by (by apply outs_refl).
  assert (kv st1 = call_kv (kv st) timeout key true) as Hk1 by done. destruct (decide (storeRank N key = x)) as [E|E].
  - destruct (process_local fmt resolveAddressSync shuffle_addrs now c nbrs Hr 0 st1 (made c (storeRank N key) (nextId (kv st)) x m) x) as (st' & Ep & Ho & Hk & Hs);
      [done|done|apply Hr|apply Hr|done|done|].
    exists st'. unfold sendMessageTo, vec_get. rewrite (proj1 Hwf1). destruct (hop_lt (storeRank N key) (storeRank_lt key)) as [-> _]. cbn [of_option obind].
    assert (hop c (storeRank N key) = x) as -> by (rewrite E; unfold hop; by rewrite (rt_self _ _ Hr)).
    rewrite bool_decide_true by done. fold (made c (storeRank N key) (nextId (kv st)) x m). unfold Store.processMessage, call_fuel. rewrite Ep.
    cbn [obind]. split; [done|]. rewrite <- Hk1. split; [|done]. exact (outs_trans c st [] st1 _ st' Ho1 Ho).
  - destruct (sendTo_remote fmt resolveAddressSync shuffle_addrs now c nbrs Hr 1 3 st1 (storeRank N key) (nextId (kv st)) x m) as (st' & Ep & Ho & Hk & Hs);
      [done|apply storeRank_lt|done|apply Hr|].
    exists st'. unfold Store.processMessage, Store.sendMessage, call_fuel. rewrite Ep. cbn [obind]. split; [done|].
    split; [exact (outs_trans c st [] st1 _ st' Ho1 Ho)|]. by rewrite Hk.
Qed.

(** *** Shutdown *)

Definition phase (s : Shutdown) : nat :=
  match closeState s with NotStarted => 0 | WaitShutdownAck => 1 | WaitExit => 2 | WaitExitAck => 3 | Done => 4 end.

(** The messages that are broadcast. *)
Definition is_cast (m : Message) : Prop :=
  match m with messageShutdown _ | messageExit _ | messageExitAck => True | _ => False end.

(** Broadcasts of this rank. *)
Definition casts (ms : list Message) : list Out := mjoin ((λ m, (λ y, OSend y (cast c m y)) <$> nbrs) <$> ms).

Lemma casts_app ms ms' : casts (ms ++ ms') = casts ms ++ casts ms'.
Proof using Type. unfold casts. by rewrite fmap_app, join_app. Qed.

(** How the shutdown goes on, and what is broadcast. *)
Record closing (s : Shutdown) (ms : list Message) (s' : Shutdown) : Prop := {
  cl_states : shutdownStates s' = shutdownStates s;
  cl_phase : (phase s ≤ phase s')%nat;
  cl_exited : exited s = true → exited s' = true;
  cl_source : is_Some (exitSourceRank s) → is_Some (exitSourceRank s');
  cl_begun : (1 ≤ phase s')%nat → (1 ≤ phase s)%nat ∨ is_Some (exitSourceRank s');
  cl_shutdown : phase s = 0%nat → (1 ≤ phase s')%nat → messageShutdown x ∈ ms;
  cl_exit : exited s = false → exited s' = true → ∃ o, messageExit o ∈ ms;
  cl_ack : (phase s < 3)%nat → (3 ≤ phase s')%nat → messageExitAck ∈ ms;
  cl_casts : Forall is_cast ms
}.

Lemma closing_refl s : closing s [] s.
Proof using Type. constructor; try done; try lia; try congruence; try tauto. Qed.

Lemma closing_trans a l b k d : closing a l b → closing b k d → closing a (l ++ k) d.
Proof using Type.
  intros [A1 A2 A3 A4 A5 A6 A7 A8 A9] [B1 B2 B3 B4 B5 B6 B7 B8 B9]. constructor.
  - congruence.
  - lia.
  - auto.
  - auto.
  - intros H. destruct (B5 H) as [H1|H1]; [|by right]. destruct (A5 H1) as [?|?]; [by left|right; auto].
  - intros H H'. apply elem_of_app. destruct (Nat.eq_dec (phase b) 0%nat); [right; auto|left; apply A6; [done|lia]].
  - intros H H'. destruct (exited b) eqn:E.
    + destruct (A7 H eq_refl) as [o Ho]. exists o. apply elem_of_app. by left.
    + destruct (B7 eq_refl H') as [o Ho]. exists o. apply elem_of_app. by right.
  - intros H H'. apply elem_of_app. destruct (Nat.lt_ge_cases (phase b) 3); [right; auto|left; auto].
  - by apply Forall_app.
Qed.

Lemma moved_trans st l st1 k st2 : outs st l st1 → moved st1 k st2 → moved st (l ++ k) st2.
Proof using Type.
  intros Ho [B1 B2 B3 B4]. pose proof (outs_kept _ _ _ Ho) as Hk. destruct Ho as [A1 _ _ A2 A3]. constructor; [congruence..| |by eapply edges_kept_trans]. intros y pi Hy. destruct (A3 y pi Hy) as (p1 & Hp1 & G1).
  destruct (B3 y p1 Hp1) as (p2 & p3 & H2 & G2 & E). exists p2, p3. split; [done|]. rewrite on_edge_app. split; [by eapply grown_trans|done].
Qed.

(** The cases of [closing] for one phase. *)
Ltac closing_tac :=
  intros; first [done | lia | congruence | (left; lia) | (right; by eauto) | by apply list_elem_of_singleton
    | (eexists; by apply list_elem_of_singleton) | by repeat constructor | by eauto].

(** Callers are told when the store exits. *)
Definition tell (o : Wait) (src : option nat) : Wait := mkWait (wb o) (wdata o) true (Some src) (wend o) (targetRank o) (firstHopEdge o).

Definition told (k k' : KV) : Prop :=
  nextId k' = nextId k ∧ waits k' = waits k ∧ store k' = store k ∧ storeWaiters k' = storeWaiters k ∧
  ∀ w, waitObjs k' !! w = waitObjs k !! w ∨ ∃ o src, waitObjs k !! w = Some o ∧ waitObjs k' !! w = Some (tell o src).

Lemma told_refl k : told k k.
Proof using Type. repeat split; auto. Qed.

Lemma told_trans a b d : told a b → told b d → told a d.
Proof using Type.
  intros (A1&A2&A3&A4&A5) (B1&B2&B3&B4&B5). split_and!; [congruence..|]. intros w.
  destruct (B5 w) as [->|(o & src & Ho & ->)]; [apply A5|]. destruct (A5 w) as [E|(o' & src' & Ho' & E)].
  - right. exists o, src. by rewrite <- E.
  - right. exists o', src. split; [done|]. assert (o = tell o' src') as -> by congruence. done.
Qed.

Lemma exit_told s k : told k (exit_kv c s k).
Proof using Type.
  split_and!; try done. intros w. unfold exit_kv, exit_objs. cbn [waitObjs set_waits].
  generalize (match exitSourceRank s with Some r => if bool_decide (r = x) then None else Some r | None => None end). intros src.
  induction ((map_to_list (waits k)).*2) as [|v l IH]; cbn [foldr]; [by left|].
  destruct (decide (v = w)) as [->|Hne]; [|by rewrite lookup_alter_ne].
  rewrite lookup_alter_eq. destruct IH as [->|(o & src' & Ho & ->)].
  - destruct (waitObjs k !! w) as [o|] eqn:Ho; [|by left]. right. by exists o, src.
  - right. by exists o, src.
Qed.

Definition closes (st : StoreImpl) (ms : list Message) (st' : StoreImpl) : Prop := closing (shut st) ms (shut st') ∧ told (kv st) (kv st').

Lemma closes_trans a l b k d : closes a l b → closes b k d → closes a (l ++ k) d.
Proof using Type. intros [] []. split; [by eapply closing_trans|by eapply told_trans]. Qed.

Local Abbreviation close_steps := (close_steps fmt resolveAddressSync shuffle_addrs now).

Lemma broadcast_now st m : wf st → ∃ st', broadcastMessage sendMessage st m = Ok st' ∧ outs st (casts [m]) st' ∧ same_rest st st'.
Proof using Hr.
  intros Hwf. unfold Store.sendMessage, call_fuel.
  destruct (broadcast_ok fmt resolveAddressSync shuffle_addrs now c nbrs Hr 1 m st Hwf) as (st' & -> & Ho & Hs).
  exists st'. split; [done|]. split; [|done]. unfold casts. cbn. by rewrite app_nil_r.
Qed.

Lemma begin_shutdown_ok st : wf st → phase (shut st) = 0%nat →
  ∃ st', begin_shutdown fmt resolveAddressSync shuffle_addrs now st = Ok st' ∧ outs st (casts [messageShutdown x]) st' ∧
    closes st [messageShutdown x] st' ∧ phase (shut st') = 1%nat.
Proof using Hr.
  intros Hwf Hp. unfold begin_shutdown. set (st1 := set_shut st _). assert (wf st1) as Hwf1 by done.
  rewrite (proj1 Hwf1). destruct (broadcast_now st1 (messageShutdown x) Hwf1) as (st2 & -> & Ho & Hk & Hs). cbn [obind].
  eexists. split; [done|]. split.
  - eapply outs_around; [|exact Ho|]; by apply outs_same.
  - split; [|done]. split.
    + cbn [shut set_shut]. rewrite Hs. constructor; rewrite ?Hp; cbn; closing_tac.
    + cbn [kv set_shut]. rewrite Hk. apply told_refl.
Qed.

Lemma begin_exit_ok st : wf st → phase (shut st) = 1%nat → is_Some (exitSourceRank (shut st)) →
  ∃ ms st', begin_exit fmt resolveAddressSync shuffle_addrs now st = Ok st' ∧ outs st (casts ms) st' ∧ closes st ms st' ∧ phase (shut st') = 2%nat.
Proof using Hr.
  intros Hwf Hp [r Hsrc]. unfold begin_exit. destruct (exited (shut st)) eqn:Ex.
  { exists [], (set_shut st (set_phase (shut st) WaitExit (now + 1000) 1)). split; [done|]. split; [by apply outs_refl|].
    split; [|done]. split; [|apply told_refl]. constructor; rewrite ?Hp; cbn; closing_tac. }
  set (st1 := set_shut st _). destruct (exitWaits_ok c st1 (proj1 Hwf)) as (H1 & H2 & H3 & H4 & H5 & H6).
  assert (outs st [] (exitWaits st1)) as Ho1 by (apply outs_refl; [rewrite H3; symmetry; apply Hwf|done..]).
  cbn zeta. rewrite H2. cbn [shut set_shut exitSourceRank set_exit st1]. rewrite Hsrc. cbn [of_option obind].
  destruct (broadcast_now (exitWaits st1) (messageExit r) (outs_wf c nbrs _ _ _ Ho1 Hwf)) as (st2 & -> & Ho & Hk & Hs). cbn [obind].
  exists [messageExit r]. eexists. split; [done|]. split.
  - eapply outs_around; [exact Ho1|exact Ho|]; by apply outs_same.
  - split; [|done]. split.
    + cbn [shut set_shut]. rewrite Hs, H2. constructor; rewrite ?Hp; cbn; closing_tac.
    + cbn [kv set_shut]. rewrite Hk, H1. apply exit_told.
Qed.

Lemma begin_exit_ack_ok st : wf st → phase (shut st) = 2%nat →
  ∃ st', begin_exit_ack fmt resolveAddressSync shuffle_addrs now st = Ok st' ∧ outs st (casts [messageExitAck]) st' ∧
    closes st [messageExitAck] st' ∧ phase (shut st') = 3%nat.
Proof using Hr.
  intros Hwf Hp. unfold begin_exit_ack. destruct (broadcast_now st messageExitAck Hwf) as (st2 & -> & Ho & Hk & Hs). cbn [obind].
  eexists. split; [done|]. split.
  - eapply outs_around; [|exact Ho|]; by apply outs_same.
  - split; [|done]. split.
    + cbn [shut set_shut]. rewrite Hs. constructor; rewrite ?Hp; cbn; closing_tac.
    + cbn [kv set_shut]. rewrite Hk. apply told_refl.
Qed.

Lemma find_map (f : EdgeInfo → EdgeInfo) l y : find_peer (prod_map id f <$> l) y = f <$> find_peer l y.
Proof using Type. induction l as [|[k e] l IH]; cbn [fmap list_fmap find_peer prod_map]; [done|]. cbn. by case_bool_decide. Qed.

Lemma emits_quiet {A} (f : A → Effect) l st : silent st (foldl (λ st a, emit st (f a)) st l).
Proof using Type.
  revert st. induction l as [|a l IH]; intros st; cbn [foldl]; [apply silent_refl|]. eapply silent_trans; [|apply IH]. apply emit_quiet.
Qed.

Lemma finish_close_ok st : phase (shut st) = 3%nat →
  moved st [] (finish_close st) ∧ closes st [] (finish_close st) ∧ phase (shut (finish_close st)) = 4%nat.
Proof using Type.
  intros Hp. unfold finish_close, closeResources. set (s1 := mkShutdown _ _ _ _ _ _ _ _). set (st0 := set_conns _ _).
  set (l := floatingConnections _ ++ _). set (st1 := foldl _ st0 l). set (st2 := set_timer (emit st1 CloseSockets) _).
  destruct (emits_quiet CloseConnection l st0 : silent st0 st1) as (H1 & H2 & H3 & H4 & H5 & H6).
  assert (edgePeers st2 = prod_map id close_edge <$> edgePeers st) as Ep.
  { change (edgePeers st2) with (edgePeers st1). by rewrite H4. }
  assert (kv st2 = kv st ∧ shut st2 = s1 ∧ cfg st2 = cfg st) as (Ek & Es & Ec).
  { change (kv st1 = kv st ∧ shut st1 = s1 ∧ cfg st1 = cfg st). by rewrite H1, H5, H6. }
  split; [|split].
  - constructor; [done|rewrite Ep, <- list_fmap_compose; by apply list_fmap_ext| |].
    + intros y pi Hy. exists pi, (close_edge pi). split; [unfold findEdge in *; rewrite Ep, find_map, Hy; done|]. split; [constructor|done].
    + eapply edges_kept_trans; [|eapply edges_kept_trans; [exact (silent_kept _ _ (emits_quiet CloseConnection l st0))|by apply kept_same]].
      eapply edges_kept_trans; [|exact (alters_kept (set_peers (set_floating (set_timer (set_shut st s1) (mkTimer (callbacks (timer st)) (queuedCallbacks (timer st)) true)) []) (prod_map id close_edge <$> edgePeers st)) (λ c, mkConn (lastReceive c) (csource c) true) l (λ _, eq_refl))].
      constructor; [done|done|by intros conn ?%elem_of_nil|]. intros y pi'. unfold findEdge. cbn. rewrite find_map. destruct (find_peer (edgePeers st) y) as [pi|]; [|done].
      intros [= <-]. exists pi. split; [done|]. by intros conn ?%elem_of_nil.
  - split; [|rewrite Ek; apply told_refl]. rewrite Es. constructor; rewrite ?Hp; cbn; closing_tac.
  - by rewrite Es.
Qed.

Lemma allPeers_ok f st : wf st → length (shutdownStates (shut st)) = N → ∃ b, allPeers f st = Ok b.
Proof using Type. intros [Hc _] Hl. unfold allPeers. rewrite Hc, bool_decide_true by lia. eauto. Qed.

(** The machine gets as far as it can. *)
Lemma close_steps_ok fuel st : wf st → length (shutdownStates (shut st)) = N →
  ((1 ≤ phase (shut st))%nat → is_Some (exitSourceRank (shut st))) → (4 ≤ fuel + phase (shut st))%nat → (1 ≤ fuel)%nat →
  ∃ ms st', close_steps fuel st = Ok st' ∧ moved st (casts ms) st' ∧ closes st ms st'.
Proof using Hr.
  revert st. induction fuel as [|fuel IH]; [lia|]. intros st Hwf Hl Hsrc Hf _.
  assert (∃ ms st', Ok st = Ok st' ∧ moved st (casts ms) st' ∧ closes st ms st') as Hstay.
  { exists [], st. split; [done|]. split; [by apply outs_moved, outs_refl|]. split; [apply closing_refl|apply told_refl]. }
  assert (∀ ms st1, outs st (casts ms) st1 → closes st ms st1 → (phase (shut st) < phase (shut st1))%nat → (1 ≤ phase (shut st1) ≤ 3)%nat → 
    ∃ ms st', close_steps fuel st1 = Ok st' ∧ moved st (casts ms) st' ∧ closes st ms st') as Hgo.
  { intros ms st1 Ho Hcl Hlt Hrange. destruct (IH st1) as (ms' & st2 & -> & Hm & Hcl2).
    - by eapply outs_wf.
    - by rewrite (cl_states _ _ _ (proj1 Hcl)).
    - intros _. destruct (cl_begun _ _ _ (proj1 Hcl)) as [H|H]; [lia| |done]. by apply (cl_source _ _ _ (proj1 Hcl)), Hsrc.
    - lia.
    - lia.
    - exists (ms ++ ms'), st2. split; [done|]. rewrite casts_app. split; [by eapply moved_trans|by eapply closes_trans]. }
  cbn [Store.close_steps]. unfold allPeersShutdown, allPeersExited, allPeersExitAcked.
  destruct (closeState (shut st)) eqn:Ec; assert (phase (shut st) = match closeState (shut st) with NotStarted => 0 | WaitShutdownAck => 1 | WaitExit => 2 | WaitExitAck => 3 | Done => 4 end)%nat as Hp by done; rewrite Ec in Hp.
  - destruct (begin_shutdown_ok st Hwf Hp) as (st1 & -> & Ho & Hcl & Hp1). cbn [obind]. apply (Hgo _ st1 Ho Hcl); lia.
  - destruct (allPeers_ok peer_shutdown st Hwf Hl) as [b ->]. cbn [obind]. case_match; [|done].
    destruct (begin_exit_ok st Hwf Hp) as (ms & st1 & -> & Ho & Hcl & Hp1); [apply Hsrc; lia|]. cbn [obind]. apply (Hgo _ st1 Ho Hcl); lia.
  - destruct (allPeers_ok peer_exited st Hwf Hl) as [b ->]. cbn [obind]. case_match; [|done].
    destruct (begin_exit_ack_ok st Hwf Hp) as (st1 & -> & Ho & Hcl & Hp1). cbn [obind]. apply (Hgo _ st1 Ho Hcl); lia.
  - destruct (allPeers_ok peer_exitAck st Hwf Hl) as [b ->]. cbn [obind]. case_match; [|done].
    exists [], (finish_close st). split; [done|]. destruct (finish_close_ok st Hp) as (H1 & H2 & _). done.
  - done.
Qed.

Lemma close_ok st : wf st → length (shutdownStates (shut st)) = N →
  ((1 ≤ phase (shut st))%nat → is_Some (exitSourceRank (shut st))) →
  ∃ ms st', runCloseStateMachine fmt resolveAddressSync shuffle_addrs now st = Ok st' ∧ moved st (casts ms) st' ∧ closes st ms st'.
Proof using Hr.
  intros Hwf Hl Hsrc. unfold runCloseStateMachine.
  destruct (close_steps_ok close_fuel st Hwf Hl Hsrc) as (ms & st1 & -> & Hm & Hcl); [unfold close_fuel; lia|unfold close_fuel; lia|]. cbn [obind].
  assert (∃ st', (match closeState (shut st1) with Done => Ok st1 | _ => Ok (addCallback (set_shut st1 (set_phase (shut st1) (closeState (shut st1)) (shutdownDeadline (shut st1))
    (Z.min (shutdownBackoff (shut st1) * 2) 64))) (now + shutdownBackoff (shut st1)) CloseMachine) end) = Ok st' ∧
    cfg st' = cfg st1 ∧ edgePeers st' = edgePeers st1 ∧ conns st' = conns st1 ∧ floatingConnections st' = floatingConnections st1 ∧ kv st' = kv st1 ∧ (shut st' = shut st1 ∨ ∃ b, shut st' = set_phase (shut st1) (closeState (shut st1)) (shutdownDeadline (shut st1)) b))
    as (st2 & E & H1 & H2 & Hcn & Hfl & H3 & H4).
  { destruct (closeState (shut st1)); [eexists; split; [done|]..|].
    5: { exists st1. split; [done|]. split_and!; auto. }
    all: match goal with |- context [addCallback ?s ?t ?f] => destruct (addCallback_quiet s t f) as (Q1&Q2&Q3&Q4&Q5&Q6) end;
      rewrite Q1, Q2, Q3, Q4, Q5, Q6; cbn; split_and!; eauto. }
  exists ms, st2. split; [exact E|]. split.
  - destruct Hm as [M1 M2 M3 M4]. constructor; [congruence..| |by eapply edges_kept_trans; [|apply kept_same]]. intros y pi Hy. unfold findEdge in *. rewrite H2. by apply M3.
  - destruct Hcl as [Hcl Ht]. split; [|by rewrite H3]. destruct H4 as [->|[b ->]]; [done|].
    destruct Hcl. by constructor.
Qed.

(** *** Connections *)

(** The pending broadcasts that the edge turns out to want. *)
Definition replay_out (F : gset nat) (y : nat) (l : list (nat * Buffer)) : list Out :=
  mjoin ((λ p : nat * Buffer, if decide (p.1 ∈ F) then [OSend y p.2] else []) <$> l).

Lemma replay_edges_ok st y pi l : wf st → y ∈ nbrs → findEdge st y = Some pi →
  ∃ st', replay_edges sendMessage st y l = Ok st' ∧ outs st (replay_out (broadcastForwardFor pi) y l) st' ∧ same_rest st st'.
Proof using Hr.
  intros Hwf Hy Hpi. revert st pi Hwf Hpi. induction l as [|[s b] l IH]; intros st pi Hwf Hpi; cbn [replay_edges].
  { exists st. split; [done|]. split; [by apply outs_refl|done]. }
  unfold getEdge. rewrite Hpi. cbn [obind]. unfold replay_out. cbn [fmap list_fmap mjoin list_join fst snd]. fold (replay_out (broadcastForwardFor pi) y l).
  assert (∀ st1 o, outs st o st1 → same_rest st st1 →
    ∃ st', replay_edges sendMessage st1 y l = Ok st' ∧ outs st (o ++ replay_out (broadcastForwardFor pi) y l) st' ∧ same_rest st st') as Hgo.
  { intros st1 o Ho Hs. destruct (os_grown _ _ _ _ Ho y pi Hpi) as (pi1 & Hpi1 & Hg).
    destruct (IH st1 pi1 (outs_wf c nbrs _ _ _ Ho Hwf) Hpi1) as (st2 & -> & Ho2 & Hs2). exists st2. split; [done|].
    apply grown_same in Hg as (_ & _ & _ & _ & _ & E). rewrite E in Ho2. split; [by eapply outs_trans|by eapply same_rest_trans]. }
  destruct (decide (s ∈ broadcastForwardFor pi)) as [Hin|Hin].
  - rewrite bool_decide_true by done. rewrite (proj1 Hwf). unfold Store.sendMessage, call_fuel.
    destruct (send_nbr fmt resolveAddressSync shuffle_addrs now c nbrs Hr 1 st y b x Hwf Hy) as (st1 & -> & Ho & Hs); [apply Hr|]. cbn [obind].
    by apply Hgo.
  - rewrite bool_decide_false by done. cbn [obind]. apply (Hgo st []); [by apply outs_refl|done].
Qed.

Lemma infos_quiet src l st : silent st (foldl (λ st o, sendDiagnosticInfo fmt now st (odiag o) src Success (Established src)) st l).
Proof using Type.
  revert st. induction l as [|o l IH]; intros st; cbn [foldl]; [apply silent_refl|]. eapply silent_trans; [|apply IH]. apply sendDiagnosticInfo_quiet.
Qed.

(** The edge to [y] after a new connection. *)
Record linked (st : StoreImpl) (y : nat) (fwd : list nat) (st' : StoreImpl) : Prop := {
  co_cfg : cfg st' = cfg st;
  co_peers : (edgePeers st').*1 = (edgePeers st).*1;
  co_rest : same_rest st st';
  co_edge : ∃ pi pi0 pi1 pi', findEdge st y = Some pi ∧ findEdge st' y = Some pi' ∧
    let F := list_to_set fwd ∪ broadcastForwardFor pi in
    core_eq (set_connected pi [] true F) pi0 ∧ grown c y pi0 (replay_out F y (pendingBroadcasts pi)) pi1 ∧ core_eq (set_pending pi1 []) pi';
  co_other z pz : z ≠ y → findEdge st z = Some pz → ∃ pz', findEdge st' z = Some pz' ∧ grown c z pz [] pz';
  co_conn : ∃ conn, joined st y conn st'
}.

Lemma on_edge_replay z F y l : z ≠ y → on_edge z (replay_out F y l) = [].
Proof using Type.
  intros Hne. apply (on_edge_none y); [|done]. unfold replay_out. apply Forall_join, Forall_fmap, Forall_forall. intros p _.
  cbn. case_decide; by repeat constructor.
Qed.

Lemma on_edge_replay_eq F y l : on_edge y (replay_out F y l) = replay_out F y l.
Proof using Type.
  apply on_edge_all. unfold replay_out. apply Forall_join, Forall_fmap, Forall_forall. intros p _. cbn. case_decide; by repeat constructor.
Qed.

Lemma accept_ok st conn y m reply : wf st → y ∈ nbrs → tsourceRank m = y → length (firsthop c) = N → is_Some (conns st !! conn) →
  ∃ st', accept_peer fmt resolveAddressSync shuffle_addrs now st conn m reply = Ok st' ∧
    ((moved st [] st' ∧ same_rest st st') ∨ linked st y (broadcastForwardRanks m) st').
Proof using Hr.
  intros Hwf Hy Em Hlen Hconn. unfold accept_peer. rewrite Em. destruct (getEdge_nbr c nbrs st y Hwf Hy) as (pi & -> & Hpi). cbn [obind].
  destruct (closed (shut st) || negb (bool_decide (tcpconnections pi = []))).
  { eexists. split; [done|]. left. split; [|done]. constructor; [done|done| |].
    - intros z pz Hz. exists pz, pz. split; [done|]. by repeat constructor.
    - eapply edges_kept_trans; [exact (alters_kept st (λ x, mkConn (lastReceive x) (csource x) true) [conn] (λ _, eq_refl))|by apply kept_same]. }
  set (st1 := set_conns st _). set (F := list_to_set _ ∪ _). set (pi0 := set_connected pi [conn] true F). set (st2 := putEdge st1 y pi0).
  assert (findEdge st2 y = Some pi0) as Hpi0.
  { unfold findEdge, st2, putEdge in *. cbn. rewrite find_put by (by eexists). by rewrite decide_True. }
  assert (wf st2) as Hwf2 by (split; [apply Hwf|cbn; rewrite put_fst; apply Hwf]).
  unfold replayPendingBroadcasts. unfold getEdge at 1. rewrite Hpi0. cbn [obind].
  change (pendingBroadcasts pi0) with (pendingBroadcasts pi).
  destruct (replay_edges_ok st2 y pi0 (pendingBroadcasts pi) Hwf2 Hy Hpi0) as (st3 & -> & Ho & Hs). cbn [obind].
  change (broadcastForwardFor pi0) with F in Ho.
  destruct (os_grown _ _ _ _ Ho y pi0 Hpi0) as (pi1 & Hpi1 & Hg). rewrite on_edge_replay_eq in Hg.
  unfold getEdge. rewrite Hpi1. cbn [obind]. set (st4 := putEdge st3 y (set_pending pi1 [])).
  assert (findEdge st4 y = Some (set_pending pi1 [])) as Hpi4.
  { unfold findEdge, st4, putEdge in *. cbn. rewrite find_put by (by eexists). by rewrite decide_True. }
  rewrite Hpi4. cbn [obind]. rewrite (proj1 Hwf). unfold getBroadcastForwardRanks. rewrite bool_decide_true by lia. cbn [obind].
  match goal with |- context [if reply then Ok ?u else Ok ?v] => assert (∃ st5, (if reply then Ok u else Ok v) = Ok st5 ∧ silent st4 st5) as (st5 & -> & Hq5) end.
  { destruct reply; (eexists; split; [done|]); [eapply silent_trans|]; apply emit_quiet. }
  cbn [obind]. eexists. split; [done|]. right.
  match goal with |- linked _ _ _ (foldl ?g ?s ?l) =>
    assert (silent st4 (foldl g s l)) as Hq by (eapply silent_trans; [exact Hq5|]; eapply silent_trans; [|apply (emits_quiet (λ o, Write conn (PMessage (obuffer o))))]; apply infos_quiet) end.
  pose proof (silent_kept _ _ Hq) as Hkq. destruct Hq as (Q1&Q2&Q3&Q4&Q5&Q6).
  constructor.
  - rewrite Q1. change (cfg st4) with (cfg st3). by rewrite (os_cfg _ _ _ _ Ho).
  - rewrite Q4. change (edgePeers st4) with (put_peer (edgePeers st3) y (set_pending pi1 [])). rewrite put_fst, (os_peers _ _ _ _ Ho).
    cbn. by rewrite put_fst.
  - destruct Hs as [Hs1 Hs2]. split; [rewrite Q5; exact Hs1|rewrite Q6; exact Hs2].
  - exists pi, pi0, pi1, (set_pending pi1 []). split; [done|]. split; [unfold findEdge; rewrite Q4; exact Hpi4|]. split; [done|]. split; [exact Hg|done].
  - intros z pz Hne Hz. assert (findEdge st2 z = Some pz) as Hz2.
    { unfold findEdge, st2, putEdge in *. cbn. rewrite find_put by (by eexists). by rewrite decide_False. }
    destruct (os_grown _ _ _ _ Ho z pz Hz2) as (pz' & Hz3 & Hgz). rewrite on_edge_replay in Hgz by done. exists pz'. split; [|done].
    unfold findEdge in *. rewrite Q4. change (edgePeers st4) with (put_peer (edgePeers st3) y (set_pending pi1 [])).
    rewrite find_put by (by eexists). by rewrite decide_False.
  - exists conn. eapply joined_kept; [|eapply edges_kept_trans; [exact (outs_kept _ _ _ Ho)|eapply edges_kept_trans; [|exact Hkq]; by eapply put_kept]].
    constructor.
    + intros d. unfold source. cbn. case_decide as Ed; [subst d|by rewrite lookup_alter_ne]. rewrite lookup_alter_eq. destruct Hconn as [ci ->]. done.
    + intros d. cbn. by rewrite lookup_alter_is_Some.
    + by left.
    + intros z pz. unfold findEdge, st2, putEdge in *. cbn. rewrite find_put by (by eexists). case_decide as Ez; [subst z|eauto]. intros [= <-]. exists pi. split; [done|].
      cbn. intros d [->|[]%elem_of_nil]%elem_of_cons. by right.
Qed.
End steps.
