(* ===== verification/StoreNetFacts.v ===== *)
(** * No handler ever fails

    The invariant of all ranks together: every message on an edge has enough
    hops left, a broadcast only travels along the edges of a tree, and so no
    check of a handler fails. *)

From Stdlib Require Import ZArith Lia.
From stdpp Require Import base gmap option list strings.
From S2P Require Import Prelude StoreTopology StoreTopologyFacts Store StoreSendFacts StoreReactFacts StoreStepFacts.

Local Set Warnings "-clear-no-such-hyp".

Section net.
Context (fmt : Reason → string) (resolveAddressSync : string → list (list Z)) (shuffle_addrs : list (list Z) → list (list Z)).
Context (N : nat) (G : list (list nat)) (cfgs : nat → Config) (nb : nat → list nat) (dst : nat → nat → nat).

(** The tables of all ranks belong to the same graph; [dst] is the number of hops. *)
Record mesh_tables : Prop := {
  mt_rank x : (x < N)%nat → rank (cfgs x) = x ∧ worldSize (cfgs x) = N;
  mt_tables x : (x < N)%nat → tables_ok N G x (edges (cfgs x)) (firsthop (cfgs x));
  mt_nb x : (x < N)%nat → edges (cfgs x) !! x = Some (nb x);
  mt_dst x d : (x < N)%nat → (d < N)%nat → dist G x d (dst x d);
  mt_graph : graph_ok N G;
  mt_ring : has_ring N G;
  mt_small : Z.of_nat N < 2 ^ 31
}.
Context (Hmt : mesh_tables).

Definition hopf (x d : nat) : nat := hop (cfgs x) d.

Lemma nb_edge x y : (x < N)%nat → y ∈ nb x ↔ edge G x y.
Proof using Hmt.
  intros Hx. rewrite <- (ta_edge _ _ _ _ _ (mt_tables Hmt x Hx)). unfold edge. rewrite (mt_nb Hmt x Hx). naive_solver.
Qed.

Lemma nb_lt x y : (x < N)%nat → y ∈ nb x → (y < N)%nat ∧ y ≠ x ∧ x ∈ nb y.
Proof using Hmt.
  intros Hx Hy. apply nb_edge in Hy; [|done]. pose proof (mt_graph Hmt) as HG. destruct (edge_bound N G x y HG Hy) as [_ Hyw].
  split; [done|]. split; [intros ->; by apply (gr_irrefl _ _ HG x)|]. apply nb_edge; [done|]. by apply HG.
Qed.

Lemma dst_self x : (x < N)%nat → dst x x = 0%nat.
Proof using Hmt. intros Hx. destruct (mt_dst Hmt x x Hx Hx) as [_ H]. specialize (H 0%nat (walk_nil G x)). lia. Qed.

Lemma dst_zero x y : (x < N)%nat → (y < N)%nat → dst x y = 0%nat → x = y.
Proof using Hmt. intros Hx Hy E. destruct (mt_dst Hmt x y Hx Hy) as [H _]. rewrite E in H. by inversion H. Qed.

Lemma dst_sym x y : (x < N)%nat → (y < N)%nat → dst x y = dst y x.
Proof using Hmt.
  intros Hx Hy. destruct (mt_dst Hmt x y Hx Hy) as [H1 H2], (mt_dst Hmt y x Hy Hx) as [H3 H4].
  pose proof (gr_sym _ _ (mt_graph Hmt)) as Hs. apply Nat.le_antisymm; [apply H2|apply H4]; by apply walk_rev.
Qed.

Lemma dst_lt x y : (x < N)%nat → (y < N)%nat → (dst x y < N)%nat.
Proof using Hmt.
  intros Hx Hy. destruct (connected N G x y (mt_graph Hmt) (mt_ring Hmt) Hx Hy) as (n & Hn & Hlt).
  destruct (mt_dst Hmt x y Hx Hy) as [_ H]. specialize (H n Hn). lia.
Qed.

Lemma dst_one x y : (x < N)%nat → y ∈ nb x → dst x y = 1%nat.
Proof using Hmt.
  intros Hx Hy. destruct (nb_lt x y Hx Hy) as (Hyw & Hne & _). apply nb_edge in Hy; [|done].
  destruct (mt_dst Hmt x y Hx Hyw) as [_ H]. specialize (H 1%nat (walk_cons G x y y 0 Hy (walk_nil G y))).
  destruct (Nat.eq_dec (dst x y) 0%nat) as [E|]; [|lia]. apply dst_zero in E; [congruence|done|done].
Qed.

Lemma hop_spec x d : (x < N)%nat → (d < N)%nat → d ≠ x →
  firsthop (cfgs x) !! d = Some (hopf x d) ∧ hopf x d ∈ nb x ∧ dst x d = S (dst (hopf x d) d).
Proof using Hmt.
  intros Hx Hd Hne. destruct (ta_hop _ _ _ _ _ (mt_tables Hmt x Hx) d Hd Hne) as (f & Hf & He & m & H1 & H2).
  assert (hopf x d = f) as -> by (unfold hopf, hop; by rewrite Hf). split; [done|]. split; [by apply nb_edge|].
  assert (f < N)%nat as Hfw by (by apply (edge_bound N G x f (mt_graph Hmt) He)).
  rewrite (dist_fun G x d _ _ (mt_dst Hmt x d Hx Hd) H2), (dist_fun G f d _ _ (mt_dst Hmt f d Hfw Hd) H1). done.
Qed.

Lemma hop_self x : (x < N)%nat → firsthop (cfgs x) !! x = Some x ∧ hopf x x = x.
Proof using Hmt. intros Hx. pose proof (ta_self _ _ _ _ _ (mt_tables Hmt x Hx)) as H. unfold hopf, hop. by rewrite H. Qed.

(** The first hop to a neighbor is the neighbor. *)
Lemma hop_nb x y : (x < N)%nat → y ∈ nb x → hopf x y = y.
Proof using Hmt.
  intros Hx Hy. destruct (nb_lt x y Hx Hy) as (Hyw & Hne & _). destruct (hop_spec x y Hx Hyw Hne) as (_ & Hin & E).
  rewrite (dst_one x y Hx Hy) in E. apply dst_zero; [by apply (nb_lt x)|done|lia].
Qed.

Lemma routes_at x : (x < N)%nat → routes (cfgs x) (nb x).
Proof using Hmt.
  intros Hx. destruct (mt_rank Hmt x Hx) as [Er Ew]. constructor; rewrite ?Er, ?Ew.
  - done.
  - by apply hop_self.
  - intros y Hy. destruct (nb_lt x y Hx Hy) as (Hyw & Hne & _). split; [done|]. split; [done|].
    destruct (hop_spec x y Hx Hyw Hne) as (E & _). by rewrite hop_nb in E.
  - intros d Hd Hne. destruct (hop_spec x d Hx Hd Hne) as (E & Hin & _). eauto.
Qed.

(** ** Messages on edges *)

(** A message on the edge from [x] to [y]. *)
Definition msg_ok (x y : nat) (b : Buffer) : Prop :=
  let h := hdr b in
  (sourceRank h < N)%nat ∧ (destinationRank h < N)%nat ∧ (diagnosticSource h < N)%nat ∧ ttl h < 2 ^ 32 ∧
  if broadcast h then
    destinationRank h = y ∧ sourceRank h ≠ y ∧ hopf y (sourceRank h) = x ∧
    Z.of_nat N + 1 ≤ ttl h + Z.of_nat (dst (sourceRank h) y) ∧ is_cast (body b)
  else Z.of_nat (dst y (destinationRank h)) < ttl h ∧ ¬ is_cast (body b).

(** A broadcast that is kept until the edge connects. *)
Definition pend_ok (x y : nat) (p : nat * Buffer) : Prop :=
  sourceRank (hdr p.2) = p.1 ∧ broadcast (hdr p.2) = true ∧ is_cast (body p.2) ∧ (hopf y p.1 = x → msg_ok x y p.2).

Definition out_ok (x : nat) (o : Out) : Prop :=
  match o with OSend y b => y ∈ nb x ∧ msg_ok x y b | OPend y s b => y ∈ nb x ∧ pend_ok x y (s, b) end.

Record edge_ok (x y : nat) (pi : EdgeInfo) : Prop := {
  ed_queue : Forall (λ o, msg_ok x y (obuffer o)) (outgoingQueue pi);
  ed_pending : Forall (pend_ok x y) (pendingBroadcasts pi);
  ed_forward : everConnected pi = true → ∀ s, s ∈ broadcastForwardFor pi ↔ (s < N)%nat ∧ hopf y s = x;
  ed_unknown : everConnected pi = false → broadcastForwardFor pi = ∅;
  ed_known : everConnected pi = true → pendingBroadcasts pi = [];
  ed_sent s : s ∈ sentDiagnosticSourceFor pi → (s < N)%nat
}.

(** Every connection is to a neighbor, once it has introduced itself. *)
Record conns_ok (x : nat) (st : StoreImpl) : Prop := {
  cn_source conn z : source st conn = Some z → z ∈ nb x;
  cn_edge y pi conn : findEdge st y = Some pi → conn ∈ tcpconnections pi → is_Some (source st conn);
  cn_floating conn : conn ∈ floatingConnections st → is_Some (conns st !! conn)
}.

Record node_ok (x : nat) (st : StoreImpl) : Prop := {
  no_wf : wf (cfgs x) (nb x) st;
  no_states : length (shutdownStates (shut st)) = N;
  no_begun : (1 ≤ phase (shut st))%nat → is_Some (exitSourceRank (shut st));
  no_waiters : waiters_ok (cfgs x) (kv st);
  no_edge y pi : findEdge st y = Some pi → edge_ok x y pi;
  no_conns : conns_ok x st
}.

Record net_ok (net : list StoreImpl) : Prop := {
  ne_length : length net = N;
  ne_node x st : net !! x = Some st → node_ok x st
}.

Lemma msg_patch_seq x y b s : msg_ok x y (patch_seq b s) ↔ msg_ok x y b.
Proof using Type. done. Qed.

Lemma diag_ok x y d addrs : (x < N)%nat → y ∈ nb x → (d < N)%nat → msg_ok x y (diag_message (cfgs x) y d addrs).
Proof using Hmt.
  intros Hx Hy Hd. destruct (nb_lt x y Hx Hy) as (Hyw & Hne & _). destruct (mt_rank Hmt x Hx) as [Er Ew]. pose proof (mt_small Hmt).
  unfold msg_ok. cbn. rewrite Er, Ew, dst_self by done. split_and!; try done; lia.
Qed.

Lemma grown_ok x y pi l pi' : (x < N)%nat → y ∈ nb x → edge_ok x y pi → Forall (out_ok x) l → grown (cfgs x) y pi l pi' → edge_ok x y pi'.
Proof using Hmt.
  intros Hx Hy Hok Hl Hg. destruct (mt_rank Hmt x Hx) as [_ Ew].
  induction Hg as [pi|pi l pi1 b t d Hg IH|pi l pi1 d Hg IH Hd Hn|pi l pi1 d t addrs Hg IH Hd Hn|pi l pi1 s b Hg IH Hev]; [done|..].
  - apply Forall_app in Hl as [Hl Hb]. apply Forall_singleton in Hb as [_ Hb]. specialize (IH Hok Hl). destruct IH as [H1 H2 H3 H4 H5 H6].
    constructor; cbn; try done. apply Forall_app. split; [done|]. by apply Forall_singleton.
  - rewrite Ew in Hd. specialize (IH Hok Hl). destruct IH as [H1 H2 H3 H4 H5 H6]. constructor; cbn; try done. intros s [->%elem_of_singleton|?]%elem_of_union; auto.
  - rewrite Ew in Hd. specialize (IH Hok Hl). destruct IH as [H1 H2 H3 H4 H5 H6]. constructor; cbn; try done.
    + apply Forall_app. split; [done|]. apply Forall_singleton. by apply diag_ok.
    + intros s [->%elem_of_singleton|?]%elem_of_union; auto.
  - apply Forall_app in Hl as [Hl Hb]. apply Forall_singleton in Hb as [_ Hb]. specialize (IH Hok Hl). destruct IH as [H1 H2 H3 H4 H5 H6].
    constructor; cbn; try done; [|congruence]. apply Forall_app. split; [done|]. by apply Forall_singleton.
Qed.

Lemma on_edge_ok x y l : Forall (out_ok x) l → Forall (out_ok x) (on_edge y l).
Proof using Type. rewrite !Forall_forall. intros H o [_ Ho]%list_elem_of_filter. auto. Qed.

(** ** Sent messages are valid *)

Lemma made_ok x d id diag m : (x < N)%nat → (d < N)%nat → d ≠ x → (diag < N)%nat → ¬ is_cast m →
  out_ok x (OSend (hopf x d) (made (cfgs x) d id diag m)).
Proof using Hmt.
  intros Hx Hd Hne Hdi Hm. destruct (mt_rank Hmt x Hx) as [Er Ew]. destruct (hop_spec x d Hx Hd Hne) as (_ & Hin & E). pose proof (mt_small Hmt).
  pose proof (dst_lt x d Hx Hd). split; [done|]. unfold msg_ok. cbn. rewrite Er, Ew. split_and!; try done; lia.
Qed.

Lemma cast_ok x y m : (x < N)%nat → y ∈ nb x → is_cast m → out_ok x (OSend y (cast (cfgs x) m y)).
Proof using Hmt.
  intros Hx Hy Hm. destruct (mt_rank Hmt x Hx) as [Er Ew]. destruct (nb_lt x y Hx Hy) as (Hyw & Hne & Hxy). pose proof (mt_small Hmt).
  split; [done|]. unfold msg_ok. cbn. rewrite Er, Ew. split_and!; try done; try lia; [by apply hop_nb|]. rewrite (dst_one x y Hx Hy). lia.
Qed.

Lemma reply_out_ok x d id diag r : (x < N)%nat → (d < N)%nat → (diag < N)%nat → Forall (out_ok x) (reply_out (cfgs x) d id diag r).
Proof using Hmt.
  intros Hx Hd Hdi. unfold reply_out. destruct (mt_rank Hmt x Hx) as [-> _]. case_decide; [constructor|]. apply Forall_singleton. apply made_ok; try done. by intros [].
Qed.

Lemma casts_ok x ms : (x < N)%nat → Forall is_cast ms → Forall (out_ok x) (casts (cfgs x) (nb x) ms).
Proof using Hmt.
  intros Hx Hms. unfold casts. apply Forall_join, Forall_fmap. eapply Forall_impl; [exact Hms|]. intros m Hm. cbn.
  apply Forall_fmap, Forall_forall. intros y Hy. by apply cast_ok.
Qed.

Lemma answers_out_ok x l v : (x < N)%nat → Forall (λ w, (wsource w < N)%nat ∧ (wdiag w < N)%nat) l → Forall (out_ok x) (answers_out (cfgs x) l v).
Proof using Hmt.
  intros Hx Hl. unfold answers_out. apply Forall_join, Forall_fmap. eapply Forall_impl; [exact Hl|]. intros w [H1 H2]. by apply reply_out_ok.
Qed.

(** A broadcast that is sent on. *)
Lemma forwarded_ok x y s b t : (x < N)%nat → y ∈ nb x → msg_ok (hopf x s) x b → sourceRank (hdr b) = s → broadcast (hdr b) = true → t = u32 (ttl (hdr b) - 1) →
  hopf y s = x → msg_ok x y (patch_dest (patch_ttl b t) y).
Proof using Hmt.
  intros Hx Hy (H1 & H2 & H3 & H4 & H5) Es Eb -> Hhop. rewrite Eb in H5. destruct H5 as (H5 & H6 & H7 & H8 & H9). rewrite Es in *.
  destruct (nb_lt x y Hx Hy) as (Hyw & Hne & _).
  assert (s ≠ y) as Hsy by (intros ->; destruct (hop_self y Hyw); congruence).
  destruct (hop_spec y s Hyw H1 Hsy) as (_ & _ & E). rewrite Hhop in E. rewrite (dst_sym s x H1 Hx) in H8.
  pose proof (dst_lt x s Hx H1).
  assert (u32 (ttl (hdr b) - 1) = ttl (hdr b) - 1) as Et by (apply Z.mod_small; lia).
  unfold msg_ok. cbn. rewrite Eb, Es, Et, (dst_sym s y H1 Hyw). split_and!; try done; lia.
Qed.

Lemma forward_out_ok x st s b sender y : (x < N)%nat → node_ok x st → y ∈ nb x → msg_ok sender x b → sourceRank (hdr b) = s → broadcast (hdr b) = true →
  Forall (out_ok x) (forward_out st s b (u32 (ttl (hdr b) - 1)) sender y).
Proof using Hmt.
  intros Hx Hno Hy Hb Es Eb. unfold forward_out. destruct (findEdge st y) as [pi|] eqn:Hpi; [|constructor]. pose proof (no_edge _ _ Hno y pi Hpi) as He.
  assert (sender = hopf x s) as Hsend.
  { destruct Hb as (_ & _ & _ & _ & H5). rewrite Eb, Es in H5. naive_solver. } subst sender.
  case_decide; [constructor|]. destruct (everConnected pi) eqn:Hev.
  - case_decide as Hin; [|constructor]. apply (ed_forward _ _ _ He Hev) in Hin as [_ Hhop]. apply Forall_singleton. split; [done|].
    by apply (forwarded_ok x y s b).
  - apply Forall_singleton. split; [done|]. split; [done|]. split; [done|]. split.
    + destruct Hb as (_ & _ & _ & _ & H5). rewrite Eb in H5. cbn. tauto.
    + intros Hhop. by apply (forwarded_ok x y s b).
Qed.

(** What the handler of an arriving message sends. *)
Definition arrive_out (x : nat) (st : StoreImpl) (b : Buffer) (sender : nat) : list Out :=
  if decide (destinationRank (hdr b) = x) then reaction_forward (nb x) st b sender ++ reaction_out (cfgs x) (nb x) (kv st) (shut st) b
  else [OSend (hopf x (destinationRank (hdr b))) (patch_ttl b (u32 (ttl (hdr b) - 1)))].
Definition arrive_kv (x : nat) (st : StoreImpl) (b : Buffer) : KV :=
  if decide (destinationRank (hdr b) = x) then reaction_kv (cfgs x) (kv st) (shut st) b else kv st.
Definition arrive_shut (x : nat) (st : StoreImpl) (b : Buffer) : Shutdown :=
  if decide (destinationRank (hdr b) = x) then reaction_shut (shut st) b else shut st.

Lemma reaction_out_ok x st b : (x < N)%nat → node_ok x st → (sourceRank (hdr b) < N)%nat → (diagnosticSource (hdr b) < N)%nat →
  Forall (out_ok x) (reaction_out (cfgs x) (nb x) (kv st) (shut st) b).
Proof using Hmt.
  intros Hx Hno Hs Hd. unfold reaction_out. destruct (mt_rank Hmt x Hx) as [Er Ew].
  destruct (body b); try constructor; unfold get_out, set_out_of; repeat case_match; try constructor; try (by apply reply_out_ok).
  - apply Forall_app. split; [|by apply reply_out_ok]. apply answers_out_ok; [done|].
    destruct (storeWaiters (kv st) !! key) as [l|] eqn:E; [|constructor]. pose proof (no_waiters _ _ Hno key l E) as H. by rewrite Ew in H.
  - apply Forall_fmap, Forall_forall. intros y Hy. by apply cast_ok.
Qed.

Lemma arrive_out_ok x st b sender : (x < N)%nat → node_ok x st → msg_ok sender x b → Forall (out_ok x) (arrive_out x st b sender).
Proof using Hmt.
  intros Hx Hno Hb. pose proof Hb as (H1 & H2 & H3 & H4 & H5). unfold arrive_out. case_decide as Hd.
  - apply Forall_app. split; [|by apply reaction_out_ok]. unfold reaction_forward. destruct (broadcast (hdr b)) eqn:Eb; [|constructor].
    apply Forall_join, Forall_fmap, Forall_forall. intros y Hy. by apply forward_out_ok.
  - apply Forall_singleton. destruct (broadcast (hdr b)) eqn:Eb; [naive_solver|].
    destruct (hop_spec x _ Hx H2 Hd) as (_ & Hin & E). split; [done|]. unfold msg_ok. cbn. rewrite Eb.
    assert (u32 (ttl (hdr b) - 1) = ttl (hdr b) - 1) as -> by (apply Z.mod_small; lia). split_and!; try done; [lia|lia|tauto].
Qed.

(** ** Arrival of a message *)

Lemma arrive x now st b sender : (x < N)%nat → node_ok x st → msg_ok sender x b →
  ∃ st', processMessage fmt resolveAddressSync shuffle_addrs now st b sender = Ok st' ∧ outs (cfgs x) st (arrive_out x st b sender) st' ∧
    kv st' = arrive_kv x st b ∧ shut st' = arrive_shut x st b.
Proof using Hmt.
  intros Hx Hno Hb. pose proof Hb as (H1 & H2 & H3 & H4 & H5). destruct (mt_rank Hmt x Hx) as [Er Ew].
  unfold arrive_out, arrive_kv, arrive_shut, Store.processMessage, call_fuel. case_decide as Hd.
  - apply (process_local fmt resolveAddressSync shuffle_addrs now (cfgs x) (nb x) (routes_at x Hx) 0); rewrite ?Er, ?Ew; try done; [apply Hno| |apply Hno].
    intros Eb. rewrite Eb in H5. pose proof (dst_lt (sourceRank (hdr b)) x H1 Hx). lia.
  - destruct (process_forward fmt resolveAddressSync shuffle_addrs now (cfgs x) (nb x) (routes_at x Hx) 0 st b sender) as (st' & -> & Ho & Hk & Hs);
      rewrite ?Er, ?Ew; try done; [apply Hno| |by exists st'].
    destruct (broadcast (hdr b)); [naive_solver|lia].
Qed.

Lemma reaction_waiters x k s b : (x < N)%nat → waiters_ok (cfgs x) k → (sourceRank (hdr b) < N)%nat → (diagnosticSource (hdr b) < N)%nat →
  waiters_ok (cfgs x) (reaction_kv (cfgs x) k s b).
Proof using Hmt.
  intros Hx Hw Hs Hd. destruct (mt_rank Hmt x Hx) as [Er Ew].
  assert (∀ key w, (wsource w < N)%nat → (wdiag w < N)%nat → waiters_ok (cfgs x) (get_kv (cfgs x) k key w)) as Hget.
  { intros key w H1 H2. unfold get_kv. destruct (store k !! key) as [v|].
    - intros key' l. destruct (reply_kv_store (cfgs x) k (wsource w) (wid w) (answer_reply w v)) as (_ & -> & _). apply Hw.
    - intros key' l. cbn. rewrite lookup_insert_Some. intros [[<- <-]|[_ Hl]]; [|by apply (Hw key')].
      apply Forall_app. split; [|apply Forall_singleton; by rewrite Ew]. destruct (storeWaiters k !! key) as [l|] eqn:E; [by apply (Hw key)|constructor]. }
  unfold reaction_kv. destruct (body b); try done; try (by apply Hget).
  - intros key' l. destruct (done_kv_store k (hid (hdr b)) r) as (_ & -> & _). apply Hw.
  - intros key' l. destruct (reply_kv_store (cfgs x) (set_kv_of (cfgs x) k key value) (sourceRank (hdr b)) (hid (hdr b)) ReplyNone) as (_ & -> & _).
    unfold set_kv_of. destruct (answers_kv_store (cfgs x) (default [] (storeWaiters k !! key)) (set_store k (<[key:=value]> (store k)) (delete key (storeWaiters k))) value) as (_ & -> & _).
    cbn. rewrite lookup_delete_Some. intros [_ Hl]. by apply (Hw key').
  - intros key' l. destruct (reply_kv_store (cfgs x) k (sourceRank (hdr b)) (hid (hdr b)) (ReplyBool (bool_decide (is_Some (store k !! key))))) as (_ & -> & _). apply Hw.
  - by case_match.
Qed.

(** ** Steps of a rank *)

Lemma core_ok x y pi pi' : core_eq pi pi' → edge_ok x y pi → edge_ok x y pi'.
Proof using Type. intros (E1 & E2 & E3 & E4 & E5 & _) [H1 H2 H3 H4 H5 H6]. constructor; rewrite ?E1, ?E2, ?E3, ?E4, ?E5; done. Qed.

Lemma edges_kept_ok x st st' : kept st st' → conns_ok x st → conns_ok x st'.
Proof using Type.
  intros [K1 K2 K3 K4] [C1 C2 C3]. constructor.
  - intros conn z. rewrite K1. apply C1.
  - intros y pi' conn (pi & Hy & H)%K4 Hin. rewrite K1. by apply (C2 y pi), H.
  - intros conn [H|H]%K3; [|done]. by apply K2, C3.
Qed.

Lemma joined_ok x st y conn st' : y ∈ nb x → joined st y conn st' → conns_ok x st → conns_ok x st'.
Proof using Type.
  intros Hy [K1 K2 K3 K4] [C1 C2 C3]. constructor.
  - intros d z. rewrite K1. case_decide; [by intros [= <-]|apply C1].
  - intros z pi' d (pi & Hz & H)%K4 Hin. rewrite K1. case_decide; [by eexists|]. destruct (H d Hin) as [Hd|]; [|done]. by apply (C2 z pi).
  - intros d [H|H]%K3; [|done]. by apply K2, C3.
Qed.

Lemma peer_nb x st y pi : wf (cfgs x) (nb x) st → findEdge st y = Some pi → y ∈ nb x.
Proof using Type. intros [_ Hn] Hy. rewrite <- Hn. apply find_is_Some. by exists pi. Qed.

Lemma nb_peer x st y : wf (cfgs x) (nb x) st → y ∈ nb x → ∃ pi, findEdge st y = Some pi.
Proof using Type. intros [_ Hn] Hy. rewrite <- Hn in Hy. by apply find_is_Some in Hy. Qed.

Lemma moved_ok x st l st' : (x < N)%nat → node_ok x st → moved (cfgs x) st l st' → Forall (out_ok x) l →
  length (shutdownStates (shut st')) = N → ((1 ≤ phase (shut st'))%nat → is_Some (exitSourceRank (shut st'))) → waiters_ok (cfgs x) (kv st') →
  node_ok x st'.
Proof using Hmt.
  intros Hx Hno [M1 M2 M3 M4] Hl Hs Hb Hw. pose proof (no_wf _ _ Hno) as [Hc Hn]. constructor; try done; [split; congruence| |eapply edges_kept_ok; [exact M4|apply Hno]].
  intros y pi' Hy'. assert (y ∈ nb x) as Hy by (rewrite <- Hn, <- M2; apply find_is_Some; by exists pi').
  destruct (nb_peer x st y (conj Hc Hn) Hy) as [pi Hpi]. destruct (M3 y pi Hpi) as (pi1 & pi2 & E2 & Hg & Hce).
  assert (pi2 = pi') as -> by congruence. eapply core_ok; [exact Hce|]. eapply grown_ok; [done|done|by apply Hno|by apply on_edge_ok|exact Hg].
Qed.

Lemma told_waiters x k k' : told k k' → waiters_ok (cfgs x) k → waiters_ok (cfgs x) k'.
Proof using Type. intros (_ & _ & _ & E & _) H. unfold waiters_ok. by rewrite E. Qed.

Lemma reaction_shut_ok s b :
  length (shutdownStates (reaction_shut s b)) = length (shutdownStates s) ∧ phase (reaction_shut s b) = phase s ∧
  (is_Some (exitSourceRank s) → is_Some (exitSourceRank (reaction_shut s b))).
Proof using Type.
  unfold reaction_shut. destruct (body b); try done.
  - unfold note_shutdown, note. cbn. destruct (exitSourceRank s) eqn:E; cbn; rewrite ?length_alter, ?E; done.
  - unfold note_exit, note. cbn. destruct (exited s); cbn; rewrite ?length_alter; [done|]. split; [done|]. split; [done|]. by intros [r ->].
  - unfold note_exit_ack, note. cbn. by rewrite length_alter.
Qed.

(** The rank after a message has arrived. *)
Lemma arrived_ok x st b sender st' : (x < N)%nat → node_ok x st → msg_ok sender x b → outs (cfgs x) st (arrive_out x st b sender) st' →
  kv st' = arrive_kv x st b → shut st' = arrive_shut x st b → node_ok x st'.
Proof using Hmt.
  intros Hx Hno Hb Ho Hk Hs. pose proof Hb as (H1 & H2 & H3 & _). destruct (reaction_shut_ok (shut st) b) as (R1 & R2 & R3).
  eapply moved_ok; [done|exact Hno|by apply outs_moved|by apply arrive_out_ok|..]; rewrite ?Hk, ?Hs; unfold arrive_kv, arrive_shut; case_decide.
  - rewrite R1. apply Hno.
  - apply Hno.
  - rewrite R2. intros Hph. apply R3. by apply Hno.
  - apply Hno.
  - apply reaction_waiters; try done. apply Hno.
  - apply Hno.
Qed.

Lemma arrive_ok x now st b sender : (x < N)%nat → node_ok x st → msg_ok sender x b →
  ∃ st', processMessage fmt resolveAddressSync shuffle_addrs now st b sender = Ok st' ∧ outs (cfgs x) st (arrive_out x st b sender) st' ∧
    kv st' = arrive_kv x st b ∧ shut st' = arrive_shut x st b ∧ node_ok x st'.
Proof using Hmt.
  intros Hx Hno Hb. destruct (arrive x now st b sender Hx Hno Hb) as (st' & E & Ho & Hk & Hs). exists st'. split_and!; try done. by eapply arrived_ok.
Qed.

(** The rank after a step of the shutdown. *)
Lemma turned_ok x st ms st' : (x < N)%nat → node_ok x st → moved (cfgs x) st (casts (cfgs x) (nb x) ms) st' → closes (cfgs x) st ms st' → node_ok x st'.
Proof using Hmt.
  intros Hx Hno Hm [Hcl Ht]. eapply moved_ok; [done|exact Hno|exact Hm|apply casts_ok; [done|apply Hcl]|..].
  - rewrite (cl_states _ _ _ _ Hcl). apply Hno.
  - intros H. destruct (cl_begun _ _ _ _ Hcl H) as [H'|H']; [|done]. apply (cl_source _ _ _ _ Hcl). by apply Hno.
  - eapply told_waiters; [exact Ht|apply Hno].
Qed.

Lemma close_node_ok x now st : (x < N)%nat → node_ok x st →
  ∃ ms st', runCloseStateMachine fmt resolveAddressSync shuffle_addrs now st = Ok st' ∧ moved (cfgs x) st (casts (cfgs x) (nb x) ms) st' ∧
    closes (cfgs x) st ms st' ∧ node_ok x st'.
Proof using Hmt.
  intros Hx Hno. destruct (mt_rank Hmt x Hx) as [Er Ew].
  destruct (close_ok fmt resolveAddressSync shuffle_addrs now (cfgs x) (nb x) (routes_at x Hx) st (no_wf _ _ Hno)) as (ms & st' & E & Hm & Hcl).
  { rewrite Ew. apply Hno. } { apply Hno. }
  exists ms, st'. split; [done|]. split; [done|]. split; [done|]. by eapply turned_ok.
Qed.

(** The ranks that a peer routes through this one. *)
Lemma forward_ranks x y : (x < N)%nat → y ∈ nb x →
  getBroadcastForwardRanks N (firsthop (cfgs y)) x = Ok (filter (λ r, firsthop (cfgs y) !! r = Some x) (seq 0 N)) ∧
  ∀ s, s ∈ filter (λ r, firsthop (cfgs y) !! r = Some x) (seq 0 N) ↔ (s < N)%nat ∧ hopf y s = x.
Proof using Hmt.
  intros Hx Hy. destruct (nb_lt x y Hx Hy) as (Hyw & Hne & _). split.
  - unfold getBroadcastForwardRanks. by rewrite (ta_hops _ _ _ _ _ (mt_tables Hmt y Hyw)), bool_decide_true.
  - intros s. rewrite list_elem_of_filter, elem_of_seq. split.
    + intros [E Hs]. split; [lia|]. unfold hopf, hop. by rewrite E.
    + intros [Hs <-]. split; [|lia]. destruct (decide (s = y)) as [->|Hsy]; [destruct (hop_self y Hyw); congruence|]. by apply hop_spec.
Qed.

Lemma linked_ok x y st fwd st' : (x < N)%nat → y ∈ nb x → node_ok x st → (∀ s, s ∈ fwd ↔ (s < N)%nat ∧ hopf y s = x) → linked (cfgs x) st y fwd st' → node_ok x st'.
Proof using Hmt.
  intros Hx Hy Hno Hfwd [L1 L2 [L3 L3'] (pi & pi0 & pi1 & pi' & Hpi & Hpi' & Hc0 & Hg & Hc1) L5 [conn L6]]. pose proof (no_wf _ _ Hno) as [Hc Hn].
  pose proof (no_edge _ _ Hno y pi Hpi) as Hed.
  assert (list_to_set fwd ∪ broadcastForwardFor pi = (list_to_set fwd : gset nat)) as HF.
  { destruct (everConnected pi) eqn:Ev; [|rewrite (ed_unknown _ _ _ Hed Ev); set_solver].
    apply set_eq. intros s. rewrite elem_of_union, elem_of_list_to_set, (ed_forward _ _ _ Hed Ev s), Hfwd. tauto. }
  rewrite HF in *. constructor; [split; congruence|rewrite L3'; apply Hno|rewrite L3'; apply Hno|rewrite L3; apply Hno| |by eapply joined_ok, Hno].
  intros z pz' Hz'. destruct (decide (z = y)) as [->|Hzy].
  - assert (pz' = pi') as -> by congruence. eapply core_ok; [exact Hc1|].
    eapply (grown_ok x y (set_pending pi0 []) (replay_out (list_to_set fwd) y (pendingBroadcasts pi))); [done|done|..].
    + destruct Hc0 as (E1 & E2 & E3 & E4 & E5 & _). cbn in *. constructor; cbn; rewrite ?E1, ?E2, ?E3, ?E4; try done; try apply Hed.
      intros _ s. by rewrite elem_of_list_to_set, Hfwd.
    + apply Forall_join, Forall_fmap. eapply Forall_impl; [apply (ed_pending _ _ _ Hed)|]. intros [s b] (P1 & P2 & P3 & P4). cbn in *.
      case_decide as Hin; [|constructor]. apply elem_of_list_to_set, Hfwd in Hin as [_ Hin]. apply Forall_singleton. split; [done|]. auto.
    + apply grown_clear; [|exact Hg]. apply Forall_join, Forall_fmap, Forall_forall. intros p _. cbn. case_decide; by repeat constructor.
  - assert (z ∈ nb x) as Hz by (rewrite <- Hn, <- L2; apply find_is_Some; by exists pz').
    destruct (nb_peer x st z (conj Hc Hn) Hz) as [pz Hpz]. destruct (L5 z pz Hzy Hpz) as (p2 & E2 & Hg2). assert (p2 = pz') as -> by congruence.
    eapply grown_ok; [done|done|by apply Hno|constructor|exact Hg2].
Qed.

(** ** Steps of the network *)

Lemma node_at net x : net_ok net → (x < N)%nat → ∃ st, net !! x = Some st ∧ node_ok x st.
Proof using Type.
  intros Hn Hx. destruct (lookup_lt_is_Some_2 net x) as [st Hst]; [by rewrite (ne_length _ Hn)|]. exists st. split; [done|by apply Hn].
Qed.

Lemma net_set net x st : net_ok net → (x < N)%nat → node_ok x st → net_ok (<[x := st]> net).
Proof using Type.
  intros [H1 H2] Hx Hst. constructor; [by rewrite length_insert|]. intros z sz. destruct (decide (z = x)) as [->|Hne].
  - rewrite list_lookup_insert_eq by lia. by intros [= <-].
  - rewrite list_lookup_insert_ne by done. apply H2.
Qed.

(** The sender without the message that arrives. *)
Definition pop (st : StoreImpl) (y : nat) (pi : EdgeInfo) (q : list OutgoingMessage) : StoreImpl := putEdge st y (set_outgoing pi (outgoingSeq pi) q).

Lemma find_pop st y pi q z : findEdge st y = Some pi →
  findEdge (pop st y pi q) z = if decide (y = z) then Some (set_outgoing pi (outgoingSeq pi) q) else findEdge st z.
Proof using Type. intros Hy. unfold findEdge, pop, putEdge in *. cbn. by rewrite find_put by (by eexists). Qed.

Lemma pop_ok x y st pi o q : node_ok x st → findEdge st y = Some pi → outgoingQueue pi = o :: q → node_ok x (pop st y pi q) ∧ msg_ok x y (obuffer o).
Proof using Type.
  intros Hno Hy Hq. pose proof (no_edge _ _ Hno y pi Hy) as He. pose proof (ed_queue _ _ _ He) as Hqs. rewrite Hq in Hqs. apply Forall_cons in Hqs as [Ho Hqs].
  split; [|done]. destruct Hno as [N1 N2 N3 N4 N5 N6]. constructor; try done; [..|by eapply edges_kept_ok; [eapply put_kept|]].
  - split; [apply N1|cbn; rewrite put_fst; apply N1].
  - intros z pz. rewrite find_pop by done. case_decide as E; [subst z|by apply N5]. intros [= <-]. destruct He. constructor; done.
Qed.

(** A peer introduces itself: it is refused, or the edge is linked. *)
Lemma introduce_ok x y now st conn id (reply : bool) : (x < N)%nat → y ∈ nb x → node_ok x st → is_Some (conns st !! conn) →
  let fwd := filter (λ r, firsthop (cfgs y) !! r = Some x) (seq 0 N) in
  let m := mkTcpConnect (storekey (cfgs x)) y id x (myId (cfgs x)) fwd in
  ∃ st', onreadtcp fmt resolveAddressSync shuffle_addrs now st conn (if reply then PConnectAck m else PConnect m) = Ok st' ∧ node_ok x st' ∧
    ((moved (cfgs x) st [] st' ∧ same_rest st st') ∨ linked (cfgs x) st y fwd st').
Proof using Hmt.
  intros Hx Hy Hno Hconn fwd m. destruct (mt_rank Hmt x Hx) as [Er Ew].
  destruct (forward_ranks x y Hx Hy) as [_ Hfwd]. pose proof (no_wf _ _ Hno) as [Hc Hn].
  destruct (accept_ok fmt resolveAddressSync shuffle_addrs now (cfgs x) (nb x) (routes_at x Hx) st conn y m (negb reply)) as (st' & E & H); [done|done|done| |done|].
  { rewrite Ew. apply (ta_hops _ _ _ _ _ (mt_tables Hmt x Hx)). }
  exists st'. split.
  - unfold onreadtcp. destruct Hconn as [ci ->]. cbn [of_option obind]. rewrite Hc.
    destruct reply; cbn [tkey tdestinationRank tdestinationId tsourceRank m]; rewrite Er, !bool_decide_true by done; cbn [andb];
      unfold vec_get; rewrite (mt_nb Hmt x Hx); cbn [of_option obind]; by rewrite bool_decide_true.
  - split; [|exact H]. destruct H as [[Hm [Hk Hs]]|Hl].
    + eapply moved_ok; [done|exact Hno|exact Hm|constructor|..]; rewrite ?Hk, ?Hs; apply Hno.
    + by eapply linked_ok.
Qed.
End net.
