(* ===== verification/StoreConnFacts.v ===== *)
(** * Opening and losing connections

    The operations of file StoreConn succeed, and leave the messages of all
    edges, the keys and the shutdown alone. *)

From Stdlib Require Import ZArith Lia.
From stdpp Require Import base gmap option list strings.
From S2P Require Import Prelude StoreTopology StoreTopologyFacts Store StoreConn StoreSendFacts StoreReactFacts StoreStepFacts StoreNetFacts.

(** ** Changes that other ranks do not notice *)

Record idle (st st' : StoreImpl) : Prop := {
  id_cfg : cfg st' = cfg st;
  id_peers : (edgePeers st').*1 = (edgePeers st).*1;
  id_edge y pi : findEdge st y = Some pi → ∃ pi', findEdge st' y = Some pi' ∧ core_eq pi pi';
  id_kept : kept st st';
  id_rest : same_rest st st'
}.

Lemma core_refl pi : core_eq pi pi.
Proof. by repeat split. Qed.

Lemma core_trans a b d : core_eq a b → core_eq b d → core_eq a d.
Proof. intros (?&?&?&?&?&?&?&?) (?&?&?&?&?&?&?&?). repeat split; congruence. Qed.

Lemma idle_refl st : idle st st.
Proof. constructor; try done; [|apply kept_refl]. intros y pi Hy. exists pi. split; [done|apply core_refl]. Qed.

Lemma idle_trans a b d : idle a b → idle b d → idle a d.
Proof.
  intros [A1 A2 A3 A4 A5] [B1 B2 B3 B4 B5]. constructor; [congruence..| |by eapply edges_kept_trans|by eapply same_rest_trans].
  intros y pi (p1 & H1 & E1)%A3. destruct (B3 y p1 H1) as (p2 & H2 & E2). exists p2. split; [done|by eapply core_trans].
Qed.

Lemma idle_moved c st st' : idle st st' → moved c st [] st' ∧ same_rest st st'.
Proof.
  intros [A1 A2 A3 A4 A5]. split; [|done]. constructor; [done|done| |done]. intros y pi (p & Hp & E)%A3. exists pi, p. split; [done|]. split; [constructor|done].
Qed.

Lemma silent_idle st st' : silent st st' → idle st st'.
Proof.
  intros Hs. pose proof (silent_kept _ _ Hs). destruct Hs as (E1 & _ & _ & E4 & Hr). constructor; try done; [by rewrite E4|].
  intros y pi. unfold findEdge. rewrite E4. exists pi. split; [done|apply core_refl].
Qed.

Lemma put_idle st y pi pi' : findEdge st y = Some pi → core_eq pi pi' → (∀ conn, conn ∈ tcpconnections pi' → conn ∈ tcpconnections pi) → idle st (putEdge st y pi').
Proof.
  intros Hy Hc Ht. constructor; [done|cbn; by rewrite put_fst| |by eapply put_kept|done]. intros z pz Hz. unfold findEdge, putEdge in *. cbn. rewrite find_put by (by eexists).
  case_decide as E; [subst z|exists pz; split; [done|apply core_refl]]. exists pi'. split; [done|]. by assert (pz = pi) as -> by congruence.
Qed.

Lemma conns_idle st m fl : (∀ conn, (m !! conn ≫= csource) = source st conn) → (∀ conn, is_Some (conns st !! conn) → is_Some (m !! conn)) →
  (∀ conn, conn ∈ fl → conn ∈ floatingConnections st ∨ is_Some (m !! conn)) → idle st (set_conns (set_floating st fl) m).
Proof.
  intros H1 H2 H3. constructor; try done; [intros y pi Hy; exists pi; split; [done|apply core_refl]|]. constructor; [done|done|done|eauto].
Qed.

Lemma alter_idle st f conn : (∀ x, csource (f x) = csource x) → idle st (set_conns st (alter f conn (conns st))).
Proof.
  intros H. constructor; try done; [intros y pi Hy; exists pi; split; [done|apply core_refl]|]. exact (alters_kept st f [conn] H).
Qed.

Lemma close_conn_idle st conn : idle st (close_conn st conn).
Proof. eapply idle_trans; [exact (alter_idle st (λ x, mkConn (lastReceive x) (csource x) true) conn (λ _, eq_refl))|by apply silent_idle]. Qed.

Lemma touch_idle now st conn : idle st (touch now st conn).
Proof. exact (alter_idle st (λ x, mkConn now (csource x) (cclosed x)) conn (λ _, eq_refl)). Qed.

Section conn.
Context (fmt : Reason → string) (isReachable : string → string → bool) (now : Z).
Context (c : Config) (nbrs : list nat) (Hr : routes c nbrs).

Local Abbreviation wf := (wf c nbrs).
Local Abbreviation N := (worldSize c).

Lemma idle_wf st st' : idle st st' → wf st → wf st'.
Proof using Type. intros [A1 A2 _ _ _] [W1 W2]. split; congruence. Qed.

Lemma addConnection_ok st conn : closed (shut st) = false → conns st !! conn = None → ∃ st', addConnection now st conn = Ok st' ∧ idle st st'.
Proof using Type.
  intros Hc Hn. unfold addConnection. rewrite Hc. cbn [negb CHECK obind]. eexists. split; [done|]. apply conns_idle.
  - intros d. unfold source. destruct (decide (d = conn)) as [->|Hne]; [by rewrite lookup_insert_eq, Hn|by rewrite lookup_insert_ne].
  - intros d. by rewrite lookup_insert_is_Some'; right.
  - intros d [H| ->%list_elem_of_singleton]%elem_of_app; [by left|right]. rewrite lookup_insert_eq. by eexists.
Qed.

Lemma accept_connection_ok st conn : conns st !! conn = None → ∃ st', accept_connection now st conn = Ok st' ∧ idle st st'.
Proof using Type.
  intros Hn. unfold accept_connection. destruct (closed (shut st)) eqn:E; [exists st; split; [done|apply idle_refl]|by apply addConnection_ok].
Qed.

Lemma reap_idle st y : wf st → y ∈ nbrs → ∃ st' pi, reaptcpconnections st y = Ok st' ∧ idle st st' ∧ findEdge st' y = Some pi.
Proof using Type.
  intros Hwf Hy. unfold reaptcpconnections. destruct (getEdge_nbr c nbrs st y Hwf Hy) as (pi & -> & Hpi). cbn [obind]. eexists _, _. split; [done|]. split.
  - eapply put_idle; [done|by repeat split|]. cbn. intros conn [_ H]%list_elem_of_filter. done.
  - unfold findEdge, putEdge in *. cbn. rewrite find_put by (by eexists). by rewrite decide_True.
Qed.

Lemma lost_infos src error l st : silent st (foldl (λ st v, sendDiagnosticInfo fmt now st (odiag v) src Error (ConnectionLost src error)) st l).
Proof using Type.
  revert st. induction l as [|o l IH]; intros st; cbn [foldl]; [apply silent_refl|]. eapply silent_trans; [|apply IH]. apply sendDiagnosticInfo_quiet.
Qed.

Lemma connection_lost_ok st conn error : wf st → is_Some (conns st !! conn) → (∀ z, source st conn = Some z → z ∈ nbrs) →
  ∃ st', connection_lost fmt now st conn error = Ok st' ∧ idle st st'.
Proof using Type.
  intros Hwf [ci Hci] Hs. unfold connection_lost, source in *. rewrite Hci in *. cbn [of_option obind mbind option_bind] in *.
  destruct (csource ci) as [src|]; [|exists st; split; [done|apply idle_refl]]. specialize (Hs src eq_refl).
  destruct (reap_idle st src Hwf Hs) as (st1 & pi & -> & Hid & Hpi). cbn [obind]. unfold getEdge. rewrite Hpi. cbn [obind].
  match goal with |- context [foldl ?f ?a ?l] => pose proof (lost_infos src error l a) as Hq; set (st2 := foldl f a l) in * end.
  case_bool_decide; (eexists; split; [done|]); (eapply idle_trans; [exact Hid|]); [by apply silent_idle|].
  apply silent_idle. eapply silent_trans; [exact Hq|apply addCallback_quiet].
Qed.

Lemma connect_addresses_quiet edge u k l n st : silent st (connect_addresses isReachable now st edge u k l n).
Proof using Type.
  revert st n. induction l as [|a l IH]; intros st n; cbn [connect_addresses]; [apply silent_refl|]. destruct (isReachable k a); [|apply IH].
  eapply silent_trans; [apply addCallback_quiet|apply IH].
Qed.

Lemma connectEdge_ok st y : wf st → y ∈ nbrs → ∃ st', connectEdge isReachable now st y = Ok st' ∧ idle st st'.
Proof using Type.
  intros Hwf Hy. unfold connectEdge. destruct (closed (shut st)); [exists st; split; [done|apply idle_refl]|].
  destruct (reap_idle st y Hwf Hy) as (st1 & pi & -> & Hid & Hpi). cbn [obind]. unfold getEdge. rewrite Hpi. cbn [obind].
  destruct (negb _); [by exists st1|]. destruct (_ <=? _); [by exists st1|]. eexists. split; [done|]. eapply idle_trans; [exact Hid|].
  eapply idle_trans; [|apply silent_idle, connect_addresses_quiet]. eapply put_idle; [done|by repeat split|done].
Qed.

Lemma connect_address_ok st y u conn : wf st → y ∈ nbrs → length (shutdownStates (shut st)) = N → length (firsthop c) = N → conns st !! conn = None →
  ∃ st', connect_address now st y u conn = Ok st' ∧ idle st st'.
Proof using Hr.
  intros Hwf Hy Hl Hh Hn. unfold connect_address. destruct (getEdge_nbr c nbrs st y Hwf Hy) as (pi & -> & Hpi). cbn [obind]. rewrite (proj1 Hwf).
  destruct (closed (shut st) || _) eqn:Ec; cbn [obind]; [exists st; split; [done|apply idle_refl]|]. apply orb_false_iff in Ec as [Ec _].
  unfold vec_get. destruct (lookup_lt_is_Some_2 (shutdownStates (shut st)) y) as [s Es]; [rewrite Hl; by apply (rt_nbr _ _ Hr)|]. rewrite Es. cbn [of_option obind].
  destruct (peer_exited s || exited (shut st)); [exists st; split; [done|apply idle_refl]|]. unfold getBroadcastForwardRanks. rewrite bool_decide_true by lia. cbn [obind].
  match goal with |- context [emit st ?e] => destruct (addConnection_ok (emit st e) conn Ec Hn) as (st' & -> & Hid) end. exists st'. split; [done|].
  eapply idle_trans; [|exact Hid]. by apply silent_idle.
Qed.

(** *** [keepalive] *)

(** The peers of connections are neighbors, so each edge to connect again is one. *)
Local Abbreviation known st := (∀ conn z, source st conn = Some z → z ∈ nbrs).
Local Abbreviation again := (Forall (λ e : option nat, ∃ z, e = Some z ∧ z ∈ nbrs)).

Lemma idle_known st st' : idle st st' → known st → known st'.
Proof using Type. intros Hid Hk conn z. rewrite (kp_source _ _ (id_kept _ _ Hid)). apply Hk. Qed.

Lemma keepalive_conn_ok st conn : is_Some (conns st !! conn) → ∃ b st', keepalive_conn now st conn = Ok (b, st') ∧ idle st st'.
Proof using Type.
  intros [ci Hci]. unfold keepalive_conn. rewrite Hci. cbn [of_option obind]. destruct (_ || _); [eexists _, _; split; [done|apply close_conn_idle]|].
  destruct (_ >=? _); eexists _, _; (split; [done|]); [by apply silent_idle|apply idle_refl].
Qed.

Lemma keepalive_conns_ok k l st : known st → (∀ conn, conn ∈ l → is_Some (source st conn)) →
  ∃ r st', keepalive_conns now st k l = Ok (r, st') ∧ idle st st' ∧ again r.
Proof using Type.
  revert st. induction l as [|conn l IH]; intros st Hk Hl; cbn [keepalive_conns]; [exists [], st; split; [done|]; split; [apply idle_refl|constructor]|].
  destruct (Hl conn (list_elem_of_here _ _)) as [z Hz]. assert (is_Some (conns st !! conn)) as Hcn by (unfold source in Hz; destruct (conns st !! conn); [by eexists|done]).
  destruct (keepalive_conn_ok st conn Hcn) as (b & st1 & -> & Hid). cbn [obind]. pose proof (kp_source _ _ (id_kept _ _ Hid) conn) as Hs.
  rewrite Hz in Hs. unfold source in Hs. destruct (conns st1 !! conn) as [ci|] eqn:E1; [|done]. cbn in Hs. cbn [of_option obind].
  destruct (IH st1) as (r & st2 & -> & Hid2 & Hr2); [by eapply idle_known|intros d Hd; rewrite (kp_source _ _ (id_kept _ _ Hid)); apply Hl; by right|]. cbn [obind].
  assert (idle st st2) as Hid' by (by eapply idle_trans). destruct (b && k); eexists _, _; (split; [done|]); (split; [done|]); [|done].
  constructor; [|done]. exists z. split; [done|]. by apply (Hk conn).
Qed.

Lemma keepalive_edge_ok st y : wf st → known st → (∀ z pi conn, findEdge st z = Some pi → conn ∈ tcpconnections pi → is_Some (source st conn)) → y ∈ nbrs →
  ∃ r st', keepalive_edge now st y = Ok (r, st') ∧ idle st st' ∧ again r.
Proof using Type.
  intros Hwf Hk Hc Hy. unfold keepalive_edge. destruct (getEdge_nbr c nbrs st y Hwf Hy) as (pi & -> & Hpi). cbn [obind].
  match goal with |- context [keepalive_conns now st ?k ?l] => destruct (keepalive_conns_ok k l st Hk) as (r & st1 & -> & Hid & Hr1) end; [by intros conn; apply (Hc y pi)|]. cbn [obind].
  destruct (reap_idle st1 y (idle_wf _ _ Hid Hwf) Hy) as (st2 & _ & -> & Hid2 & _). cbn [obind].
  eexists _, _. split; [done|]. split; [by eapply idle_trans|]. destruct (_ && _); [|done]. constructor; [by exists y|done].
Qed.

Lemma keepalive_edges_ok l st : wf st → known st → (∀ z pi conn, findEdge st z = Some pi → conn ∈ tcpconnections pi → is_Some (source st conn)) → (∀ y, y ∈ l → y ∈ nbrs) →
  ∃ r st', keepalive_edges now st l = Ok (r, st') ∧ idle st st' ∧ again r.
Proof using Type.
  revert st. induction l as [|y l IH]; intros st Hwf Hk Hc Hl; cbn [keepalive_edges]; [exists [], st; split; [done|]; split; [apply idle_refl|constructor]|].
  destruct (keepalive_edge_ok st y Hwf Hk Hc (Hl y (list_elem_of_here _ _))) as (r & st1 & -> & Hid & Hr1). cbn [obind].
  destruct (IH st1) as (r' & st2 & -> & Hid2 & Hr2).
  - by eapply idle_wf.
  - by eapply idle_known.
  - intros z pi conn (p & Hp & Hin)%(kp_edges _ _ (id_kept _ _ Hid)) H. rewrite (kp_source _ _ (id_kept _ _ Hid)). by apply (Hc z p), Hin.
  - intros z Hz. apply Hl. by right.
  - cbn [obind]. eexists _, _. split; [done|]. split; [by eapply idle_trans|]. by apply Forall_app.
Qed.

Lemma keepalive_floating_ok l st : (∀ conn, conn ∈ l → is_Some (conns st !! conn)) →
  ∃ k st', keepalive_floating now st l = Ok (k, st') ∧ idle st st' ∧ ∀ conn, conn ∈ k → conn ∈ l.
Proof using Type.
  revert st. induction l as [|conn l IH]; intros st Hl; cbn [keepalive_floating]; [exists [], st; split; [done|]; split; [apply idle_refl|done]|].
  destruct (Hl conn (list_elem_of_here _ _)) as [ci ->]. cbn [of_option obind].
  destruct (csource ci). { destruct (IH st) as (k & st1 & -> & Hid & Hk); [intros d Hd; apply Hl; by right|]. eexists _, _. split; [done|]. split; [done|]. intros d Hd. right. auto. }
  destruct (_ >=? _).
  - destruct (IH (close_conn st conn)) as (k & st1 & -> & Hid & Hk); [intros d Hd; apply (kp_conns _ _ (id_kept _ _ (close_conn_idle st conn))), Hl; by right|].
    eexists _, _. split; [done|]. split; [by eapply idle_trans; [apply close_conn_idle|]|]. intros d Hd. right. auto.
  - destruct (IH st) as (k & st1 & -> & Hid & Hk); [intros d Hd; apply Hl; by right|]. cbn [obind]. eexists _, _. split; [done|]. split; [done|].
    intros d [->|Hd]%elem_of_cons; [by left|right; auto].
Qed.

Lemma reconnect_edges_ok l st : wf st → again l → ∃ st', reconnect_edges isReachable now st l = Ok st' ∧ idle st st'.
Proof using Type.
  intros Hwf Hl. revert st Hwf. induction Hl as [|e l (z & -> & Hz) Hl IH]; intros st Hwf; cbn [reconnect_edges]; [exists st; split; [done|apply idle_refl]|].
  destruct (connectEdge_ok st z Hwf Hz) as (st1 & -> & Hid). cbn [obind]. destruct (IH st1 (idle_wf _ _ Hid Hwf)) as (st2 & -> & Hid2). exists st2. split; [done|by eapply idle_trans].
Qed.

Lemma checkStuck_quiet st : silent st (checkStuckMessages fmt now st).
Proof using Type.
  unfold checkStuckMessages. generalize (edgePeers st). intros P. revert st. induction P as [|[y pi] P IH]; intros st; cbn [foldl]; [apply silent_refl|].
  eapply silent_trans; [|apply IH]. generalize (outgoingQueue pi). intros q. revert st. induction q as [|o q IHq]; intros st; cbn [foldl]; [apply silent_refl|].
  eapply silent_trans; [|apply IHq]. destruct (_ <? _); [apply silent_refl|apply sendDiagnosticInfo_quiet].
Qed.

Lemma keepalive_ok st random : wf st → known st → (∀ z pi conn, findEdge st z = Some pi → conn ∈ tcpconnections pi → is_Some (source st conn)) →
  (∀ conn, conn ∈ floatingConnections st → is_Some (conns st !! conn)) → ∃ st', keepalive fmt isReachable now st random = Ok st' ∧ idle st st'.
Proof using Type.
  intros Hwf Hk Hc Hf. unfold keepalive. destruct (keepalive_edges_ok (edgePeers st).*1 st Hwf Hk Hc) as (r & st1 & -> & Hid & Hr1); [intros y; by rewrite (proj2 Hwf)|]. cbn [obind].
  assert (∀ conn, conn ∈ floatingConnections st1 → is_Some (conns st1 !! conn)) as Hf1.
  { intros conn [H|H]%(kp_floating _ _ (id_kept _ _ Hid)); [|done]. by apply (kp_conns _ _ (id_kept _ _ Hid)), Hf. }
  destruct (keepalive_floating_ok (floatingConnections st1) st1 Hf1) as (k & st2 & -> & Hid2 & Hk2). cbn [obind].
  assert (idle st2 (set_floating st2 k)) as Hid3.
  { constructor; try done; [intros y pi Hy; exists pi; split; [done|apply core_refl]|]. constructor; [done|done| |eauto]. intros conn H. right. apply (kp_conns _ _ (id_kept _ _ Hid2)), Hf1, Hk2, H. }
  assert (idle st (set_floating st2 k)) as Hid' by (eapply idle_trans; [exact Hid|by eapply idle_trans]).
  destruct (reconnect_edges_ok r _ (idle_wf _ _ Hid' Hwf) Hr1) as (st4 & -> & Hid4). cbn [obind]. eexists. split; [done|].
  eapply idle_trans; [exact Hid'|]. eapply idle_trans; [exact Hid4|]. apply silent_idle. eapply silent_trans; [apply checkStuck_quiet|apply addCallback_quiet].
Qed.
End conn.
