(* ===== verification/StoreBootFacts.v ===== *)
(** * The operations that find other ranks

    The operations of files StoreBoot and StoreTimer succeed when they concern
    ranks that rank 0 has heard of, and they leave the messages of all edges, the
    keys and the shutdown alone. *)

From Stdlib Require Import ZArith Lia.
From stdpp Require Import base gmap option list sorting strings.
From S2P Require Import Prelude StoreTopology StoreTopologyFacts Store StoreConn StoreBoot StoreTimer StoreSendFacts StoreCalmFacts StoreReactFacts StoreStepFacts StoreNetFacts StoreConnFacts.

Local Set Warnings "-clear-no-such-hyp".

(** A callback that will run. *)
Definition pending (st : StoreImpl) (f : Callback) : Prop := ∃ t, (t, f) ∈ callbacks (timer st) ++ queuedCallbacks (timer st).

Lemma pending_calm st st' f : calm st st' → closed (shut st') = false → pending st f → pending st' f.
Proof.
  intros Hc Ho (t & Ht). exists t. rewrite (ca_callbacks _ _ Hc). destruct (ca_keep _ _ Hc Ho) as [k ->]. rewrite elem_of_app in Ht. rewrite !elem_of_app. tauto.
Qed.

Lemma pending_add st t f : closed (shut st) = false → pending (addCallback st t f) f.
Proof. intros Ho. unfold addCallback. rewrite Ho. exists t. cbn. rewrite !elem_of_app, list_elem_of_singleton. auto. Qed.

(** Nobody has to be told of [s] at [e] any more, or it will be done. *)
Definition told_of (st : StoreImpl) (s e : nat) : Prop :=
  closed (shut st) = false → ∀ rj, registered st e rj → s ∈ rconnected rj ∨ pending st (SendAddresses s e).

Lemma told_calm st st' s e : calm st st' → told_of st s e → told_of st' s e.
Proof.
  intros Hc Ht Ho rj Hrj%(registered_calm _ _ _ _ Hc). destruct (Ht) with rj as [?|?]; [|done|by left|right; by eapply pending_calm].
  destruct (closed (shut st)) eqn:E; [|done]. by rewrite (ca_closed _ _ Hc) in Ho.
Qed.

(** ** Addresses *)

Lemma map_listed (m : gmap Z string) l : l ≡ₚ map_to_list m → listed l m.
Proof. intros Hl i a Hi. rewrite Hl in Hi. by apply elem_of_map_to_list. Qed.

Lemma insert_new_old m l i a : m !! i = Some a → insert_new m l !! i = Some a.
Proof.
  unfold insert_new. revert m. induction l as [|[j b] l IH]; intros m Hi; cbn [foldl]; [done|]. apply IH. destruct (m !! j) eqn:E; [done|].
  rewrite lookup_insert_ne; [done|]. intros ->. congruence.
Qed.

Lemma insert_new_dom m l i : is_Some (insert_new m l !! i) ↔ is_Some (m !! i) ∨ i ∈ l.*1.
Proof.
  unfold insert_new. revert m. induction l as [|[j b] l IH]; intros m; cbn [foldl fmap list_fmap fst]; [rewrite elem_of_nil; tauto|]. rewrite IH, elem_of_cons.
  destruct (m !! j) eqn:E; [destruct (decide (i = j)) as [->|]; naive_solver|]. destruct (decide (i = j)) as [->|]; [rewrite lookup_insert_eq; naive_solver|rewrite lookup_insert_ne by done; naive_solver].
Qed.

(** Only what is in the table or in the list. *)
Lemma insert_new_sub m l (M : gmap Z string) : m ⊆ M → listed l M → insert_new m l ⊆ M.
Proof.
  unfold insert_new. revert m. induction l as [|[j b] l IH]; intros m Hm Hl; cbn [foldl]; [done|]. apply IH; [|intros i a Hi; apply Hl; by right].
  destruct (m !! j) eqn:E; [done|]. apply insert_subseteq_l; [|done]. apply Hl. by left.
Qed.

Lemma delete_all m (l : list Z) i : (foldl (λ m i, delete i m) m l : gmap Z string) !! i = if bool_decide (i ∈ l) then None else m !! i.
Proof.
  revert m. induction l as [|j l IH]; intros m; cbn [foldl]; [by rewrite bool_decide_false by apply not_elem_of_nil|]. rewrite IH. destruct (decide (i ∈ l)).
  - rewrite !bool_decide_true; [done|by right|done].
  - rewrite (bool_decide_false (i ∈ l)) by done. destruct (decide (i = j)) as [->|Hne]; [rewrite lookup_delete_eq, bool_decide_true; [done|by left]|].
    rewrite lookup_delete_ne by done. rewrite bool_decide_false; [done|]. rewrite elem_of_cons. tauto.
Qed.

Section boot.
Context (net : Net) (shuffle : list (Z * string) → list (Z * string)) (Hshuffle : ∀ l, shuffle l ≡ₚ l).
Context (now : Z).

Lemma some_listed m : listed (some_addresses shuffle m) m.
Proof using Hshuffle.
  unfold some_addresses. case_match; [|by apply map_listed]. intros i a Hi. apply elem_of_take in Hi as (n & Hi & _).
  apply list_elem_of_lookup_2 in Hi. rewrite Hshuffle in Hi. by apply elem_of_map_to_list.
Qed.

(** ** What rank 0 sends *)

Lemma sendAddresses_ok st s e taken ri : registered st s ri → mesh_edge st s e → (e < length (rankInfos (boot st)))%nat →
  ∃ st', sendAddresses shuffle now st s e taken = Ok st' ∧ silent st st' ∧ calm st st' ∧ told_of st' s e.
Proof using Hshuffle.
  intros Hri Hm He. unfold sendAddresses, vec_get. unfold registered in Hri. rewrite Hri. cbn [of_option obind].
  destruct (rankInfos (boot st) !! e) as [rj|] eqn:Ee; [|apply lookup_ge_None in Ee; lia]. cbn [of_option obind].
  destruct rj as [rj|]; [|exists st; split_and!; [done|apply silent_refl|apply calm_refl|intros _ rj Hrj; unfold registered in Hrj; congruence]].
  case_bool_decide as Hc; [exists st; split_and!; [done|apply silent_refl|apply calm_refl|intros _ rj' Hrj; left; unfold registered in Hrj; assert (rj' = rj) as -> by congruence; done]|].
  eexists. split; [done|]. split; [eapply silent_trans; [apply emit_quiet|apply addCallback_quiet]|]. split.
  - eapply calm_trans; [apply calm_emit|apply calm_add; split; [exact Hm|exists ri; exact Hri]]. exists e, ri, rj. split_and!; try done. apply some_listed.
  - intros Ho rj' _. right. apply pending_add. revert Ho. unfold addCallback. cbn zeta. destruct (closed (shut (emit _ _))) eqn:E; [by rewrite E|done].
Qed.

Lemma send_to_edges_ok st s l taken ri : registered st s ri → (∀ e, e ∈ l → mesh_edge st s e ∧ (e < length (rankInfos (boot st)))%nat) →
  ∃ st', send_to_edges shuffle now st s l taken = Ok st' ∧ silent st st' ∧ calm st st' ∧ ∀ e, e ∈ l → told_of st' s e.
Proof using Hshuffle.
  revert st. induction l as [|e l IH]; intros st Hri Hl; cbn [send_to_edges].
  { exists st. split_and!; [done|apply silent_refl|apply calm_refl|by intros e ?%elem_of_nil]. }
  destruct (Hl e) as [Hm He]; [by left|]. destruct (sendAddresses_ok st s e (taken e) ri Hri Hm He) as (st1 & -> & Hq1 & Hc1 & Ht1). cbn [obind].
  destruct (IH st1) as (st2 & -> & Hq2 & Hc2 & Ht2).
  - by apply (registered_calm _ _ _ _ Hc1).
  - intros e' He'. rewrite (mesh_calm _ _ _ _ Hc1), (proj1 (ca_boot _ _ Hc1)). apply Hl. by right.
  - exists st2. split_and!; [done|by eapply silent_trans|by eapply calm_trans|]. intros e' [->|He']%elem_of_cons; [by eapply told_calm|auto].
Qed.

(** ** [connect] and its callbacks *)

Lemma resolve_port_calm st p : silent st (resolve_port st p) ∧ calm st (resolve_port st p).
Proof using Type. unfold resolve_port. case_match; [split; [apply silent_refl|apply calm_refl]|]. split; [apply emit_quiet|by apply calm_emit]. Qed.

Lemma resolved_calm st addr : silent st (resolved now st addr) ∧ calm st (resolved now st addr).
Proof using Type. split; [apply addCallback_quiet|by apply calm_add]. Qed.

Lemma schedule_calm st addr n : silent st (schedule_connects now st addr n) ∧ calm st (schedule_connects now st addr n).
Proof using Type.
  revert st. induction n as [|n IH]; intros st; cbn [schedule_connects]; [split; [apply silent_refl|apply calm_refl]|].
  match goal with |- context [addCallback ?s ?t ?f] => set (st1 := s) end. destruct (IH (addCallback st1 (Z.min (Z.max (prevConnectTime (boot st) + 250) now) (now + 2000)) (SendConnect addr))) as [H1 H2].
  split; [eapply silent_trans; [|exact H1]|eapply calm_trans; [|exact H2]].
  - eapply silent_trans; [|apply addCallback_quiet]. done.
  - eapply calm_trans; [|by apply calm_add]. by apply calm_same.
Qed.

Lemma send_connect_calm st addr : silent st (send_connect net shuffle st addr) ∧ calm st (send_connect net shuffle st addr).
Proof using Hshuffle.
  unfold send_connect. case_match; [split; [apply silent_refl|apply calm_refl]|]. split; [apply emit_quiet|]. apply calm_emit. split_and!; try done. apply some_listed.
Qed.

Lemma connect_calm st : silent st (connect now st) ∧ calm st (connect now st).
Proof using Type.
  unfold connect. generalize (seq 0 16). intros ports. case_match; [split; [apply silent_refl|apply calm_refl]|]. destruct (resolve_port_calm st (port (boot st))) as [Hs1 Hc1]. set (st1 := resolve_port _ _) in *.
  assert (∀ l st, silent st (foldl (λ st i, addCallback st (now + 1000 * Z.of_nat i) (ConnectPort (57360 + Z.of_nat i))) st l) ∧
    calm st (foldl (λ st i, addCallback st (now + 1000 * Z.of_nat i) (ConnectPort (57360 + Z.of_nat i))) st l)) as Hadd.
  { induction l as [|i l IH]; intros s; cbn [foldl]; [split; [apply silent_refl|apply calm_refl]|]. destruct (IH (addCallback s (now + 1000 * Z.of_nat i) (ConnectPort (57360 + Z.of_nat i)))) as [H1 H2].
    split; [eapply silent_trans; [apply addCallback_quiet|exact H1]|eapply calm_trans; [|exact H2]; by apply calm_add]. }
  destruct (Hadd ports st1) as [Hs2 Hc2]. set (st2 := foldl _ _ _) in *. split.
  - eapply silent_trans; [exact Hs1|]. eapply silent_trans; [exact Hs2|]. eapply silent_trans; [|apply addCallback_quiet]. done.
  - eapply calm_trans; [exact Hc1|]. eapply calm_trans; [exact Hc2|]. eapply calm_trans; [|by apply calm_add]. by apply calm_same.
Qed.

(** ** Datagrams *)

(** What a datagram does to a rank: nothing that matters here, or a change of one of the tables and then nothing more. *)
Definition with_info (st : StoreImpl) (s : nat) (ri : RankInfo) : StoreImpl :=
  set_boot st (set_infos (boot st) (<[s := Some ri]> (rankInfos (boot st)))).

Definition with_unacked (st : StoreImpl) (l : list Z) : StoreImpl :=
  let m := foldl (λ m i, delete i m) (unackedAddresses (boot st)) l in
  set_boot st (set_unacked (boot st) (connectAcked (boot st) || bool_decide (m = ∅)) m).

Inductive heard (st : StoreImpl) (from : list Z) : option Datagram → StoreImpl → Prop :=
  | heard_calm d st' : calm st st' → heard st from d st'
  | heard_connect s u k l socket opt ri st' : rank (cfg st) = 0%nat → (s < worldSize (cfg st))%nat → rankInfos (boot st) !! s = Some opt →
      register opt u k l from socket = Some ri → calm (with_info st s ri) st' → (∀ e, mesh_edge st s e → told_of st' s e) →
      heard st from (Some (DConnect (storekey (cfg st)) s u k l)) st'
  | heard_ack u l : heard st from (Some (DConnectAck (storekey (cfg st)) (rank (cfg st)) u l)) (with_unacked st l)
  | heard_addresses s u k l socket pi st' : findEdge st s = Some pi → calm (putEdge st s (learn pi u k l from socket)) st' →
      heard st from (Some (DAddresses (storekey (cfg st)) s u k l)) st'
  | heard_connected s e ri : registered st s ri →
      heard st from (Some (DAddressesAck (storekey (cfg st)) s e)) (with_info st s (mkRankInfo (ruid ri) (rnetworkKey ri) (raddresses ri) (rudpaddr ri) (rudpSocket ri) ({[e]} ∪ rconnected ri))).

(** The tables are complete, every edge of the graph leads to a rank, and an edge that has a connection has had one. *)
Record tables_complete (st : StoreImpl) : Prop := {
  tc_infos : length (rankInfos (boot st)) = worldSize (cfg st);
  tc_edges s : (s < worldSize (cfg st))%nat → ∃ es, edges (cfg st) !! s = Some es ∧ ∀ e, e ∈ es → (e < worldSize (cfg st))%nat;
  tc_ever y pi : findEdge st y = Some pi → tcpconnections pi ≠ [] → everConnected pi = true
}.

Lemma register_some opt u k l from socket ri : register opt u k l from socket = Some ri →
  ruid ri = u ∧ rudpaddr ri = from ∧ raddresses ri = insert_new (from_option raddresses ∅ opt) l ∧ rconnected ri = from_option rconnected ∅ opt ∧ (∀ r, opt = Some r → ruid r = u).
Proof using Type. unfold register. destruct opt as [r|]; [case_bool_decide; [|done]|]; intros [= <-]; cbn; split_and!; try done. by intros r' [= <-]. Qed.

Lemma read_connect_heard st socket from key s u k l taken : tables_complete st →
  ∃ st', read_connect shuffle now st socket from key s u k l taken = Ok st' ∧ silent st st' ∧ heard st from (Some (DConnect key s u k l)) st'.
Proof using Hshuffle.
  intros [T1 T2 T3]. unfold read_connect. destruct (bool_decide (key = _) && _ && _) eqn:E; [|exists st; split_and!; [done|apply silent_refl|constructor; apply calm_refl]].
  rewrite !andb_true_iff, bool_decide_eq_true, Nat.ltb_lt, Nat.eqb_eq in E. destruct E as [[-> Hs] H0].
  destruct (rankInfos (boot st) !! s) as [opt|] eqn:Eo; [|apply lookup_ge_None in Eo; lia].
  destruct (register opt u k l from socket) as [ri|] eqn:Er; [|exists st; split_and!; [done|apply silent_refl|constructor; apply calm_refl]].
  destruct (T2 s Hs) as (es & Ees & Hes). unfold vec_get. rewrite Ees. cbn [of_option obind]. cbn zeta. fold (with_info st s ri). set (st1 := with_info st s ri).
  assert (registered st1 s ri) as Hri by (unfold registered; cbn; apply list_lookup_insert_eq; lia).
  set (st2 := emit st1 _). assert (calm st1 st2) as H12.
  { apply calm_emit. split; [done|]. exists ri. split; [done|]. intros i Hi. destruct (register_some _ _ _ _ _ _ _ Er) as (_ & _ & -> & _). apply insert_new_dom. by right. }
  destruct (send_to_edges_ok st2 s es taken ri) as (st' & -> & Hq & Hc & Ht).
  - by apply (registered_calm _ _ _ _ H12).
  - intros e He. cbn. rewrite length_insert, T1. split; [by exists es|auto].
  - exists st'. split; [done|]. split; [eapply silent_trans; [|exact Hq]; done|]. eapply heard_connect; try done; [by eapply calm_trans|].
    intros e (es' & Ees' & He). apply Ht. congruence.
Qed.

Lemma read_connect_ack_heard st from key s u l : silent st (read_connect_ack st key s u l) ∧ heard st from (Some (DConnectAck key s u l)) (read_connect_ack st key s u l).
Proof using Type.
  unfold read_connect_ack. destruct (_ && _ && _) eqn:E; [|split; [apply silent_refl|constructor; apply calm_refl]].
  rewrite !andb_true_iff, !bool_decide_eq_true, Nat.eqb_eq in E. destruct E as [[-> ->] _]. split; [done|]. apply heard_ack.
Qed.

Lemma read_addresses_ack_heard st from key s e : tables_complete st →
  ∃ st', read_addresses_ack st key s e = Ok st' ∧ silent st st' ∧ heard st from (Some (DAddressesAck key s e)) st'.
Proof using Type.
  intros [T1 _ _]. unfold read_addresses_ack. destruct (_ && _) eqn:E; [|exists st; split_and!; [done|apply silent_refl|constructor; apply calm_refl]].
  rewrite andb_true_iff, bool_decide_eq_true, Nat.ltb_lt in E. destruct E as [-> Hs]. unfold vec_get. destruct (rankInfos (boot st) !! s) as [ri|] eqn:Er; [|apply lookup_ge_None in Er; lia].
  cbn [of_option obind]. destruct ri as [ri|]; [|exists st; split_and!; [done|apply silent_refl|constructor; apply calm_refl]].
  eexists. split; [done|]. split; [done|]. exact (heard_connected st from s e ri Er).
Qed.

Lemma read_hello_calm st socket from key s reply : silent st (read_hello st socket from key s reply) ∧ calm st (read_hello st socket from key s reply).
Proof using Type.
  unfold read_hello. cbn zeta. case_match; [|split; [apply silent_refl|apply calm_refl]]. case_match; split; try done; [|by apply calm_same..].
  eapply calm_trans; [|by apply calm_emit]. by apply calm_same.
Qed.

Lemma read_info_calm st key r s kind reason : silent st (read_info now st key r s kind reason) ∧ calm st (read_info now st key r s kind reason).
Proof using Type. unfold read_info. case_match; [|split; [apply silent_refl|apply calm_refl]]. split; [done|by apply calm_same]. Qed.

Section rank.
Context (c : Config) (nbrs : list nat).

Local Abbreviation wf := (wf c nbrs).

Lemma read_addresses_heard st socket from key s u k l : wf st → tables_complete st → (key = storekey c → (s < worldSize c)%nat → s ∈ nbrs) →
  ∃ st', read_addresses net now st socket from key s u k l = Ok st' ∧ idle st st' ∧ heard st from (Some (DAddresses key s u k l)) st'.
Proof using Type.
  intros Hwf [T1 T2 T3] Hs. pose proof Hwf as [Hc Hp]. unfold read_addresses. rewrite Hc. destruct (_ && _) eqn:E; [|exists st; split_and!; [done|apply idle_refl|constructor; apply calm_refl]].
  rewrite andb_true_iff, bool_decide_eq_true, Nat.ltb_lt in E. destruct E as [-> Hlt]. specialize (Hs eq_refl Hlt).
  assert (is_Some (findEdge st s)) as [pi Hpi] by (apply find_is_Some; by rewrite Hp). unfold getEdge. rewrite Hpi. cbn [obind]. cbn zeta. set (st1 := putEdge st s _).
  assert (idle st st1) as Hi1 by (eapply put_idle; [done|by repeat split|done]).
  match goal with |- context [connectEdge _ _ ?s _] => set (st2 := s) end.
  assert (silent st1 st2 ∧ calm st1 st2) as [Hq2 Hc2].
  { unfold st2. case_bool_decide as Et; [split; [apply silent_refl|apply calm_refl]|]. split; [apply emit_quiet|]. apply calm_emit. cbn. rewrite Hc. split; [done|].
    exists (learn pi u k l from socket). split; [unfold st1, findEdge, putEdge; cbn; rewrite find_put by (by exists pi); by rewrite decide_True|]. by apply (T3 s pi). }
  assert (wf st2) as Hwf2 by (eapply idle_wf; [|exact Hwf]; eapply idle_trans; [exact Hi1|by apply silent_idle]).
  destruct (connectEdge_ok (isReachable net) now c nbrs st2 s Hwf2 Hs) as (st' & E & Hid). exists st'. split; [done|].
  split; [eapply idle_trans; [exact Hi1|]; eapply idle_trans; [by apply silent_idle|done]|]. rewrite <- Hc.
  eapply heard_addresses; [done|]. eapply calm_trans; [exact Hc2|]. by eapply calms_connectEdge.
Qed.

Lemma onreadudp_ok st socket from d taken : wf st → tables_complete st →
  (∀ s u k l, d = Some (DAddresses (storekey c) s u k l) → (s < worldSize c)%nat → s ∈ nbrs) →
  ∃ st', onreadudp net shuffle now st socket from d taken = Ok st' ∧ idle st st' ∧ heard st from d st'.
Proof using Hshuffle.
  intros Hwf Ht Hd. destruct d as [[key s u k l|key s u l|key s u k l|key s e|key s|key s|key r s kind reason]|]; cbn [onreadudp].
  - destruct (read_connect_heard st socket from key s u k l taken Ht) as (st' & E & Hq & Hh). exists st'. split_and!; [done|by apply silent_idle|done].
  - destruct (read_connect_ack_heard st from key s u l) as [Hq Hh]. eexists. split_and!; [done|by apply silent_idle|done].
  - apply read_addresses_heard; [done|done|]. intros ->. by eapply Hd.
  - destruct (read_addresses_ack_heard st from key s e Ht) as (st' & E & Hq & Hh). exists st'. split_and!; [done|by apply silent_idle|done].
  - destruct (read_hello_calm st socket from key s true) as [Hq Hh]. eexists. split_and!; [done|by apply silent_idle|by constructor].
  - destruct (read_hello_calm st socket from key s false) as [Hq Hh]. eexists. split_and!; [done|by apply silent_idle|by constructor].
  - destruct (read_info_calm st key r s kind reason) as [Hq Hh]. eexists. split_and!; [done|by apply silent_idle|by constructor].
  - exists st. split_and!; [done|apply idle_refl|constructor; apply calm_refl].
Qed.
End rank.
End boot.
