(* ===== verification/StoreTimerFacts.v ===== *)
(** * The timer thread

    A round of the thread runs a callback whose time has come and that is not
    later than any other, or there is none.  No callback is lost. *)

From Stdlib Require Import ZArith Lia.
From stdpp Require Import base gmap option list sorting strings.
From S2P Require Import Prelude StoreTopology StoreTopologyFacts Store StoreConn StoreBoot StoreTimer StoreSendFacts StoreCalmFacts StoreReactFacts StoreStepFacts StoreNetFacts StoreConnFacts StoreBootFacts.

Local Set Warnings "-clear-no-such-hyp".

(** All callbacks that wait. *)
Definition waiting (t : Timer) : list (Z * Callback) := callbacks t ++ queuedCallbacks t.

Record timer_ok (t : Timer) : Prop := {
  to_sorted : StronglySorted Z.le (callbacks t).*1;
  to_any : queuedCallbacks t ≠ [] → anyQueued t = true
}.

Lemma pending_waiting st f : pending st f ↔ ∃ t, (t, f) ∈ waiting (timer st).
Proof. done. Qed.

Lemma sorted_snoc l x : StronglySorted Z.le l → (∀ b, last l = Some b → b ≤ x) → StronglySorted Z.le (l ++ [x]).
Proof.
  induction l as [|a l IH]; intros Hs Hl; [repeat constructor|]. inversion_clear Hs as [|?? Hs' Ha]. cbn. constructor.
  - apply IH; [done|]. intros b Hb. apply Hl. rewrite last_cons, Hb. done.
  - apply Forall_app. split; [done|]. apply Forall_singleton. destruct (last l) as [b|] eqn:Eb.
    + assert (a ≤ b) by (rewrite Forall_forall in Ha; apply Ha; by apply last_Some_elem_of). assert (b ≤ x) by (apply Hl; by rewrite last_cons, Eb). lia.
    + apply Hl. by rewrite last_cons, Eb.
Qed.

Lemma take_queued_all u l q : (take_queued u l q).2 = l ++ q.
Proof.
  revert u l. induction q as [|v q IH]; intros u l; cbn [take_queued]; [by rewrite app_nil_r|]. cbn zeta. rewrite IH, <- (assoc_L (++)). done.
Qed.

Lemma take_queued_sorted u l q : (take_queued u l q).1 = false → u = false ∧ (StronglySorted Z.le l.*1 → StronglySorted Z.le (l ++ q).*1).
Proof.
  revert u l. induction q as [|v q IH]; intros u l; cbn [take_queued]; [by rewrite app_nil_r|]. cbn zeta. intros [[-> Hv]%orb_false_iff H]%IH. split; [done|].
  intros Hs. rewrite <- (assoc_L (++)) in H. apply H. rewrite fmap_app. apply sorted_snoc; [done|]. intros b. rewrite fmap_last. destruct (last l) as [p|]; [|done].
  cbn. intros [= <-]. apply Z.ltb_ge in Hv. done.
Qed.

Section thread.
Context (fmt : Reason → string) (resolveAddressSync : string → list (list Z)) (shuffle_addrs : list (list Z) → list (list Z)).
Context (net : Net) (shuffle : list (Z * string) → list (Z * string)) (sort : list (Z * Callback) → list (Z * Callback)).
Context (Hperm : ∀ l, sort l ≡ₚ l) (Hsorted : ∀ l, StronglySorted Z.le (sort l).*1).
Context (now : Z).

Local Abbreviation thread_step := (thread_step fmt resolveAddressSync shuffle_addrs net shuffle sort now).
Local Abbreviation run_callback := (run_callback fmt resolveAddressSync shuffle_addrs net shuffle now).

Lemma absorb_ok t : timer_ok t → timer_ok (absorb sort t) ∧ callbacks (absorb sort t) ≡ₚ waiting t ∧ queuedCallbacks (absorb sort t) = [].
Proof using Hperm Hsorted.
  intros [H1 H2]. unfold absorb, waiting. destruct (anyQueued t) eqn:Ea.
  - pose proof (take_queued_all false (callbacks t) (queuedCallbacks t)) as El. pose proof (take_queued_sorted false (callbacks t) (queuedCallbacks t)) as Es.
    destruct (take_queued _ _ _) as [u l]. cbn in El, Es. subst l. cbn. split_and!; [|destruct u; [apply Hperm|done]|done]. constructor; [cbn|done].
    destruct u; [apply Hsorted|]. by apply Es.
  - destruct (queuedCallbacks t) eqn:Eq; [|exfalso; specialize (H2 ltac:(done)); congruence]. rewrite app_nil_r. split_and!; [|done|done]. constructor; [done|]. by rewrite Eq.
Qed.

(** A round of an open store: nothing is due, or the earliest callback runs. *)
Lemma thread_round st ch : timer_ok (timer st) → closed (shut st) = false →
  (∃ t, thread_step st ch = Ok (set_timer st t) ∧ timer_ok t ∧ waiting t ≡ₚ waiting (timer st) ∧ ∀ p, p ∈ waiting t → now < p.1) ∨
  (∃ time f t, thread_step st ch = run_callback (set_timer st t) f ch ∧ timer_ok t ∧ waiting (timer st) ≡ₚ (time, f) :: waiting t ∧ time ≤ now ∧
    ∀ p, p ∈ waiting t → time ≤ p.1).
Proof using Hperm Hsorted.
  intros Ht Ho. destruct (absorb_ok (timer st) Ht) as ([A1 A2] & Ap & Aq). unfold StoreTimer.thread_step. rewrite Ho.
  set (t := absorb sort (timer st)) in *. clearbody t. destruct t as [cbs q any]. cbn in *. subst q. destruct cbs as [|[time f] cbs].
  - left. eexists. split; [done|]. split; [by constructor|]. split; [unfold waiting at 1; cbn; by rewrite Ap|]. by intros p ?%elem_of_nil.
  - cbn in A1. inversion_clear A1 as [|?? Hs Ha]. rewrite Forall_fmap, Forall_forall in Ha. rewrite Z.geb_leb. destruct (time <=? now) eqn:E.
    + right. exists time, f. eexists. split; [done|]. split; [by constructor|]. unfold waiting at 2 3. cbn. rewrite app_nil_r. split_and!; [by rewrite Ap|by apply Z.leb_le|exact Ha].
    + left. eexists. split; [done|]. split; [constructor; [by constructor; [|apply Forall_fmap, Forall_forall]|done]|]. unfold waiting at 1 3. cbn. rewrite app_nil_r. split; [by rewrite Ap|].
      apply Z.leb_gt in E. intros p [->|Hp]%elem_of_cons; [done|]. specialize (Ha p Hp). cbn in Ha. lia.
Qed.
End thread.

Lemma timer_calm st st' : calm st st' → timer_ok (timer st) → timer_ok (timer st').
Proof. intros Hc [H1 H2]. constructor; [by rewrite (ca_callbacks _ _ Hc)|by apply (ca_any _ _ Hc)]. Qed.
