(* ===== verification/StoreKnowFacts.v ===== *)
(** * What ranks know of each other

    Everything that a rank has heard of another is true, rank 0 forgets nothing
    that it has acknowledged, and two neighbors that rank 0 has heard of will be
    told of each other until they have connected. *)

From Stdlib Require Import ZArith Lia.
From stdpp Require Import base gmap option list sorting strings.
From S2P Require Import Prelude StoreTopology StoreTopologyFacts Store StoreConn StoreBoot StoreTimer StoreRun StoreSendFacts StoreCalmFacts StoreReactFacts StoreStepFacts StoreNetFacts.
From S2P Require Import StoreConnFacts StoreBootFacts StoreTimerFacts.

Local Set Warnings "-clear-no-such-hyp".

(** What rank 0 has noted of [s]. *)
Definition noted (net : list StoreImpl) (s : nat) : option RankInfo := st ← net !! 0%nat; mjoin (rankInfos (boot st) !! s).

(** Rank 0 has address [i] of [s]. *)
Definition knows (net : list StoreImpl) (s : nat) (i : Z) : Prop := ∃ ri, noted net s = Some ri ∧ is_Some (raddresses ri !! i).

(** [s] has had a connection to [e]. *)
Definition met (net : list StoreImpl) (s e : nat) : Prop := ∃ st, net !! s = Some st ∧ ever_connected st e.

Record later (net net' : list StoreImpl) : Prop := {
  la_knows s i : knows net s i → knows net' s i;
  la_met s e : met net s e → met net' s e
}.

Lemma noted_insert net x st' s : (x < length net)%nat → noted (<[x := st']> net) s = if decide (x = 0%nat) then mjoin (rankInfos (boot st') !! s) else noted net s.
Proof. intros Hx. unfold noted. case_decide; [subst; by rewrite list_lookup_insert_eq|by rewrite list_lookup_insert_ne]. Qed.

Lemma noted_registered net st s ri : net !! 0%nat = Some st → noted net s = Some ri ↔ registered st s ri.
Proof. intros H. unfold noted, registered. rewrite H. cbn. destruct (rankInfos (boot st) !! s) as [[r|]|]; cbn; naive_solver. Qed.

(** A step of one rank. *)
Lemma later_step net x st st' : net !! x = Some st → (x = 0%nat → ∀ s ri, registered st s ri → ∃ ri', registered st' s ri' ∧ ∀ i, is_Some (raddresses ri !! i) → is_Some (raddresses ri' !! i)) →
  (∀ e, ever_connected st e → ever_connected st' e) → later net (<[x := st']> net).
Proof.
  intros Hx Hk Hm. assert (x < length net)%nat as Hlt by by eapply lookup_lt_Some. constructor.
  - intros s i (ri & Hn & Hi). unfold knows. rewrite noted_insert by done. case_decide as E; [|by exists ri]. subst x. apply (noted_registered net st) in Hn; [|done].
    destruct (Hk eq_refl s ri Hn) as (ri' & Hr & Hi'). exists ri'. split; [|auto]. unfold registered in Hr. by rewrite Hr.
  - intros s e (st0 & H0 & He). destruct (decide (x = s)) as [->|Hne]; [|exists st0; by rewrite list_lookup_insert_ne]. exists st'. rewrite list_lookup_insert_eq by done.
    split; [done|]. apply Hm. congruence.
Qed.

Lemma later_calm net x st st' : net !! x = Some st → calm st st' → later net (<[x := st']> net).
Proof.
  intros Hx Hc. eapply later_step; [done| |intros e; by eapply ever_calm]. intros _ s ri Hr. exists ri. split; [|done]. by apply (registered_calm _ _ _ _ Hc).
Qed.

Section know.
Context (N : nat) (G : list (list nat)) (cfgs : nat → Config) (nb : nat → list nat) (dst : nat → nat → nat).
Context (Hmt : mesh_tables N G cfgs nb dst).
(** Who has an address, and the addresses of the listeners of a rank. *)
Context (owner : list Z → option nat) (L : nat → gmap Z string).

Local Abbreviation net_ok := (net_ok N cfgs nb dst).

Record info_ok (net : list StoreImpl) (s : nat) (ri : RankInfo) : Prop := {
  in_uid : ruid ri = myId (cfgs s);
  in_addresses : raddresses ri ⊆ L s;
  in_owner : owner (rudpaddr ri) = Some s;
  in_connected e : e ∈ rconnected ri → met net s e
}.

(** What a datagram from [y] to [addr] says is true. *)
Definition datagram_ok (net : list StoreImpl) (y : nat) (addr : list Z) (d : Datagram) : Prop :=
  match d with
  | DConnect _ s u _ l => s = y ∧ u = myId (cfgs y) ∧ listed l (L y)
  | DConnectAck _ s _ l => ∀ i, i ∈ l → knows net s i
  | DAddresses _ s u _ l => (∀ e, owner addr = Some e → s ∈ nb e) ∧ u = myId (cfgs s) ∧ listed l (L s)
  | DAddressesAck _ s e => s = y ∧ met net s e
  | _ => True
  end.

Definition callback_ok (x : nat) (st : StoreImpl) (f : Callback) : Prop :=
  match f with
  | ConnectEdge y => y ∈ nb x
  | ConnectAddress a y u => y ∈ nb x ∧ u = myId (cfgs y) ∧ ∃ i, L y !! i = Some a
  | SendAddresses s e => mesh_edge st s e ∧ ∃ ri, registered st s ri
  | _ => True
  end.

Record addr_ok (y : nat) (a : EdgeAddr) : Prop := {
  ad_uid : addresses a = ∅ ∨ uid a = myId (cfgs y);
  ad_addresses : addresses a ⊆ L y
}.

Record informed (net : list StoreImpl) (x : nat) (st : StoreImpl) : Prop := {
  if_infos : length (rankInfos (boot st)) = N;
  if_info s ri : registered st s ri → info_ok net s ri;
  if_unacked : unackedAddresses (boot st) ⊆ L x;
  if_acked : connectAcked (boot st) = true → unackedAddresses (boot st) = ∅;
  if_known i : is_Some (L x !! i) → unackedAddresses (boot st) !! i = None → knows net x i;
  if_out socket addr d : SendTo socket addr d ∈ out st → datagram_ok net x addr d;
  if_callback p : p ∈ waiting (timer st) → callback_ok x st p.2;
  if_timer : timer_ok (timer st);
  if_edge y pi : findEdge st y = Some pi → addr_ok y (eaddr pi) ∧ (tcpconnections pi ≠ [] → everConnected pi = true)
}.

(** Of two neighbors that rank 0 has heard of, one will hear of the other. *)
Definition introduced (st : StoreImpl) : Prop := ∀ s e ri rj, mesh_edge st s e → mesh_edge st e s → registered st s ri → registered st e rj → told_of st s e ∨ told_of st e s.

Record knowing (net : list StoreImpl) : Prop := {
  kw_rank x st : net !! x = Some st → informed net x st;
  kw_zero st : net !! 0%nat = Some st → introduced st
}.

(** ** Knowledge only grows *)

Lemma datagram_later net net' y addr d : later net net' → datagram_ok net y addr d → datagram_ok net' y addr d.
Proof using Type. intros [H1 H2]. destruct d; cbn; naive_solver. Qed.

Lemma informed_later net net' x st : later net net' → informed net x st → informed net' x st.
Proof using Type.
  intros Hl [A1 A2 A3 A4 A5 A6 A7 A8 A9]. constructor; try done.
  - intros s ri [B1 B2 B3 B4]%A2. constructor; try done. intros e He. by apply (la_met _ _ Hl), B4.
  - intros i Hi Hn. by apply (la_knows _ _ Hl), A5.
  - intros socket addr d Hd. by eapply datagram_later, A6.
Qed.

(** The other ranks only see that knowledge has grown. *)
Lemma knowing_step net x st st' : knowing net → net !! x = Some st → later net (<[x := st']> net) → informed (<[x := st']> net) x st' →
  (x = 0%nat → introduced st → introduced st') → knowing (<[x := st']> net).
Proof using Type.
  intros [H1 H2] Hx Hl Hi H0. assert (x < length net)%nat as Hlt by by eapply lookup_lt_Some. constructor.
  - intros y sy. destruct (decide (x = y)) as [->|Hne].
    + rewrite list_lookup_insert_eq by done. by intros [= <-].
    + rewrite list_lookup_insert_ne by done. intros Hy. eapply informed_later; [done|by apply H1].
  - intros sy. destruct (decide (x = 0%nat)) as [->|Hne].
    + rewrite list_lookup_insert_eq by done. intros [= <-]. auto.
    + rewrite list_lookup_insert_ne by done. apply H2.
Qed.

(** ** Steps that change no table *)

Lemma mesh_nb x st s e : (x < N)%nat → cfg st = cfgs x → mesh_edge st s e → (s < N)%nat ∧ (e < N)%nat ∧ e ∈ nb s ∧ s ∈ nb e.
Proof using Hmt.
  intros Hx Hc (es & Hes & He). rewrite Hc in Hes. pose proof (mt_tables _ _ _ _ _ Hmt x Hx) as Ht. assert (s < N)%nat as Hs by (rewrite <- (ta_edges _ _ _ _ _ Ht); by eapply lookup_lt_Some).
  assert (e ∈ nb s) as Hn. { apply (nb_edge N G cfgs nb dst Hmt); [done|]. apply (ta_edge _ _ _ _ _ Ht). by exists es. }
  destruct (nb_lt N G cfgs nb dst Hmt s e Hs Hn) as (? & _ & ?). done.
Qed.

Lemma nb_mesh x st s e : (x < N)%nat → cfg st = cfgs x → (s < N)%nat → e ∈ nb s → mesh_edge st s e.
Proof using Hmt.
  intros Hx Hc Hs He. pose proof (mt_tables _ _ _ _ _ Hmt x Hx) as Ht. apply (nb_edge N G cfgs nb dst Hmt) in He; [|done]. apply (ta_edge _ _ _ _ _ Ht) in He as (es & Hes & He).
  exists es. by rewrite Hc.
Qed.

Lemma mesh_back x st s e : (x < N)%nat → cfg st = cfgs x → mesh_edge st s e → mesh_edge st e s.
Proof using Hmt. intros Hx Hc H. destruct (mesh_nb x st s e Hx Hc H) as (_ & He & _ & Hb). by apply (nb_mesh x). Qed.

Lemma plain_datagram_ok net x st addr d : (x < N)%nat → cfg st = cfgs x → net !! x = Some st → (∀ s ri, registered st s ri → info_ok net s ri) → unackedAddresses (boot st) ⊆ L x →
  plain_datagram st addr d → datagram_ok net x addr d.
Proof using Hmt.
  intros Hx Hc Hst Hi Hu. pose proof (proj1 (mt_rank _ _ _ _ _ Hmt x Hx)) as Er. destruct d as [key s u k l|key s u l|key s u k l|key s e| | |]; cbn; rewrite ?Hc, ?Er; try done.
  - intros (-> & -> & Hl). split_and!; try done. intros i a Ha%Hl. by eapply lookup_weaken.
  - intros (-> & ri & Hri & Hl) i Hi'. exists ri. split; [by apply (noted_registered net st)|auto].
  - intros (e & ri & rj & Hm & Hri & Hrj & -> & -> & Hl). destruct (Hi s ri Hri) as [A1 A2 _ _]. destruct (Hi e rj Hrj) as [_ _ B _]. split_and!; [|done|intros i a Ha%Hl; by eapply lookup_weaken].
    intros e' He'. assert (e' = e) as -> by congruence. by destruct (mesh_nb x st s e Hx Hc Hm) as (_ & _ & _ & ?).
  - intros [-> He]. split; [done|]. by exists st.
Qed.

Lemma plain_callback_ok net x st f : informed net x st → (edgePeers st).*1 = nb x → plain_callback st f → callback_ok x st f.
Proof using Type.
  intros Hin Hp. destruct f as [| |y|a y u| | | | | |s e]; try done; cbn; [by rewrite Hp|]. intros (pi & i & Hpi & <- & Ha). split; [rewrite <- Hp; by eapply find_peers|].
  destruct (if_edge _ _ _ Hin y pi Hpi) as [[[E|E] Hs] _]; [rewrite E, lookup_empty in Ha; done|]. split; [done|]. exists i. by eapply lookup_weaken.
Qed.

Lemma callback_ok_calm x st st' f : calm st st' → callback_ok x st f → callback_ok x st' f.
Proof using Type.
  intros Hc. destruct f as [| |y|a y u| | | | | |s e]; try done. cbn. rewrite (mesh_calm _ _ _ _ Hc). intros [H [ri Hri]]. split; [done|]. exists ri. by apply (registered_calm _ _ _ _ Hc).
Qed.

Lemma informed_calm net x st st' : (x < N)%nat → wf (cfgs x) (nb x) st → net !! x = Some st → informed net x st → calm st st' → informed (<[x := st']> net) x st'.
Proof using Hmt.
  intros Hx [Hc Hp] Hst Hin Hca. assert (x < length net)%nat as Hlt by by eapply lookup_lt_Some. pose proof (later_calm _ _ _ _ Hst Hca) as Hl.
  destruct (informed_later _ _ _ _ Hl Hin) as [A1 A2 A3 A4 A5 A6 A7 A8 A9]. destruct (ca_boot _ _ Hca) as (E1 & E2 & E3).
  assert (∀ s ri, registered st' s ri → info_ok (<[x := st']> net) s ri) as A2' by (intros s ri Hr%(registered_calm _ _ _ _ Hca); auto).
  constructor; rewrite ?E1, ?E2, ?E3; try done.
  - intros socket addr d Hd. destruct (ca_out _ _ Hca) as (l & El & Hpl). rewrite El, elem_of_app in Hd. destruct Hd as [Hd|Hd]; [by eapply A6|]. rewrite Forall_forall in Hpl.
    apply (plain_datagram_ok _ x st' addr d); [done|by rewrite (ca_cfg _ _ Hca)|by apply list_lookup_insert_eq|done|by rewrite E2|exact (Hpl _ Hd)].
  - intros p. unfold waiting. rewrite (ca_callbacks _ _ Hca), elem_of_app. intros Hpp. eapply callback_ok_calm; [exact Hca|]. destruct Hpp as [Hpp|[Hpp|Hpp]%(ca_new _ _ Hca)].
    + apply A7. unfold waiting. rewrite elem_of_app. by left.
    + apply A7. unfold waiting. rewrite elem_of_app. by right.
    + by eapply plain_callback_ok.
  - by eapply timer_calm.
  - intros y pi' Hy. assert (is_Some (findEdge st y)) as [pi Hpi] by (unfold findEdge; rewrite find_is_Some, <- (ca_peers _ _ Hca), <- find_is_Some; by exists pi').
    destruct (ca_edge _ _ Hca y pi Hpi) as (p & Hp' & (Eu & _ & Ea) & _ & Ht). assert (p = pi') as -> by congruence. destruct (A9 y pi Hpi) as [[U S] T].
    split; [constructor; rewrite Ea, ?Eu; done|auto].
Qed.

Lemma introduced_calm st st' : calm st st' → introduced st → introduced st'.
Proof using Type.
  intros Hc Hi s e ri rj. rewrite !(mesh_calm _ _ _ _ Hc), !(registered_calm _ _ _ _ Hc). intros H1 H2 H3 H4. destruct (Hi s e ri rj H1 H2 H3 H4); [left|right]; by eapply told_calm.
Qed.

Lemma knowing_calm net x st st' : net_ok net → knowing net → net !! x = Some st → calm st st' → knowing (<[x := st']> net).
Proof using Hmt.
  intros Hn Hk Hst Hc. assert (x < N)%nat as Hx by (rewrite <- (ne_length _ _ _ _ _ Hn); by eapply lookup_lt_Some).
  eapply knowing_step; [done|done|by eapply later_calm| |intros _; by apply introduced_calm].
  eapply informed_calm; [done|by apply (ne_node _ _ _ _ _ Hn)|done|by apply Hk|done].
Qed.

(** ** Datagrams *)

(** The datagram was sent by the rank that has address [from], to an address of [x]. *)
Definition genuine (net : list StoreImpl) (x : nat) (from : list Z) (d : Datagram) : Prop :=
  ∃ y sy socket addr, owner from = Some y ∧ net !! y = Some sy ∧ SendTo socket addr d ∈ out sy ∧ owner addr = Some x.

Lemma genuine_ok net x from d : knowing net → genuine net x from d → ∃ y addr, owner from = Some y ∧ owner addr = Some x ∧ datagram_ok net y addr d.
Proof using Type. intros Hk (y & sy & socket & addr & H1 & H2 & H3 & H4). exists y, addr. split_and!; try done. by eapply if_out; [apply Hk|]. Qed.

(** A table changes, and then nothing more. *)
Lemma changed net x st st1 st' : (x < N)%nat → net !! x = Some st → wf (cfgs x) (nb x) st1 → informed net x st → later net (<[x := st1]> net) →
  informed (<[x := st1]> net) x st1 → calm st1 st' → later net (<[x := st']> net) ∧ informed (<[x := st']> net) x st'.
Proof using Hmt.
  intros Hx Hst Hwf Hin Hl Hi1 Hc. assert (x < length net)%nat as Hlt by by eapply lookup_lt_Some. assert (<[x := st1]> net !! x = Some st1) as H1 by by apply list_lookup_insert_eq.
  rewrite <- (list_insert_insert_eq net x st' st1). split; [|by eapply informed_calm].
  pose proof (later_calm _ _ _ _ H1 Hc) as [A1 A2]. destruct Hl as [B1 B2]. constructor; auto.
Qed.

Lemma informed_info net x st s ri0 ri : (x < N)%nat → net !! x = Some st → informed net x st → (s < N)%nat → rankInfos (boot st) !! s = Some ri0 →
  (∀ i, is_Some (from_option raddresses ∅ ri0 !! i) → is_Some (raddresses ri !! i)) → info_ok net s ri →
  later net (<[x := with_info st s ri]> net) ∧ informed (<[x := with_info st s ri]> net) x (with_info st s ri).
Proof using Type.
  intros Hx Hst Hin Hs Hri0 Ha Hri. assert (later net (<[x := with_info st s ri]> net)) as Hl.
  { eapply later_step; [done| |done]. intros _ s' r Hr. unfold registered in *. cbn. destruct (decide (s = s')) as [<-|Hne]; [|exists r; by rewrite list_lookup_insert_ne].
    exists ri. rewrite list_lookup_insert_eq by (by eapply lookup_lt_Some). split; [done|]. intros i Hi. apply Ha. assert (ri0 = Some r) as -> by congruence. done. }
  split; [done|]. pose proof (informed_later _ _ _ _ Hl Hin) as [A1 A2 A3 A4 A5 A6 A7 A8 A9]. constructor; try done; cbn.
  - by rewrite length_insert.
  - intros s' r. unfold registered. cbn. destruct (decide (s = s')) as [<-|Hne]; [|rewrite list_lookup_insert_ne by done; apply A2].
    rewrite list_lookup_insert_eq by (by eapply lookup_lt_Some). intros [= <-]. destruct Hri as [B1 B2 B3 B4]. constructor; try done. intros e He. by apply (la_met _ _ Hl), B4.
  - intros p Hp%A7. destruct (p.2) as [| |y|a y u| | | | | |a b]; try done. destruct Hp as [Hm [r Hr]]. split; [done|]. unfold registered in *. cbn.
    destruct (decide (s = a)) as [<-|Hne]; [exists ri; by rewrite list_lookup_insert_eq by (by eapply lookup_lt_Some)|exists r; by rewrite list_lookup_insert_ne].
Qed.

Lemma informed_unacked net x st l : net !! x = Some st → informed net x st → (∀ i, i ∈ l → knows net x i) →
  later net (<[x := with_unacked st l]> net) ∧ informed (<[x := with_unacked st l]> net) x (with_unacked st l).
Proof using Type.
  intros Hst Hin Hl. assert (later net (<[x := with_unacked st l]> net)) as Hla by (eapply later_step; [done|intros _ s ri Hr; by exists ri|done]).
  split; [done|]. pose proof (informed_later _ _ _ _ Hla Hin) as [A1 A2 A3 A4 A5 A6 A7 A8 A9]. unfold with_unacked in *. cbn zeta in *. constructor; try done; cbn.
  - apply map_subseteq_spec. intros i a. rewrite delete_all. destruct (bool_decide (i ∈ l)); [done|]. intros Hi. by eapply lookup_weaken.
  - intros [Hb|Hb]%orb_true_iff; [|by apply bool_decide_eq_true in Hb]. apply map_eq. intros i. rewrite delete_all, (A4 Hb), lookup_empty. by destruct (bool_decide (i ∈ l)).
  - intros i Hi. rewrite delete_all. destruct (bool_decide (i ∈ l)) eqn:Ei; [apply bool_decide_eq_true in Ei; intros _; by apply (la_knows _ _ Hla), Hl|by apply A5].
Qed.

Lemma informed_learn net x st s pi u k l from socket : net !! x = Some st → informed net x st → findEdge st s = Some pi → u = myId (cfgs s) → listed l (L s) →
  let st1 := putEdge st s (learn pi u k l from socket) in later net (<[x := st1]> net) ∧ informed (<[x := st1]> net) x st1.
Proof using Type.
  intros Hst Hin Hpi Hu Hli st1.
  assert (∀ y, findEdge st1 y = if decide (s = y) then Some (learn pi u k l from socket) else findEdge st y) as Hf.
  { intros y. unfold st1, findEdge, putEdge. cbn. rewrite find_put by (by exists pi). done. }
  assert (later net (<[x := st1]> net)) as Hl.
  { eapply later_step; [done|intros _ s' ri Hr; by exists ri|]. intros e (p & Hp & He). unfold ever_connected. rewrite Hf. case_decide; [subst e|by exists p].
    eexists. split; [done|]. cbn. assert (p = pi) as -> by congruence. done. }
  split; [done|]. pose proof (informed_later _ _ _ _ Hl Hin) as [A1 A2 A3 A4 A5 A6 A7 A8 A9]. constructor; try done.
  intros y p. rewrite Hf. case_decide; [subst y; intros [= <-]|apply A9]. destruct (A9 s pi Hpi) as [[B1 B2] B3]. split; [|done]. constructor; cbn; [by right|by apply insert_new_sub].
Qed.

(** [introduced] when only what is known of [s] changes. *)
Lemma told_info st s ri a b : told_of st a b → (∀ rj, s = b → registered st b rj → a ∈ rconnected rj → a ∈ rconnected ri) → is_Some (rankInfos (boot st) !! s) → (s = b → ∃ rj, registered st b rj) →
  told_of (with_info st s ri) a b.
Proof using Type.
  intros Ht Hr [o Ho] Hb Hop rj. unfold registered. cbn. destruct (decide (s = b)) as [->|Hne].
  - rewrite list_lookup_insert_eq by (by eapply lookup_lt_Some). intros [= <-]. destruct (Hb eq_refl) as [rj Hrj]. destruct (Ht Hop rj Hrj) as [H|H]; [left; eauto|by right].
  - rewrite list_lookup_insert_ne by done. apply (Ht Hop).
Qed.

Lemma introduced_connect st s ri st' opt : introduced st → (∀ a b, mesh_edge st a b → mesh_edge st b a) → rankInfos (boot st) !! s = Some opt → calm (with_info st s ri) st' →
  (∀ e, mesh_edge st s e → told_of st' s e) → introduced st'.
Proof using Type.
  intros Hi Hsym Ho Hc Ht a b ra rb. rewrite !(mesh_calm _ _ _ _ Hc), !(registered_calm _ _ _ _ Hc). intros M1 M2. unfold registered. cbn.
  destruct (decide (s = a)) as [<-|Ha]; [intros; left; by apply Ht|]. destruct (decide (s = b)) as [<-|Hb]; [intros; right; by apply Ht|].
  rewrite !list_lookup_insert_ne by done. intros Ra Rb. destruct (Hi a b ra rb M1 M2 Ra Rb) as [H|H]; [left|right]; eapply told_calm; try exact Hc; by apply told_info.
Qed.

Lemma introduced_connected st s ri e : introduced st → registered st s ri →
  introduced (with_info st s (mkRankInfo (ruid ri) (rnetworkKey ri) (raddresses ri) (rudpaddr ri) (rudpSocket ri) ({[e]} ∪ rconnected ri))).
Proof using Type.
  intros Hi Hs a b ra rb M1 M2 Ra Rb. set (ri' := mkRankInfo _ _ _ _ _ _) in *.
  assert (∀ c rc, registered (with_info st s ri') c rc → ∃ rc', registered st c rc') as Hback.
  { intros c rc. unfold registered in *. cbn. destruct (decide (s = c)) as [<-|Hne]; [intros _; by exists ri|rewrite list_lookup_insert_ne by done; eauto]. }
  destruct (Hback a ra Ra) as [ra' Ra'], (Hback b rb Rb) as [rb' Rb'].
  assert (∀ c d, told_of st c d → told_of (with_info st s ri') c d) as Ht.
  { intros c d H. apply told_info; [done| |by eexists|intros <-; by exists ri]. intros rj <- Hrj Hin. cbn. apply elem_of_union_r. unfold registered in *. assert (rj = ri) as -> by congruence. done. }
  destruct (Hi a b ra' rb' M1 M2 Ra' Rb'); [left|right]; auto.
Qed.

Lemma knowing_heard net x st from d st' : net_ok net → knowing net → net !! x = Some st → heard st from d st' →
  (∀ d', d = Some d' → datagram_key d' = storekey (cfg st) → genuine net x from d') → knowing (<[x := st']> net).
Proof using Hmt.
  intros Hn Hk Hst Hh Hg. assert (x < N)%nat as Hx by (rewrite <- (ne_length _ _ _ _ _ Hn); by eapply lookup_lt_Some).
  pose proof (no_wf _ _ _ _ _ _ (ne_node _ _ _ _ _ Hn x st Hst)) as [Hc Hp]. pose proof (kw_rank _ Hk x st Hst) as Hin. destruct (mt_rank _ _ _ _ _ Hmt x Hx) as [Er Ew].
  destruct Hh as [d st' Hca|s u k l socket opt ri st' H0 Hs Ho Hr Hca Ht|u l|s u k l socket pi st' Hpi Hca|s e ri Hri].
  - by eapply knowing_calm.
  - destruct (genuine_ok net x from _ Hk (Hg _ eq_refl eq_refl)) as (y & addr & Hy & _ & -> & -> & Hl). rewrite Hc, Ew in Hs.
    destruct (register_some _ _ _ _ _ _ _ Hr) as (R1 & R2 & R3 & R4 & R5).
    destruct (informed_info net x st y opt ri Hx Hst Hin Hs Ho) as [L1 I1].
    + intros i Hi. rewrite R3. apply insert_new_dom. by left.
    + constructor; [done| |by rewrite R2|].
      * rewrite R3. apply insert_new_sub; [|done]. destruct opt as [r|]; cbn; [by apply (in_addresses _ _ _ (if_info _ _ _ Hin y r Ho))|apply map_empty_subseteq].
      * rewrite R4. intros e. destruct opt as [r|]; cbn; [by apply (in_connected _ _ _ (if_info _ _ _ Hin y r Ho))|by intros ?%elem_of_empty].
    + destruct (changed net x st (with_info st y ri) st' Hx Hst (conj Hc Hp) Hin L1 I1 Hca) as [L2 I2]. eapply knowing_step; try done. intros _ Hi. eapply introduced_connect; try done.
      intros a b. by apply (mesh_back x).
  - destruct (genuine_ok net x from _ Hk (Hg _ eq_refl eq_refl)) as (y & addr & _ & _ & Hd). cbn in Hd. rewrite Hc, Er in Hd.
    destruct (informed_unacked net x st l Hst Hin Hd) as [L1 I1]. by eapply knowing_step.
  - destruct (genuine_ok net x from _ Hk (Hg _ eq_refl eq_refl)) as (y & addr & _ & _ & _ & Hu & Hl).
    destruct (informed_learn net x st s pi u k l from socket Hst Hin Hpi Hu Hl) as [L1 I1]. set (st1 := putEdge st s _) in *.
    destruct (changed net x st st1 st') as [L2 I2]; try done; [split; [done|cbn; by rewrite put_fst]|]. eapply knowing_step; try done. intros _ Hi. eapply introduced_calm; [exact Hca|exact Hi].
  - destruct (genuine_ok net x from _ Hk (Hg _ eq_refl eq_refl)) as (y & addr & _ & _ & -> & Hm). assert (y < N)%nat as Hy by (rewrite <- (if_infos _ _ _ Hin); by eapply lookup_lt_Some).
    destruct (if_info _ _ _ Hin y ri Hri) as [A1 A2 A3 A4]. eassert _ as H.
    { eapply (informed_info net x st y (Some ri) (mkRankInfo (ruid ri) (rnetworkKey ri) (raddresses ri) (rudpaddr ri) (rudpSocket ri) ({[e]} ∪ rconnected ri)) Hx Hst Hin Hy Hri); [done|].
      constructor; try done. cbn. intros e' [->%elem_of_singleton|He]%elem_of_union; [done|auto]. }
    destruct H as [L1 I1]. eapply knowing_step; try done. intros _ Hi. by apply introduced_connected.
Qed.

(** ** The thread *)

Lemma informed_popped net x st t : informed net x st → timer_ok t → (∀ p, p ∈ waiting t → p ∈ waiting (timer st)) → informed net x (set_timer st t).
Proof using Type. intros [A1 A2 A3 A4 A5 A6 A7 A8 A9] Ht Hp. constructor; try done. intros p H%Hp. by apply A7 in H. Qed.

Lemma told_popped st t time f s e : waiting (timer st) ≡ₚ (time, f) :: waiting t → f ≠ SendAddresses s e → told_of st s e → told_of (set_timer st t) s e.
Proof using Type.
  intros Hp Hf Ht Ho rj Hrj. destruct (Ht Ho rj Hrj) as [H|(t0 & H)]; [by left|]. right. exists t0. change (callbacks (timer st) ++ queuedCallbacks (timer st)) with (waiting (timer st)) in H.
  rewrite Hp in H. apply elem_of_cons in H as [[= _ H]|H]; [by rewrite H in Hf|done].
Qed.
End know.
