(* ===== verification/StoreRunFacts.v ===== *)
(** * Every run keeps the invariant of the ranks

    The tables with which the ranks start belong to one graph, and so file
    StoreNetFacts applies to every state that a run reaches. *)

From Stdlib Require Import ZArith Lia.
From stdpp Require Import base gmap option list strings.
From S2P Require Import Prelude StoreTopology StoreTopologyFacts Store StoreConn StoreBoot StoreTimer StoreRun StoreSendFacts StoreReactFacts StoreStepFacts StoreNetFacts.

Local Set Warnings "-clear-no-such-hyp".

(** Choice over the numbers below a bound. *)
Lemma finite_choice {A} `{Inhabited A} (N : nat) (P : nat → A → Prop) :
  (∀ i, (i < N)%nat → ∃ a, P i a) → ∃ f, ∀ i, (i < N)%nat → P i (f i).
Proof.
  intros HP. assert (∃ l : list A, length l = N ∧ ∀ i, (i < N)%nat → P i (l !!! i)) as (l & _ & Hl); [|by exists (λ i, l !!! i)].
  induction N as [|N IH]; [exists []; split; [done|lia]|]. destruct IH as (l & El & Hl); [auto|]. destruct (HP N) as [a Ha]; [lia|].
  exists (l ++ [a]). rewrite length_app. split; [cbn; lia|]. intros i Hi. destruct (Nat.eq_dec i N) as [->|].
  - by rewrite lookup_total_app_r, El, Nat.sub_diag by lia.
  - rewrite lookup_total_app_l by lia. apply Hl. lia.
Qed.

Section runs.
Context (fmt : Reason → string) (resolveAddressSync : string → list (list Z)) (shuffle_addrs : list (list Z) → list (list Z)).
Context (env : Env).

Local Abbreviation act := (act fmt resolveAddressSync shuffle_addrs env).
Local Abbreviation steps := (steps fmt resolveAddressSync shuffle_addrs env).

(** ** Steps *)

(** Calls and the log only grow. *)
Lemma at_rank_grows w x f w' : at_rank w x f = Ok w' → calls w' = calls w ∧ log w' = log w.
Proof using Type.
  unfold at_rank. destruct (ranks w !! x) as [st|]; [|done]. cbn [of_option obind]. destruct (f st); try done. cbn [obind]. by intros [= <-].
Qed.

Lemma act_grows w a w' : act w a = Ok w' → calls w `prefix_of` calls w' ∧ log w `prefix_of` log w'.
Proof using Type.
  destruct a as [now x y c i| |now x y c reply| | | | | | | |now x timeout key m|]; cbn [StoreRun.act]; try (by intros [-> ->]%at_rank_grows).
  - unfold read_data. destruct (ranks w !! y) as [sy|]; [|done]. cbn [of_option obind]. destruct (getEdge sy x) as [pj| | | |]; try done. cbn [obind].
    destruct (sent w x y !! i) as [o|]; [|done]. cbn [of_option obind]. destruct (onreadtcp _ _ _ _ _ _ _) as [sy'| | | |]; try done. cbn [obind].
    destruct (getEdge sy' x) as [pj'| | | |]; try done. intros [= <-]. cbn. split; [done|]. by apply prefix_app_r.
  - destruct (introduction _ _ _) as [m| | | |]; try done. cbn [obind]. by intros [-> ->]%at_rank_grows.
  - unfold make_call. destruct (ranks w !! x) as [st|]; [|done]. cbn [of_option obind]. destruct (doWaitOp _ _ _ _ _ _ _ _) as [[o st']| | | |]; try done. cbn [obind].
    destruct (exited (shut st)); intros [= <-]; cbn; [done|]. split; by apply prefix_app_r.
Qed.

(** Actions that are enabled one after the other are a run. *)
Lemma acts_steps l w1 w w' : steps w1 w → all_enabled fmt resolveAddressSync shuffle_addrs env w l = true →
  acts fmt resolveAddressSync shuffle_addrs env w l = Ok w' → steps w1 w'.
Proof using Type.
  revert w. induction l as [|a l IH]; intros w Hs; cbn [all_enabled acts]; [by intros _ [= <-]|]. intros [He H]%andb_true_iff.
  destruct (act w a) as [w2| | | |] eqn:Ea; try done. cbn [obind]. apply IH; [|done]. by eapply steps_step.
Qed.

Lemma steps_grow w w' : steps w w' → calls w `prefix_of` calls w' ∧ log w `prefix_of` log w'.
Proof using Type.
  induction 1 as [w|w w1 w2 a _ [IH1 IH2] _ Ha]; [done|]. destruct (act_grows w1 a w2 Ha) as [H1 H2]. split; by etransitivity.
Qed.
End runs.

#[local] Instance StoreImpl_inhabited : Inhabited StoreImpl :=
  populate (mkStore (mkConfig 0 0 "" "" [] [] []) [] ∅ [] ∅ [] (mkShutdown false false false None NotStarted 0 1 []) (mkKV 1 ∅ ∅ ∅ ∅) (mkTimer [] [] false) (mkBoot "" 0 [] false 0 ∅ [] 0) []).

Section mesh.
Context (fmt : Reason → string) (resolveAddressSync : string → list (list Z)) (shuffle_addrs : list (list Z) → list (list Z)).
Context (N : nat) (G : list (list nat)) (cfgs : nat → Config) (nb : nat → list nat) (dst : nat → nat → nat).
Context (Hmt : mesh_tables N G cfgs nb dst).

Local Abbreviation net_ok := (net_ok N cfgs nb dst).

Lemma is_edge_ok net x y : net_ok net → is_edge net x y = true ↔ (x < N)%nat ∧ y ∈ nb x.
Proof using Type.
  intros Hn. unfold is_edge. destruct (net !! x) as [st|] eqn:E.
  - destruct (no_wf _ _ _ _ _ _ (ne_node _ _ _ _ _ Hn x st E)) as [_ ->]. rewrite bool_decide_eq_true.
    apply lookup_lt_Some in E. rewrite (ne_length _ _ _ _ _ Hn) in E. tauto.
  - apply lookup_ge_None in E. rewrite (ne_length _ _ _ _ _ Hn) in E. split; [done|lia].
Qed.

Lemma rank_at net r : net_ok net → (r < length net)%nat → (r < N)%nat.
Proof using Type. intros Hn. by rewrite (ne_length _ _ _ _ _ Hn). Qed.

Lemma close_quiet now st : ∃ s, cfg (close now st) = cfg st ∧ edgePeers (close now st) = edgePeers st ∧ kept st (close now st) ∧ kv (close now st) = kv st ∧ shut (close now st) = s ∧
  shutdownStates s = shutdownStates (shut st) ∧ phase s = phase (shut st) ∧ exitSourceRank s = exitSourceRank (shut st) ∧ exited s = exited (shut st).
Proof using Type.
  unfold close. cbn zeta. destruct (shuttingDown (shut st)); [exists (shut st); split_and!; try done; apply kept_refl|].
  match goal with |- context [addCallback ?s ?t ?f] => destruct (addCallback_quiet s t f) as (Q1&Q2&Q3&Q4&Q5&Q6) end.
  rewrite Q1, Q4, Q5, Q6. eexists. do 2 (split; [reflexivity|]). split; [by apply kept_same|]. repeat (split; [reflexivity|]). reflexivity.
Qed.

Lemma close_op_ok now x st : node_ok N cfgs nb dst x st → node_ok N cfgs nb dst x (close now st).
Proof using Type.
  intros [N1 N2 N3 N4 N5 N6]. destruct (close_quiet now st) as (s & E1 & E2 & Hk & E3 & E4 & E5 & E6 & E7 & E8).
  constructor; rewrite ?E3, ?E4, ?E5, ?E6, ?E7; try done.
  - destruct N1 as [H1 H2]. split; congruence.
  - intros y pi. unfold findEdge. rewrite E2. apply N5.
  - by eapply edges_kept_ok.
Qed.

Lemma op_not_cast m key : op_key m = Some key → ¬ is_cast m.
Proof using Type. destruct m; (done || by intros _ []). Qed.

(** ** Edges that deliver in order

    The same ranks, but every edge is a queue: the messages on it that the peer
    has not handled yet are in [outgoingQueue].  Packets and their numbers are
    gone. *)

Record Lines := mkLines { l_ranks : list StoreImpl; l_calls : list Call; l_log : list Entry }.


(** The rank at which a call is made, after the call. *)
Definition called (r : nat) (now timeout : Z) (key : string) (m : Message) (st st' : StoreImpl) : Prop :=
  let o := storeRank N key in
  let k := call_kv now (cfgs r) (kv st) timeout key true in
  let b := made (cfgs r) o (nextId (kv st)) r m in
  if decide (o = r) then outs (cfgs r) st (reaction_out (cfgs r) (nb r) k (shut st) b) st' ∧ kv st' = reaction_kv (cfgs r) k (shut st) b ∧ shut st' = reaction_shut (shut st) b
  else outs (cfgs r) st [OSend (hopf cfgs r o) b] st' ∧ kv st' = k ∧ shut st' = shut st.

(** A call after the store has exited: the caller is told at once. *)
Definition refused (r : nat) (now timeout : Z) (key : string) (st st' : StoreImpl) : Prop :=
  let k := call_kv now (cfgs r) (kv st) timeout key false in
  outs (cfgs r) st [] st' ∧ kv st' = set_waits k (waits k) (exit_objs (cfgs r) (shut st) [fresh (dom (waitObjs (kv st)))] (waitObjs k)) ∧ shut st' = shut st.

Inductive effect (w : Lines) : Lines → Prop :=
  | effect_none : effect w w
  | effect_deliver x y sx sy pi o q sy' : (x < N)%nat → y ∈ nb x → l_ranks w !! x = Some sx → l_ranks w !! y = Some sy → findEdge sx y = Some pi →
      outgoingQueue pi = o :: q → msg_ok N cfgs dst x y (obuffer o) →
      outs (cfgs y) sy (arrive_out cfgs nb y sy (obuffer o) x) sy' → kv sy' = arrive_kv cfgs y sy (obuffer o) → shut sy' = arrive_shut y sy (obuffer o) →
      effect w (mkLines (<[y := sy']> (<[x := pop sx y pi q]> (l_ranks w))) (l_calls w) (l_log w ++ executed_at sy (obuffer o)))
  | effect_call r now timeout key m st st' : (r < N)%nat → l_ranks w !! r = Some st → exited (shut st) = false → op_key m = Some key → nextId (kv st) < 2 ^ 32 - 1 →
      called r now timeout key m st st' →
      effect w (mkLines (<[r := st']> (l_ranks w)) (l_calls w ++ [mkCall r (nextId (kv st)) m (fresh (dom (waitObjs (kv st))))]) (l_log w ++ executed_at st (request st key m)))
  | effect_refused r now timeout key st st' : (r < N)%nat → l_ranks w !! r = Some st → exited (shut st) = true → nextId (kv st) < 2 ^ 32 - 1 → refused r now timeout key st st' →
      effect w (mkLines (<[r := st']> (l_ranks w)) (l_calls w) (l_log w))
  | effect_turn r st ms st' : (r < N)%nat → l_ranks w !! r = Some st → moved (cfgs r) st (casts (cfgs r) (nb r) ms) st' → closes (cfgs r) st ms st' →
      effect w (mkLines (<[r := st']> (l_ranks w)) (l_calls w) (l_log w))
  | effect_link x y st fwd st' : (x < N)%nat → y ∈ nb x → l_ranks w !! x = Some st → (∀ s, s ∈ fwd ↔ (s < N)%nat ∧ hopf cfgs y s = x) → linked (cfgs x) st y fwd st' →
      effect w (mkLines (<[x := st']> (l_ranks w)) (l_calls w) (l_log w)).

Lemma turn_same r st st' : moved (cfgs r) st [] st' → same_rest st st' → moved (cfgs r) st (casts (cfgs r) (nb r) []) st' ∧ closes (cfgs r) st [] st'.
Proof using Type. intros Hm [Hk Hs]. split; [done|]. split; [rewrite Hs; apply closing_refl|rewrite Hk; apply told_refl]. Qed.

Lemma close_turn now r st : moved (cfgs r) st (casts (cfgs r) (nb r) []) (close now st) ∧ closes (cfgs r) st [] (close now st).
Proof using Type.
  destruct (close_quiet now st) as (s & E1 & E2 & Hkp & E3 & E4 & E5 & E6 & E7 & E8). split.
  - constructor; [done|by rewrite E2| |done]. intros y pi Hy. exists pi, pi. unfold findEdge in *. rewrite E2. split; [done|]. split; [constructor|done].
  - split; [|rewrite E3; apply told_refl]. rewrite E4. constructor; rewrite ?E6, ?E7, ?E8; try done; try lia; try congruence; try tauto.
Qed.

(** *** The invariant *)

Lemma called_ok r now timeout key m st st' : (r < N)%nat → node_ok N cfgs nb dst r st → ¬ is_cast m → called r now timeout key m st st' → node_ok N cfgs nb dst r st'.
Proof using Hmt.
  intros Hr Hno Hm Hc. destruct (mt_rank _ _ _ _ _ Hmt r Hr) as [Er Ew].
  pose proof (storeRank_lt (cfgs r) (nb r) (routes_at N G cfgs nb dst Hmt r Hr) key) as Hlt. rewrite Ew in Hlt.
  unfold called in Hc. set (k := call_kv now (cfgs r) (kv st) timeout key true) in *. set (b := made (cfgs r) (storeRank N key) (nextId (kv st)) r m) in *.
  assert (waiters_ok (cfgs r) k) as Hw by apply Hno. case_decide as Hd; destruct Hc as (Ho & Hk & Hs).
  - destruct (reaction_shut_ok (shut st) b) as (R1 & R2 & R3).
    eapply (moved_ok N G cfgs nb dst Hmt r st (reaction_out (cfgs r) (nb r) k (shut st) b)); [done|exact Hno|by apply outs_moved|..]; rewrite ?Hk, ?Hs.
    + apply (reaction_out_ok N G cfgs nb dst Hmt r (set_kv st k)); [done| |cbn; by rewrite Er|done]. destruct Hno as [N1 N2 N3 N4 N5 [C1 C2 C3]]. by constructor.
    + rewrite R1. apply Hno.
    + rewrite R2. intros Hph. apply R3. by apply Hno.
    + apply (reaction_waiters N G cfgs nb dst Hmt); [done|done|cbn; by rewrite Er|done].
  - eapply (moved_ok N G cfgs nb dst Hmt r st [_]); [done|exact Hno|by apply outs_moved| |..]; rewrite ?Hk, ?Hs; [|apply Hno..].
    apply Forall_singleton. by apply (made_ok N G cfgs nb dst Hmt).
Qed.

Lemma refused_ok r now timeout key st st' : (r < N)%nat → node_ok N cfgs nb dst r st → refused r now timeout key st st' → node_ok N cfgs nb dst r st'.
Proof using Hmt.
  intros Hr Hno (Ho & Hk & Hs). eapply (moved_ok N G cfgs nb dst Hmt r st []); [done|exact Hno|by apply outs_moved|constructor|..]; rewrite ?Hk, ?Hs; apply Hno.
Qed.

Lemma effect_ok w w' : net_ok (l_ranks w) → effect w w' → net_ok (l_ranks w').
Proof using Hmt.
  intros Hn He. pose proof (ne_node _ _ _ _ _ Hn) as Hno.
  destruct He as [|x y sx sy pi o q sy' Hx Hy Ex Ey Hpi Hq Hb Ho Hk Hs|r now timeout key m st st' Hr Est Hex Hkey Hid Hcall|r now timeout key st st' Hr Est Hex Hid Href|r st ms st' Hr Est Hm Hcl|x y st fwd st' Hx Hy Est Hf Hl]; cbn [l_ranks].
  - done.
  - destruct (nb_lt N G cfgs nb dst Hmt x y Hx Hy) as (Hyw & _). apply net_set; [apply net_set; [done|done|]|done|].
    + by eapply pop_ok; [apply Hno| |].
    + by eapply (arrived_ok N G cfgs nb dst Hmt y sy); [|apply Hno|..].
  - apply net_set; [done|done|]. eapply called_ok; [done|by apply Hno|by eapply op_not_cast|done].
  - apply net_set; [done|done|]. eapply refused_ok; [done|by apply Hno|done].
  - apply net_set; [done|done|]. by eapply (turned_ok N G cfgs nb dst Hmt); [|apply Hno|..].
  - apply net_set; [done|done|]. by eapply (linked_ok N G cfgs nb dst Hmt); [| |apply Hno|..].
Qed.

Lemma call_node r now timeout key m st : (r < N)%nat → node_ok N cfgs nb dst r st →
  ∃ st', doWaitOp fmt resolveAddressSync shuffle_addrs now st timeout key m = Ok (fresh (dom (waitObjs (kv st))), st') ∧
    if exited (shut st) then refused r now timeout key st st' else called r now timeout key m st st'.
Proof using Hmt.
  intros Hr Hno. destruct (mt_rank _ _ _ _ _ Hmt r Hr) as [Er Ew].
  destruct (call_ok fmt resolveAddressSync shuffle_addrs now (cfgs r) (nb r) (routes_at N G cfgs nb dst Hmt r Hr) st timeout key m (no_wf _ _ _ _ _ _ Hno) (no_waiters _ _ _ _ _ _ Hno)) as (st' & -> & H).
  exists st'. split; [done|]. cbn zeta in H. destruct (exited (shut st)); [exact H|]. unfold called. rewrite Er, Ew in H. exact H.
Qed.
End mesh.

(** ** The start *)

Section start.
Context (worldSize : nat) (shuffle : Z → list nat → list nat) (draws : Z → list nat).
Context (shuffle_edges : nat → nat → list nat → list nat) (hosts : nat → Host) (storekey hostname : string) (port : Z).
Context `{Hgen : !Generator worldSize shuffle draws} (Hsh : ∀ r a l, shuffle_edges r a l ≡ₚ l) (Hsmall : Z.of_nat worldSize < 2 ^ 31).

Local Abbreviation new_rank := (new_rank worldSize shuffle draws shuffle_edges hosts storekey hostname port).
Local Abbreviation new_ranks := (new_ranks worldSize shuffle draws shuffle_edges hosts storekey hostname port).
Local Abbreviation start := (start worldSize shuffle draws shuffle_edges hosts storekey hostname port).
Local Abbreviation mesh := (mesh worldSize shuffle draws storekey).

Lemma new_ranks_lookup l net : new_ranks l = Ok net → length net = length l ∧ ∀ i r, l !! i = Some r → ∃ st, net !! i = Some st ∧ new_rank r = Ok st.
Proof using Type.
  revert net. induction l as [|r l IH]; intros net; cbn [StoreRun.new_ranks]; [by intros [= <-]|].
  destruct (new_rank r) as [st| | | |] eqn:Er; try done. cbn [obind]. destruct (new_ranks l) as [net1| | | |]; try done. intros [= <-].
  destruct (IH net1 eq_refl) as [E H]. split; [cbn; lia|]. intros [|i] r'; cbn; [intros [= <-]; eauto|apply H].
Qed.

Lemma new_rank_paths r st : new_rank r = Ok st → mesh ≠ NoFuel.
Proof using Type.
  unfold StoreRun.new_rank, new_store, findPaths. intros H E. rewrite E in H. cbn [obind] in H.
  destruct (0 <? worldSize)%nat; [|done]. cbn [CHECK obind] in H. by destruct (r <? worldSize)%nat.
Qed.

(** A rank as it is constructed. *)
Definition fresh_store (c : Config) (es : list nat) (t : Timer) (b : Boot) : StoreImpl :=
  mkStore c ((λ e, (e, new_edge)) <$> es) ∅ [] ∅ []
    (mkShutdown false false false None NotStarted 0 1 (replicate worldSize (mkShutdownState false false false)))
    (mkKV 1 ∅ ∅ ∅ ∅) t b [].

Definition fresh_timer (h : Host) : Timer := mkTimer [] [(h_time h, Connect); (h_time h + 8000, Keepalive)] true.

Definition fresh_boot (r : nat) : Boot :=
  mkBoot hostname port (open_sockets (hosts r) r port) false 0 (local_addresses (h_local (hosts r))) (replicate worldSize None) 0.

Definition fresh_rank (G : list (list nat)) (r : nat) (st : StoreImpl) : Prop :=
  ∃ edges fh es, graph_ok worldSize G ∧ has_ring worldSize G ∧ tables_ok worldSize G r edges fh ∧ edges !! r = Some es ∧
    st = fresh_store (mkConfig worldSize r storekey (h_id (hosts r)) edges fh (h_udp (hosts r))) es (fresh_timer (hosts r)) (fresh_boot r).

Lemma new_rank_ok r st : (r < worldSize)%nat → new_rank r = Ok st → ∃ G, mesh = Ok G ∧ fresh_rank G r st.
Proof using Hgen Hsh.
  intros Hr H. destruct (findPaths_ok worldSize shuffle draws (shuffle_edges r) (Hsh r) storekey r Hr (new_rank_paths r st H)) as (G & edges & fh & E & HG & HR & Ep & Ht).
  unfold StoreRun.new_rank, new_store in H. rewrite Ep in H. cbn [obind] in H.
  rewrite (proj2 (Nat.ltb_lt 0 worldSize)), (proj2 (Nat.ltb_lt r worldSize)) in H by lia. cbn [CHECK obind] in H. unfold vec_get in H.
  destruct (edges !! r) as [es|] eqn:Ee; [|done]. cbn [of_option obind] in H. destruct (length es <=? maxEdgePeers)%nat; [|done]. cbn [CHECK obind] in H.
  case_bool_decide; [done|]. exists G. split; [done|]. exists edges, fh, es. split_and!; try done. by injection H.
Qed.

(** Construction never fails, once the shortcuts of the mesh have been drawn and a socket is open. *)
Lemma new_rank_total r : (r < worldSize)%nat → mesh ≠ NoFuel → open_sockets (hosts r) r port ≠ [] → ∃ st, new_rank r = Ok st.
Proof using Hgen Hsh.
  intros Hr Hm Hu. destruct (findPaths_ok worldSize shuffle draws (shuffle_edges r) (Hsh r) storekey r Hr Hm) as (G & edges & fh & E & HG & HR & Ep & Ht).
  unfold StoreRun.new_rank, new_store. rewrite Ep. cbn [obind].
  rewrite (proj2 (Nat.ltb_lt 0 worldSize)), (proj2 (Nat.ltb_lt r worldSize)) by lia. cbn [CHECK obind]. unfold vec_get.
  destruct (edges !! r) as [es|] eqn:Ee; [|apply lookup_ge_None in Ee; rewrite (ta_edges _ _ _ _ _ Ht) in Ee; lia].
  cbn [of_option obind]. rewrite (proj2 (Nat.leb_le _ _)); [cbn [CHECK obind]; rewrite bool_decide_false by done; eauto|]. by eapply (ta_degree _ _ _ _ _ Ht).
Qed.

Lemma new_ranks_total l : Forall (λ r, (r < worldSize)%nat ∧ open_sockets (hosts r) r port ≠ []) l → mesh ≠ NoFuel → ∃ net, new_ranks l = Ok net.
Proof using Hgen Hsh.
  intros Hl Hm. induction Hl as [|r l [Hr Hu] Hl [net IH]]; cbn [StoreRun.new_ranks]; [eauto|].
  destruct (new_rank_total r Hr Hm Hu) as [st ->]. cbn [obind]. rewrite IH. cbn [obind]. eauto.
Qed.

Lemma dist_exists G edges fh x d : tables_ok worldSize G x edges fh → (x < worldSize)%nat → (d < worldSize)%nat → ∃ n, dist G x d n.
Proof using Type.
  intros Ht Hx Hd. destruct (decide (d = x)) as [->|Hne].
  - exists 0%nat. split; [constructor|lia].
  - destruct (ta_hop _ _ _ _ _ Ht d Hd Hne) as (f & _ & _ & m & _ & H). eauto.
Qed.

Lemma fresh_ok cfgs nb dst r c es t b : cfgs r = c → nb r = es → node_ok worldSize cfgs nb dst r (fresh_store c es t b).
Proof using Type.
  intros Hc Hn. constructor.
  - split; [done|]. cbn. rewrite <- list_fmap_compose. rewrite Hn. by apply list_fmap_id.
  - cbn. by rewrite length_replicate.
  - cbn. lia.
  - intros key l. cbn. by rewrite lookup_empty.
  - intros y pi. unfold findEdge. cbn. clear Hn. induction es as [|e es IH]; [done|]. cbn. case_bool_decide; [|done]. intros [= <-].
    constructor; cbn; try done; by constructor.
  - constructor; unfold source; cbn.
    + intros conn z. by rewrite lookup_empty.
    + intros y pi conn. unfold findEdge. cbn. clear Hn. induction es as [|e es IH]; [done|]. cbn. case_bool_decide; [|done]. intros [= <-]. by intros ?%elem_of_nil.
    + by intros conn ?%elem_of_nil.
Qed.

Lemma start_ranks w : start = Ok w → (0 < worldSize)%nat →
  length (ranks w) = worldSize ∧ calls w = [] ∧ log w = [] ∧ (∀ x y, sent w x y = []) ∧ (∀ x y, seen w x y = 0%nat) ∧
  ∃ G, mesh = Ok G ∧ ∀ r, (r < worldSize)%nat → ∃ st, ranks w !! r = Some st ∧ fresh_rank G r st.
Proof using Hgen Hsh.
  unfold StoreRun.start. destruct (new_ranks (seq 0 worldSize)) as [net| | | |] eqn:En; try done. cbn [obind]. intros [= <-] Hw.
  destruct (new_ranks_lookup _ _ En) as [El Hl]. rewrite length_seq in El. split_and!; try done.
  assert (∀ r, (r < worldSize)%nat → ∃ st, net !! r = Some st ∧ ∃ G, mesh = Ok G ∧ fresh_rank G r st) as H.
  { intros r Hr. destruct (Hl r r) as (st & Hst & Ho); [by apply lookup_seq|]. exists st. split; [done|]. by apply new_rank_ok. }
  destruct (H 0%nat Hw) as (_ & _ & G & EG & _). exists G. split; [done|]. intros r Hr. destruct (H r Hr) as (st & Hst & G' & EG' & Hf).
  exists st. assert (G' = G) as -> by congruence. done.
Qed.

(** Distances as a function. *)
Lemma dst_exists G : (∀ x, (x < worldSize)%nat → ∃ edges fh, tables_ok worldSize G x edges fh) →
  ∃ dst, ∀ x d, (x < worldSize)%nat → (d < worldSize)%nat → dist G x d (dst x d).
Proof using Type.
  intros H. destruct (finite_choice worldSize (λ x (g : list nat), ∀ d, (d < worldSize)%nat → dist G x d (g !!! d))) as [dl Hdl].
  - intros x Hx. destruct (H x Hx) as (edges & fh & Ht). destruct (finite_choice worldSize (dist G x)) as [g Hg]; [intros d Hd; by eapply dist_exists|].
    exists (g <$> seq 0 worldSize). intros d Hd. erewrite list_lookup_total_correct; [apply (Hg d Hd)|]. by rewrite list_lookup_fmap, lookup_seq_lt.
  - exists (λ x d, dl x !!! d). auto.
Qed.

(** The invariant at the start. *)
Lemma start_ok w : start = Ok w → (0 < worldSize)%nat →
  ∃ G cfgs nb dst, mesh = Ok G ∧ mesh_tables worldSize G cfgs nb dst ∧ net_ok worldSize cfgs nb dst (ranks w) ∧ calls w = [] ∧ log w = [] ∧ (∀ x y, sent w x y = []) ∧ (∀ x y, seen w x y = 0%nat) ∧
    (∀ r st, ranks w !! r = Some st → st = fresh_store (cfgs r) (nb r) (fresh_timer (hosts r)) (fresh_boot r)) ∧
    ∀ r, (r < worldSize)%nat → Store.storekey (cfgs r) = storekey ∧ myId (cfgs r) = h_id (hosts r).
Proof using Hgen Hsh Hsmall.
  intros Hs Hw. destruct (start_ranks w Hs Hw) as (El & Ec & Elog & Esent & Eseen & G & EG & Hr).
  destruct (finite_choice worldSize (λ r st, ranks w !! r = Some st ∧ fresh_rank G r st)) as [f Hf]; [done|].
  set (cfgs r := cfg (f r)). set (nb r := default [] (edges (cfgs r) !! r)).
  assert (∀ r, (r < worldSize)%nat → f r = fresh_store (cfgs r) (nb r) (fresh_timer (hosts r)) (fresh_boot r) ∧ rank (cfgs r) = r ∧ Store.worldSize (cfgs r) = worldSize ∧
    tables_ok worldSize G r (edges (cfgs r)) (firsthop (cfgs r)) ∧ edges (cfgs r) !! r = Some (nb r)) as Hfr.
  { intros r Hlt. destruct (Hf r Hlt) as (_ & edges & fh & es & _ & _ & Ht & Hes & E). unfold nb, cfgs. rewrite E. cbn. rewrite Hes. done. }
  destruct (dst_exists G) as [dst Hdst]. { intros x Hx. destruct (Hfr x Hx) as (_ & _ & _ & Ht & _). eauto. }
  assert (∀ r st, ranks w !! r = Some st → (r < worldSize)%nat ∧ st = fresh_store (cfgs r) (nb r) (fresh_timer (hosts r)) (fresh_boot r)) as Hst.
  { intros r st Hst. assert (r < worldSize)%nat as Hlt by (rewrite <- El; by eapply lookup_lt_Some). split; [done|].
    destruct (Hf r Hlt) as [E _]. rewrite Hst in E. injection E as ->. by apply Hfr. }
  exists G, cfgs, nb, dst. split_and!; try done.
  - destruct (Hf 0%nat Hw) as (_ & _ & _ & _ & HG & HR & _). constructor; try done; intros x Hx; by apply Hfr in Hx as (_ & ? & ? & ? & ?).
  - constructor; [done|]. intros r st Hr'. destruct (Hst r st Hr') as [Hlt ->]. by apply fresh_ok.
  - intros r st Hr'. by apply Hst.
  - intros r Hlt. destruct (Hf r Hlt) as (_ & edges & fh & es & _ & _ & _ & _ & E). unfold cfgs. by rewrite E.
Qed.
End start.
