(* ===== verification/StoreThreadFacts.v ===== *)
(** * Rounds of the timer thread, and datagrams, succeed

    Whatever callback runs, it concerns an edge of the rank or ranks that rank 0
    has heard of, so it succeeds; and what ranks know of each other stays true. *)

From Stdlib Require Import ZArith Lia.
From stdpp Require Import base gmap option list sorting strings.
From S2P Require Import Prelude StoreTopology StoreTopologyFacts Store StoreConn StoreBoot StoreTimer StoreRun StoreSendFacts StoreCalmFacts StoreReactFacts StoreStepFacts StoreNetFacts.
From S2P Require Import StoreConnFacts StoreBootFacts StoreTimerFacts StoreKnowFacts StoreRunFacts.

Local Set Warnings "-clear-no-such-hyp".

Section thread.
Context (fmt : Reason → string) (resolveAddressSync : string → list (list Z)) (shuffle_addrs : list (list Z) → list (list Z)).
Context (env : Env) (Henv : env_ok env).
Context (N : nat) (G : list (list nat)) (cfgs : nat → Config) (nb : nat → list nat) (dst : nat → nat → nat).
Context (Hmt : mesh_tables N G cfgs nb dst) (L : nat → gmap Z string).

Local Abbreviation net_ok := (net_ok N cfgs nb dst).
Local Abbreviation node_ok := (node_ok N cfgs nb dst).
Local Abbreviation informed := (informed N cfgs nb (e_owner env) L).
Local Abbreviation knowing := (knowing N cfgs nb (e_owner env) L).
Local Abbreviation thread_step x := (thread_step fmt resolveAddressSync shuffle_addrs (e_net env x) (e_shuffle env) (e_sort env)).
Local Abbreviation run_callback x := (run_callback fmt resolveAddressSync shuffle_addrs (e_net env x) (e_shuffle env)).

(** What the other ranks notice of a step: messages that were broadcast, and the shutdown. *)
Definition turned (x : nat) (st st' : StoreImpl) : Prop :=
  ∃ ms, moved (cfgs x) st (casts (cfgs x) (nb x) ms) st' ∧ closes (cfgs x) st ms st'.

Lemma idle_turned x st st' : idle st st' → turned x st st'.
Proof using Type. intros Hid. exists []. destruct (idle_moved (cfgs x) st st' Hid) as [Hm Hr]. by apply turn_same. Qed.

Lemma node_timer x st t : node_ok x st → node_ok x (set_timer st t).
Proof using Type. intros [A1 A2 A3 A4 A5 [B1 B2 B3]]. by constructor. Qed.

Lemma turned_timer x st t st' : cfg st = cfgs x → turned x (set_timer st t) st' → turned x st st'.
Proof using Type.
  intros Hc (ms & Hm & Hcl). exists ms. split; [|done]. apply (moved_trans (cfgs x) st [] (set_timer st t)); [|done]. by apply outs_refl.
Qed.

Lemma informed_tables net x st : (x < N)%nat → node_ok x st → informed net x st → tables_complete st.
Proof using Hmt.
  intros Hx Hno Hin. pose proof (no_wf _ _ _ _ _ _ Hno) as [Hc Hp]. destruct (mt_rank _ _ _ _ _ Hmt x Hx) as [Er Ew]. pose proof (mt_tables _ _ _ _ _ Hmt x Hx) as Ht. constructor; rewrite ?Hc, ?Ew.
  - apply Hin.
  - intros s Hs. destruct (edges (cfgs x) !! s) as [es|] eqn:E; [|apply lookup_ge_None in E; rewrite (ta_edges _ _ _ _ _ Ht) in E; lia]. exists es. split; [done|].
    intros e He. eapply (mesh_nb N G cfgs nb dst Hmt x st s e); [done|done|]. exists es. by rewrite Hc.
  - intros y pi Hpi. exact (proj2 (if_edge _ _ _ _ _ _ _ _ Hin y pi Hpi)).
Qed.

Lemma run_callback_ok net now x st f ch : (x < N)%nat → node_ok x st → informed net x st → callback_ok cfgs nb L x st f → conns st !! ch_conn ch = None →
  ∃ st', run_callback x now st f ch = Ok st' ∧ turned x st st' ∧ calm st st' ∧ ∀ s e, f = SendAddresses s e → told_of st' s e.
Proof using Hmt Henv.
  intros Hx Hno Hin Hf Hcn. pose proof (no_wf _ _ _ _ _ _ Hno) as Hwf. destruct (mt_rank _ _ _ _ _ Hmt x Hx) as [Er Ew]. pose proof (eo_shuffle _ Henv) as Hsh.
  destruct f as [|s|y|a y u| | |p|addr|addr|s e]; cbn [StoreTimer.run_callback]; cbn in Hf.
  - destruct (close_node_ok fmt resolveAddressSync shuffle_addrs N G cfgs nb dst Hmt x now st Hx Hno) as (ms & st' & E & Hm & Hc & _). exists st'. split_and!; [done|by exists ms|by eapply calms_machine|done].
  - eexists. split_and!; [done|apply idle_turned, silent_idle, tryDiagnosticHello_quiet|apply calm_hello|done].
  - destruct (connectEdge_ok (isReachable (e_net env x)) now (cfgs x) (nb x) st y Hwf Hf) as (st' & E & Hid). exists st'. split_and!; [done|by apply idle_turned|by eapply calms_connectEdge|done].
  - destruct (connect_address_ok now (cfgs x) (nb x) (routes_at N G cfgs nb dst Hmt x Hx) st y u (ch_conn ch) Hwf (proj1 Hf)) as (st' & E & Hid); rewrite ?Ew; [apply Hno| |done|].
    { apply (ta_hops _ _ _ _ _ (mt_tables _ _ _ _ _ Hmt x Hx)). }
    exists st'. split_and!; [done|by apply idle_turned|by eapply calms_connect_address|done].
  - pose proof (no_conns _ _ _ _ _ _ Hno) as [C1 C2 C3]. destruct (keepalive_ok fmt (isReachable (e_net env x)) now (cfgs x) (nb x) st (ch_random ch) Hwf C1 C2 C3) as (st' & E & Hid).
    exists st'. split_and!; [done|by apply idle_turned|by eapply calms_keepalive|done].
  - destruct (connect_calm now st) as [Hq Hc]. eexists. split_and!; [done|by apply idle_turned, silent_idle|done|done].
  - destruct (resolve_port_calm st p) as [Hq Hc]. eexists. split_and!; [done|by apply idle_turned, silent_idle|done|done].
  - destruct (schedule_calm now st addr (length (udps (boot st)))) as [Hq Hc]. eexists. split_and!; [done|by apply idle_turned, silent_idle|done|done].
  - destruct (send_connect_calm (e_net env x) (e_shuffle env) Hsh st addr) as [Hq Hc]. eexists. split_and!; [done|by apply idle_turned, silent_idle|done|done].
  - destruct Hf as [Hm [ri Hri]]. destruct (sendAddresses_ok (e_shuffle env) Hsh now st s e (ch_taken ch) ri Hri Hm) as (st' & E & Hq & Hc & Ht).
    { rewrite (if_infos _ _ _ _ _ _ _ _ Hin). by eapply (mesh_nb N G cfgs nb dst Hmt x st s e); [|apply Hwf|]. }
    exists st'. split_and!; [done|by apply idle_turned, silent_idle|done|]. by intros ? ? [= <- <-].
Qed.

(** *** What a round does *)

Lemma told_closed st s e : closed (shut st) = true → told_of st s e.
Proof using Type. intros Hc Ho. congruence. Qed.

(** Only the timer changes. *)
Lemma knowing_timer net x st t : net_ok net → knowing net → net !! x = Some st → timer_ok t → (∀ p, p ∈ waiting t → p ∈ waiting (timer st)) →
  (x = 0%nat → ∀ s e, told_of st s e → told_of (set_timer st t) s e) → knowing (<[x := set_timer st t]> net).
Proof using Type.
  intros Hn Hk Hst Ht Hp Htold. assert (later net (<[x := set_timer st t]> net)) as Hl by (eapply later_step; [done|intros _ s ri Hr; by exists ri|done]).
  eapply knowing_step; [done|done|done|eapply informed_later; [done|by eapply informed_popped; [apply Hk|..]]|].
  intros E Hi s e ri rj H1 H2 H3 H4. destruct (Hi s e ri rj H1 H2 H3 H4); [left|right]; by apply Htold.
Qed.

Lemma told_same st t s e : waiting t ≡ₚ waiting (timer st) → told_of st s e → told_of (set_timer st t) s e.
Proof using Type.
  intros Hp Ht Ho rj Hrj. destruct (Ht Ho rj Hrj) as [H|(t0 & H)]; [by left|]. right. exists t0. change (callbacks (timer st) ++ queuedCallbacks (timer st)) with (waiting (timer st)) in H.
  by rewrite <- Hp in H.
Qed.

(** A callback has been taken out and has run. *)
Lemma knowing_ran net x st t time f st' : net_ok net → knowing net → net !! x = Some st → timer_ok t → waiting (timer st) ≡ₚ (time, f) :: waiting t →
  calm (set_timer st t) st' → (∀ s e, f = SendAddresses s e → told_of st' s e) → knowing (<[x := st']> net).
Proof using Hmt.
  intros Hn Hk Hst Ht Hp Hc Htold. assert (x < N)%nat as Hx by (rewrite <- (ne_length _ _ _ _ _ Hn); by eapply lookup_lt_Some).
  pose proof (no_wf _ _ _ _ _ _ (ne_node _ _ _ _ _ Hn x st Hst)) as Hwf. pose proof (kw_rank _ _ _ _ _ _ Hk x st Hst) as Hin.
  assert (later net (<[x := set_timer st t]> net)) as Hl by (eapply later_step; [done|intros _ s ri Hr; by exists ri|done]).
  destruct (changed N G cfgs nb dst Hmt (e_owner env) L net x st (set_timer st t) st' Hx Hst Hwf Hin Hl) as [L2 I2]; [|done|].
  { eapply informed_later; [done|]. eapply informed_popped; [done|done|]. intros p H. rewrite Hp. by right. }
  eapply knowing_step; [done|done|done|done|]. intros _ Hi s e ri rj. rewrite !(mesh_calm _ _ _ _ Hc), !(registered_calm _ _ _ _ Hc). intros H1 H2 H3 H4.
  assert (∀ a b, told_of st a b → told_of st' a b) as Hkeep.
  { intros a b H. destruct (decide (f = SendAddresses a b)) as [E|E]; [by apply Htold|]. eapply told_calm; [exact Hc|]. by eapply told_popped. }
  destruct (Hi s e ri rj H1 H2 H3 H4); [left|right]; auto.
Qed.

(** A round: nothing is due, or the earliest callback runs. *)
Inductive round (now : Z) (x : nat) (st : StoreImpl) (ch : Choice) : StoreImpl → Prop :=
  | round_closed t : closed (shut st) = true → round now x st ch (set_timer st t)
  | round_idle t : closed (shut st) = false → waiting t ≡ₚ waiting (timer st) → (∀ p, p ∈ waiting t → now < p.1) → round now x st ch (set_timer st t)
  | round_run time f t st' : closed (shut st) = false → waiting (timer st) ≡ₚ (time, f) :: waiting t → time ≤ now → (∀ p, p ∈ waiting t → time ≤ p.1) →
      run_callback x now (set_timer st t) f ch = Ok st' → calm (set_timer st t) st' → round now x st ch st'.

Lemma thread_ok net now x st ch : net_ok net → knowing net → net !! x = Some st → conns st !! ch_conn ch = None →
  ∃ st', thread_step x now st ch = Ok st' ∧ turned x st st' ∧ knowing (<[x := st']> net) ∧ round now x st ch st'.
Proof using Hmt Henv.
  intros Hn Hk Hst Hcn. assert (x < N)%nat as Hx by (rewrite <- (ne_length _ _ _ _ _ Hn); by eapply lookup_lt_Some).
  pose proof (ne_node _ _ _ _ _ Hn x st Hst) as Hno. pose proof (kw_rank _ _ _ _ _ _ Hk x st Hst) as Hin. pose proof (if_timer _ _ _ _ _ _ _ _ Hin) as Ht.
  destruct (closed (shut st)) eqn:Ec.
  { unfold StoreTimer.thread_step. rewrite Ec. eexists. split; [done|]. split; [by apply idle_turned, silent_idle|]. split; [|by constructor]. apply knowing_timer; try done.
    - constructor; [constructor|]. apply Ht.
    - intros p Hp. unfold waiting in *. cbn in Hp. rewrite elem_of_app. by right.
    - intros _ s e _. by apply told_closed. }
  destruct (thread_round fmt resolveAddressSync shuffle_addrs (e_net env x) (e_shuffle env) (e_sort env) (eo_perm _ Henv) (eo_sorted _ Henv) now st ch Ht Ec) as [(t & E & Ht' & Hp & Hd)|(time & f & t & E & Ht' & Hp & Hle & Hmin)].
  - exists (set_timer st t). split; [done|]. split; [by apply idle_turned, silent_idle|]. split; [|by constructor 2]. apply knowing_timer; try done.
    + intros p H. by rewrite Hp in H.
    + intros _ s e. by apply told_same.
  - assert (callback_ok cfgs nb L x (set_timer st t) f) as Hf. { apply (if_callback _ _ _ _ _ _ _ _ Hin (time, f)). rewrite Hp. by left. }
    destruct (run_callback_ok net now x (set_timer st t) f ch Hx (node_timer x st t Hno)) as (st' & Er & Htu & Hca & Htold); [|done|done|].
    { eapply informed_popped; [done|done|]. intros p H. rewrite Hp. by right. }
    exists st'. split; [by rewrite E|]. split; [eapply turned_timer; [apply Hno|done]|]. split; [by eapply knowing_ran|by eapply round_run].
Qed.

(** *** Datagrams *)

Lemma delivered_genuine net x from d : delivered env net x from d = true → genuine (e_owner env) net x from d.
Proof using Type.
  unfold delivered. destruct (e_owner env from) as [y|] eqn:Ey; [|done]. cbn. destruct (net !! y) as [sy|] eqn:Esy; [|done]. cbn. rewrite existsb_exists. intros (e & He & H).
  destruct e as [| |socket addr d'| |]; try done. rewrite andb_true_iff, !bool_decide_eq_true in H. destruct H as [-> H]. exists y, sy, socket, addr. split_and!; try done. by apply list_elem_of_In.
Qed.

Lemma udp_ok net now x st socket from d taken : net_ok net → knowing net → net !! x = Some st →
  (∀ d', d = Some d' → datagram_key d' = storekey (cfg st) → genuine (e_owner env) net x from d') →
  ∃ st', onreadudp (e_net env x) (e_shuffle env) now st socket from d taken = Ok st' ∧ idle st st' ∧ knowing (<[x := st']> net).
Proof using Hmt Henv.
  intros Hn Hk Hst Hg. assert (x < N)%nat as Hx by (rewrite <- (ne_length _ _ _ _ _ Hn); by eapply lookup_lt_Some).
  pose proof (ne_node _ _ _ _ _ Hn x st Hst) as Hno. pose proof (kw_rank _ _ _ _ _ _ Hk x st Hst) as Hin. pose proof (no_wf _ _ _ _ _ _ Hno) as Hwf.
  destruct (onreadudp_ok (e_net env x) (e_shuffle env) (eo_shuffle _ Henv) now (cfgs x) (nb x) st socket from d taken Hwf) as (st' & E & Hid & Hh); [by eapply informed_tables| |].
  - intros s u k l -> Hs. destruct (genuine_ok N cfgs nb (e_owner env) L net x from _ Hk (Hg _ eq_refl ltac:(cbn; by rewrite (proj1 Hwf)))) as (y & addr & _ & Ha & Hd & _). by apply Hd.
  - exists st'. split_and!; [done|done|]. by eapply (knowing_heard N G cfgs nb dst Hmt).
Qed.
End thread.
