(* ===== verification/StoreMailFacts.v ===== *)
(** * What is on its way

    The messages between callers and owners of keys that are on some edge of the
    network, as a list whose order does not matter, and how every action
    changes it. *)

From Stdlib Require Import ZArith Lia.
From stdpp Require Import base gmap option list strings.
From S2P Require Import Prelude StoreTopology StoreTopologyFacts Store StoreRun StoreSendFacts StoreReactFacts StoreStepFacts StoreNetFacts StoreRunFacts.

Local Set Warnings "-clear-no-such-hyp".

(** ** Lists of lists *)

Lemma join_fmap_cons {A B} (f : A → list B) a l : mjoin (f <$> a :: l) = f a ++ mjoin (f <$> l).
Proof. done. Qed.

Lemma join_fmap_app {A B} (f g : A → list B) l : mjoin ((λ a, f a ++ g a) <$> l) ≡ₚ mjoin (f <$> l) ++ mjoin (g <$> l).
Proof.
  induction l as [|a l IH]; [done|]. rewrite !join_fmap_cons. rewrite IH. solve_Permutation.
Qed.

Lemma join_fmap_nil {A B} (f : A → list B) l : (∀ a, a ∈ l → f a = []) → mjoin (f <$> l) = [].
Proof.
  induction l as [|a l IH]; intros H; [done|]. rewrite !join_fmap_cons. rewrite H by left. apply IH. intros. apply H. by right.
Qed.

(** One element of a list is replaced. *)
Lemma join_insert {A B} (f : A → list B) (l : list A) i a a' : l !! i = Some a →
  mjoin (f <$> <[i := a']> l) ++ f a ≡ₚ mjoin (f <$> l) ++ f a'.
Proof.
  revert i. induction l as [|b l IH]; intros [|i]; cbn; try done.
  - intros [= ->]. solve_Permutation.
  - intros H. specialize (IH i H). rewrite <- !(assoc_L (++)). f_equiv. exact IH.
Qed.

(** ** Messages *)

(** A message for a caller or for the owner of a key. *)
Record Mail := mkMail { ml_source : nat; ml_id : Z; ml_dest : nat; ml_body : Message }.

Definition is_mail (m : Message) : bool :=
  match m with
  | messageShutdown _ | messageExit _ | messageExitAck | messageDiagnosticSource _ => false
  | _ => true
  end.

Definition mail (b : Buffer) : list Mail :=
  if is_mail (body b) then [mkMail (sourceRank (hdr b)) (hid (hdr b)) (destinationRank (hdr b)) (body b)] else [].

Definition out_mail (l : list Out) : list Mail := mjoin ((λ o, match o with OSend _ b => mail b | OPend _ _ _ => [] end) <$> l).

Definition edge_mail (pi : EdgeInfo) : list Mail := mjoin ((λ o, mail (obuffer o)) <$> outgoingQueue pi).

Definition peers_mail (l : list (nat * EdgeInfo)) : list Mail := mjoin ((λ p, edge_mail p.2) <$> l).

Definition net_mail (net : list StoreImpl) : list Mail := mjoin ((λ st, peers_mail (edgePeers st)) <$> net).

Lemma out_mail_app l k : out_mail (l ++ k) = out_mail l ++ out_mail k.
Proof. unfold out_mail. by rewrite fmap_app, join_app. Qed.

Lemma out_mail_cons o l : out_mail (o :: l) = out_mail [o] ++ out_mail l.
Proof. exact (out_mail_app [o] l). Qed.

Lemma out_mail_join {A} (f : A → list Out) l : out_mail (mjoin (f <$> l)) = mjoin ((λ a, out_mail (f a)) <$> l).
Proof. induction l as [|a l IH]; [done|]. rewrite !join_fmap_cons. by rewrite out_mail_app, IH. Qed.

Lemma mail_cast b : is_cast (body b) → mail b = [].
Proof. unfold mail. by destruct (body b). Qed.

Lemma grown_mail c y pi l pi' : grown c y pi l pi' → edge_mail pi' = edge_mail pi ++ out_mail l.
Proof.
  assert (∀ pi t b d, edge_mail (push pi t b d) = edge_mail pi ++ mail b) as Hpush.
  { intros p t b d. unfold edge_mail, push. cbn. rewrite fmap_app, join_app. cbn. by rewrite app_nil_r. }
  induction 1 as [pi|pi l pi1 b t d Hg IH|pi l pi1 d Hg IH Hd Hn|pi l pi1 d t addrs Hg IH Hd Hn|pi l pi1 s b Hg IH Hev].
  - by rewrite app_nil_r.
  - rewrite Hpush, IH, out_mail_app. cbn. by rewrite app_nil_r, (assoc_L (++)).
  - done.
  - rewrite Hpush. cbn. by rewrite app_nil_r.
  - rewrite out_mail_app. cbn. by rewrite app_nil_r.
Qed.

(** Messages are grouped by edge. *)
Lemma on_edge_mail ys l : NoDup ys → Forall (λ o, out_edge o ∈ ys) l → mjoin ((λ y, out_mail (on_edge y l)) <$> ys) ≡ₚ out_mail l.
Proof.
  intros Hy. induction 1 as [|o l Ho Hl IH]; [by rewrite join_fmap_nil|].
  transitivity (mjoin ((λ y, out_mail (on_edge y [o]) ++ out_mail (on_edge y l)) <$> ys)).
  { apply reflexive_eq. f_equal. apply list_fmap_ext. intros _ y _. by rewrite <- out_mail_app, <- on_edge_app. }
  rewrite join_fmap_app, IH, (out_mail_cons o). f_equiv. clear -Hy Ho. induction Hy as [|y ys Hny Hy IH]; [by apply elem_of_nil in Ho|].
  rewrite !join_fmap_cons. apply elem_of_cons in Ho as [Ho|Ho].
  - rewrite on_edge_all by (by constructor). rewrite join_fmap_nil; [by rewrite app_nil_r|]. intros z Hz.
    rewrite (on_edge_none y); [done|by constructor|]. by intros ->.
  - rewrite (on_edge_none (out_edge o)); [by apply IH|by constructor|]. intros E. subst y. done.
Qed.

Lemma peers_grown (P P' : list (nat * EdgeInfo)) (l : list Out) : P'.*1 = P.*1 → NoDup P.*1 →
  (∀ y pi, find_peer P y = Some pi → ∃ pi', find_peer P' y = Some pi' ∧ edge_mail pi' = edge_mail pi ++ out_mail (on_edge y l)) →
  peers_mail P' ≡ₚ peers_mail P ++ mjoin ((λ y, out_mail (on_edge y l)) <$> P.*1).
Proof.
  revert P'. induction P as [|[y pi] P IH]; intros [|[y' pi'] P'] Hfst Hnd H; try done.
  cbn in Hfst. injection Hfst as -> Hfst. cbn in Hnd. apply NoDup_cons in Hnd as [Hny Hnd].
  destruct (H y pi) as (pi1 & E & Hpi1); [cbn; by rewrite bool_decide_true|]. cbn in E. rewrite bool_decide_true in E by done. injection E as ->.
  unfold peers_mail. change (((y, pi) :: P).*1) with (y :: P.*1). rewrite !join_fmap_cons. cbn [fst snd]. fold (peers_mail P') (peers_mail P). rewrite Hpi1, (IH P'); [solve_Permutation|done|done|].
  intros z pz Hz. assert (y ≠ z) as Hne by (intros ->; apply Hny, find_is_Some; eauto).
  destruct (H z pz) as (pz' & E & Hpz); [cbn; by rewrite bool_decide_false|]. cbn in E. rewrite bool_decide_false in E by done. eauto.
Qed.

Lemma core_mail a b : core_eq a b → edge_mail b = edge_mail a.
Proof. intros (_ & E & _). unfold edge_mail. by rewrite E. Qed.

Lemma moved_mail c st l st' : moved c st l st' → NoDup (edgePeers st).*1 → Forall (λ o, out_edge o ∈ (edgePeers st).*1) l →
  peers_mail (edgePeers st') ≡ₚ peers_mail (edgePeers st) ++ out_mail l.
Proof.
  intros [M1 M2 M3] Hnd Hl. rewrite (peers_grown (edgePeers st) (edgePeers st') l), on_edge_mail; try done.
  intros y pi Hy. destruct (M3 y pi Hy) as (pi1 & pi' & Hy' & Hg & Hc). exists pi'. split; [done|]. by rewrite (core_mail _ _ Hc), (grown_mail _ _ _ _ _ Hg).
Qed.

Lemma peers_put P y pi pi' : find_peer P y = Some pi → peers_mail (put_peer P y pi') ++ edge_mail pi ≡ₚ peers_mail P ++ edge_mail pi'.
Proof.
  induction P as [|[z pz] P IH]; cbn [find_peer put_peer]; [done|]. unfold peers_mail. case_bool_decide as E.
  - intros [= ->]. rewrite !join_fmap_cons. cbn [snd]. solve_Permutation.
  - intros H. rewrite !join_fmap_cons. cbn [snd]. fold (peers_mail P) (peers_mail (put_peer P y pi')). rewrite <- !(assoc_L (++)). f_equiv. by apply IH.
Qed.

(** ** Actions *)

Section mesh.
Context (N : nat) (G : list (list nat)) (cfgs : nat → Config) (nb : nat → list nat) (dst : nat → nat → nat).
Context (Hmt : mesh_tables N G cfgs nb dst).

Local Abbreviation node_ok := (node_ok N cfgs nb dst).
Local Abbreviation net_ok := (net_ok N cfgs nb dst).
Local Abbreviation out_ok := (out_ok N cfgs nb dst).
Local Abbreviation msg_ok := (msg_ok N cfgs dst).
Local Abbreviation pop := (StoreNetFacts.pop).

Lemma nb_nodup x : (x < N)%nat → NoDup (nb x).
Proof using Hmt. intros Hx. eapply (ta_nodup _ _ _ _ _ (mt_tables _ _ _ _ _ Hmt x Hx)). by apply (mt_nb _ _ _ _ _ Hmt). Qed.

Lemma sent_mail x st l st' : (x < N)%nat → node_ok x st → moved (cfgs x) st l st' → Forall (out_ok x) l →
  peers_mail (edgePeers st') ≡ₚ peers_mail (edgePeers st) ++ out_mail l.
Proof using Hmt.
  intros Hx Hno Hm Hl. destruct (no_wf _ _ _ _ _ _ Hno) as [_ En]. eapply moved_mail; rewrite ?En; [done|by apply nb_nodup|].
  eapply Forall_impl; [exact Hl|]. intros [y b|y s b] [Hy _]; done.
Qed.

Lemma casts_mail c ys ms : Forall is_cast ms → out_mail (casts c ys ms) = [].
Proof using Type.
  intros Hms. unfold casts. rewrite out_mail_join. apply join_fmap_nil. intros m Hm. rewrite Forall_forall in Hms. specialize (Hms m Hm).
  unfold out_mail. rewrite <- list_fmap_compose. apply join_fmap_nil. intros y _. by apply mail_cast.
Qed.

Lemma turn_mail r st ms st' : (r < N)%nat → node_ok r st → moved (cfgs r) st (casts (cfgs r) (nb r) ms) st' → closes (cfgs r) st ms st' →
  peers_mail (edgePeers st') ≡ₚ peers_mail (edgePeers st).
Proof using Hmt.
  intros Hr Hno Hm [Hc _]. rewrite (sent_mail r st _ st' Hr Hno Hm) by (apply (casts_ok N G cfgs nb dst Hmt); [done|apply Hc]).
  rewrite casts_mail by apply Hc. by rewrite app_nil_r.
Qed.

Lemma replay_mail x y F l : Forall (pend_ok N cfgs dst x y) l → out_mail (replay_out F y l) = [].
Proof using Type.
  intros Hl. unfold replay_out. rewrite out_mail_join. apply join_fmap_nil. intros p Hp. rewrite Forall_forall in Hl. destruct (Hl p Hp) as (_ & _ & Hc & _).
  case_decide; [|done]. cbn. by rewrite (mail_cast _ Hc).
Qed.

Lemma linked_mail x y st fwd st' : (x < N)%nat → node_ok x st → linked (cfgs x) st y fwd st' → peers_mail (edgePeers st') ≡ₚ peers_mail (edgePeers st).
Proof using Hmt.
  intros Hx Hno [L1 L2 L3 (pi & pi0 & pi1 & pi' & Hpi & Hpi' & Hc0 & Hg & Hc1) L5]. destruct (no_wf _ _ _ _ _ _ Hno) as [_ En].
  rewrite (peers_grown (edgePeers st) (edgePeers st') []); [|done|rewrite En; by apply nb_nodup|].
  { rewrite join_fmap_nil by done. by rewrite app_nil_r. }
  intros z pz Hz. cbn. rewrite app_nil_r. destruct (decide (z = y)) as [->|Hne].
  - assert (pz = pi) as -> by (unfold findEdge in *; congruence). exists pi'. split; [done|]. rewrite (core_mail _ _ Hc1).
    change (edge_mail (set_pending pi1 [])) with (edge_mail pi1). rewrite (grown_mail _ _ _ _ _ Hg), (replay_mail x y), app_nil_r; [by rewrite (core_mail _ _ Hc0)|].
    apply (no_edge _ _ _ _ _ _ Hno y pi Hpi).
  - destruct (L5 z pz Hne Hz) as (pz' & Hz' & Hgz). exists pz'. split; [done|]. rewrite (grown_mail _ _ _ _ _ Hgz). cbn. by rewrite app_nil_r.
Qed.

Lemma pop_mail st y pi o q : findEdge st y = Some pi → outgoingQueue pi = o :: q →
  peers_mail (edgePeers (pop st y pi q)) ++ mail (obuffer o) ≡ₚ peers_mail (edgePeers st).
Proof using Type.
  intros Hy Hq. pose proof (peers_put (edgePeers st) y pi (set_outgoing pi (outgoingSeq pi) q) Hy) as H.
  assert (edge_mail pi = mail (obuffer o) ++ edge_mail (set_outgoing pi (outgoingSeq pi) q)) as E by (unfold edge_mail; rewrite Hq; done).
  rewrite E, (assoc_L (++)) in H. by apply Permutation_app_inv_r in H.
Qed.

(** *** The whole network *)

Lemma net_mail_set net x st st' : net !! x = Some st →
  net_mail (<[x := st']> net) ++ peers_mail (edgePeers st) ≡ₚ net_mail net ++ peers_mail (edgePeers st').
Proof using Type. intros Hx. exact (join_insert (λ st, peers_mail (edgePeers st)) net x st st' Hx). Qed.

Lemma net_mail_add net x st st' l : net !! x = Some st → peers_mail (edgePeers st') ≡ₚ peers_mail (edgePeers st) ++ l →
  net_mail (<[x := st']> net) ≡ₚ net_mail net ++ l.
Proof using Type.
  intros Hx H. pose proof (net_mail_set net x st st' Hx) as E. rewrite H in E. apply (Permutation_app_inv_r (peers_mail (edgePeers st))).
  rewrite E. solve_Permutation.
Qed.

Lemma deliver_mail net x y sx sy pi o q sy' : net_ok net → (x < N)%nat → y ∈ nb x → net !! x = Some sx → net !! y = Some sy → findEdge sx y = Some pi →
  outgoingQueue pi = o :: q → msg_ok x y (obuffer o) → outs (cfgs y) sy (arrive_out cfgs nb y sy (obuffer o) x) sy' →
  net_mail (<[y := sy']> (<[x := pop sx y pi q]> net)) ++ mail (obuffer o) ≡ₚ net_mail net ++ out_mail (arrive_out cfgs nb y sy (obuffer o) x).
Proof using Hmt.
  intros Hn Hx Hy Ex Ey Hpi Hq Hb Ho. destruct (nb_lt N G cfgs nb dst Hmt x y Hx Hy) as (Hyw & Hne & _).
  rewrite (net_mail_add _ y sy sy' (out_mail (arrive_out cfgs nb y sy (obuffer o) x))).
  - pose proof (net_mail_set net x sx (pop sx y pi q) Ex) as E. rewrite <- (pop_mail sx y pi o q Hpi Hq) in E.
    rewrite (assoc_L (++)) in E. rewrite (Permutation_app_comm (_ ++ _) (mail _)) in E. rewrite (assoc_L (++)) in E. apply Permutation_app_inv_r in E. rewrite <- E. solve_Permutation.
  - by rewrite list_lookup_insert_ne.
  - apply (sent_mail y); [done|by apply Hn|by apply outs_moved|]. apply (arrive_out_ok N G cfgs nb dst Hmt); [done|by apply Hn|done].
Qed.
End mesh.
