(* ===== verification/StoreLogFacts.v ===== *)
(** * Every request is carried out at most once, in one order

    A request that has been made is on its way to the owner of its key, waits
    there for the key to be set, or has been carried out: the three together are
    the calls that were made.  The requests carried out, in order, are a run of a
    single table. *)

From Stdlib Require Import ZArith Lia.
From stdpp Require Import base gmap option list strings.
From S2P Require Import Prelude StoreTopology StoreTopologyFacts Store StoreRun StoreSendFacts StoreReactFacts StoreStepFacts StoreNetFacts StoreRunFacts StoreMailFacts.

Local Set Warnings "-clear-no-such-hyp".

(** ** Requests *)

Definition Req : Type := nat * Z * Message.

Definition entry_req (e : Entry) : Req := (e_rank e, e_id e, e_msg e).
Definition call_req (c : Call) : Req := (c_rank c, c_id c, c_msg c).

Definition mail_req (m : Mail) : list Req :=
  match op_key (ml_body m) with Some _ => [(ml_source m, ml_id m, ml_body m)] | None => [] end.
Definition mails_reqs (l : list Mail) : list Req := mjoin (mail_req <$> l).

Definition waiter_req (key : string) (w : Waiter) : Req := (wsource w, wid w, waiter_msg key w).
Definition waits_reqs (M : gmap string (list Waiter)) : list Req := mjoin ((λ p, waiter_req p.1 <$> p.2) <$> map_to_list M).

Lemma mails_reqs_app l k : mails_reqs (l ++ k) = mails_reqs l ++ mails_reqs k.
Proof. unfold mails_reqs. by rewrite fmap_app, join_app. Qed.

#[global] Instance mails_reqs_proper : Proper ((≡ₚ) ==> (≡ₚ)) mails_reqs.
Proof. intros l k H. unfold mails_reqs. by rewrite H. Qed.

Lemma waits_delete M key l : M !! key = Some l → waits_reqs M ≡ₚ (waiter_req key <$> l) ++ waits_reqs (delete key M).
Proof.
  intros H. unfold waits_reqs at 1. rewrite <- (map_to_list_delete M key l H). done.
Qed.

Lemma waits_push M key w : waits_reqs (<[key := default [] (M !! key) ++ [w]]> M) ≡ₚ waits_reqs M ++ [waiter_req key w].
Proof.
  rewrite (waits_delete (<[key := default [] (M !! key) ++ [w]]> M) key (default [] (M !! key) ++ [w])) by apply lookup_insert_eq.
  rewrite delete_insert_eq, fmap_app. destruct (M !! key) as [l|] eqn:E; cbn [default].
  - rewrite (waits_delete M key l E). cbn. solve_Permutation.
  - rewrite delete_id by done. cbn. solve_Permutation.
Qed.

Section reaction.
Context (c : Config) (nbrs : list nat).

(** A request that is carried out leaves the mail and the waiting callbacks. *)
Lemma reaction_reqs k s b : waits_reqs (storeWaiters (reaction_kv c k s b)) ++ (entry_req <$> executed k b) ≡ₚ waits_reqs (storeWaiters k) ++ mails_reqs (mail b).
Proof using Type.
  assert (∀ key w, (store k !! key = None → waits_reqs (storeWaiters (get_kv c k key w)) ≡ₚ waits_reqs (storeWaiters k) ++ [waiter_req key w]) ∧
    (∀ v, store k !! key = Some v → storeWaiters (get_kv c k key w) = storeWaiters k)) as Hget.
  { intros key w. unfold get_kv. split; [intros ->; apply waits_push|intros v ->]. apply reply_kv_store. }
  unfold reaction_kv, executed, mail, mails_reqs. destruct (body b) as [r|key value|key|key|key|origin|origin| |addrs] eqn:Eb; cbn [is_mail fmap list_fmap mjoin list_join mail_req op_key ml_body ml_source ml_id entry_req e_rank e_id e_msg]; rewrite ?app_nil_r; try done.
  - destruct (done_kv_store k (hid (hdr b)) r) as (_ & -> & _). done.
  - destruct (reply_kv_store c (set_kv_of c k key value) (sourceRank (hdr b)) (hid (hdr b)) ReplyNone) as (_ & -> & _).
    unfold set_kv_of. destruct (answers_kv_store c (default [] (storeWaiters k !! key)) (set_store k (<[key:=value]> (store k)) (delete key (storeWaiters k))) value) as (_ & -> & _).
    cbn [storeWaiters set_store]. destruct (storeWaiters k !! key) as [l|] eqn:El; cbn [default].
    + rewrite (waits_delete _ key l El). rewrite <- list_fmap_compose. change (entry_req ∘ waiter_entry key value) with (waiter_req key). solve_Permutation.
    + by rewrite delete_id.
  - destruct (store k !! key) as [v|] eqn:Ev.
    + by rewrite (proj2 (Hget key _) v Ev).
    + rewrite (proj1 (Hget key _) Ev). cbn. by rewrite app_nil_r.
  - destruct (reply_kv_store c k (sourceRank (hdr b)) (hid (hdr b)) (ReplyBool (bool_decide (is_Some (store k !! key))))) as (_ & -> & _). done.
  - destruct (store k !! key) as [v|] eqn:Ev.
    + by rewrite (proj2 (Hget key _) v Ev).
    + rewrite (proj1 (Hget key _) Ev). cbn. by rewrite app_nil_r.
  - by case_match.
Qed.

(** Answers are not requests. *)
Lemma reply_reqs d id diag r : mails_reqs (out_mail (reply_out c d id diag r)) = [].
Proof using Type. unfold reply_out. by case_decide. Qed.

Lemma answers_reqs l v : mails_reqs (out_mail (answers_out c l v)) = [].
Proof using Type.
  unfold answers_out. rewrite out_mail_join. induction l as [|w l IH]; [done|]. by rewrite join_fmap_cons, mails_reqs_app, IH, reply_reqs.
Qed.

Lemma reaction_out_reqs k s b : mails_reqs (out_mail (reaction_out c nbrs k s b)) = [].
Proof using Type.
  unfold reaction_out, get_out, set_out_of. destruct (body b) as [r|key value|key|key|key|origin|origin| |addrs]; try done; repeat case_match; rewrite ?out_mail_app, ?mails_reqs_app, ?answers_reqs; try apply reply_reqs; try done.
  unfold out_mail. rewrite <- list_fmap_compose. rewrite join_fmap_nil; [done|]. intros y _. by apply mail_cast.
Qed.
End reaction.

Section mesh.
Context (N : nat) (G : list (list nat)) (cfgs : nat → Config) (nb : nat → list nat) (dst : nat → nat → nat).
Context (Hmt : mesh_tables N G cfgs nb dst).

Local Abbreviation node_ok := (node_ok N cfgs nb dst).
Local Abbreviation net_ok := (net_ok N cfgs nb dst).
Local Abbreviation msg_ok := (msg_ok N cfgs dst).
Local Abbreviation effect := (effect N cfgs nb dst).
Local Abbreviation arrive_out := (arrive_out cfgs nb).
Local Abbreviation arrive_kv := (arrive_kv cfgs).

(** Copies of broadcasts are not mail. *)
Lemma forward_mail x st b sender : msg_ok sender x b → out_mail (reaction_forward (nb x) st b sender) = [].
Proof using Type.
  intros (_ & _ & _ & _ & H). unfold reaction_forward. destruct (broadcast (hdr b)) eqn:Eb; [|done]. destruct H as (_ & _ & _ & _ & Hc).
  rewrite out_mail_join. apply join_fmap_nil. intros y _. unfold forward_out. destruct (findEdge st y); [|done]. repeat case_match; try done.
  cbn. rewrite mail_cast; [done|exact Hc].
Qed.

Lemma arrive_mail x st b sender : msg_ok sender x b →
  out_mail (arrive_out x st b sender) = if decide (destinationRank (hdr b) = x) then out_mail (reaction_out (cfgs x) (nb x) (kv st) (shut st) b) else mail b.
Proof using Type.
  intros Hb. unfold StoreNetFacts.arrive_out. case_decide as Hd.
  - by rewrite out_mail_app, (forward_mail x st b sender Hb).
  - unfold out_mail. cbn. by rewrite app_nil_r.
Qed.

Lemma request_made r st key m : (r < N)%nat → node_ok r st → request st key m = made (cfgs r) (storeRank N key) (nextId (kv st)) r m.
Proof using Hmt.
  intros Hr Hno. unfold request, made. destruct (no_wf _ _ _ _ _ _ Hno) as [-> _]. by destruct (mt_rank _ _ _ _ _ Hmt r Hr) as [-> ->].
Qed.

Lemma mail_made c d id diag m key : op_key m = Some key → mail (made c d id diag m) = [mkMail (rank c) id d m].
Proof using Type. unfold mail, made. cbn. by destruct m. Qed.

(** ** The store as a bag of mail

    What matters of the network: the keys and callers of every rank, the mail on
    its way in any order, the calls made and the requests carried out. *)

Record Book := mkBook { bk_kvs : list KV; bk_mail : list Mail; bk_calls : list Call; bk_log : list Entry }.

Definition book (w : Lines) : Book := mkBook (kv <$> l_ranks w) (net_mail (l_ranks w)) (l_calls w) (l_log w).

Inductive book_step (a : Book) : Book → Prop :=
  | book_same ml : ml ≡ₚ bk_mail a → book_step a (mkBook (bk_kvs a) ml (bk_calls a) (bk_log a))
  | book_told r k k' ml : bk_kvs a !! r = Some k → told k k' → ml ≡ₚ bk_mail a →
      book_step a (mkBook (<[r := k']> (bk_kvs a)) ml (bk_calls a) (bk_log a))
  | book_react r k s b ml : (r < N)%nat → bk_kvs a !! r = Some k → destinationRank (hdr b) = r → (∀ m, m ∈ mail b → m ∈ bk_mail a) →
      ml ++ mail b ≡ₚ bk_mail a ++ out_mail (reaction_out (cfgs r) (nb r) k s b) →
      book_step a (mkBook (<[r := reaction_kv (cfgs r) k s b]> (bk_kvs a)) ml (bk_calls a) (bk_log a ++ executed k b))
  | book_local r k s now timeout key m ml : (r < N)%nat → bk_kvs a !! r = Some k → op_key m = Some key → nextId k < 2 ^ 32 - 1 → storeRank N key = r →
      let k1 := call_kv now (cfgs r) k timeout key true in
      let b := made (cfgs r) r (nextId k) r m in
      ml ≡ₚ bk_mail a ++ out_mail (reaction_out (cfgs r) (nb r) k1 s b) →
      book_step a (mkBook (<[r := reaction_kv (cfgs r) k1 s b]> (bk_kvs a)) ml (bk_calls a ++ [mkCall r (nextId k) m (fresh (dom (waitObjs k)))]) (bk_log a ++ executed k1 b))
  | book_remote r k now timeout key m ml : (r < N)%nat → bk_kvs a !! r = Some k → op_key m = Some key → nextId k < 2 ^ 32 - 1 → storeRank N key ≠ r →
      ml ≡ₚ bk_mail a ++ [mkMail r (nextId k) (storeRank N key) m] →
      book_step a (mkBook (<[r := call_kv now (cfgs r) k timeout key true]> (bk_kvs a)) ml (bk_calls a ++ [mkCall r (nextId k) m (fresh (dom (waitObjs k)))]) (bk_log a))
  | book_refused r k s now timeout key ml : (r < N)%nat → bk_kvs a !! r = Some k → nextId k < 2 ^ 32 - 1 → ml ≡ₚ bk_mail a →
      let k1 := call_kv now (cfgs r) k timeout key false in
      book_step a (mkBook (<[r := set_waits k1 (waits k1) (exit_objs (cfgs r) s [fresh (dom (waitObjs k))] (waitObjs k1))]> (bk_kvs a)) ml (bk_calls a) (bk_log a)).

Lemma kvs_set (net : list StoreImpl) r st' k : kv st' = k → kv <$> <[r := st']> net = <[r := k]> (kv <$> net).
Proof using Type. intros <-. apply list_fmap_insert. Qed.

Lemma kvs_at (net : list StoreImpl) r st : net !! r = Some st → (kv <$> net) !! r = Some (kv st).
Proof using Type. intros H. by rewrite list_lookup_fmap, H. Qed.

Lemma pop_kvs (net : list StoreImpl) x y sx pi q : net !! x = Some sx → kv <$> <[x := StoreNetFacts.pop sx y pi q]> net = kv <$> net.
Proof using Type. intros H. rewrite (kvs_set _ _ _ (kv sx)) by done. apply list_insert_id. by apply kvs_at. Qed.

Lemma head_mail net x y sx pi o q : net !! x = Some sx → findEdge sx y = Some pi → outgoingQueue pi = o :: q → ∀ m, m ∈ mail (obuffer o) → m ∈ net_mail net.
Proof using Type.
  intros Ex Hpi Hq m Hm. apply list_elem_of_join. exists (peers_mail (edgePeers sx)). split; [|apply list_elem_of_fmap; exists sx; split; [done|by eapply list_elem_of_lookup_2]].
  rewrite <- (pop_mail sx y pi o q Hpi Hq). apply elem_of_app. by right.
Qed.

Lemma deliver_book w x y sx sy pi o q sy' : net_ok (l_ranks w) → (x < N)%nat → y ∈ nb x → l_ranks w !! x = Some sx → l_ranks w !! y = Some sy → findEdge sx y = Some pi →
  outgoingQueue pi = o :: q → msg_ok x y (obuffer o) → outs (cfgs y) sy (arrive_out y sy (obuffer o) x) sy' → kv sy' = arrive_kv y sy (obuffer o) →
  book_step (book w) (book (mkLines (<[y := sy']> (<[x := StoreNetFacts.pop sx y pi q]> (l_ranks w))) (l_calls w) (l_log w ++ executed_at sy (obuffer o)))).
Proof using Hmt.
  intros Hn Hx Hy Ex Ey Hpi Hq Hb Ho Hk. destruct (nb_lt N G cfgs nb dst Hmt x y Hx Hy) as (Hyw & Hne & _).
  pose proof (deliver_mail N G cfgs nb dst Hmt (l_ranks w) x y sx sy pi o q sy' Hn Hx Hy Ex Ey Hpi Hq Hb Ho) as Hml. rewrite (arrive_mail y sy (obuffer o) x Hb) in Hml.
  unfold book. cbn [l_ranks l_calls l_log]. rewrite (kvs_set _ y sy' _ Hk), (pop_kvs _ x y sx pi q Ex). unfold StoreNetFacts.arrive_kv, executed_at.
  rewrite (proj1 (no_wf _ _ _ _ _ _ (ne_node _ _ _ _ _ Hn y sy Ey))), (proj1 (mt_rank _ _ _ _ _ Hmt y Hyw)). case_decide as Hd.
  - rewrite bool_decide_true by done. eapply (book_react (book w) y (kv sy) (shut sy)); [done|by apply kvs_at|done| |exact Hml]. exact (head_mail (l_ranks w) x y sx pi o q Ex Hpi Hq).
  - rewrite bool_decide_false, app_nil_r by done. apply Permutation_app_inv_r in Hml.
    rewrite list_insert_id by (by apply kvs_at). by apply (book_same (book w)).
Qed.

Lemma call_book w r now timeout key m st st' : net_ok (l_ranks w) → (r < N)%nat → l_ranks w !! r = Some st → op_key m = Some key → nextId (kv st) < 2 ^ 32 - 1 →
  called N cfgs nb r now timeout key m st st' →
  book_step (book w) (book (mkLines (<[r := st']> (l_ranks w)) (l_calls w ++ [mkCall r (nextId (kv st)) m (fresh (dom (waitObjs (kv st))))]) (l_log w ++ executed_at st (request st key m)))).
Proof using Hmt.
  intros Hn Hr Est Hk Hid Hc. pose proof (ne_node _ _ _ _ _ Hn r st Est) as Hno. rewrite (request_made r st key m Hr Hno). destruct (mt_rank _ _ _ _ _ Hmt r Hr) as [Er Ew].
  unfold called in Hc. unfold book, executed_at. cbn [l_ranks l_calls l_log]. destruct (no_wf _ _ _ _ _ _ Hno) as [-> _]. rewrite Er. cbn [hdr destinationRank made].
  case_decide as Ho; destruct Hc as (Hou & Hkv & _); rewrite (kvs_set _ _ _ _ Hkv).
  - rewrite bool_decide_true, Ho by done. rewrite Ho in Hou. apply (book_local (book w) r (kv st) (shut st) now timeout key m); try done; [by apply kvs_at|].
    apply (net_mail_add _ _ st); [done|]. apply (sent_mail N G cfgs nb dst Hmt r); [done|done|by apply outs_moved|].
    apply (reaction_out_ok N G cfgs nb dst Hmt r (set_kv st (call_kv now (cfgs r) (kv st) timeout key true))); [done| |cbn; by rewrite Er|done]. destruct Hno as [N1 N2 N3 N4 N5 [C1 C2 C3]]. by constructor.
  - rewrite bool_decide_false, app_nil_r by done. apply (book_remote (book w)); try done; [by apply kvs_at|].
    apply (net_mail_add _ _ st); [done|]. rewrite (sent_mail N G cfgs nb dst Hmt r st _ st' Hr Hno (outs_moved _ _ _ _ Hou)).
    + unfold out_mail. cbn [fmap list_fmap mjoin list_join]. by rewrite (mail_made _ _ _ _ m key Hk), Er.
    + apply Forall_singleton. apply (made_ok N G cfgs nb dst Hmt); try done; [|by eapply op_not_cast].
      unfold storeRank. pose proof (Z.mod_pos_bound (stringHash key) (Z.of_nat N)). lia.
Qed.

(** The network refines the bag of mail. *)
Lemma effect_book w w' : net_ok (l_ranks w) → effect w w' → book_step (book w) (book w').
Proof using Hmt.
  intros Hn He.
  destruct He as [|x y sx sy pi o q sy' Hx Hy Ex Ey Hpi Hq Hb Ho Hk Hs|r now timeout key m st st' Hr Est Hex Hkey Hid Hcall|r now timeout key st st' Hr Est Hex Hid Href|r st ms st' Hr Est Hm Hcl|x y st fwd st' Hx Hy Est Hf Hl].
  - by apply (book_same (book w)).
  - by apply deliver_book.
  - by apply call_book with now timeout.
  - destruct Href as (Hou & Hk & _). unfold book. cbn [l_ranks l_calls l_log]. rewrite (kvs_set _ _ _ _ Hk). apply (book_refused (book w)); [done|by apply kvs_at|done|].
    rewrite <- (app_nil_r (bk_mail (book w))). apply (net_mail_add _ _ st); [done|]. apply (sent_mail N G cfgs nb dst Hmt r st []); [done|by apply Hn|by apply outs_moved|constructor].
  - destruct Hcl as [Hcl Ht]. unfold book. cbn [l_ranks l_calls l_log]. rewrite (kvs_set _ _ _ _ eq_refl). apply (book_told (book w) r (kv st)); [by apply kvs_at|done|].
    rewrite <- (app_nil_r (bk_mail (book w))). apply (net_mail_add _ _ st); [done|]. rewrite app_nil_r. apply (turn_mail N G cfgs nb dst Hmt r st ms); [done|by apply Hn|done|done].
  - unfold book. cbn [l_ranks l_calls l_log]. rewrite (kvs_set _ _ _ _ eq_refl). apply (book_told (book w) x (kv st)); [by apply kvs_at| |].
    + destruct (co_rest _ _ _ _ _ Hl) as [-> _]. apply told_refl.
    + rewrite <- (app_nil_r (bk_mail (book w))). apply (net_mail_add _ _ st); [done|]. rewrite app_nil_r. apply (linked_mail N G cfgs nb dst Hmt x y _ fwd); [done|by apply Hn|done].
Qed.
End mesh.
