(* ===== verification/StoreBookFacts.v ===== *)
(** * The invariants of calls and answers

    Every call has its number and its [Wait] object; its request is carried out
    at most once, on the state that the requests before it have left; the answer
    reaches the caller that waits for it. *)

From Stdlib Require Import ZArith Lia.
From stdpp Require Import base gmap option list strings.
From S2P Require Import Prelude StoreTopology Store StoreRun StoreSendFacts StoreReactFacts StoreStepFacts StoreMailFacts StoreLogFacts.

Local Set Warnings "-clear-no-such-hyp".

(** ** Reactions once more *)

(** The answer to a request, as mail. *)
Definition answer_mail (x : nat) (e : Entry) : Mail := mkMail x (e_id e) (e_rank e) (messageDone (e_reply e)).

Section reaction.
Context (c : Config) (nbrs : list nat).

Local Abbreviation reply k e := (reply_kv c k (e_rank e) (e_id e) (e_reply e)).
Local Abbreviation remote := (filter (λ e, e_rank e ≠ rank c)).

Lemma reply_mail e diag : out_mail (reply_out c (e_rank e) (e_id e) diag (e_reply e)) = answer_mail (rank c) <$> remote [e].
Proof using Type.
  unfold reply_out. destruct (decide (e_rank e = rank c)) as [E|E].
  - by rewrite filter_cons_False by tauto.
  - by rewrite filter_cons_True.
Qed.

Lemma answers_mail key v l : out_mail (answers_out c l v) = answer_mail (rank c) <$> remote (waiter_entry key v <$> l).
Proof using Type.
  unfold answers_out. rewrite out_mail_join. induction l as [|w l IH]; [done|]. rewrite join_fmap_cons, IH.
  change (waiter_entry key v <$> w :: l) with ([waiter_entry key v w] ++ (waiter_entry key v <$> l)). rewrite filter_app, fmap_app. f_equal.
  apply (reply_mail (waiter_entry key v w)).
Qed.

(** Every request that is carried out is answered. *)
Lemma reaction_mail k s b : out_mail (reaction_out c nbrs k s b) ≡ₚ answer_mail (rank c) <$> remote (executed k b).
Proof using Type.
  unfold reaction_out, executed, get_out, set_out_of. destruct (body b) as [r|key value|key|key|key|origin|origin| |addrs]; try done.
  - rewrite out_mail_app, (answers_mail key value). change (mkEntry ?a ?b ?m ?d :: ?l) with ([mkEntry a b m d] ++ l). rewrite filter_app, fmap_app, Permutation_app_comm. f_equiv.
    by rewrite <- (reply_mail _ (diagnosticSource (hdr b))).
  - destruct (store k !! key) as [v|]; [|done]. by rewrite <- (reply_mail _ (diagnosticSource (hdr b))).
  - by rewrite <- (reply_mail _ (diagnosticSource (hdr b))).
  - destruct (store k !! key) as [v|]; [|done]. by rewrite <- (reply_mail _ (diagnosticSource (hdr b))).
  - case_match; [done|]. unfold out_mail. rewrite <- list_fmap_compose. rewrite join_fmap_nil; [done|]. intros y _. by apply mail_cast.
Qed.

(** The table of keys after a reaction. *)
Lemma reaction_store k s b : store (reaction_kv c k s b) = match body b with messageSet key value => <[key := value]> (store k) | _ => store k end.
Proof using Type.
  unfold reaction_kv, get_kv. destruct (body b) as [r|key value|key|key|key|origin|origin| |addrs]; try done.
  - apply done_kv_store.
  - destruct (reply_kv_store c (set_kv_of c k key value) (sourceRank (hdr b)) (hid (hdr b)) ReplyNone) as (-> & _).
    unfold set_kv_of. by destruct (answers_kv_store c (default [] (storeWaiters k !! key)) (set_store k (<[key:=value]> (store k)) (delete key (storeWaiters k))) value) as (-> & _).
  - destruct (store k !! key) as [v|]; [apply reply_kv_store|done].
  - apply reply_kv_store.
  - destruct (store k !! key) as [v|]; [apply reply_kv_store|done].
  - by case_match.
Qed.

Lemma reaction_waiters_of k s b : storeWaiters (reaction_kv c k s b) =
  match body b with
  | messageSet key _ => delete key (storeWaiters k)
  | messageGet key | messageWait key =>
      match store k !! key with
      | Some _ => storeWaiters k
      | None => <[key := default [] (storeWaiters k !! key) ++
          [mkWaiter (match body b with messageGet _ => true | _ => false end) (sourceRank (hdr b)) (hid (hdr b)) (diagnosticSource (hdr b))]]> (storeWaiters k)
      end
  | _ => storeWaiters k
  end.
Proof using Type.
  unfold reaction_kv, get_kv. destruct (body b) as [r|key value|key|key|key|origin|origin| |addrs]; try done.
  - apply done_kv_store.
  - destruct (reply_kv_store c (set_kv_of c k key value) (sourceRank (hdr b)) (hid (hdr b)) ReplyNone) as (_ & -> & _).
    unfold set_kv_of. by destruct (answers_kv_store c (default [] (storeWaiters k !! key)) (set_store k (<[key:=value]> (store k)) (delete key (storeWaiters k))) value) as (_ & -> & _).
  - destruct (store k !! key) as [v|]; [apply reply_kv_store|done].
  - apply reply_kv_store.
  - destruct (store k !! key) as [v|]; [apply reply_kv_store|done].
  - by case_match.
Qed.

(** The callers of this rank that are answered, in order. *)
Definition same_callers (k k' : KV) : Prop := nextId k' = nextId k ∧ waits k' = waits k ∧ waitObjs k' = waitObjs k.

Lemma reaction_replies k s b : (∀ r, body b ≠ messageDone r) → (∀ o, body b ≠ messageExit o) →
  ∃ l k0, l ≡ₚ executed k b ∧ same_callers k k0 ∧ reaction_kv c k s b = foldl (λ k e, reply k e) k0 l.
Proof using Type.
  intros Hd He. unfold reaction_kv, executed, get_kv. destruct (body b) as [r|key value|key|key|key|origin|origin| |addrs]; try (by exists [], k); try (by destruct (Hd r)); try (by destruct (He origin)).
  - exists ((waiter_entry key value <$> default [] (storeWaiters k !! key)) ++ [mkEntry (sourceRank (hdr b)) (hid (hdr b)) (messageSet key value) ReplyNone]), (set_store k (<[key := value]> (store k)) (delete key (storeWaiters k))).
    split; [solve_Permutation|]. split; [done|]. rewrite foldl_app. cbn [foldl e_rank e_id e_reply]. f_equal. unfold set_kv_of, answers_kv.
    generalize (set_store k (<[key := value]> (store k)) (delete key (storeWaiters k))). induction (default [] (storeWaiters k !! key)) as [|w l IH]; intros k0; [done|]. cbn [fmap list_fmap foldl]. by rewrite <- IH.
  - destruct (store k !! key) as [v|]; [|eexists [], _; split; [done|]; split; [|reflexivity]; done]. eexists [mkEntry (sourceRank (hdr b)) (hid (hdr b)) (messageGet key) (ReplyValue v)], k. split; done.
  - eexists [mkEntry (sourceRank (hdr b)) (hid (hdr b)) (messageCheck key) _], k. split; done.
  - destruct (store k !! key) as [v|]; [|eexists [], _; split; [done|]; split; [|reflexivity]; done]. eexists [mkEntry (sourceRank (hdr b)) (hid (hdr b)) (messageWait key) ReplyNone], k. split; done.
Qed.
End reaction.

(** ** The calls are the requests on their way, waiting and carried out *)

Definition kvs_waits (l : list KV) : list Req := mjoin ((λ k, waits_reqs (storeWaiters k)) <$> l).
Definition book_reqs (a : Book) : list Req := mails_reqs (bk_mail a) ++ kvs_waits (bk_kvs a).
Definition conserved (a : Book) : Prop := book_reqs a ++ (entry_req <$> bk_log a) ≡ₚ call_req <$> bk_calls a.

Lemma kvs_waits_set l r k k' : l !! r = Some k →
  kvs_waits (<[r := k']> l) ++ waits_reqs (storeWaiters k) ≡ₚ kvs_waits l ++ waits_reqs (storeWaiters k').
Proof. intros H. exact (join_insert (λ k, waits_reqs (storeWaiters k)) l r k k' H). Qed.

Lemma kvs_waits_same l r k k' : l !! r = Some k → storeWaiters k' = storeWaiters k → kvs_waits (<[r := k']> l) ≡ₚ kvs_waits l.
Proof. intros H E. pose proof (kvs_waits_set l r k k' H) as P. rewrite E in P. by apply Permutation_app_inv_r in P. Qed.

Lemma perm_mix {A} (a m a0 o b v b0 v' e x : list A) : a ++ m ≡ₚ a0 ++ o → b ++ v ≡ₚ b0 ++ v' → v' ++ o ++ e ≡ₚ v ++ m ++ x →
  (a ++ b) ++ e ≡ₚ (a0 ++ b0) ++ x.
Proof.
  intros H1 H2 H3. apply (Permutation_app_inv_r (m ++ v)). transitivity ((a ++ m) ++ (b ++ v) ++ e); [solve_Permutation|]. rewrite H1, H2.
  transitivity (a0 ++ b0 ++ (v' ++ o ++ e)); [solve_Permutation|]. rewrite H3. solve_Permutation.
Qed.

(** ** Numbers and objects of calls *)

Record numbered (a : Book) : Prop := {
  nu_next r k : bk_kvs a !! r = Some k → 1 ≤ nextId k < 2 ^ 32;
  nu_call c : c ∈ bk_calls a → ∃ k, bk_kvs a !! c_rank c = Some k ∧ 1 ≤ c_id c < nextId k ∧ c_wait c ∈ dom (waitObjs k);
  nu_ids : NoDup ((λ c, (c_rank c, c_id c)) <$> bk_calls a);
  nu_objs : NoDup ((λ c, (c_rank c, c_wait c)) <$> bk_calls a)
}.

(** A rank goes on, with or without a new call. *)
Lemma numbered_set a r k k' ml C L : numbered a → bk_kvs a !! r = Some k → nextId k ≤ nextId k' < 2 ^ 32 → dom (waitObjs k) ⊆ dom (waitObjs k') →
  (C = [] ∨ ∃ m, C = [mkCall r (nextId k) m (fresh (dom (waitObjs k)))] ∧ nextId k < nextId k' ∧ fresh (dom (waitObjs k)) ∈ dom (waitObjs k')) →
  numbered (mkBook (<[r := k']> (bk_kvs a)) ml (bk_calls a ++ C) L).
Proof.
  intros [A1 A2 A3 A4] Hk Hid Hdom HC.
  assert (∀ z kz, bk_kvs a !! z = Some kz → ∃ kz', (<[r := k']> (bk_kvs a)) !! z = Some kz' ∧ nextId kz ≤ nextId kz' ∧ dom (waitObjs kz) ⊆ dom (waitObjs kz')) as Hz.
  { intros z kz Hz. destruct (decide (z = r)) as [->|Hne].
    - exists k'. assert (kz = k) as -> by congruence. rewrite list_lookup_insert_eq by (by eapply lookup_lt_Some). split; [done|]. split; [lia|done].
    - exists kz. by rewrite list_lookup_insert_ne. }
  constructor; cbn [bk_kvs bk_calls].
  - intros z kz H. destruct (decide (z = r)) as [->|Hne]; [|rewrite list_lookup_insert_ne in H by done; by eapply A1].
    rewrite list_lookup_insert_eq in H by (by eapply lookup_lt_Some). injection H as <-. pose proof (A1 r k Hk). lia.
  - intros c [Hc|Hc]%elem_of_app.
    + destruct (A2 c Hc) as (kc & E & Hi & Ho). destruct (Hz _ _ E) as (kz' & E' & Hn & Hd). exists kz'. split; [done|]. split; [lia|set_solver].
    + destruct HC as [->|(m & -> & Hlt & Hin)]; [by apply elem_of_nil in Hc|]. apply list_elem_of_singleton in Hc as ->. cbn.
      exists k'. rewrite list_lookup_insert_eq by (by eapply lookup_lt_Some). pose proof (A1 r k Hk). split; [done|]. split; [lia|done].
  - destruct HC as [->|(m & -> & Hlt & Hin)]; [by rewrite app_nil_r|]. rewrite fmap_app. apply NoDup_app. split; [done|]. split; [|apply NoDup_singleton].
    intros p (c & -> & Hc)%list_elem_of_fmap [=E1 E2]%list_elem_of_singleton. destruct (A2 c Hc) as (kc & E & Hi & _). rewrite E1, Hk in E. injection E as <-. lia.
  - destruct HC as [->|(m & -> & Hlt & Hin)]; [by rewrite app_nil_r|]. rewrite fmap_app. apply NoDup_app. split; [done|]. split; [|apply NoDup_singleton].
    intros p (c & -> & Hc)%list_elem_of_fmap [=E1 E2]%list_elem_of_singleton. destruct (A2 c Hc) as (kc & E & _ & Ho). rewrite E1, Hk in E. injection E as <-.
    rewrite E2 in Ho. by apply is_fresh in Ho.
Qed.

Lemma done_objs k id rep : nextId (done_kv k id rep) = nextId k ∧ dom (waitObjs (done_kv k id rep)) = dom (waitObjs k).
Proof. unfold done_kv. destruct (waits k !! id); [|done]. cbn. by rewrite dom_alter_L. Qed.

Lemma replies_objs c l k : nextId (foldl (λ k e, reply_kv c k (e_rank e) (e_id e) (e_reply e)) k l) = nextId k ∧
  dom (waitObjs (foldl (λ k e, reply_kv c k (e_rank e) (e_id e) (e_reply e)) k l)) = dom (waitObjs k).
Proof.
  revert k. induction l as [|e l IH]; intros k; [done|]. cbn [foldl]. destruct (IH (reply_kv c k (e_rank e) (e_id e) (e_reply e))) as [-> ->].
  unfold reply_kv. case_decide; [apply done_objs|done].
Qed.

Lemma told_objs k k' : told k k' → nextId k' = nextId k ∧ dom (waitObjs k') = dom (waitObjs k).
Proof.
  intros (E & _ & _ & _ & H). split; [done|]. apply set_eq. intros w. rewrite !elem_of_dom. destruct (H w) as [->|(o & src & -> & ->)]; naive_solver.
Qed.

Lemma reaction_objs c k s b : nextId (reaction_kv c k s b) = nextId k ∧ dom (waitObjs (reaction_kv c k s b)) = dom (waitObjs k).
Proof.
  destruct (body b) as [rep| | | | | |o| |] eqn:Eb.
  1: { unfold reaction_kv. rewrite Eb. apply done_objs. }
  6: { unfold reaction_kv. rewrite Eb. destruct (exited s); [done|]. apply told_objs, exit_told. }
  all: destruct (reaction_replies c k s b) as (l & k0 & _ & (H1 & _ & H3) & ->); [congruence|congruence|]; destruct (replies_objs c l k0) as [-> ->]; by rewrite H1, H3.
Qed.

Section book.
Context (N : nat) (cfgs : nat → Config) (nb : nat → list nat) (Hrank : ∀ r, (r < N)%nat → rank (cfgs r) = r).

Local Abbreviation book_step := (book_step N cfgs nb).

(** What a step adds to the calls and to the log. *)
Lemma step_reqs a a' : book_step a a' → ∃ E C, bk_log a' = bk_log a ++ E ∧ bk_calls a' = bk_calls a ++ C ∧
  book_reqs a' ++ (entry_req <$> E) ≡ₚ book_reqs a ++ (call_req <$> C).
Proof using Hrank.
  intros Hs. destruct Hs as [ml Hml|r k k' ml Hk Ht Hml|r k s b ml Hr Hk Hd Hin Hml|r k s now timeout key m ml Hr Hk Hkey Hid Ho k1 b Hml|r k now timeout key m ml Hr Hk Hkey Hid Ho Hml|r k s now timeout key ml Hr Hk Hid Hml k1];
    cbn [bk_log bk_calls]; unfold book_reqs; cbn [bk_mail bk_kvs].
  - exists [], []. rewrite !app_nil_r, Hml. done.
  - exists [], []. rewrite !app_nil_r, Hml, (kvs_waits_same _ r k k' Hk); [done|]. apply Ht.
  - exists (executed k b), []. rewrite app_nil_r. do 2 (split; [done|]).
    apply (perm_mix _ (mails_reqs (mail b)) _ [] _ _ _ _ _ _) with (2 := kvs_waits_set _ r k _ Hk).
    + rewrite <- mails_reqs_app, Hml, mails_reqs_app, reaction_out_reqs. done.
    + cbn. rewrite app_nil_r. apply reaction_reqs.
  - exists (executed k1 b), [mkCall r (nextId k) m (fresh (dom (waitObjs k)))]. do 2 (split; [done|]).
    apply (perm_mix _ [] _ [] _ _ _ _ _ _) with (2 := kvs_waits_set _ r k _ Hk).
    + rewrite Hml, mails_reqs_app, reaction_out_reqs. by rewrite !app_nil_r.
    + cbn [app]. rewrite (reaction_reqs (cfgs r) k1 s b). unfold b. rewrite (mail_made _ _ _ _ m key Hkey), (Hrank r Hr).
      unfold mails_reqs, mail_req. cbn. by rewrite Hkey.
  - exists [], [mkCall r (nextId k) m (fresh (dom (waitObjs k)))]. rewrite app_nil_r. do 2 (split; [done|]). rewrite Hml, mails_reqs_app, (kvs_waits_same _ r k _ Hk) by done.
    unfold mails_reqs at 2. cbn. unfold mail_req. cbn. rewrite Hkey. cbn. unfold call_req. cbn. solve_Permutation.
  - exists [], []. rewrite !app_nil_r, Hml, (kvs_waits_same _ r k _ Hk) by done. done.
Qed.

Lemma step_conserved a a' : book_step a a' → conserved a → conserved a'.
Proof using Hrank.
  intros Hs Hc. destruct (step_reqs a a' Hs) as (E & C & El & Ec & HP). unfold conserved in *. rewrite El, Ec, !fmap_app, <- Hc.
  rewrite (Permutation_app_comm (entry_req <$> bk_log a)), (assoc_L (++)), HP. solve_Permutation.
Qed.

Lemma step_numbered a a' : book_step a a' → numbered a → numbered a'.
Proof using Type.
  clear Hrank. intros Hs Hn. destruct Hs as [ml Hml|r k k' ml Hk Ht Hml|r k s b ml Hr Hk Hd Hin Hml|r k s now timeout key m ml Hr Hk Hkey Hid Ho k1 b Hml|r k now timeout key m ml Hr Hk Hkey Hid Ho Hml|r k s now timeout key ml Hr Hk Hid Hml k1];
    [|pose proof (nu_next _ Hn r k Hk) as Hnx..].
  - destruct Hn. by constructor.
  - destruct (told_objs k k' Ht) as [E1 E2]. rewrite <- (app_nil_r (bk_calls a)). apply (numbered_set a r k); [done|done|lia|by rewrite E2|by left].
  - destruct (reaction_objs (cfgs r) k s b) as [E1 E2]. rewrite <- (app_nil_r (bk_calls a)). apply (numbered_set a r k); [done|done|lia|by rewrite E2|by left].
  - destruct (reaction_objs (cfgs r) k1 s b) as [E1 E2]. assert (nextId k1 = nextId k + 1) as E3 by (apply Z.mod_small; lia).
    assert (dom (waitObjs k1) = {[fresh (dom (waitObjs k))]} ∪ dom (waitObjs k)) as E4 by apply dom_insert_L.
    apply (numbered_set a r k); [done|done|lia|rewrite E2, E4; set_solver|]. right. exists m. split; [done|]. split; [lia|]. rewrite E2, E4. set_solver.
  - assert (nextId (call_kv now (cfgs r) k timeout key true) = nextId k + 1) as E3 by (apply Z.mod_small; lia).
    assert (dom (waitObjs (call_kv now (cfgs r) k timeout key true)) = {[fresh (dom (waitObjs k))]} ∪ dom (waitObjs k)) as E4 by apply dom_insert_L.
    apply (numbered_set a r k); [done|done|lia|rewrite E4; set_solver|]. right. exists m. split; [done|]. split; [lia|]. rewrite E4. set_solver.
  - assert (nextId k1 = nextId k + 1) as E3 by (apply Z.mod_small; lia).
    rewrite <- (app_nil_r (bk_calls a)). apply (numbered_set a r k); [done|done|change (nextId k ≤ nextId k1 < 2 ^ 32); lia| |by left]. cbn. rewrite dom_alter_L, dom_insert_L. set_solver.
Qed.
End book.
