(* ===== verification/StoreAnswerFacts.v ===== *)
(** * Answers are those of one table, and reach their callers

    The invariants of file StoreBookFacts go on: the table that all requests
    carried out so far leave, the callers that have been answered, and where the
    answer of every other caller is. *)

From Stdlib Require Import ZArith Lia.
From stdpp Require Import base gmap option list strings.
From S2P Require Import Prelude StoreTopology Store StoreRun StoreSendFacts StoreReactFacts StoreStepFacts StoreMailFacts StoreLogFacts StoreBookFacts.

Local Set Warnings "-clear-no-such-hyp".

(** ** The table *)

Lemma replay_app M l k : replay M (l ++ k) = match replay M l with Some M => replay M k | None => None end.
Proof. revert M. induction l as [|e l IH]; intros M; cbn [replay app]; [done|]. by destruct (apply_entry M e). Qed.

(** Waiting callbacks run on a key that has just been set. *)
Lemma replay_waiters M key value l : M !! key = Some value → replay M (waiter_entry key value <$> l) = Some M.
Proof.
  intros Hk. induction l as [|w l IH]; [done|]. cbn [fmap list_fmap replay]. unfold waiter_entry, waiter_msg, apply_entry. cbn.
  destruct (wget w); rewrite bool_decide_true; eauto.
Qed.

(** The table that the requests in [b] leave. *)
Definition after (M : gmap string (list Z)) (m : Message) : gmap string (list Z) :=
  match m with messageSet key value => <[key := value]> M | _ => M end.

Lemma executed_replay k b M : (∀ key, op_key (body b) = Some key → store k !! key = M !! key) → replay M (executed k b) = Some (after M (body b)).
Proof.
  unfold executed, after. destruct (body b) as [r|key value|key|key|key|origin|origin| |addrs] eqn:Eb; cbn [op_key]; intros H; try done.
  - cbn [replay]. unfold apply_entry. cbn. apply replay_waiters. apply lookup_insert_eq.
  - specialize (H key eq_refl). destruct (store k !! key) as [v|]; [|done]. cbn. unfold apply_entry. cbn. by rewrite bool_decide_true.
  - specialize (H key eq_refl). cbn. unfold apply_entry. cbn. rewrite bool_decide_true; [done|]. by rewrite H.
  - specialize (H key eq_refl). destruct (store k !! key) as [v|]; [|done]. cbn. unfold apply_entry. cbn. rewrite bool_decide_true; [done|]. by rewrite <- H.
Qed.

(** ** Callers *)

(** A [Wait] object shows a reply. *)
Definition shows (o : Wait) (rep : Reply) : Prop :=
  wb o = (match rep with ReplyBool b => b | _ => false end) ∧ wdata o = (match rep with ReplyValue v => v | _ => [] end).

(** The callers of rank [r]: each waits, perhaps told of the exit, or has its answer. *)
Record callers (C : list Call) (L : list Entry) (r : nat) (k : KV) : Prop := {
  cr_waits id o : waits k !! id = Some o → ∃ c, c ∈ C ∧ c_rank c = r ∧ c_id c = id ∧ c_wait c = o;
  cr_calls c : c ∈ C → c_rank c = r → ∃ o, waitObjs k !! c_wait c = Some o ∧
    ((waits k !! c_id c = Some (c_wait c) ∧ (futex o = true → werror o ≠ None)) ∨
     (waits k !! c_id c = None ∧ futex o = true ∧ ∃ e, e ∈ L ∧ e_rank e = r ∧ e_id e = c_id c ∧ shows o (e_reply e)))
}.

(** No two calls of a rank share a number or an object. *)
Definition distinct (C : list Call) : Prop :=
  ∀ c d, c ∈ C → d ∈ C → c_rank c = c_rank d → c_id c = c_id d ∨ c_wait c = c_wait d → c = d.

Lemma numbered_distinct a : numbered a → distinct (bk_calls a).
Proof.
  intros [_ _ H1 H2] c d Hc Hd Er Hor. apply list_elem_of_lookup in Hc as [i Hi]. apply list_elem_of_lookup in Hd as [j Hj].
  assert (i = j) as ->; [|congruence]. destruct Hor as [E|E].
  - apply (NoDup_lookup _ i j (c_rank c, c_id c) H1); rewrite list_lookup_fmap; [by rewrite Hi|rewrite Hj; cbn; congruence].
  - apply (NoDup_lookup _ i j (c_rank c, c_wait c) H2); rewrite list_lookup_fmap; [by rewrite Hi|rewrite Hj; cbn; congruence].
Qed.

Lemma callers_same C L r k k' : same_callers k k' → callers C L r k → callers C L r k'.
Proof. intros (_ & E1 & E2) [H1 H2]. constructor; rewrite ?E1, ?E2; done. Qed.

Lemma callers_log C L L' r k : callers C L r k → callers C (L ++ L') r k.
Proof.
  intros [H1 H2]. constructor; [done|]. intros c Hc Hr. destruct (H2 c Hc Hr) as (o & Ho & [?|(Hw & Hf & e & He & ?)]); exists o; split; try done; [by left|right].
  split; [done|]. split; [done|]. exists e. split; [|done]. apply elem_of_app. by left.
Qed.

Lemma callers_told C L r k k' : told k k' → callers C L r k → callers C L r k'.
Proof.
  intros (_ & E1 & _ & _ & Ht) [H1 H2]. constructor; rewrite E1; [done|]. intros c Hc Hr. destruct (H2 c Hc Hr) as (o & Ho & H).
  destruct (Ht (c_wait c)) as [->|(o' & src & Ho' & ->)]; [by exists o|]. assert (o' = o) as -> by congruence. exists (tell o src). split; [done|].
  destruct H as [[Hw _]|(Hw & _ & H)]; [left|right]; done.
Qed.

(** An answer arrives. *)
Lemma callers_done C L r k id rep : distinct C → callers C L r k → (∃ e, e ∈ L ∧ e_rank e = r ∧ e_id e = id ∧ e_reply e = rep) → callers C L r (done_kv k id rep).
Proof.
  intros HC [H1 H2] (e & He & Er & Ei & Ep). unfold done_kv. destruct (waits k !! id) as [w|] eqn:Ew; [|by constructor].
  destruct (H1 id w Ew) as (c0 & Hc0 & Hr0 & Hi0 & Hw0). constructor; cbn [waits waitObjs set_waits].
  - intros id' o. rewrite lookup_delete_Some. intros [_ H]. by apply H1.
  - intros c Hc Hr. destruct (H2 c Hc Hr) as (o & Ho & H). destruct (decide (c_id c = id)) as [Eid|Hne].
    + assert (c = c0) as -> by (apply HC; try done; [congruence|left; congruence]). rewrite Hw0, lookup_alter_eq. rewrite Hw0 in Ho. rewrite Ho. eexists. split; [done|]. right. rewrite Hi0, lookup_delete_eq. split; [done|]. split; [done|].
      exists e. split_and!; try done. by rewrite Ep.
    + assert (w ≠ c_wait c) as Hnw.
      { intros E. apply Hne. assert (c = c0) as -> by (apply HC; try done; [congruence|right; congruence]). done. }
      rewrite lookup_alter_ne by done. rewrite lookup_delete_ne by done. by exists o.
Qed.

Lemma callers_replies c C L k l : distinct C → callers C L (rank c) k → (∀ e, e ∈ l → e ∈ L) →
  callers C L (rank c) (foldl (λ k e, reply_kv c k (e_rank e) (e_id e) (e_reply e)) k l).
Proof.
  intros HC. revert k. induction l as [|e l IH]; intros k Hk Hl; [done|]. cbn [foldl]. apply IH; [|intros; apply Hl; by right].
  unfold reply_kv. case_decide; [|done]. apply callers_done; [done|done|]. exists e. split; [apply Hl; by left|done].
Qed.

(** A new call. *)
Lemma callers_call C L now c r k timeout key m : rank c = r → callers C L r k → (∀ d, d ∈ C → c_rank d = r → c_id d ≠ nextId k ∧ c_wait d ∈ dom (waitObjs k)) →
  waits k !! nextId k = None →
  callers (C ++ [mkCall r (nextId k) m (fresh (dom (waitObjs k)))]) L r (call_kv now c k timeout key true).
Proof.
  intros <- [H1 H2] Hnew Hno. assert (∀ d, d ∈ C → c_rank d = rank c → fresh (dom (waitObjs k)) ≠ c_wait d) as Hfr.
  { intros d Hd Hr E. destruct (Hnew d Hd Hr) as [_ Hin]. rewrite <- E in Hin. by apply is_fresh in Hin. }
  constructor; cbn [call_kv waits waitObjs].
  - intros id o. rewrite lookup_insert_Some. intros [[<- <-]|[_ H]].
    + eexists. split; [apply elem_of_app; right; by apply list_elem_of_singleton|done].
    + destruct (H1 id o H) as (d & Hd & ?). exists d. split; [apply elem_of_app; by left|done].
  - intros d [Hd|Hd]%elem_of_app Hr.
    + destruct (H2 d Hd Hr) as (o & Ho & H). destruct (Hnew d Hd Hr) as [Hid _]. exists o. rewrite lookup_insert_ne by (by apply Hfr). rewrite lookup_insert_ne by done. done.
    + apply list_elem_of_singleton in Hd as ->. cbn. rewrite !lookup_insert_eq. eexists. split; [done|]. left. split; [done|]. done.
Qed.

(** A call that is refused has no caller to remember. *)
Lemma callers_refused C L now c r s k timeout key : rank c = r → callers C L r k → (∀ d, d ∈ C → c_rank d = r → c_wait d ∈ dom (waitObjs k)) →
  let k1 := call_kv now c k timeout key false in
  callers C L r (set_waits k1 (waits k1) (exit_objs c s [fresh (dom (waitObjs k))] (waitObjs k1))).
Proof.
  intros <- [H1 H2] Hin k1. constructor; cbn [set_waits waits k1 call_kv]; [done|]. intros d Hd Hr. destruct (H2 d Hd Hr) as (o & Ho & H). exists o. split; [|done].
  assert (fresh (dom (waitObjs k)) ≠ c_wait d) as Hne by (intros E; specialize (Hin d Hd Hr); rewrite <- E in Hin; by apply is_fresh in Hin).
  cbn. rewrite lookup_alter_ne by done. by rewrite lookup_insert_ne.
Qed.

Section book.
Context (N : nat) (cfgs : nat → Config) (nb : nat → list nat) (Hrank : ∀ r, (r < N)%nat → rank (cfgs r) = r).

Local Abbreviation book_step := (book_step N cfgs nb).

Record tabled (a : Book) : Prop := {
  tb_table : ∃ M, replay ∅ (bk_log a) = Some M ∧ ∀ key k, bk_kvs a !! storeRank N key = Some k → store k !! key = M !! key;
  tb_mail m key : m ∈ bk_mail a → op_key (ml_body m) = Some key → ml_dest m = storeRank N key;
  tb_waits r k key l : bk_kvs a !! r = Some k → storeWaiters k !! key = Some l → storeRank N key = r ∧ store k !! key = None
}.

(** Answers are about no key. *)
Lemma answers_no_key c nbrs k s b m : m ∈ out_mail (reaction_out c nbrs k s b) → op_key (ml_body m) = None.
Proof using Type. rewrite reaction_mail. by intros (e & -> & _)%list_elem_of_fmap. Qed.

(** A request is carried out at the owner of its key. *)
Lemma tabled_react a r k s b ml C : tabled a → bk_kvs a !! r = Some k → (∀ key, op_key (body b) = Some key → storeRank N key = r) →
  (∀ m, m ∈ ml → m ∈ bk_mail a ∨ op_key (ml_body m) = None) →
  ∀ k1, store k1 = store k → storeWaiters k1 = storeWaiters k →
  tabled (mkBook (<[r := reaction_kv (cfgs r) k1 s b]> (bk_kvs a)) ml C (bk_log a ++ executed k1 b)).
Proof using Type.
  intros [(M & HM & Hst) Hml Hw] Hk Hown Hsub k1 E1 E2. assert (r < length (bk_kvs a))%nat as Hlen by (by eapply lookup_lt_Some).
  constructor; cbn [bk_log bk_kvs bk_mail].
  - exists (after M (body b)). rewrite replay_app, HM. split.
    + apply executed_replay. intros key Hkey. rewrite E1. apply Hst. by rewrite (Hown key Hkey).
    + intros key kz. destruct (decide (storeRank N key = r)) as [Er|Er].
      * rewrite Er, list_lookup_insert_eq by done. intros [= <-]. rewrite reaction_store, E1. unfold after.
        assert (store k !! key = M !! key) as Ek by (apply Hst; by rewrite Er).
        destruct (body b); try done. destruct (decide (key = key0)) as [->|]; [by rewrite !lookup_insert_eq|by rewrite !lookup_insert_ne].
      * rewrite list_lookup_insert_ne by done. intros H. rewrite (Hst key kz H). unfold after. destruct (body b) eqn:Eb; try done.
        rewrite lookup_insert_ne; [done|]. intros ->. apply Er. apply Hown. done.
  - intros m key Hm Hkey. destruct (Hsub m Hm) as [?|?]; [by eapply Hml|congruence].
  - intros z kz key l. destruct (decide (z = r)) as [->|Hne]; [|rewrite list_lookup_insert_ne by done; apply Hw].
    rewrite list_lookup_insert_eq by done. intros [= <-]. rewrite reaction_store, reaction_waiters_of, E1, E2.
    assert (∀ key', storeWaiters k !! key' = Some l → storeRank N key' = r ∧ store k !! key' = None) as Hold by (intros ?; by apply Hw).
    assert (∀ key' (x : Waiter), op_key (body b) = Some key' → store k !! key' = None →
      (<[key' := default [] (storeWaiters k !! key') ++ [x]]> (storeWaiters k)) !! key = Some l → storeRank N key = r ∧ store k !! key = None) as Hnew.
    { intros key' x Hkey Hnone. rewrite lookup_insert_Some. intros [[-> _]|[_ ?]]; [split; [by apply Hown|done]|by apply Hold]. }
    destruct (body b) as [rp|key' v|key'|key'|key'|og|og| |ad] eqn:Eb; try apply Hold.
    + rewrite lookup_delete_Some. intros [Hne Hl]. rewrite lookup_insert_ne by done. by apply Hold.
    + destruct (store k !! key') eqn:Es; [apply Hold|by apply Hnew].
    + destruct (store k !! key') eqn:Es; [apply Hold|by apply Hnew].
Qed.

(** Callers come and go; the table stays. *)
Lemma tabled_same a r k k' ml C : tabled a → bk_kvs a !! r = Some k → store k' = store k → storeWaiters k' = storeWaiters k →
  (∀ m key, m ∈ ml → op_key (ml_body m) = Some key → m ∈ bk_mail a ∨ ml_dest m = storeRank N key) →
  tabled (mkBook (<[r := k']> (bk_kvs a)) ml C (bk_log a)).
Proof using Type.
  intros [(M & HM & Hst) Hml Hw] Hk E1 E2 Hsub. assert (r < length (bk_kvs a))%nat as Hlen by (by eapply lookup_lt_Some).
  constructor; cbn [bk_log bk_kvs bk_mail].
  - exists M. split; [done|]. intros key kz. destruct (decide (storeRank N key = r)) as [Er|Er].
    + rewrite Er, list_lookup_insert_eq by done. intros [= <-]. rewrite E1. apply Hst. by rewrite Er.
    + rewrite list_lookup_insert_ne by done. apply Hst.
  - intros m key Hm Hkey. destruct (Hsub m key Hm Hkey) as [?|?]; [by eapply Hml|done].
  - intros z kz key l. destruct (decide (z = r)) as [->|Hne]; [|rewrite list_lookup_insert_ne by done; apply Hw].
    rewrite list_lookup_insert_eq by done. intros [= <-]. rewrite E1, E2. by apply Hw.
Qed.

Lemma step_tabled a a' : book_step a a' → tabled a → tabled a'.
Proof using Type.
  intros Hs Ht. destruct Hs as [ml Hml|r k k' ml Hk Htd Hml|r k s b ml Hr Hk Hd Hin Hml|r k s now timeout key m ml Hr Hk Hkey Hid Ho k1 b Hml|r k now timeout key m ml Hr Hk Hkey Hid Ho Hml|r k s now timeout key ml Hr Hk Hid Hml k1].
  - destruct Ht as [T1 T2 T3]. constructor; try done. cbn. intros m key. rewrite Hml. apply T2.
  - destruct Htd as (_ & _ & E1 & E2 & _). apply (tabled_same a r k); try done. intros m key. rewrite Hml. auto.
  - apply (tabled_react a r k); try done.
    + intros key Hkey. rewrite <- Hd. symmetry. assert (mail b = [mkMail (sourceRank (hdr b)) (hid (hdr b)) (destinationRank (hdr b)) (body b)]) as Em by (unfold mail; by destruct (body b)).
      rewrite Em in Hin. exact (tb_mail a Ht _ key (Hin _ (proj2 (list_elem_of_singleton _ _) eq_refl)) Hkey).
    + intros m Hm. assert (m ∈ bk_mail a ++ out_mail (reaction_out (cfgs r) (nb r) k s b)) as [?|?%answers_no_key]%elem_of_app by (rewrite <- Hml; apply elem_of_app; by left); auto.
  - apply (tabled_react a r k); try done.
    + cbn. intros key'. rewrite Hkey. intros [= <-]. done.
    + intros m'. rewrite Hml. intros [?|?%answers_no_key]%elem_of_app; auto.
  - apply (tabled_same a r k); try done. intros m' key'. rewrite Hml. intros [?|E%list_elem_of_singleton]%elem_of_app; [by left|]. subst m'. cbn. rewrite Hkey. intros [= <-]. by right.
  - apply (tabled_same a r k); try done. intros m key'. rewrite Hml. auto.
Qed.

(** Answers on their way are in the log. *)
Definition logged (a : Book) : Prop :=
  ∀ m rep, m ∈ bk_mail a → ml_body m = messageDone rep → ∃ e, e ∈ bk_log a ∧ e_rank e = ml_dest m ∧ e_id e = ml_id m ∧ e_reply e = rep.

Lemma logged_grow a ml L kvs C : logged a → (∀ m rep, m ∈ ml → ml_body m = messageDone rep → m ∈ bk_mail a ∨ ∃ e, e ∈ L ∧ e_rank e = ml_dest m ∧ e_id e = ml_id m ∧ e_reply e = rep) →
  logged (mkBook kvs ml C (bk_log a ++ L)).
Proof using Type.
  intros Hl Hsub m rep Hm Hb. cbn in *. destruct (Hsub m rep Hm Hb) as [H|(e & He & ?)].
  - destruct (Hl m rep H Hb) as (e & He & ?). exists e. split; [apply elem_of_app; by left|done].
  - exists e. split; [apply elem_of_app; by right|done].
Qed.

Lemma answers_logged c nbrs k s b m rep : m ∈ out_mail (reaction_out c nbrs k s b) → ml_body m = messageDone rep →
  ∃ e, e ∈ executed k b ∧ e_rank e = ml_dest m ∧ e_id e = ml_id m ∧ e_reply e = rep.
Proof using Type.
  rewrite reaction_mail. intros (e & -> & [_ He]%list_elem_of_filter)%list_elem_of_fmap. cbn. intros [= <-]. by exists e.
Qed.

Lemma step_logged a a' : book_step a a' → logged a → logged a'.
Proof using Type.
  intros Hs Hl. destruct Hs as [ml Hml|r k k' ml Hk Htd Hml|r k s b ml Hr Hk Hd Hin Hml|r k s now timeout key m ml Hr Hk Hkey Hid Ho k1 b Hml|r k now timeout key m ml Hr Hk Hkey Hid Ho Hml|r k s now timeout key ml Hr Hk Hid Hml k1].
  - intros m rep. cbn. rewrite Hml. apply Hl.
  - intros m rep. cbn. rewrite Hml. apply Hl.
  - apply logged_grow; [done|]. intros m rep Hm Hb.
    assert (m ∈ bk_mail a ++ out_mail (reaction_out (cfgs r) (nb r) k s b)) as [?|?]%elem_of_app by (rewrite <- Hml; apply elem_of_app; by left); [by left|right]. by eapply answers_logged.
  - apply logged_grow; [done|]. intros m' rep. rewrite Hml. intros [?|?]%elem_of_app Hb; [by left|right]. by eapply answers_logged.
  - rewrite <- (app_nil_r (bk_log a)). apply logged_grow; [done|]. intros m' rep. rewrite Hml. intros [?|E%list_elem_of_singleton]%elem_of_app Hb; [by left|]. subst m'. cbn in Hb. by subst m.
  - intros m rep. cbn. rewrite Hml. apply Hl.
Qed.

(** Every rank knows its callers. *)
Definition served (a : Book) : Prop := ∀ r k, bk_kvs a !! r = Some k → callers (bk_calls a) (bk_log a) r k.

Lemma served_set a r k' ml C L : served a → callers (bk_calls a ++ C) (bk_log a ++ L) r k' → Forall (λ c, c_rank c = r) C →
  served (mkBook (<[r := k']> (bk_kvs a)) ml (bk_calls a ++ C) (bk_log a ++ L)).
Proof using Type.
  intros Hs Hk HC z kz. cbn. destruct (decide (z = r)) as [->|Hne].
  - destruct (decide (r < length (bk_kvs a))%nat); [rewrite list_lookup_insert_eq by done; by intros [= <-]|].
    intros H. rewrite list_insert_ge in H by lia. apply lookup_lt_Some in H. lia.
  - rewrite list_lookup_insert_ne by done. intros Hz. apply callers_log. destruct (Hs z kz Hz) as [H1 H2]. constructor.
    + intros id o H. destruct (H1 id o H) as (c & Hc & ?). exists c. split; [apply elem_of_app; by left|done].
    + intros c [Hc|Hc]%elem_of_app Hr; [by apply H2|]. rewrite Forall_forall in HC. specialize (HC c Hc). congruence.
Qed.

Lemma reaction_callers C L c r k s b : rank c = r → distinct C → callers C L r k → (∀ e, e ∈ executed k b → e ∈ L) →
  (∀ rep, body b = messageDone rep → ∃ e, e ∈ L ∧ e_rank e = r ∧ e_id e = hid (hdr b) ∧ e_reply e = rep) → callers C L r (reaction_kv c k s b).
Proof using Type.
  intros <- HC Hk Hl Hdone. destruct (body b) as [rep| | | | | |o| |] eqn:Eb.
  1: { unfold reaction_kv. rewrite Eb. apply callers_done; [done|done|by apply Hdone]. }
  6: { unfold reaction_kv. rewrite Eb. destruct (exited s); [done|]. eapply callers_told; [apply exit_told|done]. }
  all: destruct (reaction_replies c k s b) as (l & k0 & Hp & Hsame & ->); [congruence|congruence|];
    apply callers_replies; [done|by eapply callers_same|intros e; rewrite Hp; apply Hl].
Qed.

Lemma fresh_number a r k : numbered a → served a → bk_kvs a !! r = Some k →
  (∀ d, d ∈ bk_calls a → c_rank d = r → c_id d ≠ nextId k ∧ c_wait d ∈ dom (waitObjs k)) ∧ waits k !! nextId k = None.
Proof using Type.
  intros Hn Hs Hk. assert (∀ d, d ∈ bk_calls a → c_rank d = r → c_id d ≠ nextId k ∧ c_wait d ∈ dom (waitObjs k)) as H.
  { intros d Hd Hr. destruct (nu_call _ Hn d Hd) as (kd & E & Hi & Ho). rewrite Hr, Hk in E. injection E as <-. split; [lia|done]. }
  split; [done|]. destruct (waits k !! nextId k) as [o|] eqn:E; [|done]. destruct (cr_waits _ _ _ _ (Hs r k Hk) _ _ E) as (d & Hd & Hr & Hi & _). by destruct (H d Hd Hr).
Qed.

Lemma step_served a a' : book_step a a' → numbered a → logged a → served a → served a'.
Proof using Hrank.
  intros Hst Hn Hl Hs. pose proof (step_numbered N cfgs nb a a' Hst Hn) as Hn'. pose proof (numbered_distinct _ Hn') as HC.
  destruct Hst as [ml Hml|r k k' ml Hk Htd Hml|r k s b ml Hr Hk Hd Hin Hml|r k s now timeout key m ml Hr Hk Hkey Hid Ho k1 b Hml|r k now timeout key m ml Hr Hk Hkey Hid Ho Hml|r k s now timeout key ml Hr Hk Hid Hml k1].
  - done.
  - intros z kz. cbn. rewrite list_lookup_insert_Some. intros [(-> & <- & _)|[_ Hz]]; [|by apply Hs]. eapply callers_told; [done|by apply Hs].
  - rewrite <- (app_nil_r (bk_calls a)). apply served_set; [done| |constructor]. rewrite app_nil_r.
    apply reaction_callers; [by apply Hrank|done|by apply callers_log, Hs|intros; apply elem_of_app; by right|].
    intros rep Eb. assert (mail b = [mkMail (sourceRank (hdr b)) (hid (hdr b)) (destinationRank (hdr b)) (body b)]) as Em by (unfold mail; by rewrite Eb).
    rewrite Em in Hin. destruct (Hl _ rep (Hin _ (proj2 (list_elem_of_singleton _ _) eq_refl)) Eb) as (e & He & E1 & E2 & E3). cbn in *. exists e.
    split; [apply elem_of_app; by left|]. split; [congruence|done].
  - apply served_set; [done| |by repeat constructor]. destruct (fresh_number a r k Hn Hs Hk) as [F1 F2].
    apply reaction_callers; [by apply Hrank|done| |intros; apply elem_of_app; by right|].
    + apply callers_call; [by apply Hrank|by apply callers_log, Hs|exact F1|done].
    + intros rep Eb. cbn in Eb. by subst m.
  - rewrite <- (app_nil_r (bk_log a)). apply served_set; [done| |by repeat constructor]. rewrite app_nil_r. destruct (fresh_number a r k Hn Hs Hk) as [F1 F2].
    apply callers_call; [by apply Hrank|by apply Hs|exact F1|done].
  - rewrite <- (app_nil_r (bk_calls a)), <- (app_nil_r (bk_log a)). apply served_set; [done| |constructor]. rewrite !app_nil_r. destruct (fresh_number a r k Hn Hs Hk) as [F1 F2].
    apply callers_refused; [by apply Hrank|by apply Hs|intros d Hd Hdr; by apply F1].
Qed.

(** All of it together. *)
Record books (a : Book) : Prop := {
  bo_conserved : conserved a;
  bo_numbered : numbered a;
  bo_tabled : tabled a;
  bo_logged : logged a;
  bo_served : served a
}.

Lemma step_books a a' : book_step a a' → books a → books a'.
Proof using Hrank.
  intros Hs [H1 H2 H3 H4 H5]. constructor.
  - by eapply step_conserved.
  - by eapply step_numbered.
  - by eapply step_tabled.
  - by eapply step_logged.
  - by eapply step_served.
Qed.

(** The state before any call. *)
Lemma empty_books n : books (mkBook (replicate n (mkKV 1 ∅ ∅ ∅ ∅)) [] [] []).
Proof using Type.
  assert (∀ r k, replicate n (mkKV 1 ∅ ∅ ∅ ∅) !! r = Some k → k = mkKV 1 ∅ ∅ ∅ ∅) as Hk by (intros r k [-> _]%lookup_replicate; done).
  constructor.
  - unfold conserved, book_reqs, kvs_waits. cbn. rewrite join_fmap_nil; [done|]. intros k Hin. apply elem_of_replicate_inv in Hin as ->. done.
  - constructor; cbn.
    + intros r k ->%Hk. cbn. lia.
    + by intros c ?%elem_of_nil.
    + constructor.
    + constructor.
  - constructor; cbn.
    + exists ∅. split; [done|]. intros key k ->%Hk. done.
    + by intros m key ?%elem_of_nil.
    + intros r k key l ->%Hk. cbn. by rewrite lookup_empty.
  - by intros m rep ?%elem_of_nil.
  - intros r k ->%Hk. constructor; cbn; [intros id o; by rewrite lookup_empty|by intros c ?%elem_of_nil].
Qed.

(** A request is carried out at most once, for a call that was made. *)
Lemma log_calls a : books a → NoDup ((λ e, (e_rank e, e_id e)) <$> bk_log a) ∧
  ∀ e, e ∈ bk_log a → ∃ c, c ∈ bk_calls a ∧ c_rank c = e_rank e ∧ c_id c = e_id e ∧ c_msg c = e_msg e.
Proof using Type.
  intros [Hc Hn _ _ _]. unfold conserved in Hc. split.
  - assert (NoDup (fst <$> (call_req <$> bk_calls a))) as Hnd by (rewrite <- list_fmap_compose; apply (nu_ids _ Hn)).
    rewrite <- Hc, fmap_app in Hnd. apply NoDup_app in Hnd as (_ & _ & Hnd). by rewrite <- list_fmap_compose in Hnd.
  - intros e He. assert (entry_req e ∈ call_req <$> bk_calls a) as Hin by (rewrite <- Hc; apply elem_of_app; right; by apply list_elem_of_fmap_2).
    apply list_elem_of_fmap in Hin as (c & [= E1 E2 E3] & Hin). exists c. done.
Qed.
End book.
