(* ===== verification/StoreLiveFacts.v ===== *)
(** * Calls are answered

    The answer of every caller that waits is on its way, or its request is, or
    the request waits at the owner for its key to be set. *)

From Stdlib Require Import ZArith Lia.
From stdpp Require Import base gmap option list strings.
From S2P Require Import Prelude StoreTopology Store StoreRun StoreSendFacts StoreReactFacts StoreStepFacts StoreMailFacts StoreLogFacts StoreBookFacts StoreAnswerFacts.

Local Set Warnings "-clear-no-such-hyp".

(** ** Callers that still wait after a reaction *)

Lemma done_waits k id rep id' o : waits (done_kv k id rep) !! id' = Some o ↔ waits k !! id' = Some o ∧ id' ≠ id.
Proof.
  unfold done_kv. destruct (waits k !! id) as [w|] eqn:E; cbn; [rewrite lookup_delete_Some; naive_solver|]. split; [|by intros [? _]]. intros H. split; [done|]. congruence.
Qed.

Lemma replies_waits c l k id o : waits (foldl (λ k e, reply_kv c k (e_rank e) (e_id e) (e_reply e)) k l) !! id = Some o →
  waits k !! id = Some o ∧ ∀ e, e ∈ l → e_rank e = rank c → e_id e ≠ id.
Proof.
  revert k. induction l as [|e l IH]; intros k; cbn [foldl]; [intros H; split; [done|by intros e ?%elem_of_nil]|]. intros [H1 H2]%IH. unfold reply_kv in H1. case_decide as Er.
  - apply done_waits in H1 as [H1 Hne]. split; [done|]. intros e' [->|He']%elem_of_cons; [congruence|auto].
  - split; [done|]. intros e' [->|He']%elem_of_cons; [congruence|auto].
Qed.

Lemma reaction_waits c k s b id o : waits (reaction_kv c k s b) !! id = Some o →
  waits k !! id = Some o ∧ (∀ e, e ∈ executed k b → e_rank e = rank c → e_id e ≠ id) ∧ (∀ rep, body b = messageDone rep → hid (hdr b) ≠ id).
Proof.
  destruct (body b) as [rep| | | | | |og| |] eqn:Eb.
  1: { unfold reaction_kv, executed. rewrite Eb. intros [H1 H2]%done_waits. split; [done|]. split; [by intros e ?%elem_of_nil|]. congruence. }
  6: { unfold reaction_kv, executed. rewrite Eb. destruct (exited s); intros H; (split; [done|]); (split; [by intros e ?%elem_of_nil|done]). }
  all: destruct (reaction_replies c k s b) as (l & k0 & Hp & (_ & Ew & _) & ->); [congruence|congruence|];
    intros [H1 H2]%replies_waits; rewrite Ew in H1; (split; [done|]); (split; [intros e He; apply H2; by rewrite Hp|done]).
Qed.

Section book.
Context (N : nat) (cfgs : nat → Config) (nb : nat → list nat) (Hrank : ∀ r, (r < N)%nat → rank (cfgs r) = r).

Local Abbreviation book_step := (book_step N cfgs nb).

(** Where the answer to call [id] of rank [r] is. *)
Definition coming (a : Book) (r : nat) (id : Z) : Prop :=
  (∃ m, (r, id, m) ∈ book_reqs a) ∨ ∃ ml rep, ml ∈ bk_mail a ∧ ml_body ml = messageDone rep ∧ ml_dest ml = r ∧ ml_id ml = id.

Definition live (a : Book) : Prop := ∀ r k id o, bk_kvs a !! r = Some k → waits k !! id = Some o → coming a r id.

(** Nothing is carried out, and no mail leaves. *)
Lemma coming_grow a a' r id : book_step a a' → bk_log a' = bk_log a → (∀ m, m ∈ bk_mail a → m ∈ bk_mail a') → coming a r id → coming a' r id.
Proof using Hrank.
  intros Hs El Hm [[m Hin]|(ml & rep & Hin & H)]; [left|right; exists ml, rep; split; [auto|done]]. exists m.
  destruct (step_reqs N cfgs nb Hrank a a' Hs) as (E & C & E1 & E2 & HP). assert (E = []) as -> by (apply (app_inv_head (bk_log a)); rewrite app_nil_r; congruence).
  rewrite app_nil_r in HP. rewrite HP. apply elem_of_app. by left.
Qed.

(** Requests are carried out: they are answered, or stay. *)
Lemma coming_react a a' r0 k s b E r id : book_step a a' → bk_log a' = bk_log a ++ E → E = executed k b → rank (cfgs r0) = r0 →
  (∀ m, m ∈ out_mail (reaction_out (cfgs r0) (nb r0) k s b) → m ∈ bk_mail a') →
  (∀ m, m ∈ bk_mail a → m ∈ bk_mail a' ∨ m ∈ mail b) → destinationRank (hdr b) = r0 →
  (r = r0 → (∀ e, e ∈ executed k b → e_rank e = r0 → e_id e ≠ id) ∧ (∀ rep, body b = messageDone rep → hid (hdr b) ≠ id)) →
  coming a r id → coming a' r id.
Proof using Hrank.
  intros Hs El HE Hr0 Hout Hmail Hd Hloc [[m Hin]|(ml & rep & Hin & Hb & Hr & Hi)].
  - destruct (step_reqs N cfgs nb Hrank a a' Hs) as (E' & C & E1 & E2 & HP). assert (E' = E) as -> by (apply (app_inv_head (bk_log a)); congruence).
    assert ((r, id, m) ∈ book_reqs a' ++ (entry_req <$> E)) as [H|(e & [= H1 H2 H3] & He)%list_elem_of_fmap]%elem_of_app by (rewrite HP; apply elem_of_app; by left); [left; eauto|].
    rewrite HE in He. destruct (decide (r = r0)) as [E0|Hne]; [destruct (Hloc E0) as [H _]; destruct (H e He); congruence|]. right.
    exists (answer_mail r0 e), (e_reply e). split; [|done]. apply Hout. rewrite reaction_mail, Hr0. apply list_elem_of_fmap_2, list_elem_of_filter. split; [congruence|done].
  - destruct (Hmail ml Hin) as [H|H]; [right; by exists ml, rep|]. unfold mail in H. destruct (is_mail (body b)) eqn:Em; [|by apply elem_of_nil in H].
    apply list_elem_of_singleton in H as ->. cbn in *. destruct (Hloc (eq_trans (eq_sym Hr) Hd)) as [_ H]. by destruct (H rep Hb).
Qed.

(** The request of a new call. *)
Lemma coming_call a a' r id m o L : book_step a a' → bk_calls a' = bk_calls a ++ [mkCall r id m o] → bk_log a' = bk_log a ++ L →
  (∀ e, e ∈ L → e_rank e = r → e_id e ≠ id) → coming a' r id.
Proof using Hrank.
  intros Hs Hc El Hno. destruct (step_reqs N cfgs nb Hrank a a' Hs) as (E & C & E1 & E2 & HP). assert (E = L) as -> by (apply (app_inv_head (bk_log a)); congruence).
  assert (C = [mkCall r id m o]) as -> by (apply (app_inv_head (bk_calls a)); congruence). left. exists m.
  assert ((r, id, m) ∈ book_reqs a' ++ (entry_req <$> L)) as [H|(e & [= H1 H2 H3] & He)%list_elem_of_fmap]%elem_of_app; [|done|by destruct (Hno e He)].
  rewrite HP. apply elem_of_app. right. by apply list_elem_of_singleton.
Qed.

(** Callers of other ranks, or older ones. *)
Lemma live_set a r k k' z kz id o : live a → bk_kvs a !! r = Some k → (<[r := k']> (bk_kvs a)) !! z = Some kz → waits kz !! id = Some o →
  (z = r → waits k' !! id = Some o → waits k !! id = Some o) → coming a z id.
Proof using Type.
  intros Hl Hk. rewrite list_lookup_insert_Some. intros [(<- & <- & _)|[_ Hz]] Hw Hold; [|by eapply Hl]. eapply Hl; [exact Hk|]. by apply Hold.
Qed.

Lemma live_react a a' r k0 k s b z kz id o : book_step a a' → live a → (r < N)%nat → bk_kvs a !! r = Some k0 → bk_kvs a' = <[r := reaction_kv (cfgs r) k s b]> (bk_kvs a) →
  bk_log a' = bk_log a ++ executed k b → destinationRank (hdr b) = r → bk_mail a' ++ mail b ≡ₚ bk_mail a ++ out_mail (reaction_out (cfgs r) (nb r) k s b) ++ mail b ∨ 
    bk_mail a' ++ mail b ≡ₚ bk_mail a ++ out_mail (reaction_out (cfgs r) (nb r) k s b) →
  bk_kvs a' !! z = Some kz → waits kz !! id = Some o → (z = r → waits k !! id = Some o → waits k0 !! id = Some o) → coming a' z id.
Proof using Hrank.
  intros Hs Hl Hr Hk Hkv Hlog Hd Hml Hz Hw Hold. rewrite Hkv in Hz.
  assert (∀ m, m ∈ bk_mail a ∨ m ∈ out_mail (reaction_out (cfgs r) (nb r) k s b) → m ∈ bk_mail a' ∨ m ∈ mail b) as Hsub.
  { intros m Hm. apply elem_of_app. destruct Hml as [-> | ->]; rewrite !elem_of_app; tauto. }
  assert (z = r → (∀ e, e ∈ executed k b → e_rank e = r → e_id e ≠ id) ∧ (∀ rep, body b = messageDone rep → hid (hdr b) ≠ id)) as Hloc.
  { intros ->. rewrite list_lookup_insert_eq in Hz by (by eapply lookup_lt_Some). injection Hz as <-. apply reaction_waits in Hw as (_ & W1 & W2). rewrite (Hrank r Hr) in W1. done. }
  eapply (coming_react a a' r k s b (executed k b)); [done|done|done|by apply Hrank| |intros m Hm; apply Hsub; by left|done|exact Hloc|].
  - intros m Hm. destruct (Hsub m (or_intror Hm)) as [?|Hb]; [done|]. exfalso.
    rewrite reaction_mail in Hm. apply list_elem_of_fmap in Hm as (e & -> & [_ He]%list_elem_of_filter). unfold mail in Hb. destruct (is_mail (body b)); [|by apply elem_of_nil in Hb].
    apply list_elem_of_singleton in Hb. injection Hb as _ _ _ Eb. unfold executed in He. rewrite <- Eb in He. by apply elem_of_nil in He.
  - eapply live_set; [done|done|done|done|]. intros E Hw'. apply Hold; [done|]. by apply reaction_waits in Hw' as (? & _).
Qed.

Lemma step_live a a' : book_step a a' → live a → live a'.
Proof using Hrank.
  intros Hs Hl. pose proof Hs as Hs0. destruct Hs as [ml Hml|r k k' ml Hk Htd Hml|r k s b ml Hr Hk Hd Hin Hml|r k s now timeout key m ml Hr Hk Hkey Hid Ho k1 b Hml|r k now timeout key m ml Hr Hk Hkey Hid Ho Hml|r k s now timeout key ml Hr Hk Hid Hml k1]; intros z kz id o; cbn [bk_kvs]; intros Hz Hw.
  - eapply coming_grow; [done|done|cbn; intros; by rewrite Hml|by eapply Hl].
  - eapply coming_grow; [done|done|cbn; intros; by rewrite Hml|]. eapply live_set; [done|done|done|done|]. intros _. destruct Htd as (_ & E & _). by rewrite E.
  - eapply (live_react a _ r k k s b); try done. by right.
  - destruct (decide (z = r ∧ id = nextId k)) as [[-> ->]|Hne].
    + eapply (coming_call a _ r (nextId k) m _ (executed k1 b)); [exact Hs0|done|done|].
      rewrite list_lookup_insert_eq in Hz by (by eapply lookup_lt_Some). injection Hz as <-. apply reaction_waits in Hw as (_ & W1 & _). by rewrite (Hrank r Hr) in W1.
    + eapply (live_react a _ r k k1 s b); try done; [left; cbn; by rewrite Hml, (assoc_L (++))|]. intros -> H. unfold k1 in H. cbn in H. by rewrite lookup_insert_ne in H by naive_solver.
  - destruct (decide (z = r ∧ id = nextId k)) as [[-> ->]|Hne].
    + eapply (coming_call a _ r (nextId k) m _ []); [exact Hs0|done|cbn; by rewrite app_nil_r|by intros e ?%elem_of_nil].
    + eapply coming_grow; [done|done|cbn; intros; rewrite Hml; apply elem_of_app; by left|]. eapply live_set; [done|done|done|done|].
      intros -> H. cbn in H. by rewrite lookup_insert_ne in H by naive_solver.
  - eapply coming_grow; [done|done|cbn; intros; by rewrite Hml|]. eapply live_set; [done|done|done|done|]. done.
Qed.

(** When no mail is on its way, those who wait do so for a key that is not set. *)
Lemma at_rest_waits a r k id o : books N a → live a → bk_mail a = [] → bk_kvs a !! r = Some k → waits k !! id = Some o →
  ∃ key c ko, c ∈ bk_calls a ∧ c_rank c = r ∧ c_id c = id ∧ (c_msg c = messageGet key ∨ c_msg c = messageWait key) ∧
    bk_kvs a !! storeRank N key = Some ko ∧ store ko !! key = None.
Proof using Type.
  intros Hb Hl Hm Hk Hw. destruct (Hl r k id o Hk Hw) as [[m Hin]|(ml & rep & H & _)]; [|rewrite Hm in H; by apply elem_of_nil in H].
  assert ((r, id, m) ∈ call_req <$> bk_calls a) as (c & [= E1 E2 E3] & Hc)%list_elem_of_fmap.
  { pose proof (bo_conserved _ _ Hb) as Hcons. unfold conserved in Hcons. rewrite <- Hcons. apply elem_of_app. by left. }
  unfold book_reqs in Hin. rewrite Hm in Hin. cbn in Hin. apply list_elem_of_join in Hin as (l & Hin & (ko & -> & Hko)%list_elem_of_fmap).
  apply list_elem_of_join in Hin as (l' & Hin & ([key ws] & -> & Hkey%elem_of_map_to_list)%list_elem_of_fmap). cbn in Hin.
  apply list_elem_of_fmap in Hin as (w & [= F1 F2 F3] & _). apply list_elem_of_lookup in Hko as [z Hz].
  destruct (tb_waits _ _ (bo_tabled _ _ Hb) z ko key ws Hz Hkey) as [Ez Hnone]. exists key, c, ko. split_and!; try done; [|by rewrite Ez].
  rewrite <- E3, F3. unfold waiter_msg. destruct (wget w); auto.
Qed.

Lemma empty_live n : live (mkBook (replicate n (mkKV 1 ∅ ∅ ∅ ∅)) [] [] []).
Proof using Type. intros r k id o. cbn. intros [-> _]%lookup_replicate H. cbn in H. by rewrite lookup_empty in H. Qed.
End book.
