(* ===== verification/StoreDrainFacts.v ===== *)
(** * Messages do not go round in circles

    Every message on an edge has a weight, and so have the callbacks that wait
    for a key, the ranks that have not exited, and the addresses that an edge has
    not been told yet.  The delivery of a message makes the total weight smaller. *)

From Stdlib Require Import ZArith Lia.
From stdpp Require Import base gmap option list list_numbers strings.
From S2P Require Import Prelude StoreTopology StoreTopologyFacts Store StoreRun StoreSendFacts StoreReactFacts StoreStepFacts StoreNetFacts StoreRunFacts.
From S2P Require Import StoreMailFacts StoreLogFacts StoreBookFacts.

Local Set Warnings "-clear-no-such-hyp".
Local Open Scope nat_scope.

(** ** Sums *)

Local Abbreviation sum := sum_list_with.

Lemma sum_app {A} (f : A → nat) l k : sum f (l ++ k) = sum f l + sum f k.
Proof. induction l as [|a l IH]; cbn; lia. Qed.

Lemma sum_fmap {A B} (g : A → B) (f : B → nat) l : sum f (g <$> l) = sum (λ a, f (g a)) l.
Proof. induction l as [|a l IH]; cbn; lia. Qed.

Lemma sum_join {A} (f : A → nat) (l : list (list A)) : sum f (mjoin l) = sum (sum f) l.
Proof. induction l as [|a l IH]; [done|]. change (mjoin (a :: l)) with (a ++ mjoin l). by rewrite sum_app, IH. Qed.

Lemma sum_bound {A} (f : A → nat) n l : (∀ a, a ∈ l → f a ≤ n) → sum f l ≤ n * length l.
Proof. induction l as [|a l IH]; intros H; cbn; [lia|]. pose proof (H a (list_elem_of_here _ _)). specialize (IH (λ b Hb, H b (list_elem_of_further _ _ _ Hb))). lia. Qed.

Lemma sum_insert {A} (f : A → nat) l i a a' : l !! i = Some a → sum f (<[i := a']> l) + f a = sum f l + f a'.
Proof.
  revert i. induction l as [|b l IH]; intros [|i]; try done; [intros [= ->]; cbn; lia|]. intros H. specialize (IH i H).
  change (<[S i := a']> (b :: l)) with (b :: <[i := a']> l). cbn [sum_list_with]. lia.
Qed.

#[local] Instance is_cast_dec m : Decision (is_cast m).
Proof. destruct m; cbn; apply _. Defined.

(** A set of ranks that grows. *)
Lemma sent_size N (S : gset nat) d : (∀ s, s ∈ S → s < N) → d < N → d ∉ S → size ({[d]} ∪ S) = 1 + size S ∧ 1 + size S ≤ N.
Proof.
  intros HS Hd Hn. assert (size ({[d]} ∪ S) = 1 + size S) as E by (rewrite size_union by set_solver; by rewrite size_singleton). split; [done|].
  rewrite <- E. transitivity (size (set_seq 0 N : gset nat)); [|by rewrite size_set_seq]. apply subseteq_size. intros s [->%elem_of_singleton|Hs%HS]%elem_of_union; apply elem_of_set_seq; lia.
Qed.

Section mesh.
Context (N : nat) (G : list (list nat)) (cfgs : nat → Config) (nb : nat → list nat) (dst : nat → nat → nat).
Context (Hmt : mesh_tables N G cfgs nb dst).

Local Abbreviation node_ok := (node_ok N cfgs nb dst).
Local Abbreviation net_ok := (net_ok N cfgs nb dst).
Local Abbreviation msg_ok := (msg_ok N cfgs dst).
Local Abbreviation out_ok := (out_ok N cfgs nb dst).

(** ** Weights *)

(** A message on an edge to [y]: it may be forwarded, a request may be answered, and
    a broadcast is copied to up to four edges. *)
Definition weight (y : nat) (b : Buffer) : nat :=
  match body b with
  | messageShutdown _ | messageExit _ | messageExitAck => 5 ^ (N - dst (sourceRank (hdr b)) y)
  | messageDone _ | messageDiagnosticSource _ => 1 + dst y (destinationRank (hdr b))
  | _ => N + 2 + dst y (destinationRank (hdr b))
  end.

Definition out_weight (o : Out) : nat := match o with OSend y b => weight y b | OPend _ _ _ => 0 end.

(** An edge, with the addresses of diagnostic sources that it may still be sent. *)
Definition edge_weight (y : nat) (pi : EdgeInfo) : nat :=
  sum (λ o, weight y (obuffer o)) (outgoingQueue pi) + 2 * (N - size (sentDiagnosticSourceFor pi)).

Definition peers_weight (P : list (nat * EdgeInfo)) : nat := sum (λ p, edge_weight p.1 p.2) P.

(** The callbacks that wait, and the broadcast at the exit. *)
Definition rest_weight (k : KV) (s : Shutdown) : nat :=
  (N + 1) * length (waits_reqs (storeWaiters k)) + (if exited s then 0 else 4 * 5 ^ N).

Definition node_weight (st : StoreImpl) : nat := peers_weight (edgePeers st) + rest_weight (kv st) (shut st).
Definition net_weight (net : list StoreImpl) : nat := sum node_weight net.

(** ** Sending *)

Lemma push_weight y pi t b d : edge_weight y (push pi t b d) = edge_weight y pi + weight y b.
Proof using Type. unfold edge_weight, push. cbn. rewrite sum_app. cbn. change (weight y (patch_seq b _)) with (weight y b). lia. Qed.

Lemma grown_weight x y pi l pi' : x < N → y ∈ nb x → (∀ s, s ∈ sentDiagnosticSourceFor pi → s < N) → grown (cfgs x) y pi l pi' →
  edge_weight y pi' ≤ edge_weight y pi + sum out_weight l ∧ ∀ s, s ∈ sentDiagnosticSourceFor pi' → s < N.
Proof using Hmt.
  intros Hx Hy Hs Hg. destruct (mt_rank _ _ _ _ _ Hmt x Hx) as [_ Ew]. destruct (nb_lt N G cfgs nb dst Hmt x y Hx Hy) as (Hyw & _).
  induction Hg as [pi|pi l pi1 b t d Hg IH|pi l pi1 d Hg IH Hd Hn|pi l pi1 d t addrs Hg IH Hd Hn|pi l pi1 s b Hg IH Hev]; [split; [cbn; lia|done]|..]; rewrite ?Ew in *; destruct (IH Hs) as [IH1 IH2].
  - rewrite push_weight, sum_app. cbn. split; [lia|done].
  - destruct (sent_size N _ d IH2 Hd Hn) as [E1 E2]. split; [|cbn; intros s [->%elem_of_singleton|?]%elem_of_union; auto].
    unfold edge_weight in *. cbn in *. rewrite E1. lia.
  - destruct (sent_size N _ d IH2 Hd Hn) as [E1 E2]. split; [|cbn; intros s [->%elem_of_singleton|?]%elem_of_union; auto].
    rewrite push_weight. unfold weight. cbn. rewrite (dst_self N G cfgs nb dst Hmt y Hyw). unfold edge_weight in *. cbn in *. rewrite E1. lia.
  - rewrite sum_app. cbn. split; [|done]. unfold edge_weight in *. cbn in *. lia.
Qed.

Lemma on_edge_weight ys l : NoDup ys → Forall (λ o, out_edge o ∈ ys) l → sum (λ y, sum out_weight (on_edge y l)) ys = sum out_weight l.
Proof using Type.
  intros Hy. induction 1 as [|o l Ho Hl IH]; [clear; induction ys as [|y ys IH]; [done|cbn [sum_list_with]; by rewrite IH]|]. cbn [sum_list_with]. rewrite <- IH. clear IH Hl.
  induction Hy as [|y ys Hny Hy IH]; [by apply elem_of_nil in Ho|]. cbn [sum_list_with]. change (o :: l) with ([o] ++ l). rewrite on_edge_app, sum_app.
  apply elem_of_cons in Ho as [Ho|Ho].
  - rewrite on_edge_all by (by constructor). assert (sum (λ y, sum out_weight (on_edge y ([o] ++ l))) ys = sum (λ y, sum out_weight (on_edge y l)) ys) as ->; [|cbn; lia].
    clear -Hny Ho. induction ys as [|z ys IH]; [done|]. apply not_elem_of_cons in Hny as [Hne Hny]. cbn [sum_list_with]. rewrite IH by done.
    rewrite on_edge_app, (on_edge_none y); [done|by constructor|done].
  - rewrite (on_edge_none (out_edge o)); [cbn [sum_list_with]; specialize (IH Ho); cbn in IH |- *; lia|by constructor|]. intros E. subst y. done.
Qed.

Lemma peers_grown_weight (P P' : list (nat * EdgeInfo)) (l : list Out) : P'.*1 = P.*1 → NoDup P.*1 →
  (∀ y pi, find_peer P y = Some pi → ∃ pi', find_peer P' y = Some pi' ∧ edge_weight y pi' ≤ edge_weight y pi + sum out_weight (on_edge y l)) →
  peers_weight P' ≤ peers_weight P + sum (λ y, sum out_weight (on_edge y l)) P.*1.
Proof using Type.
  revert P'. induction P as [|[y pi] P IH]; intros [|[y' pi'] P'] Hfst Hnd H; try done.
  cbn in Hfst. injection Hfst as -> Hfst. cbn in Hnd. apply NoDup_cons in Hnd as [Hny Hnd].
  destruct (H y pi) as (pi1 & E & Hpi1); [cbn; by rewrite bool_decide_true|]. cbn in E. rewrite bool_decide_true in E by done. injection E as ->.
  assert (peers_weight P' ≤ peers_weight P + sum (λ y, sum out_weight (on_edge y l)) P.*1) as IH'.
  { apply IH; [done|done|]. intros z pz Hz. assert (y ≠ z) as Hne by (intros ->; apply Hny, find_is_Some; eauto).
    destruct (H z pz) as (pz' & E & Hpz); [cbn; by rewrite bool_decide_false|]. cbn in E. rewrite bool_decide_false in E by done. eauto. }
  unfold peers_weight in *. change (((y, pi) :: P).*1) with (y :: P.*1). cbn [sum_list_with fst snd]. lia.
Qed.

Lemma core_weight y a b : core_eq a b → edge_weight y b = edge_weight y a.
Proof using Type. intros (_ & E1 & E2 & _). unfold edge_weight. by rewrite E1, E2. Qed.

Lemma moved_weight x st l st' : x < N → node_ok x st → moved (cfgs x) st l st' → Forall (out_ok x) l →
  peers_weight (edgePeers st') ≤ peers_weight (edgePeers st) + sum out_weight l.
Proof using Hmt.
  intros Hx Hno [M1 M2 M3] Hl. destruct (no_wf _ _ _ _ _ _ Hno) as [_ En].
  assert (NoDup (edgePeers st).*1) as Hnd by (rewrite En; by apply (nb_nodup N G cfgs nb dst Hmt)).
  rewrite <- (on_edge_weight (edgePeers st).*1 l Hnd); [|rewrite En; eapply Forall_impl; [exact Hl|]; by intros [y b|y s b] [Hy _]].
  apply peers_grown_weight; [done|done|]. intros y pi Hy. destruct (M3 y pi Hy) as (pi1 & pi' & Hy' & Hg & Hc). exists pi'. split; [done|].
  rewrite (core_weight _ _ _ Hc). eapply grown_weight; [done|exact (peer_nb cfgs nb x st y pi (no_wf _ _ _ _ _ _ Hno) Hy)|apply (no_edge _ _ _ _ _ _ Hno y pi Hy)|done].
Qed.

Lemma put_weight P y pi pi' : find_peer P y = Some pi → peers_weight (put_peer P y pi') + edge_weight y pi = peers_weight P + edge_weight y pi'.
Proof using Type.
  induction P as [|[z pz] P IH]; cbn [find_peer put_peer]; [done|]. unfold peers_weight in *. case_bool_decide as E.
  - intros [= ->]. subst z. cbn [sum_list_with fst snd]. lia.
  - intros H. specialize (IH H). cbn [sum_list_with fst snd]. lia.
Qed.

Lemma pop_weight st y pi o q : findEdge st y = Some pi → outgoingQueue pi = o :: q →
  node_weight (StoreNetFacts.pop st y pi q) + weight y (obuffer o) = node_weight st.
Proof using Type.
  intros Hy Hq. pose proof (put_weight (edgePeers st) y pi (set_outgoing pi (outgoingSeq pi) q) Hy) as H.
  unfold node_weight, StoreNetFacts.pop, putEdge. cbn [edgePeers kv shut set_peers]. unfold edge_weight in H. rewrite Hq in H. cbn [sum_list_with outgoingQueue set_outgoing sentDiagnosticSourceFor] in H. lia.
Qed.

(** ** Reactions *)

Lemma reply_weight x d id diag r : x < N → d < N → sum out_weight (reply_out (cfgs x) d id diag r) ≤ N.
Proof using Hmt.
  intros Hx Hd. unfold reply_out. destruct (mt_rank _ _ _ _ _ Hmt x Hx) as [-> _]. case_decide as E; [cbn; lia|].
  destruct (hop_spec N G cfgs nb dst Hmt x d Hx Hd E) as (_ & _ & Hs). pose proof (dst_lt N G cfgs nb dst Hmt x d Hx Hd).
  unfold hopf in *. unfold sum_list_with, out_weight, weight, made. cbn [body hdr destinationRank]. lia.
Qed.

Lemma answers_weight x l v : x < N → Forall (λ w, wsource w < N ∧ wdiag w < N) l → sum out_weight (answers_out (cfgs x) l v) ≤ N * length l.
Proof using Hmt.
  intros Hx Hl. unfold answers_out. rewrite sum_join, sum_fmap. apply sum_bound. intros w Hw. rewrite Forall_forall in Hl. destruct (Hl w Hw). by apply reply_weight.
Qed.

Lemma nb_four x : x < N → length (nb x) ≤ 4.
Proof using Hmt. intros Hx. eapply (ta_degree _ _ _ _ _ (mt_tables _ _ _ _ _ Hmt x Hx)). by apply (mt_nb _ _ _ _ _ Hmt). Qed.

Lemma pow5 n : 5 ^ S n = 5 * 5 ^ n ∧ 1 ≤ 5 ^ n.
Proof using Type. split; [apply Nat.pow_succ_r'|]. pose proof (Nat.pow_nonzero 5 n). lia. Qed.

(** A broadcast of this rank. *)
Lemma cast_weight x y m : x < N → y ∈ nb x → is_cast m → weight y (cast (cfgs x) m y) = 5 ^ (N - 1).
Proof using Hmt.
  intros Hx Hy Hm. unfold weight, cast. cbn. destruct (mt_rank _ _ _ _ _ Hmt x Hx) as [-> _]. rewrite (dst_one N G cfgs nb dst Hmt x y Hx Hy). by destruct m.
Qed.

(** The copies of a broadcast weigh less than it does. *)
Lemma forward_weight x st b sender : x < N → node_ok x st → msg_ok sender x b → broadcast (hdr b) = true →
  sum out_weight (reaction_forward (nb x) st b sender) < weight x b.
Proof using Hmt.
  intros Hx Hno Hb Eb. pose proof Hb as (H1 & _ & _ & _ & H5). rewrite Eb in H5. destruct H5 as (_ & Hne & _ & _ & Hc).
  pose proof (dst_lt N G cfgs nb dst Hmt (sourceRank (hdr b)) x H1 Hx) as Hlt. set (d := dst (sourceRank (hdr b)) x) in *.
  assert (weight x b = 5 ^ (N - d)) as -> by (unfold weight; by destruct (body b)).
  assert (sum out_weight (reaction_forward (nb x) st b sender) ≤ 5 ^ (N - d - 1) * length (nb x)) as Hle.
  { unfold reaction_forward. rewrite Eb, sum_join, sum_fmap. apply sum_bound. intros y Hy.
    pose proof (forward_out_ok N G cfgs nb dst Hmt x st (sourceRank (hdr b)) b sender y Hx Hno Hy Hb eq_refl Eb) as Hok.
    unfold forward_out in *. destruct (findEdge st y) as [pi|]; [|cbn; lia]. case_decide; [cbn; lia|]. destruct (everConnected pi); [|cbn; lia]. case_decide; [|cbn; lia].
    apply Forall_singleton in Hok as [_ (_ & _ & _ & _ & Hm)]. cbn in Hm. rewrite Eb in Hm. destruct Hm as (_ & Hsy & Hhop & _).
    destruct (nb_lt N G cfgs nb dst Hmt x y Hx Hy) as (Hyw & _). destruct (hop_spec N G cfgs nb dst Hmt y (sourceRank (hdr b)) Hyw H1 Hsy) as (_ & _ & E). rewrite Hhop in E.
    rewrite (dst_sym N G cfgs nb dst Hmt y), (dst_sym N G cfgs nb dst Hmt x) in E by done. fold d in E.
    cbn [sum_list_with out_weight]. unfold weight. cbn. rewrite E. replace (N - S d) with (N - d - 1) by lia. destruct (body b); try done; cbn; lia. }
  pose proof (nb_four x Hx). replace (N - d) with (S (N - d - 1)) by lia. destruct (pow5 (N - d - 1)) as [-> ?]. nia.
Qed.

Lemma mail_length b : length (mails_reqs (mail b)) = match op_key (body b) with Some _ => 1 | None => 0 end.
Proof using Type. unfold mail. by destruct (body b). Qed.

(** What a message that has arrived is turned into, without the copies of broadcasts. *)
Lemma reaction_weight x st b : x < N → node_ok x st → destinationRank (hdr b) = x → sourceRank (hdr b) < N →
  sum out_weight (reaction_out (cfgs x) (nb x) (kv st) (shut st) b) + rest_weight (reaction_kv (cfgs x) (kv st) (shut st) b) (reaction_shut (shut st) b) + (if decide (is_cast (body b)) then 0 else 1) ≤
  (if decide (is_cast (body b)) then 0 else weight x b) + rest_weight (kv st) (shut st).
Proof using Hmt.
  intros Hx Hno Hd Hs. pose proof (Permutation_length (reaction_reqs (cfgs x) (kv st) (shut st) b)) as HW. rewrite !length_app, length_fmap, mail_length in HW.
  unfold rest_weight. set (W' := length (waits_reqs (storeWaiters (reaction_kv _ _ _ _)))) in *. set (W := length (waits_reqs (storeWaiters (kv st)))) in *. clearbody W W'.
  pose proof (dst_self N G cfgs nb dst Hmt x Hx) as Hself. pose proof (nb_four x Hx) as H4.
  unfold weight, reaction_out, reaction_shut, executed, get_out, set_out_of in *. rewrite Hd.
  destruct (body b) as [r|key value|key|key|key|origin|origin| |addrs] eqn:Eb; cbn [op_key length sum_list_with] in HW |- *; rewrite ?Hself;
    try (rewrite !decide_False by (by intros [])); try (rewrite !decide_True by done); try (assert (W' = W) as -> by lia; lia).
  - rewrite length_fmap in HW. rewrite sum_app. pose proof (reply_weight x (sourceRank (hdr b)) (hid (hdr b)) (diagnosticSource (hdr b)) ReplyNone Hx Hs).
    assert (sum out_weight (answers_out (cfgs x) (default [] (storeWaiters (kv st) !! key)) value) ≤ N * length (default [] (storeWaiters (kv st) !! key))) as Ha.
    { apply answers_weight; [done|]. destruct (storeWaiters (kv st) !! key) as [l|] eqn:El; [|constructor]. pose proof (no_waiters _ _ _ _ _ _ Hno key l El) as Hw. by rewrite (proj2 (mt_rank _ _ _ _ _ Hmt x Hx)) in Hw. }
    nia.
  - destruct (store (kv st) !! key) as [v|]; cbn [length] in HW; [|cbn [sum_list_with]; nia].
    pose proof (reply_weight x (sourceRank (hdr b)) (hid (hdr b)) (diagnosticSource (hdr b)) (answer_reply (mkWaiter true (sourceRank (hdr b)) (hid (hdr b)) (diagnosticSource (hdr b))) v) Hx Hs) as Hrw. cbn [wsource wid wdiag] in *. nia.
  - pose proof (reply_weight x (sourceRank (hdr b)) (hid (hdr b)) (diagnosticSource (hdr b)) (ReplyBool (bool_decide (is_Some (store (kv st) !! key)))) Hx Hs). nia.
  - destruct (store (kv st) !! key) as [v|]; cbn [length] in HW; [|cbn [sum_list_with]; nia].
    pose proof (reply_weight x (sourceRank (hdr b)) (hid (hdr b)) (diagnosticSource (hdr b)) (answer_reply (mkWaiter false (sourceRank (hdr b)) (hid (hdr b)) (diagnosticSource (hdr b))) v) Hx Hs) as Hrw. cbn [wsource wid wdiag] in *. nia.
  - assert (exited (note_shutdown (shut st) (sourceRank (hdr b)) origin) = exited (shut st)) as -> by (unfold note_shutdown; by case_match). nia.
  - unfold note_exit. cbn. destruct (exited (shut st)) eqn:Ex; cbn; rewrite ?Ex; [cbn; nia|]. rewrite sum_fmap.
    assert (sum (λ y, out_weight (OSend y (cast (cfgs x) (messageExit origin) y))) (nb x) ≤ 5 ^ (N - 1) * length (nb x)) as Hc.
    { apply sum_bound. intros y Hy. change (weight y (cast (cfgs x) (messageExit origin) y) ≤ 5 ^ (N - 1)). by rewrite cast_weight. }
    assert (5 ^ (N - 1) ≤ 5 ^ N) by (apply Nat.pow_le_mono_r; lia). nia.
  - assert (W' = W) as -> by lia. change (exited (note_exit_ack (shut st) (sourceRank (hdr b)))) with (exited (shut st)). lia.
Qed.

Lemma arrive_weight x st b sender : x < N → node_ok x st → msg_ok sender x b →
  sum out_weight (arrive_out cfgs nb x st b sender) + rest_weight (arrive_kv cfgs x st b) (arrive_shut x st b) < weight x b + rest_weight (kv st) (shut st).
Proof using Hmt.
  intros Hx Hno Hb. pose proof Hb as (H1 & H2 & _ & _ & H5). unfold arrive_out, arrive_kv, arrive_shut. case_decide as Hd.
  - rewrite sum_app. pose proof (reaction_weight x st b Hx Hno Hd H1) as Hr. destruct (broadcast (hdr b)) eqn:Eb.
    + destruct H5 as (_ & _ & _ & _ & Hc). rewrite !decide_True in Hr by done. pose proof (forward_weight x st b sender Hx Hno Hb Eb). lia.
    + destruct H5 as [_ Hc]. rewrite !decide_False in Hr by done. unfold reaction_forward. rewrite Eb. cbn [sum_list_with]. lia.
  - destruct (broadcast (hdr b)) eqn:Eb; [naive_solver|]. destruct H5 as [_ Hc]. destruct (hop_spec N G cfgs nb dst Hmt x _ Hx H2 Hd) as (_ & _ & E).
    cbn [sum_list_with out_weight]. unfold weight. cbn [body hdr patch_ttl destinationRank]. rewrite E. destruct (body b); cbn in Hc; try tauto; lia.
Qed.

(** ** Deliveries *)

Lemma deliver_weight net x y sx sy pi o q sy' : net_ok net → x < N → y ∈ nb x → net !! x = Some sx → net !! y = Some sy → findEdge sx y = Some pi →
  outgoingQueue pi = o :: q → msg_ok x y (obuffer o) → outs (cfgs y) sy (arrive_out cfgs nb y sy (obuffer o) x) sy' → kv sy' = arrive_kv cfgs y sy (obuffer o) →
  shut sy' = arrive_shut y sy (obuffer o) → net_weight (<[y := sy']> (<[x := StoreNetFacts.pop sx y pi q]> net)) < net_weight net.
Proof using Hmt.
  intros Hn Hx Hy Ex Ey Hpi Hq Hb Ho Hk Hs. destruct (nb_lt N G cfgs nb dst Hmt x y Hx Hy) as (Hyw & Hne & _). pose proof (ne_node _ _ _ _ _ Hn y sy Ey) as Hoy.
  assert (<[x := StoreNetFacts.pop sx y pi q]> net !! y = Some sy) as Ey' by (by rewrite list_lookup_insert_ne).
  pose proof (sum_insert node_weight _ y sy sy' Ey') as H1. pose proof (sum_insert node_weight net x sx (StoreNetFacts.pop sx y pi q) Ex) as H2.
  pose proof (pop_weight sx y pi o q Hpi Hq) as H3. pose proof (arrive_weight y sy (obuffer o) x Hyw Hoy Hb) as H4.
  pose proof (moved_weight y sy _ sy' Hyw Hoy (outs_moved _ _ _ _ Ho) (arrive_out_ok N G cfgs nb dst Hmt y sy (obuffer o) x Hyw Hoy Hb)) as H5.
  unfold net_weight. unfold node_weight in H1 at 2 4. rewrite Hk, Hs in H1. lia.
Qed.

End mesh.
