(* ===== verification/StoreLineFacts.v ===== *)
(** * From packets to edges that deliver in order

    A state of file StoreRun as a state of [Lines]: the queue of an edge holds the
    messages that were sent on it and that the peer has not handled. *)

From Stdlib Require Import ZArith Lia.
From stdpp Require Import base gmap option list strings.
From S2P Require Import Prelude StoreTopology StoreTopologyFacts Store StoreConn StoreRun StoreSendFacts StoreReactFacts StoreStepFacts StoreNetFacts StoreRunFacts.

Local Set Warnings "-clear-no-such-hyp".

(** ** Without numbers *)

Definition line_edge (Q : list OutgoingMessage) (pi : EdgeInfo) : EdgeInfo :=
  mkEdge (eaddr pi) (tcpconnections pi) (everConnected pi) 0 [] (outgoingSeq pi) Q (sentDiagnosticSourceFor pi) (broadcastForwardFor pi) (pendingBroadcasts pi).

Definition line_st (f : nat → list OutgoingMessage) (st : StoreImpl) : StoreImpl :=
  set_peers st ((λ p, (p.1, line_edge (f p.1) p.2)) <$> edgePeers st).

Lemma find_line f st y : findEdge (line_st f st) y = line_edge (f y) <$> findEdge st y.
Proof.
  unfold findEdge, line_st. cbn. induction (edgePeers st) as [|[z pz] P IH]; [done|]. cbn. case_bool_decide; [by subst|exact IH].
Qed.

Lemma line_fst f st : (edgePeers (line_st f st)).*1 = (edgePeers st).*1.
Proof. cbn. rewrite <- list_fmap_compose. by apply list_fmap_ext. Qed.

Lemma line_ext f g st : (∀ y, f y = g y) → line_st f st = line_st g st.
Proof. intros H. unfold line_st. f_equal. apply list_fmap_ext. intros i [y pi] _. cbn. by rewrite H. Qed.

(** Changes of an edge that are not seen without numbers. *)
Lemma line_put f st y pi pi' : findEdge st y = Some pi → line_edge (f y) pi' = line_edge (f y) pi → line_st f (putEdge st y pi') = line_st f st.
Proof.
  unfold findEdge, line_st, putEdge. cbn. intros Hy H. f_equal. induction (edgePeers st) as [|[z pz] P IH]; [done|]. cbn in *. case_bool_decide as E.
  - subst z. injection Hy as ->. cbn. by rewrite H.
  - cbn. by rewrite IH.
Qed.

(** ** Sending *)

Section sends.
Context (c : Config).

(** The new messages at the end of a queue, with their numbers. *)
Definition numbered_from (n : nat) (D : list OutgoingMessage) : Prop :=
  ∀ i o, D !! i = Some o → oseq o = u32 (Z.of_nat (n + i)) ∧ hseq (hdr (obuffer o)) = u32 (Z.of_nat (n + i)).

Lemma numbered_snoc n D o : numbered_from n D → oseq o = u32 (Z.of_nat (n + length D)) → hseq (hdr (obuffer o)) = u32 (Z.of_nat (n + length D)) → numbered_from n (D ++ [o]).
Proof using Type.
  intros H H1 H2 i o' [Hi|[Hi Ho]]%lookup_app_Some; [by apply H|]. apply list_lookup_singleton_Some in Ho as [Hi' <-]. by replace i with (length D) by lia.
Qed.

Lemma u32_succ n : u32 (u32 (Z.of_nat n) + 1) = u32 (Z.of_nat (S n)).
Proof using Type. unfold u32. rewrite Zplus_mod_idemp_l. f_equal. lia. Qed.

Lemma grown_queue y pi l pi' : grown c y pi l pi' →
  ∃ D, outgoingQueue pi' = outgoingQueue pi ++ D ∧ (∀ Q, grown c y (line_edge Q pi) l (line_edge (Q ++ D) pi')) ∧
    ∀ n, outgoingSeq pi = u32 (Z.of_nat n) → outgoingSeq pi' = u32 (Z.of_nat (n + length D)) ∧ numbered_from n D.
Proof using Type.
  assert (∀ pi1 b t d D n, outgoingSeq pi1 = u32 (Z.of_nat (n + length D)) → numbered_from n D →
    let o := mkOutgoing (outgoingSeq pi1) (patch_seq b (outgoingSeq pi1)) t d in
    u32 (outgoingSeq pi1 + 1) = u32 (Z.of_nat (n + length (D ++ [o]))) ∧ numbered_from n (D ++ [o])) as Hnum.
  { intros pi1 b t d D n E H o. split; [rewrite E, u32_succ, length_app; cbn; do 2 f_equal; lia|]. by apply numbered_snoc. }
  induction 1 as [pi|pi l pi1 b t d Hg IH|pi l pi1 d Hg IH Hd Hn|pi l pi1 d t addrs Hg IH Hd Hn|pi l pi1 s b Hg IH Hev].
  - exists []. rewrite app_nil_r. split; [done|]. split; [intros Q; rewrite app_nil_r; constructor|]. intros n E. rewrite Nat.add_0_r. split; [done|]. by intros i o.
  - destruct IH as (D & Eq & Hl & Hs). eexists (D ++ [_]). split; [cbn; by rewrite Eq, <- (assoc_L (++))|]. split.
    + intros Q. rewrite (assoc_L (++)). exact (grown_send c y _ l _ b t d (Hl Q)).
    + intros n E. destruct (Hs n E) as [E1 H1]. exact (Hnum pi1 b t d D n E1 H1).
  - destruct IH as (D & Eq & Hl & Hs). exists D. split; [done|]. split; [|done]. intros Q. exact (grown_mark c y _ l _ d (Hl Q) Hd Hn).
  - destruct IH as (D & Eq & Hl & Hs). eexists (D ++ [_]). split; [cbn; by rewrite Eq, <- (assoc_L (++))|]. split.
    + intros Q. rewrite (assoc_L (++)). exact (grown_diag c y _ l _ d t addrs (Hl Q) Hd Hn).
    + intros n E. destruct (Hs n E) as [E1 H1]. exact (Hnum pi1 (diag_message c y d addrs) t d D n E1 H1).
  - destruct IH as (D & Eq & Hl & Hs). exists D. split; [done|]. split; [|done]. intros Q. exact (grown_pend c y _ l _ s b (Hl Q) Hev).
Qed.

Lemma queued_app st st' y pi pi' D : findEdge st y = Some pi → findEdge st' y = Some pi' → outgoingQueue pi' = outgoingQueue pi ++ D → queued st st' y = D.
Proof using Type. intros E1 E2 E. unfold queued. rewrite E1, E2, E. apply drop_app_length. Qed.

Lemma kept_line f g st st' : kept st st' → kept (line_st f st) (line_st g st').
Proof using Type.
  intros [K1 K2 K3 K4]. constructor; [done|done|done|]. intros y pi'. rewrite find_line. destruct (findEdge st' y) as [p|] eqn:E; [|done]. intros [= <-].
  destruct (K4 y p E) as (pi & Hpi & H). exists (line_edge (f y) pi). rewrite find_line, Hpi. done.
Qed.

Lemma core_line Q a b : core_eq a b → core_eq (line_edge Q a) (line_edge Q b).
Proof using Type. intros (E1 & E2 & E3 & E4 & E5 & E6 & E7 & E8). unfold line_edge. repeat split; done. Qed.

Lemma moved_line f st l st' : moved c st l st' → moved c (line_st f st) l (line_st (λ y, f y ++ queued st st' y) st').
Proof using Type.
  intros [M1 M2 M3 M4]. constructor; [done|by rewrite !line_fst| |by apply kept_line]. intros y pi0. rewrite find_line.
  destruct (findEdge st y) as [pi|] eqn:Hy; [|done]. intros [= <-]. destruct (M3 y pi Hy) as (pi1 & pi' & Hy' & Hg & Hc).
  destruct (grown_queue _ _ _ _ Hg) as (D & Eq & Hl & _).
  exists (line_edge (f y ++ D) pi1), (line_edge (f y ++ D) pi'). rewrite find_line, Hy'. cbn. rewrite (queued_app st st' y pi pi' D Hy Hy') by (destruct Hc as (_ & -> & _); done).
  split; [done|]. split; [apply Hl|by apply core_line].
Qed.

Lemma outs_line f st l st' : outs c st l st' → outs c (line_st f st) l (line_st (λ y, f y ++ queued st st' y) st').
Proof using Type.
  intros [O1 O2 O3 O4 O5]. constructor; [done|done|done|by rewrite !line_fst|]. intros y pi0. rewrite find_line.
  destruct (findEdge st y) as [pi|] eqn:Hy; [|done]. intros [= <-]. destruct (O5 y pi Hy) as (pi' & Hy' & Hg).
  destruct (grown_queue _ _ _ _ Hg) as (D & Eq & Hl & _). exists (line_edge (f y ++ D) pi'). rewrite find_line, Hy'. cbn.
  by rewrite (queued_app st st' y pi pi' D Hy Hy' Eq).
Qed.

Lemma joined_line f g st y conn st' : joined st y conn st' → joined (line_st f st) y conn (line_st g st').
Proof using Type.
  intros [K1 K2 K3 K4]. constructor; [done|done|done|]. intros z pi'. rewrite find_line. destruct (findEdge st' z) as [p|] eqn:E; [|done]. intros [= <-].
  destruct (K4 z p E) as (pi & Hpi & H). exists (line_edge (f z) pi). rewrite find_line, Hpi. done.
Qed.

Lemma linked_line f st y fwd st' : linked c st y fwd st' → linked c (line_st f st) y fwd (line_st (λ y, f y ++ queued st st' y) st').
Proof using Type.
  intros [L1 L2 L3 (pi & pi0 & pi1 & pi' & Hpi & Hpi' & Hc0 & Hg & Hc1) L5 [conn L6]].
  destruct (grown_queue _ _ _ _ Hg) as (D & Eq & Hl & _).
  assert (queued st st' y = D) as HD.
  { apply (queued_app st st' y pi pi' D Hpi Hpi'). destruct Hc1 as (_ & -> & _). cbn. rewrite Eq. by destruct Hc0 as (_ & -> & _). }
  constructor; [done|by rewrite !line_fst|done| | |exists conn; by apply joined_line].
  - exists (line_edge (f y) pi), (line_edge (f y) pi0), (line_edge (f y ++ D) pi1), (line_edge (f y ++ D) pi'). rewrite !find_line, Hpi, Hpi'. cbn. rewrite HD.
    split; [done|]. split; [done|]. split; [exact (core_line (f y) _ _ Hc0)|]. split; [apply Hl|exact (core_line (f y ++ D) _ _ Hc1)].
  - intros z pz Hne. rewrite find_line. destruct (findEdge st z) as [p|] eqn:Hz; [|done]. intros [= <-]. destruct (L5 z p Hne Hz) as (p' & Hz' & Hgz).
    destruct (grown_queue _ _ _ _ Hgz) as (Dz & Eqz & Hlz & _). exists (line_edge (f z ++ Dz) p'). rewrite find_line, Hz'. cbn.
    by rewrite (queued_app st st' z p p' Dz Hz Hz' Eqz).
Qed.
End sends.

(** ** The whole network *)

(** What is on the edge from [x] to [y]. *)
Definition on_line (w : World) (x y : nat) : list OutgoingMessage := drop (seen w x y) (sent w x y).

Definition line (w : World) : Lines := mkLines (imap (λ x st, line_st (on_line w x) st) (ranks w)) (calls w) (log w).

Lemma line_at w x st : ranks w !! x = Some st → l_ranks (line w) !! x = Some (line_st (on_line w x) st).
Proof. intros H. cbn. by rewrite list_lookup_imap, H. Qed.

(** A step of one rank. *)
Lemma line_step w x st st' cs lg f g : ranks w !! x = Some st → (∀ z y, z ≠ x → drop (g z y) (f z y) = on_line w z y) →
  line (mkWorld (<[x := st']> (ranks w)) f g cs lg) = mkLines (<[x := line_st (λ y, drop (g x y) (f x y)) st']> (l_ranks (line w))) cs lg.
Proof.
  intros Hx Hf. unfold line. cbn [ranks sent seen calls log l_ranks]. f_equal. apply list_eq. intros z. rewrite list_lookup_imap.
  assert (x < length (ranks w))%nat as Hlt by (by eapply lookup_lt_Some). destruct (decide (z = x)) as [->|Hne].
  - rewrite !list_lookup_insert_eq by (rewrite ?length_imap; done). done.
  - rewrite !list_lookup_insert_ne by done. rewrite list_lookup_imap. destruct (ranks w !! z) as [sz|]; [|done]. cbn. f_equal. apply line_ext. intros y. apply (Hf z y Hne).
Qed.

Lemma drop_note (S D : list OutgoingMessage) k : (k ≤ length S)%nat → drop k (S ++ D) = drop k S ++ D.
Proof. intros H. rewrite drop_app. by replace (k - length S)%nat with 0%nat by lia. Qed.
