(* ===== verification/StoreLinkFacts.v ===== *)
(** * Numbered messages between two ranks

    The numbers that one end of an edge gives to its messages, the
    acknowledgements of the other end, and its queue of messages that have arrived
    too early: no message is lost, and none is handled twice or out of order. *)

From Stdlib Require Import ZArith Lia.
From stdpp Require Import base gmap option list sorting strings.
From S2P Require Import Prelude StoreTopology Store StoreRun StoreSendFacts StoreStepFacts StoreLineFacts.

Local Set Warnings "-clear-no-such-hyp".

(** ** Numbers of 32 bits *)

Lemma u32_sub a b : u32 (u32 a - u32 b) = u32 (a - b).
Proof. unfold u32. by rewrite <- Zminus_mod. Qed.

Lemma u32_inj a b : -2 ^ 32 < a - b < 2 ^ 32 → u32 a = u32 b → a = b.
Proof.
  intros H E. assert ((a - b) mod 2 ^ 32 = 0) as Hm by (unfold u32 in E; rewrite Zminus_mod, E, Z.sub_diag; done).
  apply Z.mod_divide in Hm as [q Hq]; [|done]. nia.
Qed.

Lemma i32_dist a b : - 2 ^ 31 ≤ a - b < 2 ^ 31 → i32 (u32 a - u32 b) = a - b.
Proof.
  intros H. unfold i32. rewrite u32_sub. unfold u32. destruct (Z_lt_le_dec (a - b) 0).
  - assert ((a - b) mod 2 ^ 32 = a - b + 2 ^ 32) as -> by (symmetry; apply (Z.mod_unique _ _ (-1)); lia). rewrite (proj2 (Z.ltb_ge _ _)) by lia. lia.
  - rewrite Z.mod_small by lia. by rewrite (proj2 (Z.ltb_lt _ _)) by lia.
Qed.

(** ** The queue of early messages *)

Section sort.
Context (base : Z).

Local Abbreviation key e := (i32 (e.1 - base)).
Local Abbreviation sorted := (StronglySorted (λ a b : Z * Buffer, key a ≤ key b)).

Lemma insert_perm x l : insert_sorted base x l ≡ₚ x :: l.
Proof using Type. induction l as [|y l IH]; cbn; [done|]. case_match; [|done]. rewrite IH. apply Permutation_swap. Qed.

Lemma sort_perm l : sort_incoming base l ≡ₚ l.
Proof using Type. induction l as [|x l IH]; cbn; [done|]. rewrite insert_perm. by f_equiv. Qed.

Lemma insert_sorted_ok x l : sorted l → sorted (insert_sorted base x l).
Proof using Type.
  induction 1 as [|y l Hl IH Hy]; cbn [insert_sorted]; [by repeat constructor|]. destruct (_ <? _) eqn:E.
  - apply Z.ltb_lt in E. constructor; [done|]. rewrite insert_perm. constructor; [lia|done].
  - apply Z.ltb_ge in E. constructor; [by constructor|]. constructor; [done|]. eapply Forall_impl; [exact Hy|]. cbn. lia.
Qed.

Lemma sort_ok l : sorted (sort_incoming base l).
Proof using Type. induction l as [|x l IH]; cbn; [constructor|]. by apply insert_sorted_ok. Qed.
End sort.

Lemma erase_keep s o l : o ∈ l → oseq o ≠ s → o ∈ erase_seq s l.
Proof.
  induction l as [|a l IH]; [done|]. cbn [erase_seq]. intros [->|H]%elem_of_cons Hne.
  - rewrite (proj2 (Z.eqb_neq _ _)) by done. by left.
  - destruct (oseq a =? s); [done|]. right. auto.
Qed.

Lemma erase_in s o l : o ∈ erase_seq s l → o ∈ l.
Proof. induction l as [|a l IH]; [done|]. cbn [erase_seq]. destruct (oseq a =? s); [by right|]. intros [->|H]%elem_of_cons; [by left|right; auto]. Qed.

(** ** The two ends of an edge *)

(** [S] is everything that was sent from the end [pi] to the end [pj], which has
    handled the first [k] messages; the messages that have arrived early have
    numbers from [lo] to below [hi]. *)
Record link_ok (S : list OutgoingMessage) (k : nat) (lo hi : Z) (pi pj : EdgeInfo) : Prop := {
  lk_len : (k ≤ length S)%nat;
  lk_next : outgoingSeq pi = u32 (Z.of_nat (length S));
  lk_num : numbered_from 0 S;
  lk_cover i o : S !! i = Some o → (k ≤ i)%nat →
    o ∈ outgoingQueue pi ∨ (Z.of_nat i < Z.of_nat k + 2 ^ 31 ∧ (u32 (Z.of_nat i), obuffer o) ∈ incomingQueue pj);
  lk_seen : incomingSeq pj = u32 (Z.of_nat k);
  lk_in e : e ∈ incomingQueue pj → ∃ i o, S !! i = Some o ∧ e = (u32 (Z.of_nat i), obuffer o) ∧ lo ≤ Z.of_nat i < hi
}.

Lemma link_peer S k lo hi pi pj pj' : incomingSeq pj' = incomingSeq pj → incomingQueue pj' = incomingQueue pj → link_ok S k lo hi pi pj → link_ok S k lo hi pi pj'.
Proof. intros E1 E2 [L1 L2 L3 L4 L5 L6]. constructor; rewrite ?E1, ?E2; done. Qed.

Lemma link_send S k lo hi pi pj pi' D : outgoingQueue pi' = outgoingQueue pi ++ D → outgoingSeq pi' = u32 (Z.of_nat (length S + length D)) →
  numbered_from (length S) D → link_ok S k lo hi pi pj → link_ok (S ++ D) k lo hi pi' pj.
Proof.
  intros E1 E2 HD [L1 L2 L3 L4 L5 L6]. constructor; rewrite ?length_app; try done; [lia|..].
  - intros i o [H|[Hi H]]%lookup_app_Some; [by apply L3|]. specialize (HD _ _ H). by replace (length S + (i - length S))%nat with (0 + i)%nat in HD by lia.
  - intros i o Hi Hk. rewrite E1. apply lookup_app_Some in Hi as [Hi|[_ Hi%list_elem_of_lookup_2]].
    + destruct (L4 i o Hi Hk) as [?|?]; [left; apply elem_of_app; by left|by right].
    + left. apply elem_of_app. by right.
  - intros e He. destruct (L6 e He) as (i & o & Hi & H). exists i, o. split; [by apply lookup_app_l_Some|done].
Qed.

(** The acknowledgement of a message that has arrived. *)
Lemma link_ack S k pi pj i seq : link_ok S k (Z.of_nat k + 1) (Z.of_nat k + 2 ^ 31) pi pj → Z.of_nat (length S) ≤ Z.of_nat i + 2 ^ 32 →
  (i < k)%nat ∨ Z.of_nat i < Z.of_nat k + 2 ^ 31 ∧ (∃ e, e ∈ incomingQueue pj ∧ e.1 = u32 (Z.of_nat i)) → seq = outgoingSeq pi →
  link_ok S k (Z.of_nat k + 1) (Z.of_nat k + 2 ^ 31) (set_outgoing pi seq (erase_seq (u32 (Z.of_nat i)) (outgoingQueue pi))) pj.
Proof.
  intros [L1 L2 L3 L4 L5 L6] Hw Ha ->. constructor; try done. intros j o Hj Hk. destruct (L4 j o Hj Hk) as [Hin|]; [|by right].
  destruct (decide (j = i)) as [->|Hne].
  - destruct Ha as [?|(Hlt & e & He & Ei)]; [lia|]. right. split; [done|]. destruct (L6 e He) as (i' & o' & Hi' & -> & Hr). cbn in Ei.
    apply u32_inj in Ei; [|lia]. apply Nat2Z.inj in Ei as ->. by assert (o' = o) as -> by congruence.
  - left. cbn. apply erase_keep; [done|]. destruct (L3 j o Hj) as [-> _]. intros E. apply u32_inj in E; [lia|]. apply lookup_lt_Some in Hj. destruct Ha as [?|[? _]]; lia.
Qed.

(** A message that arrives too early is queued. *)
Lemma link_early S k pi pj i o : link_ok S k (Z.of_nat k + 1) (Z.of_nat k + 2 ^ 31) pi pj → S !! i = Some o → (k < i)%nat → Z.of_nat i < Z.of_nat k + 2 ^ 31 →
  link_ok S k (Z.of_nat k + 1) (Z.of_nat k + 2 ^ 31) pi (set_incoming pj (incomingSeq pj) (incomingQueue pj ++ [(u32 (Z.of_nat i), obuffer o)])).
Proof.
  intros [L1 L2 L3 L4 L5 L6] Hi Hk Hw. constructor; try done.
  - intros j o' Hj Hkj. destruct (L4 j o' Hj Hkj) as [?|[? ?]]; [by left|right]. split; [done|]. cbn. apply elem_of_app. by left.
  - cbn. intros e [He| ->%list_elem_of_singleton]%elem_of_app; [by apply L6|]. exists i, o. split; [done|]. split; [done|]. lia.
Qed.

(** The next message is handled. *)
Lemma link_handle S k lo hi pi pj pj' : link_ok S k lo hi pi pj → (k < length S)%nat → incomingSeq pj' = u32 (u32 (Z.of_nat k) + 1) →
  (∀ e, e ∈ incomingQueue pj' → e ∈ incomingQueue pj) → (∀ e, e ∈ incomingQueue pj → e.1 ≠ u32 (Z.of_nat k) → e ∈ incomingQueue pj') →
  link_ok S (k + 1) lo hi pi pj'.
Proof.
  intros [L1 L2 L3 L4 L5 L6] Hk Hs H1 H2. constructor; try done; [lia|..].
  - intros i o Hi Hki. destruct (L4 i o Hi) as [?|[Hw He]]; [lia|by left|right]. split; [lia|]. apply H2; [done|]. cbn. intros E%u32_inj; lia.
  - rewrite Hs, u32_succ. do 2 f_equal. lia.
  - auto.
Qed.

(** A message in the queue that has been handled already is dropped. *)
Lemma link_stale S k lo hi pi pj pj' e q : link_ok S k lo hi pi pj → Z.of_nat k ≤ lo + 2 ^ 31 → hi < lo + 2 ^ 31 → incomingSeq pj' = incomingSeq pj →
  incomingQueue pj = e :: q → incomingQueue pj' = q → i32 (e.1 - u32 (Z.of_nat k)) < 0 → link_ok S k lo hi pi pj'.
Proof.
  intros [L1 L2 L3 L4 L5 L6] Hlo Hhi Hs Hq Hq' Hd. constructor; try done.
  - intros i o Hi Hk. destruct (L4 i o Hi Hk) as [?|[Hw He]]; [by left|right]. split; [done|]. rewrite Hq' in *. rewrite Hq in He.
    apply elem_of_cons in He as [<-|]; [|done]. cbn in Hd. rewrite i32_dist in Hd; lia.
  - by rewrite Hs.
  - intros e' He'. apply L6. rewrite Hq, Hq' in *. by right.
Qed.

(** The numbers of queued messages, from the next one on. *)
Lemma link_front S k lo hi pi pj e : link_ok S k lo hi pi pj → Z.of_nat k ≤ lo + 2 ^ 31 → hi < lo + 2 ^ 31 → lo ≤ Z.of_nat k + 1 → e ∈ incomingQueue pj →
  ∃ i o, S !! i = Some o ∧ e = (u32 (Z.of_nat i), obuffer o) ∧ lo ≤ Z.of_nat i < hi ∧ i32 (e.1 - incomingSeq pj) = Z.of_nat i - Z.of_nat k.
Proof.
  intros L H1 H2 H3 He. destruct (lk_in _ _ _ _ _ _ L e He) as (i & o & Hi & -> & Hr). exists i, o. split_and!; try done; try lia.
  rewrite (lk_seen _ _ _ _ _ _ L). cbn. apply i32_dist. lia.
Qed.
