(* ===== verification/StoreWireFacts.v ===== *)
(** * The packets of all ranks

    The invariant of the network of file StoreRun: every edge is a link in the
    sense of file StoreLinkFacts.  Every action succeeds, keeps the invariant, and
    is what some actions of [Lines] do. *)

From Stdlib Require Import ZArith Lia.
From stdpp Require Import base gmap option list sorting relations strings.
From S2P Require Import Prelude StoreTopology StoreTopologyFacts Store StoreConn StoreRun StoreSendFacts StoreReactFacts StoreStepFacts StoreNetFacts StoreConnFacts StoreRunFacts.
From S2P Require Import StoreMailFacts StoreLogFacts StoreBookFacts StoreDrainFacts StoreLineFacts StoreLinkFacts.

Local Set Warnings "-clear-no-such-hyp".

Section wire.
Context (N : nat) (G : list (list nat)) (cfgs : nat → Config) (nb : nat → list nat) (dst : nat → nat → nat).
Context (Hmt : mesh_tables N G cfgs nb dst).

Local Abbreviation node_ok := (node_ok N cfgs nb dst).
Local Abbreviation net_ok := (net_ok N cfgs nb dst).
Local Abbreviation msg_ok := (msg_ok N cfgs dst).
Local Abbreviation effect := (effect N cfgs nb dst).

(** [B] has the numbers of the messages that may be in the queues of early ones. *)
Record wire (B : nat → nat → Z * Z) (w : World) : Prop := {
  wi_net : net_ok (ranks w);
  wi_sent x y : (x < N)%nat → y ∈ nb x → Forall (λ o, msg_ok x y (obuffer o)) (sent w x y);
  wi_link x y sx sy pi pj : (x < N)%nat → y ∈ nb x → ranks w !! x = Some sx → ranks w !! y = Some sy → findEdge sx y = Some pi → findEdge sy x = Some pj →
    link_ok (sent w x y) (seen w x y) (B x y).1 (B x y).2 pi pj
}.

(** Between two actions, early messages are those after the one expected next. *)
Definition window (f : nat → nat → nat) (x y : nat) : Z * Z := (Z.of_nat (f x y) + 1, Z.of_nat (f x y) + 2 ^ 31).

Definition wire_ok (w : World) : Prop := wire (window (seen w)) w.

Lemma wire_ext B w w' : ranks w' = ranks w → (∀ x y, sent w' x y = sent w x y) → (∀ x y, seen w' x y = seen w x y) → wire B w → wire B w'.
Proof using Type.
  intros Hr Hf Hg [W1 W2 W3]. constructor; rewrite ?Hr.
  - done.
  - intros x y. rewrite Hf. apply W2.
  - intros x y. rewrite Hf, Hg. apply W3.
Qed.

(** The two ends of an edge. *)
Lemma wire_ends B w x y : wire B w → (x < N)%nat → y ∈ nb x →
  ∃ sx sy pi pj, ranks w !! x = Some sx ∧ ranks w !! y = Some sy ∧ findEdge sx y = Some pi ∧ findEdge sy x = Some pj ∧
    link_ok (sent w x y) (seen w x y) (B x y).1 (B x y).2 pi pj.
Proof using Hmt.
  intros Hw Hx Hy. destruct (nb_lt N G cfgs nb dst Hmt x y Hx Hy) as (Hyw & _ & Hxy).
  destruct (node_at N cfgs nb dst _ x (wi_net _ _ Hw) Hx) as (sx & Ex & Hox). destruct (node_at N cfgs nb dst _ y (wi_net _ _ Hw) Hyw) as (sy & Ey & Hoy).
  destruct (nb_peer cfgs nb x sx y (no_wf _ _ _ _ _ _ Hox) Hy) as [pi Hpi]. destruct (nb_peer cfgs nb y sy x (no_wf _ _ _ _ _ _ Hoy) Hxy) as [pj Hpj].
  exists sx, sy, pi, pj. split_and!; try done. by eapply wi_link.
Qed.

Lemma wire_seen B w x y : wire B w → (x < N)%nat → y ∈ nb x → (seen w x y ≤ length (sent w x y))%nat.
Proof using Hmt. intros Hw Hx Hy. destruct (wire_ends B w x y Hw Hx Hy) as (? & ? & ? & ? & _ & _ & _ & _ & L). apply L. Qed.

(** Only sends. *)
Definition sends (st st' : StoreImpl) : Prop := ∀ y pi, findEdge st y = Some pi →
  ∃ pi' D, findEdge st' y = Some pi' ∧ outgoingQueue pi' = outgoingQueue pi ++ D ∧
    ∀ n, outgoingSeq pi = u32 (Z.of_nat n) → outgoingSeq pi' = u32 (Z.of_nat (n + length D)) ∧ numbered_from n D.

Definition hears_same (st st' : StoreImpl) : Prop := ∀ y pi, findEdge st y = Some pi →
  ∃ pi', findEdge st' y = Some pi' ∧ incomingSeq pi' = incomingSeq pi ∧ incomingQueue pi' = incomingQueue pi.

Lemma moved_sends c st l st' : moved c st l st' → sends st st' ∧ hears_same st st'.
Proof using Type.
  intros [M1 M2 M3 M4]. split; intros y pi Hy; destruct (M3 y pi Hy) as (pi1 & pi' & Hy' & Hg & Hc); destruct Hc as (_ & C2 & _ & _ & _ & C6 & C7 & C8).
  - destruct (grown_queue _ _ _ _ _ Hg) as (D & Eq & _ & Hs). exists pi', D. rewrite C2, C8. done.
  - apply grown_same in Hg as (_ & _ & _ & G4 & G5 & _). exists pi'. split; [done|]. by rewrite C6, C7.
Qed.

Lemma linked_sends c st y fwd st' : linked c st y fwd st' → sends st st' ∧ hears_same st st'.
Proof using Type.
  intros [L1 L2 L3 (pi & pi0 & pi1 & pi' & Hpi & Hpi' & Hc0 & Hg & Hc1) L5 L6].
  destruct Hc0 as (_ & A2 & _ & _ & _ & A6 & A7 & A8). destruct Hc1 as (_ & B2 & _ & _ & _ & B6 & B7 & B8). cbn in A2, A6, A7, A8, B2, B6, B7, B8.
  split; intros z pz Hz; (destruct (decide (z = y)) as [->|Hne]; [assert (pz = pi) as -> by congruence|destruct (L5 z pz Hne Hz) as (p' & Hz' & Hgz)]).
  - destruct (grown_queue _ _ _ _ _ Hg) as (D & Eq & _ & Hs). exists pi', D. rewrite B2, B8, <- A2, <- A8. done.
  - destruct (grown_queue _ _ _ _ _ Hgz) as (D & Eq & _ & Hs). exists p', D. done.
  - apply grown_same in Hg as (_ & _ & _ & G4 & G5 & _). exists pi'. split; [done|]. by rewrite B6, B7, G4, G5, A6, A7.
  - apply grown_same in Hgz as (_ & _ & _ & G4 & G5 & _). exists p'. done.
Qed.

(** Rank [y] changes: it sends, and hears of its neighbors. *)
Lemma wire_change B B' w y st st' g cs lg : wire B w → (y < N)%nat → ranks w !! y = Some st → node_ok y st' → sends st st' →
  (∀ x pi pj pj', (x < N)%nat → y ∈ nb x → findEdge st x = Some pj → findEdge st' x = Some pj' →
    link_ok (sent w x y) (seen w x y) (B x y).1 (B x y).2 pi pj → link_ok (sent w x y) (g x y) (B' x y).1 (B' x y).2 pi pj') →
  (∀ a b, b ≠ y → g a b = seen w a b ∧ B' a b = B a b) →
  wire B' (mkWorld (<[y := st']> (ranks w)) (note_sent (sent w) y st st') g cs lg).
Proof using Hmt.
  intros Hw Hy Est Hno' Hs Hh Hg. pose proof (ne_node _ _ _ _ _ (wi_net _ _ Hw) y st Est) as Hno.
  assert (∀ a b pi, a = y → b ∈ nb a → findEdge st b = Some pi → ∃ pi', findEdge st' b = Some pi' ∧ outgoingQueue pi' = outgoingQueue pi ++ queued st st' b ∧
    ∀ n, outgoingSeq pi = u32 (Z.of_nat n) → outgoingSeq pi' = u32 (Z.of_nat (n + length (queued st st' b))) ∧ numbered_from n (queued st st' b)) as Hq.
  { intros a b pi -> Hb Hpi. destruct (Hs b pi Hpi) as (pi' & D & Hpi' & Eq & Hn). exists pi'. rewrite (queued_app st st' b pi pi' D Hpi Hpi' Eq). done. }
  constructor; cbn [ranks sent seen].
  - apply net_set; [apply Hw|done|done].
  - intros a b Ha Hb. unfold note_sent. destruct (Nat.eqb_spec a y) as [->|Hne]; [|by apply Hw]. apply Forall_app. split; [by apply Hw|].
    destruct (nb_peer cfgs nb y st b (no_wf _ _ _ _ _ _ Hno) Hb) as [pi Hpi]. destruct (Hq y b pi eq_refl Hb Hpi) as (pi' & Hpi' & Eq & _).
    pose proof (ed_queue _ _ _ _ _ _ (no_edge _ _ _ _ _ _ Hno' b pi' Hpi')) as He. rewrite Eq in He. by apply Forall_app in He as [_ ?].
  - intros a b sa sb pi pj Ha Hb Ea Eb Hpi Hpj. destruct (nb_lt N G cfgs nb dst Hmt a b Ha Hb) as (Hbw & Hne & Hab). unfold note_sent.
    destruct (Nat.eqb_spec a y) as [->|Hay].
    + rewrite list_lookup_insert_eq in Ea by (by eapply lookup_lt_Some). injection Ea as <-. rewrite list_lookup_insert_ne in Eb by done.
      destruct (nb_peer cfgs nb y st b (no_wf _ _ _ _ _ _ Hno) Hb) as [pi0 Hpi0]. destruct (Hq y b pi0 eq_refl Hb Hpi0) as (pi' & Hpi' & Eq & Hn).
      assert (pi' = pi) as -> by congruence. destruct (Hg y b Hne) as [-> ->]. pose proof (wi_link _ _ Hw y b st sb pi0 pj Ha Hb Est Eb Hpi0 Hpj) as L.
      destruct (Hn _ (lk_next _ _ _ _ _ _ L)) as [H1 H2]. by eapply link_send.
    + rewrite list_lookup_insert_ne in Ea by done. destruct (decide (b = y)) as [->|Hby].
      * rewrite list_lookup_insert_eq in Eb by (by eapply lookup_lt_Some). injection Eb as <-.
        destruct (nb_peer cfgs nb y st a (no_wf _ _ _ _ _ _ Hno) Hab) as [pj0 Hpj0]. eapply Hh; try done. by eapply wi_link.
      * rewrite list_lookup_insert_ne in Eb by done. destruct (Hg a b Hby) as [-> ->]. by eapply wi_link.
Qed.

(** A step of rank [y] that is not about packets of messages. *)
Lemma wire_step w y st st' cs lg : wire_ok w → (y < N)%nat → ranks w !! y = Some st → node_ok y st' → sends st st' → hears_same st st' →
  wire_ok (mkWorld (<[y := st']> (ranks w)) (note_sent (sent w) y st st') (seen w) cs lg).
Proof using Hmt.
  intros Hw Hy Est Hno' Hs Hh. eapply wire_change; try done. intros x pi pj pj' Hx Hyx Hpj Hpj'. destruct (Hh x pj Hpj) as (p & Hp & E1 & E2).
  assert (p = pj') as -> by congruence. by apply link_peer.
Qed.

(** ** The state as lines *)

Lemma line_node_ok x f st : node_ok x st → (∀ y, y ∈ nb x → Forall (λ o, msg_ok x y (obuffer o)) (f y)) → node_ok x (line_st f st).
Proof using Type.
  intros Hno Hf. pose proof (no_wf _ _ _ _ _ _ Hno) as [W1 W2]. constructor; try apply Hno.
  - split; [done|by rewrite line_fst].
  - intros y pi0. rewrite find_line. destruct (findEdge st y) as [pi|] eqn:Hy; [|done]. intros [= <-].
    destruct (no_edge _ _ _ _ _ _ Hno y pi Hy). constructor; try done. apply Hf. eapply peer_nb; [|exact Hy]. done.
  - eapply edges_kept_ok; [|apply Hno]. constructor; [done|done|by left|]. intros y pi'. rewrite find_line. destruct (findEdge st y) as [pi|]; [|done]. intros [= <-]. by exists pi.
Qed.

Lemma line_ok B w : wire B w → net_ok (l_ranks (line w)).
Proof using Type.
  intros Hw. constructor; [cbn; rewrite length_imap; apply (wi_net _ _ Hw)|]. intros x sl. cbn. rewrite list_lookup_imap. destruct (ranks w !! x) as [st|] eqn:Ex; [|done].
  cbn. intros [= <-]. assert (x < N)%nat as Hx by (rewrite <- (ne_length _ _ _ _ _ (wi_net _ _ Hw)); by eapply lookup_lt_Some).
  apply line_node_ok; [by apply Hw|]. intros y Hy. unfold on_line. apply Forall_drop. by apply Hw.
Qed.

(** One rank takes a step, without handling messages. *)
Lemma line_rank w x st st' cs lg : wire_ok w → (x < N)%nat → ranks w !! x = Some st → (edgePeers st').*1 = nb x →
  line (mkWorld (<[x := st']> (ranks w)) (note_sent (sent w) x st st') (seen w) cs lg) =
  mkLines (<[x := line_st (λ y, on_line w x y ++ queued st st' y) st']> (l_ranks (line w))) cs lg.
Proof using Hmt.
  intros Hw Hx Est Hp. rewrite (line_step w x st st' cs lg) by (try done; intros z y Hne; unfold note_sent, on_line; by destruct (Nat.eqb_spec z x)).
  f_equal. f_equal. unfold line_st. f_equal. apply list_fmap_ext. intros i [y pi] Hi. cbn. do 2 f_equal. unfold note_sent, on_line. rewrite Nat.eqb_refl. apply drop_note.
  apply (wire_seen (window (seen w))); [done|done|]. rewrite <- Hp. apply list_elem_of_fmap. exists (y, pi). split; [done|by eapply list_elem_of_lookup_2].
Qed.

(** Messages of the shutdown are sent, or nothing happens that the peers notice. *)
Lemma turn_wire w x st ms st' : wire_ok w → (x < N)%nat → ranks w !! x = Some st → moved (cfgs x) st (casts (cfgs x) (nb x) ms) st' → closes (cfgs x) st ms st' →
  let w' := mkWorld (<[x := st']> (ranks w)) (note_sent (sent w) x st st') (seen w) (calls w) (log w) in wire_ok w' ∧ effect (line w) (line w').
Proof using Hmt.
  intros Hw Hx Est Hm Hc w'. pose proof (ne_node _ _ _ _ _ (wi_net _ _ Hw) x st Est) as Hno.
  assert (node_ok x st') as Hno' by (by eapply (turned_ok N G cfgs nb dst Hmt)). destruct (moved_sends _ _ _ _ Hm) as [Hs Hh]. split; [by apply wire_step|].
  unfold w'. rewrite line_rank; [|done|done|done|apply Hno']. eapply effect_turn; [done|by apply line_at|by apply moved_line|exact Hc].
Qed.

Lemma idle_wire w x st st' : wire_ok w → (x < N)%nat → ranks w !! x = Some st → idle st st' →
  let w' := mkWorld (<[x := st']> (ranks w)) (note_sent (sent w) x st st') (seen w) (calls w) (log w) in wire_ok w' ∧ effect (line w) (line w').
Proof using Hmt.
  intros Hw Hx Est Hid w'. destruct (idle_moved (cfgs x) st st' Hid) as [Hm Hr]. destruct (turn_same cfgs nb x st st' Hm Hr) as [Hm' Hc]. by apply (turn_wire w x st []).
Qed.

Lemma link_wire w x y st fwd st' : wire_ok w → (x < N)%nat → y ∈ nb x → ranks w !! x = Some st → (∀ s, s ∈ fwd ↔ (s < N)%nat ∧ hopf cfgs y s = x) →
  linked (cfgs x) st y fwd st' →
  let w' := mkWorld (<[x := st']> (ranks w)) (note_sent (sent w) x st st') (seen w) (calls w) (log w) in wire_ok w' ∧ effect (line w) (line w').
Proof using Hmt.
  intros Hw Hx Hy Est Hf Hl w'. pose proof (ne_node _ _ _ _ _ (wi_net _ _ Hw) x st Est) as Hno.
  assert (node_ok x st') as Hno' by (by eapply (linked_ok N G cfgs nb dst Hmt)). destruct (linked_sends _ _ _ _ _ Hl) as [Hs Hh]. split; [by apply wire_step|].
  unfold w'. rewrite line_rank; [|done|done|done|apply Hno']. eapply effect_link; [done|exact Hy|by apply line_at|exact Hf|by apply linked_line].
Qed.

(** *** Calls *)

Lemma outs_sends c st l st' : outs c st l st' → sends st st' ∧ hears_same st st'.
Proof using Type. intros H. by eapply moved_sends, outs_moved. Qed.

Lemma call_wire fmt resolveAddressSync shuffle_addrs w now x timeout key m st : wire_ok w → (x < N)%nat → ranks w !! x = Some st → op_key m = Some key →
  nextId (kv st) < 2 ^ 32 - 1 → ∃ w', make_call fmt resolveAddressSync shuffle_addrs w now x timeout key m = Ok w' ∧ wire_ok w' ∧ effect (line w) (line w').
Proof using Hmt.
  intros Hw Hx Est Hk Hid. pose proof (ne_node _ _ _ _ _ (wi_net _ _ Hw) x st Est) as Hno. unfold make_call. rewrite Est. cbn [of_option obind].
  destruct (call_node fmt resolveAddressSync shuffle_addrs N G cfgs nb dst Hmt x now timeout key m st Hx Hno) as (st' & -> & H). cbn [obind].
  destruct (exited (shut st)) eqn:Ex; (eexists; split; [done|]).
  - assert (node_ok x st') as Hno' by (by eapply (refused_ok N G cfgs nb dst Hmt)). destruct H as (Ho & Ek & Es). destruct (outs_sends _ _ _ _ Ho) as [Hs Hh].
    split; [by apply wire_step|]. rewrite line_rank; [|done|done|done|apply Hno']. eapply (effect_refused N cfgs nb dst (line w) x now timeout key); [done|by apply line_at|done|done|].
    split; [by apply outs_line|done].
  - assert (node_ok x st') as Hno' by (eapply (called_ok N G cfgs nb dst Hmt); [done|exact Hno|by eapply op_not_cast|exact H]).
    assert (sends st st' ∧ hears_same st st') as [Hs Hh] by (unfold called in H; case_decide; destruct H as (Ho & _); by eapply outs_sends).
    split; [by apply wire_step|]. rewrite line_rank; [|done|done|done|apply Hno'].
    refine (effect_call N cfgs nb dst (line w) x now timeout key m (line_st (on_line w x) st) _ Hx (line_at w x st Est) Ex Hk Hid _).
    unfold called in *. cbn [kv shut line_st set_peers]. case_decide; destruct H as (Ho & H); (split; [by apply outs_line|exact H]).
Qed.

(** *** Acknowledgements *)

Lemma arrived_spec w x y i sy pj : ranks w !! y = Some sy → findEdge sy x = Some pj → arrived w x y i = true →
  (i < seen w x y)%nat ∨ Z.of_nat i < Z.of_nat (seen w x y) + 2 ^ 31 ∧ ∃ e, e ∈ incomingQueue pj ∧ e.1 = u32 (Z.of_nat i).
Proof using Type.
  intros Ey Hpj. unfold arrived. rewrite Ey. cbn [mbind option_bind]. rewrite Hpj. rewrite orb_true_iff, andb_true_iff, Nat.ltb_lt, Z.ltb_lt, existsb_exists.
  intros [?|[? (e & He & Hs)]]; [by left|right]. split; [done|]. exists e. split; [by apply list_elem_of_In|]. by apply Z.eqb_eq.
Qed.

Lemma incoming_ok x y st pi s q : node_ok x st → findEdge st y = Some pi → node_ok x (putEdge st y (set_incoming pi s q)).
Proof using Type.
  intros Hno Hy. pose proof (no_wf _ _ _ _ _ _ Hno) as [W1 W2]. constructor; try apply Hno.
  - split; [done|cbn; by rewrite put_fst].
  - intros z pz. unfold findEdge, putEdge in *. cbn. rewrite find_put by (by eexists). case_decide as E; [|apply Hno]. intros [= <-]. subst z.
    destruct (no_edge _ _ _ _ _ _ Hno y pi Hy). by constructor.
  - eapply edges_kept_ok; [by eapply put_kept|apply Hno].
Qed.

Lemma ack_ok x y st pi s : node_ok x st → findEdge st y = Some pi → node_ok x (putEdge st y (set_outgoing pi (outgoingSeq pi) (erase_seq s (outgoingQueue pi)))).
Proof using Type.
  intros Hno Hy. pose proof (no_wf _ _ _ _ _ _ Hno) as [W1 W2]. constructor; try apply Hno.
  - split; [done|cbn; by rewrite put_fst].
  - intros z pz. unfold findEdge, putEdge in *. cbn. rewrite find_put by (by eexists). case_decide as E; [|apply Hno]. intros [= <-]. subst z.
    destruct (no_edge _ _ _ _ _ _ Hno y pi Hy) as [E1 E2 E3 E4 E5 E6]. constructor; try done. cbn. rewrite Forall_forall in *. intros o Ho%erase_in. auto.
  - eapply edges_kept_ok; [by eapply put_kept|apply Hno].
Qed.

Lemma erase_seq_length s l : (length (erase_seq s l) ≤ length l)%nat.
Proof using Type. induction l as [|a l IH]; cbn; [lia|]. destruct (oseq a =? s); cbn; lia. Qed.

Lemma touch_wire w now x st c : wire_ok w → (x < N)%nat → ranks w !! x = Some st → node_ok x (touch now st c).
Proof using Hmt.
  intros Hw Hx Est. pose proof (ne_node _ _ _ _ _ (wi_net _ _ Hw) x st Est) as Hno. destruct (idle_moved (cfgs x) st _ (touch_idle now st c)) as [Hm Hr].
  destruct (turn_same cfgs nb x st _ Hm Hr) as [Hm' Hc]. by eapply (turned_ok N G cfgs nb dst Hmt).
Qed.

Lemma ack_wire w now x y st c i : wire_ok w → (x < N)%nat → y ∈ nb x → ranks w !! x = Some st → arrived w x y i = true → Z.of_nat (length (sent w x y)) ≤ Z.of_nat i + 2 ^ 32 →
  ∃ st', receive_ack now st c y (u32 (Z.of_nat i)) = Ok st' ∧
    let w' := mkWorld (<[x := st']> (ranks w)) (note_sent (sent w) x st st') (seen w) (calls w) (log w) in wire_ok w' ∧ effect (line w) (line w').
Proof using Hmt.
  intros Hw Hx Hy Est Ha Hwin. destruct (wire_ends _ w x y Hw Hx Hy) as (sx & sy & pi & pj & Ex & Ey & Hpi & Hpj & L). assert (sx = st) as -> by congruence.
  set (st0 := touch now st c). assert (findEdge st0 y = Some pi) as Hpi0 by done. unfold receive_ack, getEdge. fold st0. rewrite Hpi0. cbn [obind]. eexists. split; [done|].
  set (pi' := set_outgoing pi _ _). set (st' := putEdge st0 y pi'). assert (node_ok x st') as Hno' by (apply ack_ok; [by eapply touch_wire|done]).
  assert (∀ z, findEdge st' z = if decide (y = z) then Some pi' else findEdge st z) as Hf.
  { intros z. unfold findEdge, st', putEdge in *. cbn. by rewrite find_put by (by eexists). }
  assert (∀ z, queued st st' z = []) as Hq.
  { intros z. unfold queued. rewrite Hf. destruct (findEdge st z) as [pz|] eqn:Ez; [|done]. case_decide as E; [|by apply drop_all]. subst z. assert (pz = pi) as -> by congruence.
    apply drop_ge. apply erase_seq_length. }
  set (w' := mkWorld _ _ _ _ _). assert (line w' = mkLines (<[x := line_st (on_line w x) st']> (l_ranks (line w))) (calls w) (log w)) as El.
  { unfold w'. rewrite line_rank; [|done|done|done|apply Hno']. do 2 f_equal. apply line_ext. intros z. by rewrite Hq, app_nil_r. }
  split.
  - constructor; cbn [ranks sent seen w'].
    + apply net_set; [apply Hw|done|done].
    + intros a b Ha' Hb. unfold note_sent. rewrite Hq, app_nil_r. destruct (a =? x)%nat; by apply Hw.
    + intros a b sa sb pa pb Ha' Hb Ea Eb Hpa Hpb. unfold note_sent. rewrite Hq, app_nil_r.
      assert (∃ sb' pb', ranks w !! b = Some sb' ∧ findEdge sb' a = Some pb' ∧ incomingSeq pb' = incomingSeq pb ∧ incomingQueue pb' = incomingQueue pb) as (sb' & pb' & Eb' & Hpb' & I1 & I2).
      { destruct (decide (b = x)) as [->|Hbx]; [|rewrite list_lookup_insert_ne in Eb by done; by exists sb, pb]. rewrite list_lookup_insert_eq in Eb by (by eapply lookup_lt_Some).
        injection Eb as <-. rewrite Hf in Hpb. case_decide as E; [|by exists st, pb]. injection Hpb as <-. subst a. by exists st, pi. }
      replace (if (a =? x)%nat then sent w a b else sent w a b) with (sent w a b) by (by destruct (a =? x)%nat). eapply link_peer; [symmetry; exact I1|symmetry; exact I2|].
      destruct (decide (a = x)) as [->|Hax].
      * rewrite list_lookup_insert_eq in Ea by (by eapply lookup_lt_Some). injection Ea as <-. rewrite Hf in Hpa. case_decide as E.
        -- injection Hpa as <-. subst b. assert (sb' = sy) as -> by congruence. assert (pb' = pj) as -> by congruence.
           apply link_ack; [exact L|done| |done]. by eapply arrived_spec.
        -- by eapply (wi_link _ _ Hw).
      * rewrite list_lookup_insert_ne in Ea by done. by eapply (wi_link _ _ Hw).
  - rewrite El. destruct (idle_moved (cfgs x) st _ (touch_idle now st c)) as [Hm Hr]. destruct (turn_same cfgs nb x st _ Hm Hr) as [Hm' Hc].
    eapply (effect_turn N cfgs nb dst (line w) x (line_st (on_line w x) st) []); [done|by apply line_at| |exact Hc].
    unfold st'. rewrite (line_put (on_line w x) st0 y pi pi' Hpi0) by done. pose proof (moved_line (cfgs x) (on_line w x) _ _ _ Hm') as Hml.
    assert (line_st (λ z, on_line w x z ++ queued st (touch now st c) z) (touch now st c) = line_st (on_line w x) st0) as E; [|by rewrite E in Hml].
    apply line_ext. intros z. unfold queued. change (findEdge (touch now st c) z) with (findEdge st z). destruct (findEdge st z); by rewrite ?drop_all, app_nil_r.
Qed.
End wire.
