(* ===== verification/StoreReadFacts.v ===== *)
(** * A packet with a message arrives

    [receive_message] handles the message that is expected next and then the early
    ones that follow it, one after the other; other messages are queued or
    dropped. *)

From Stdlib Require Import ZArith Lia.
From stdpp Require Import base gmap option list list_numbers sorting relations strings.
From S2P Require Import Prelude StoreTopology StoreTopologyFacts Store StoreConn StoreRun StoreSendFacts StoreReactFacts StoreStepFacts StoreNetFacts StoreConnFacts StoreRunFacts.
From S2P Require Import StoreMailFacts StoreLogFacts StoreBookFacts StoreDrainFacts StoreLineFacts StoreLinkFacts StoreWireFacts.

Local Set Warnings "-clear-no-such-hyp".

(** ** Handling messages *)

Section handle.
Context (fmt : Reason → string) (resolveAddressSync : string → list (list Z)) (shuffle_addrs : list (list Z) → list (list Z)).
Context (now : Z) (src : nat).

Local Abbreviation processMessage := (processMessage fmt resolveAddressSync shuffle_addrs now).
Local Abbreviation handled := (handled fmt resolveAddressSync shuffle_addrs now src).
Local Abbreviation handle_log := (λ st l, handle_log fmt resolveAddressSync shuffle_addrs now st src l).

Fixpoint handle_all (st : StoreImpl) (l : list Buffer) : outcome StoreImpl :=
  match l with
  | [] => Ok st
  | b :: l => let! st := processMessage st b src in handle_all st l
  end.

Lemma handle_snoc st l g b : handle_all st l = Ok g →
  handle_all st (l ++ [b]) = processMessage g b src ∧ handle_log st (l ++ [b]) = handle_log st l ++ executed_at g b.
Proof using Type.
  revert st. induction l as [|a l IH]; intros st; cbn [handle_all app StoreRun.handle_log].
  - intros [= <-]. destruct (processMessage st b src) as [s| | | |]; cbn; by rewrite ?app_nil_r.
  - destruct (processMessage st a src) as [s| | | |]; try done. cbn [obind]. intros H. destruct (IH s H) as [H1 H2]. split; [done|]. cbn in H2. by rewrite H2, (assoc_L (++)).
Qed.

Lemma handled_app a l b k d : handled a l b → handled b k d → handled a (l ++ k) d.
Proof using Type.
  induction 1 as [st|st pi s q l st' Hpi H IH|st c seq l st' H IH|st b0 st1 l st' Hb H IH]; intros Hk; cbn [app].
  - done.
  - eapply handled_note; eauto.
  - eapply handled_ack; eauto.
  - eapply handled_message; eauto.
Qed.
End handle.

(** ** Lines *)

Lemma pop_line f f' sx y pi o q : findEdge sx y = Some pi → NoDup (edgePeers sx).*1 → (∀ z, z ≠ y → f' z = f z) → f y = o :: q → f' y = q →
  pop (line_st f sx) y (line_edge (f y) pi) q = line_st f' sx.
Proof.
  unfold pop, putEdge, line_st, findEdge. cbn [edgePeers set_peers]. intros Hpi Hnd Hne Hy Hy'.
  change (set_outgoing (line_edge (f y) pi) (outgoingSeq (line_edge (f y) pi)) q) with (line_edge q pi). unfold set_peers at 1 3. cbn. f_equal.
  induction (edgePeers sx) as [|[z pz] P IH]; [done|]. cbn in *. apply NoDup_cons in Hnd as [Hz Hnd]. case_bool_decide as E.
  - subst z. injection Hpi as ->. rewrite Hy'. f_equal. apply list_fmap_ext. intros i [z pz'] Hi. cbn. rewrite Hne; [done|]. intros ->. apply Hz, list_elem_of_fmap. exists (y, pz'). split; [done|by eapply list_elem_of_lookup_2].
  - rewrite IH by done. by rewrite Hne.
Qed.

Lemma arrive_line cfgs nb y f st b s : arrive_out cfgs nb y (line_st f st) b s = arrive_out cfgs nb y st b s.
Proof.
  unfold arrive_out. case_decide; [|done]. f_equal. unfold reaction_forward. destruct (broadcast (hdr b)); [|done]. f_equal. apply list_fmap_ext. intros i z _.
  unfold forward_out. rewrite find_line. by destruct (findEdge st z).
Qed.

(** What only changes what is expected is not seen in the lines. *)
Lemma incoming_line f st x pj s q : findEdge st x = Some pj → line_st f (putEdge st x (set_incoming pj s q)) = line_st f st.
Proof. intros H. by eapply line_put. Qed.

Lemma find_incoming st x pj pj' z : findEdge st x = Some pj → findEdge (putEdge st x pj') z = if decide (x = z) then Some pj' else findEdge st z.
Proof. intros H. unfold findEdge, putEdge in *. cbn. by rewrite find_put by (by eexists). Qed.

Lemma queued_incoming st0 st x pj s q z : findEdge st x = Some pj → queued st0 (putEdge st x (set_incoming pj s q)) z = queued st0 st z.
Proof. intros H. unfold queued. rewrite (find_incoming _ _ _ _ _ H). case_decide as E; [|done]. subst z. by rewrite H. Qed.

Lemma line_world w w' : ranks w' = ranks w → (∀ a b, sent w' a b = sent w a b) → (∀ a b, seen w' a b = seen w a b) → calls w' = calls w → log w' = log w → line w' = line w.
Proof.
  intros E1 E2 E3 E4 E5. unfold line. rewrite E1, E4, E5. f_equal. apply imap_ext. intros i st _. apply line_ext. intros y. unfold on_line. by rewrite E2, E3.
Qed.

(** ** One packet *)

Section read.
Context (fmt : Reason → string) (resolveAddressSync : string → list (list Z)) (shuffle_addrs : list (list Z) → list (list Z)) (now : Z).
Context (N : nat) (G : list (list nat)) (cfgs : nat → Config) (nb : nat → list nat) (dst : nat → nat → nat).
Context (Hmt : mesh_tables N G cfgs nb dst).

Local Abbreviation node_ok := (node_ok N cfgs nb dst).
Local Abbreviation effect := (effect N cfgs nb dst).
Local Abbreviation wire := (wire N cfgs nb dst).
Local Abbreviation wire_ok := (wire_ok N cfgs nb dst).
Local Abbreviation processMessage := (processMessage fmt resolveAddressSync shuffle_addrs now).
Local Abbreviation handled := (handled fmt resolveAddressSync shuffle_addrs now).
Local Abbreviation handle_log := (handle_log fmt resolveAddressSync shuffle_addrs now).
Local Abbreviation handle_all := (handle_all fmt resolveAddressSync shuffle_addrs now).

(** The state before the packet, from [x] to [y], arrives. *)
Context (w0 : World) (x y : nat) (Hw0 : wire_ok w0) (Hx : (x < N)%nat) (Hy : y ∈ nb x).
Context (sx sy0 : StoreImpl) (pi : EdgeInfo) (Ex : ranks w0 !! x = Some sx) (Ey : ranks w0 !! y = Some sy0) (Hpi : findEdge sx y = Some pi).

Local Abbreviation k0 := (seen w0 x y).
Local Abbreviation S0 := (sent w0 x y).

(** The next [n] messages. *)
Definition next (n : nat) : list Buffer := obuffer <$> take n (drop k0 S0).

(** The world when [n] messages have been handled and [y] is in state [st]. *)
Definition during (n : nat) (st : StoreImpl) : World :=
  mkWorld (<[y := st]> (ranks w0)) (note_sent (sent w0) y sy0 st) (note_seen (seen w0) x y n) (calls w0) (log w0 ++ handle_log sy0 x (next n)).

Record reading (n : nat) (st : StoreImpl) : Prop := {
  re_wire : wire (window (seen w0)) (during n st);
  re_grow z p0 : findEdge sy0 z = Some p0 → ∃ p D, findEdge st z = Some p ∧ outgoingQueue p = outgoingQueue p0 ++ D;
  re_handled : handled x sy0 (next n) st;
  re_ghost : ∃ g, handle_all x sy0 (next n) = Ok g ∧ node_ok y g ∧ kv g = kv st ∧ shut g = shut st;
  re_lines : rtc effect (line w0) (line (during n st));
  re_weight : (n + net_weight N dst (l_ranks (line (during n st))) ≤ net_weight N dst (l_ranks (line w0)))%nat
}.

Lemma ends : (y < N)%nat ∧ y ≠ x ∧ x ∈ nb y ∧ (y < length (ranks w0))%nat.
Proof using All.
  destruct (nb_lt N G cfgs nb dst Hmt x y Hx Hy) as (Hyw & Hne & Hxy). split_and!; try done. by eapply lookup_lt_Some.
Qed.

Lemma during_y n st : ranks (during n st) !! y = Some st.
Proof using All. cbn. apply list_lookup_insert_eq. apply ends. Qed.

Lemma during_x n st : ranks (during n st) !! x = Some sx.
Proof using All. cbn. rewrite list_lookup_insert_ne; [done|]. apply ends. Qed.

Lemma during_sent n st : sent (during n st) x y = S0 ∧ seen (during n st) x y = (k0 + n)%nat.
Proof using All.
  destruct ends as (_ & Hne & _). cbn. unfold note_sent, note_seen. rewrite !Nat.eqb_refl. cbn. by destruct (Nat.eqb_spec x y).
Qed.

Lemma during_other n n' st st' a b : a ≠ y → b ≠ y ∨ a ≠ x → sent (during n st) a b = sent (during n' st') a b ∧ seen (during n st) a b = seen (during n' st') a b.
Proof using Type.
  intros Ha Hb. cbn. unfold note_sent, note_seen. destruct (Nat.eqb_spec a y); [done|]. split; [done|]. destruct (Nat.eqb_spec a x), (Nat.eqb_spec b y); naive_solver.
Qed.

Lemma reading_link n st pj : reading n st → findEdge st x = Some pj → link_ok S0 (k0 + n) (Z.of_nat k0 + 1) (Z.of_nat k0 + 2 ^ 31) pi pj.
Proof using All.
  intros Hr Hpj. destruct (during_sent n st) as [E1 E2]. pose proof (wi_link _ _ _ _ _ _ (re_wire _ _ Hr) x y sx st pi pj Hx Hy (during_x n st) (during_y n st) Hpi Hpj) as L.
  by rewrite E1, E2 in L.
Qed.

Lemma reading_node n st : reading n st → node_ok y st.
Proof using All. intros Hr. apply (wi_net _ _ _ _ _ _ (re_wire _ _ Hr)). apply during_y. Qed.

Lemma reading_edge n st : reading n st → ∃ pj, findEdge st x = Some pj.
Proof using All. intros Hr. eapply nb_peer; [apply (reading_node n st Hr)|apply ends]. Qed.

(** The messages that [y] sends are those it has sent before, and the new ones. *)
Lemma reading_queued n st st' z p p' D : reading n st → findEdge st z = Some p → findEdge st' z = Some p' → outgoingQueue p' = outgoingQueue p ++ D →
  queued sy0 st' z = queued sy0 st z ++ D.
Proof using All.
  intros Hr Hp Hp' E. assert (∃ p0, findEdge sy0 z = Some p0) as [p0 Hp0].
  { eapply (nb_peer cfgs nb y); [apply (wi_net _ _ _ _ _ _ Hw0 : StoreNetFacts.net_ok N cfgs nb dst (ranks w0)); exact Ey|]. eapply peer_nb; [apply (reading_node n st Hr)|exact Hp]. }
  destruct (re_grow _ _ Hr z p0 Hp0) as (q & D0 & Hq & E0). assert (q = p) as -> by congruence.
  rewrite (queued_app sy0 st z p0 p D0 Hp0 Hp E0). apply (queued_app sy0 st' z p0 p'); [done|done|]. by rewrite E, E0, (assoc_L (++)).
Qed.

(** The links after a step of [y]. *)
Lemma reading_wire n n' st st' : reading n st → node_ok y st' → sends st st' →
  (∀ z p, findEdge st z = Some p → z ≠ x → ∃ p', findEdge st' z = Some p' ∧ incomingSeq p' = incomingSeq p ∧ incomingQueue p' = incomingQueue p) →
  (∀ pj pj' p, findEdge st x = Some pj → findEdge st' x = Some pj' → link_ok S0 (k0 + n) (Z.of_nat k0 + 1) (Z.of_nat k0 + 2 ^ 31) p pj →
    link_ok S0 (k0 + n') (Z.of_nat k0 + 1) (Z.of_nat k0 + 2 ^ 31) p pj') →
  wire (window (seen w0)) (during n' st').
Proof using All.
  intros Hr Hno' Hs Hz HL. destruct ends as (Hyw & Hne & Hxy & Hlt). destruct (during_sent n st) as [E1 E2].
  apply (wire_ext _ _ _ _ _ (mkWorld (<[y := st']> (ranks (during n st))) (note_sent (sent (during n st)) y st st') (note_seen (seen w0) x y n') [] [])).
  - cbn. by rewrite list_insert_insert_eq.
  - intros a b. cbn [sent during]. unfold note_sent at 1 2. destruct (Nat.eqb_spec a y) as [->|]; [|unfold note_sent; by destruct (Nat.eqb_spec a y)].
    unfold note_sent. rewrite Nat.eqb_refl, <- (assoc_L (++)). f_equal. destruct (findEdge st b) as [p|] eqn:Hp.
    + destruct (Hs b p Hp) as (p' & D & Hp' & E & _). rewrite (queued_app st st' b p p' D Hp Hp' E). by eapply reading_queued.
    + unfold queued. rewrite Hp, app_nil_r. destruct (findEdge sy0 b) as [p0|] eqn:Hp0; [|done]. by destruct (re_grow _ _ Hr b p0 Hp0) as (q & ? & ? & _); congruence.
  - done.
  - eapply (wire_change N G cfgs nb dst Hmt (window (seen w0))); [apply (re_wire _ _ Hr)|done|apply during_y|done|done|..].
    + intros z p pj pj' Hzw Hyz Hpj Hpj'. destruct (decide (z = x)) as [->|Hzx].
      * rewrite E1, E2. unfold note_seen. rewrite !Nat.eqb_refl. cbn [andb]. by apply (HL pj pj').
      * destruct (Hz z pj Hpj Hzx) as (p' & Hp' & I1 & I2). assert (p' = pj') as -> by congruence.
        assert (note_seen (seen w0) x y n' z y = seen (during n st) z y) as -> by (cbn; unfold note_seen; by destruct (Nat.eqb_spec z x)). by apply (link_peer _ _ _ _ _ pj).
    + intros a b Hb. split; [|done]. cbn. unfold note_seen. destruct (Nat.eqb_spec b y); [done|]. by rewrite !andb_false_r.
Qed.

(** Only what is expected changes. *)
Lemma reading_note n st pj s q : reading n st → findEdge st x = Some pj →
  (∀ p, link_ok S0 (k0 + n) (Z.of_nat k0 + 1) (Z.of_nat k0 + 2 ^ 31) p pj → link_ok S0 (k0 + n) (Z.of_nat k0 + 1) (Z.of_nat k0 + 2 ^ 31) p (set_incoming pj s q)) →
  reading n (putEdge st x (set_incoming pj s q)).
Proof using All.
  intros Hr Hpj HL. set (st' := putEdge st x (set_incoming pj s q)). destruct ends as (Hyw & Hne & Hxy & Hlt). pose proof (reading_node n st Hr) as Hno.
  assert (∀ z, queued sy0 st' z = queued sy0 st z) as Hq by (intros z; by apply queued_incoming).
  assert (∀ z, findEdge st' z = if decide (x = z) then Some (set_incoming pj s q) else findEdge st z) as Hf by (intros z; by eapply find_incoming).
  assert (line (during n st') = line (during n st)) as El.
  { unfold line. f_equal. cbn [ranks during]. apply list_eq. intros z. rewrite !list_lookup_imap. destruct (decide (z = y)) as [->|Hz].
    - rewrite !list_lookup_insert_eq by done. cbn. f_equal. unfold st'. rewrite incoming_line by done. apply line_ext. intros a. unfold on_line. cbn. unfold note_sent. by rewrite Nat.eqb_refl, Hq.
    - rewrite !list_lookup_insert_ne by done. destruct (ranks w0 !! z); [|done]. cbn. f_equal. apply line_ext. intros a. unfold on_line. cbn. unfold note_sent. by destruct (Nat.eqb_spec z y). }
  constructor.
  - apply (reading_wire n n st st'); [done|by apply incoming_ok|..].
    + intros z p Hz. rewrite Hf. exists (if decide (x = z) then set_incoming pj s q else p), []. rewrite app_nil_r. case_decide as E; [subst z; assert (p = pj) as -> by congruence|].
      all: split; [done|]; split; [done|]; intros m Em; rewrite Nat.add_0_r; split; [done|by intros i o].
    + intros z p Hz Hzx. exists p. rewrite Hf, decide_False by done. done.
    + intros p1 p1' p Hp1 Hp1' L. rewrite Hf, decide_True in Hp1' by done. injection Hp1' as <-. assert (p1 = pj) as -> by congruence. by apply HL.
  - intros z p0 Hp0. destruct (re_grow _ _ Hr z p0 Hp0) as (p & D & Hp & E). rewrite Hf. case_decide as Ez; [|by exists p, D].
    subst z. exists (set_incoming pj s q), D. split; [done|]. by assert (p = pj) as <- by congruence.
  - rewrite <- (app_nil_r (next n)). eapply handled_app; [apply Hr|]. eapply handled_note; [done|]. constructor.
  - apply Hr.
  - rewrite El. apply Hr.
  - rewrite El. apply Hr.
Qed.

(** The packet is acknowledged. *)
Lemma reading_start conn seq : reading 0 (emit (touch now sy0 conn) (Write conn (PMessageAck seq))).
Proof using All.
  set (st := emit _ _). destruct ends as (Hyw & Hne & Hxy & Hlt). assert (idle sy0 st) as Hid by (eapply idle_trans; [apply touch_idle|by apply silent_idle]).
  assert (∀ z, queued sy0 st z = []) as Hq by (intros z; unfold queued; change (findEdge st z) with (findEdge sy0 z); destruct (findEdge sy0 z); [by apply drop_all|done]).
  destruct (idle_wire N G cfgs nb dst Hmt w0 y sy0 st Hw0 Hyw Ey Hid) as [Hw He].
  assert (log w0 ++ handle_log sy0 x (next 0) = log w0) as Hl by (cbn; apply app_nil_r).
  assert (∀ a b, seen (during 0 st) a b = seen w0 a b) as Hs by (intros a b; cbn; unfold note_seen; destruct (_ && _); lia).
  assert (line (during 0 st) = line (mkWorld (<[y := st]> (ranks w0)) (note_sent (sent w0) y sy0 st) (seen w0) (calls w0) (log w0))) as El by (by apply line_world).
  constructor.
  - eapply wire_ext; [..|exact Hw]; done.
  - intros z p0 Hp0. exists p0, []. by rewrite app_nil_r.
  - unfold next. rewrite take_0. eapply handled_ack. constructor.
  - exists sy0. split; [unfold next; by rewrite take_0|]. split; [by apply (wi_net _ _ _ _ _ _ Hw0)|done].
  - rewrite El. by apply rtc_once.
  - rewrite El, (line_rank N G cfgs nb dst Hmt); [|done|done|done|rewrite (id_peers _ _ Hid); by eapply (no_wf _ _ _ _ _ _ (ne_node _ _ _ _ _ (wi_net _ _ _ _ _ _ Hw0) y sy0 Ey))].
    cbn [l_ranks plus]. unfold net_weight.
    pose proof (sum_insert (node_weight N dst) (l_ranks (line w0)) y _ (line_st (λ z, on_line w0 y z ++ queued sy0 st z) st) (line_at w0 y sy0 Ey)) as E.
    assert (line_st (λ z, on_line w0 y z ++ queued sy0 st z) st = line_st (on_line w0 y) st) as E' by (apply line_ext; intros z; by rewrite Hq, app_nil_r).
    rewrite E' in E |- *. change (node_weight N dst (line_st (on_line w0 y) st)) with (node_weight N dst (line_st (on_line w0 y) sy0)) in E. lia.
Qed.

Lemma next_snoc n o : S0 !! (k0 + n)%nat = Some o → next (S n) = next n ++ [obuffer o].
Proof using Type. intros H. unfold next. rewrite (take_S_r _ n o) by (by rewrite lookup_drop). by rewrite fmap_app. Qed.

(** The lines after the next message has been handled. *)
Lemma handle_lines n st st1 st2 o : reading n st → (∀ f, line_st f st2 = line_st f st1) → (∀ z, queued sy0 st2 z = queued sy0 st z ++ queued st st1 z) → (edgePeers st1).*1 = nb y →
  handle_log sy0 x (next (S n)) = handle_log sy0 x (next n) ++ executed_at st (obuffer o) →
  let w := during n st in
  line (during (S n) st2) = mkLines (<[y := line_st (λ z, on_line w y z ++ queued st st1 z) st1]> (<[x := line_st (on_line (during (S n) st2) x) sx]> (l_ranks (line w))))
    (calls w) (log w ++ executed_at st (obuffer o)).
Proof using All.
  intros Hr Hline Hq Hfst Hlog w. destruct ends as (Hyw & Hne & Hxy & Hlt). pose proof (re_wire _ _ Hr) as Hw.
  assert (length (l_ranks (line w)) = length (ranks w0)) as Hlen by (cbn; by rewrite length_imap, length_insert).
  unfold line at 1. f_equal; [|cbn; by rewrite Hlog, (assoc_L (++))]. apply list_eq. intros z. rewrite list_lookup_imap. cbn [ranks during].
  destruct (decide (z = y)) as [->|Hz]; [|destruct (decide (z = x)) as [->|Hzx]].
  - rewrite (list_lookup_insert_eq (ranks w0)), (list_lookup_insert_eq (<[x := _]> _)) by (rewrite ?length_insert, ?Hlen; done). cbn. f_equal. rewrite Hline.
    unfold line_st. f_equal. apply list_fmap_ext. intros i [a pa] Ha. cbn. do 2 f_equal. unfold on_line, w. cbn. unfold note_sent. rewrite Nat.eqb_refl, Hq, (assoc_L (++)).
    assert (note_seen (seen w0) x y (S n) y a = note_seen (seen w0) x y n y a) as -> by (unfold note_seen; by destruct (Nat.eqb_spec y x)). apply drop_note.
    assert (a ∈ nb y) as Hay by (rewrite <- Hfst; apply list_elem_of_fmap; exists (a, pa); split; [done|by eapply list_elem_of_lookup_2]).
    pose proof (wire_seen N G cfgs nb dst Hmt _ _ y a Hw Hyw Hay) as Hle. cbn in Hle. unfold note_sent in Hle. by rewrite Nat.eqb_refl in Hle.
  - rewrite (list_lookup_insert_ne (ranks w0)), (list_lookup_insert_ne (<[x := _]> _)), Ex by done. rewrite list_lookup_insert_eq; [done|]. rewrite Hlen. by eapply lookup_lt_Some.
  - rewrite (list_lookup_insert_ne (ranks w0)), (list_lookup_insert_ne (<[x := _]> _)), (list_lookup_insert_ne (l_ranks _)) by done.
    cbn. rewrite list_lookup_imap, list_lookup_insert_ne by done. destruct (ranks w0 !! z); [|done]. cbn. f_equal.
    apply line_ext. intros a. unfold on_line. destruct (during_other (S n) n st2 st z a) as [H1 H2]; [done|by right|]. unfold w. by rewrite H1, H2.
Qed.

Lemma handle_effect n st st1 st2 o : reading n st → S0 !! (k0 + n)%nat = Some o → msg_ok N cfgs dst x y (obuffer o) →
  (∀ f, line_st f st2 = line_st f st1) → (∀ z, queued sy0 st2 z = queued sy0 st z ++ queued st st1 z) → (edgePeers st1).*1 = nb y →
  outs (cfgs y) (line_st (on_line (during n st) y) st) (arrive_out cfgs nb y st (obuffer o) x) (line_st (λ z, on_line (during n st) y z ++ queued st st1 z) st1) →
  kv st1 = arrive_kv cfgs y st (obuffer o) → shut st1 = arrive_shut y st (obuffer o) →
  handle_log sy0 x (next (S n)) = handle_log sy0 x (next n) ++ executed_at st (obuffer o) →
  effect (line (during n st)) (line (during (S n) st2)) ∧
  (net_weight N dst (l_ranks (line (during (S n) st2))) < net_weight N dst (l_ranks (line (during n st))))%nat.
Proof using All.
  intros Hr Ho Hb Hline Hq Hfst Hou Hk Hs Hlog. destruct ends as (Hyw & Hne & Hxy & Hlt). pose proof (handle_lines n st st1 st2 o Hr Hline Hq Hfst Hlog) as El. cbn zeta in El.
  set (w := during n st) in *. pose proof (re_wire _ _ Hr) as Hw. fold w in Hw.
  destruct (during_sent n st) as [E1 E2]. fold w in E1, E2. pose proof (ne_node _ _ _ _ _ (wi_net _ _ _ _ _ _ Hw) x sx (during_x n st)) as Hnx.
  assert (on_line w x y = o :: drop (S (k0 + n)) S0) as Hon by (unfold on_line; rewrite E1, E2; by apply drop_S).
  assert (pop (line_st (on_line w x) sx) y (line_edge (on_line w x y) pi) (drop (S (k0 + n)) S0) = line_st (on_line (during (S n) st2) x) sx) as Hpop.
  { apply (pop_line _ _ _ _ _ o).
    - done.
    - rewrite (proj2 (no_wf _ _ _ _ _ _ Hnx)). by apply (nb_nodup N G cfgs nb dst Hmt).
    - intros z Hz. unfold on_line, w. destruct (during_other (S n) n st2 st x z) as [-> ->]; [done|by left|done].
    - done.
    - unfold on_line. destruct (during_sent (S n) st2) as [-> ->]. f_equal. lia. }
  assert (findEdge (line_st (on_line w x) sx) y = Some (line_edge (on_line w x y) pi)) as Hpl by (by rewrite find_line, Hpi).
  pose proof (line_at w x sx (during_x n st)) as Lx. pose proof (line_at w y st (during_y n st)) as Ly. rewrite El, <- Hpop. cbn [l_ranks].
  rewrite <- (arrive_line cfgs nb y (on_line w y)) in Hou. split.
  - eapply (effect_deliver N cfgs nb dst (line w) x y (line_st (on_line w x) sx) (line_st (on_line w y) st)); done.
  - eapply (deliver_weight N G cfgs nb dst Hmt); [by eapply line_ok|done|done|exact Lx|exact Ly|exact Hpl|exact Hon|done|done|done|done].
Qed.

Lemma queued_from st x' pj s q st1 z : findEdge st x' = Some pj → queued (putEdge st x' (set_incoming pj s q)) st1 z = queued st st1 z.
Proof using Type. intros H. unfold queued. rewrite (find_incoming _ _ _ _ _ H). case_decide as E; [|done]. subst z. by rewrite H. Qed.

(** The requests that the message carries out, and the state without the numbers. *)
Lemma handle_ghost n st o : reading n st → S0 !! (k0 + n)%nat = Some o → msg_ok N cfgs dst x y (obuffer o) →
  (∃ g, handle_all x sy0 (next (S n)) = Ok g ∧ node_ok y g ∧ kv g = arrive_kv cfgs y st (obuffer o) ∧ shut g = arrive_shut y st (obuffer o)) ∧
  handle_log sy0 x (next (S n)) = handle_log sy0 x (next n) ++ executed_at st (obuffer o).
Proof using All.
  intros Hr Ho Hb. destruct ends as (Hyw & _). destruct (re_ghost _ _ Hr) as (g & Hg & Hng & Hk & Hs). rewrite (next_snoc n o Ho).
  destruct (handle_snoc fmt resolveAddressSync shuffle_addrs now x sy0 (next n) g (obuffer o) Hg) as [H1 H2].
  destruct (arrive_ok fmt resolveAddressSync shuffle_addrs N G cfgs nb dst Hmt y now g (obuffer o) x Hyw Hng Hb) as (g' & E & _ & Hk' & Hs' & Hng').
  unfold arrive_kv, arrive_shut in *. rewrite Hk, Hs in *. split; [exists g'; by rewrite H1|]. rewrite H2. f_equal. unfold executed_at.
  by rewrite (proj1 (no_wf _ _ _ _ _ _ Hng)), (proj1 (no_wf _ _ _ _ _ _ (reading_node n st Hr))), Hk.
Qed.

(** Handling a message while what is expected changes before and after. *)
Lemma around_sends c st pj s0 q0 l st1 : findEdge st x = Some pj → outs c (putEdge st x (set_incoming pj s0 q0)) l st1 →
  ∃ pj1, findEdge st1 x = Some pj1 ∧ incomingSeq pj1 = s0 ∧ incomingQueue pj1 = q0 ∧
    ∀ s q, let st2 := putEdge st1 x (set_incoming pj1 s q) in
      sends st st2 ∧ (∀ z p, findEdge st z = Some p → ∃ p1 p2, findEdge st1 z = Some p1 ∧ findEdge st2 z = Some p2 ∧ outgoingQueue p2 = outgoingQueue p1) ∧
      ∀ z p, findEdge st z = Some p → z ≠ x → ∃ p', findEdge st2 z = Some p' ∧ incomingSeq p' = incomingSeq p ∧ incomingQueue p' = incomingQueue p.
Proof using Type.
  intros Hpj Hou. set (pj0 := set_incoming pj s0 q0) in *. set (st0 := putEdge st x pj0) in *.
  assert (∀ z, findEdge st0 z = if decide (x = z) then Some pj0 else findEdge st z) as Hf0 by (intros z; by eapply find_incoming).
  destruct (os_grown _ _ _ _ Hou x pj0) as (pj1 & Hpj1 & Hg); [by rewrite Hf0, decide_True|]. apply grown_same in Hg as (_ & _ & _ & I1 & I2 & _).
  exists pj1. do 3 (split; [done|]). intros s q st2.
  assert (∀ z, findEdge st2 z = if decide (x = z) then Some (set_incoming pj1 s q) else findEdge st1 z) as Hf2 by (intros z; by eapply find_incoming).
  assert (∀ z p, findEdge st z = Some p → ∃ p0 p1 p2, findEdge st0 z = Some p0 ∧ findEdge st1 z = Some p1 ∧ findEdge st2 z = Some p2 ∧ outgoingQueue p0 = outgoingQueue p ∧
    outgoingSeq p0 = outgoingSeq p ∧ outgoingQueue p2 = outgoingQueue p1 ∧ outgoingSeq p2 = outgoingSeq p1) as Hedges.
  { intros z p Hz. rewrite Hf2, Hf0. case_decide as Ez; [subst z; assert (p = pj) as -> by congruence; by exists pj0, pj1, (set_incoming pj1 s q)|].
    destruct (os_grown _ _ _ _ Hou z p) as (p1 & Hp1 & _); [by rewrite Hf0, decide_False|]. by exists p, p1, p1. }
  split_and!.
  - intros z p Hz. destruct (Hedges z p Hz) as (p0 & p1 & p2 & H0 & H1 & H2 & F1 & F2 & F3 & F4). destruct (proj1 (outs_sends _ _ _ _ Hou) z p0 H0) as (p1' & D & H1' & Eq & Hn).
    assert (p1' = p1) as -> by congruence. exists p2, D. rewrite F3, F4, <- F1, <- F2. done.
  - intros z p Hz. destruct (Hedges z p Hz) as (p0 & p1 & p2 & _ & H1 & H2 & _ & _ & F3 & _). by exists p1, p2.
  - intros z p Hz Hzx. destruct (os_grown _ _ _ _ Hou z p) as (p1 & Hp1 & Hg); [by rewrite Hf0, decide_False|]. apply grown_same in Hg as (_ & _ & _ & J1 & J2 & _).
    exists p1. by rewrite Hf2, decide_False.
Qed.

(** The next message is handled. *)
Lemma handle_step n st pj qa qb o : reading n st → findEdge st x = Some pj → S0 !! (k0 + n)%nat = Some o →
  (∀ e, e ∈ qb → e ∈ incomingQueue pj) → (∀ e, e ∈ incomingQueue pj → e.1 ≠ u32 (Z.of_nat (k0 + n)) → e ∈ qb) →
  ∃ st1 pj1, processMessage (putEdge st x (set_incoming pj (incomingSeq pj) qa)) (obuffer o) x = Ok st1 ∧ findEdge st1 x = Some pj1 ∧
    incomingSeq pj1 = incomingSeq pj ∧ incomingQueue pj1 = qa ∧ reading (S n) (putEdge st1 x (set_incoming pj1 (u32 (incomingSeq pj1 + 1)) qb)).
Proof using All.
  intros Hr Hpj Ho Hqb Hqb'. destruct ends as (Hyw & Hne & Hxy & Hlt). pose proof (reading_node n st Hr) as Hno. destruct (during_sent n st) as [E1 _].
  pose proof (wi_sent _ _ _ _ _ _ (re_wire _ _ Hr) x y Hx Hy) as Hb. rewrite E1, Forall_lookup in Hb. specialize (Hb _ _ Ho). cbn in Hb.
  set (st0 := putEdge st x _). assert (∀ f, line_st f st0 = line_st f st) as Hl0 by (intros f; by apply incoming_line).
  destruct (arrive_ok fmt resolveAddressSync shuffle_addrs N G cfgs nb dst Hmt y now st0 (obuffer o) x Hyw (incoming_ok _ _ _ _ _ _ _ _ _ _ Hno Hpj) Hb) as (st1 & E & Hou & Hk & Hs & Hno1).
  destruct (around_sends _ _ _ _ _ _ _ Hpj Hou) as (pj1 & Hpj1 & I1 & I2 & Haround). exists st1, pj1. do 4 (split; [done|]).
  destruct (Haround (u32 (incomingSeq pj1 + 1)) qb) as (Hsend & Hedges & Hhear). set (st2 := putEdge st1 x _) in *.
  assert (∀ z, queued sy0 st2 z = queued sy0 st z ++ queued st st1 z) as Hq.
  { intros z. destruct (findEdge st z) as [p|] eqn:Hz.
    - destruct (Hedges z p Hz) as (p1 & p2 & H1 & H2 & F3). destruct (Hsend z p Hz) as (p2' & D & H2' & Eq & _). assert (p2' = p2) as -> by congruence.
      rewrite (queued_app st st1 z p p1 D) by (try done; by rewrite <- F3). by eapply reading_queued.
    - unfold queued. rewrite Hz, app_nil_r. destruct (findEdge sy0 z) as [p0|] eqn:Hp0; [|done]. by destruct (re_grow _ _ Hr z p0 Hp0) as (q & ? & ? & _); congruence. }
  assert (arrive_out cfgs nb y st0 (obuffer o) x = arrive_out cfgs nb y st (obuffer o) x) as Hao by (by rewrite <- (arrive_line cfgs nb y (λ _, [])), Hl0, arrive_line).
  assert (node_ok y st2) as Hno2 by (by apply incoming_ok). destruct (handle_ghost n st o Hr Ho Hb) as [(g & Hg1 & Hg2 & Hg3 & Hg4) Hlog].
  destruct (handle_effect n st st1 st2 o) as [Heff Hwt]; try done.
  { intros f. by apply incoming_line. } { apply Hno1. }
  { rewrite Hao in Hou. apply (outs_line (cfgs y) (on_line (during n st) y)) in Hou. rewrite Hl0 in Hou.
    rewrite <- (line_ext (λ z, on_line (during n st) y z ++ queued st0 st1 z) _ st1); [exact Hou|]. intros z. unfold st0. by rewrite queued_from. }
  constructor.
  - apply (reading_wire n (S n) st st2); try done. intros p1 p1' p Hp1 Hp1' L. unfold st2 in Hp1'. rewrite (find_incoming _ _ _ _ _ Hpj1), decide_True in Hp1' by done.
    injection Hp1' as <-. assert (p1 = pj) as -> by congruence. replace (k0 + S n)%nat with (k0 + n + 1)%nat by lia.
    eapply link_handle; [exact L|by eapply lookup_lt_Some| |done|done]. cbn. by rewrite I1, <- (lk_seen _ _ _ _ _ _ L).
  - intros z p0 Hp0. destruct (re_grow _ _ Hr z p0 Hp0) as (p & D & Hp & Eq). destruct (Hsend z p Hp) as (p2 & D2 & Hp2 & Eq2 & _). exists p2, (D ++ D2). by rewrite Eq2, Eq, (assoc_L (++)).
  - rewrite (next_snoc n o Ho). eapply handled_app; [apply Hr|]. eapply handled_note; [exact Hpj|]. eapply handled_message; [exact E|]. eapply handled_note; [exact Hpj1|]. constructor.
  - exists g. split; [done|]. split; [done|]. split; [exact (eq_trans Hg3 (eq_sym Hk))|exact (eq_trans Hg4 (eq_sym Hs))].
  - eapply rtc_r; [apply Hr|exact Heff].
  - pose proof (re_weight _ _ Hr). lia.
Qed.

(** *** The early messages that follow *)

(** What is left in the queue comes later than the message expected next. *)
Definition ready (n : nat) (st : StoreImpl) : Prop := ∀ pj e, findEdge st x = Some pj → e ∈ incomingQueue pj →
  ∃ i o, S0 !! i = Some o ∧ e = (u32 (Z.of_nat i), obuffer o) ∧ Z.of_nat (k0 + n) < Z.of_nat i < Z.of_nat k0 + 2 ^ 31.

Local Abbreviation drain_incoming := (drain_incoming fmt resolveAddressSync shuffle_addrs now).
Local Abbreviation base := (u32 (Z.of_nat k0 + 1)).

(** The order of the queue is the order of the numbers. *)
Lemma queue_key n st pj e : reading n st → findEdge st x = Some pj → e ∈ incomingQueue pj →
  ∃ i o, S0 !! i = Some o ∧ e = (u32 (Z.of_nat i), obuffer o) ∧ Z.of_nat k0 + 1 ≤ Z.of_nat i < Z.of_nat k0 + 2 ^ 31 ∧ i32 (e.1 - base) = Z.of_nat i - (Z.of_nat k0 + 1).
Proof using All.
  intros Hr Hpj He. destruct (lk_in _ _ _ _ _ _ (reading_link n st pj Hr Hpj) e He) as (i & o & Hi & -> & Hw). exists i, o. split_and!; try done; try lia. cbn. apply i32_dist. lia.
Qed.

Lemma queue_drain_ok fuel n st pj : reading n st → findEdge st x = Some pj → StronglySorted (λ a b : Z * Buffer, i32 (a.1 - base) ≤ i32 (b.1 - base)) (incomingQueue pj) →
  (length (incomingQueue pj) ≤ fuel)%nat → Z.of_nat n ≤ 2 ^ 31 →
  ∃ n' st', drain_incoming fuel st x = Ok st' ∧ reading n' st' ∧ ready n' st' ∧ (n ≤ n')%nat ∧ Z.of_nat n' ≤ 2 ^ 31.
Proof using All.
  revert n st pj. induction fuel as [|fuel IH]; intros n st pj Hr Hpj Hsort Hlen Hn.
  { exists n, st. cbn [Store.drain_incoming]. unfold getEdge. rewrite Hpj. cbn [obind]. destruct (incomingQueue pj) eqn:Eq; [|cbn in Hlen; lia]. split_and!; try done.
    intros p e Hp He. assert (p = pj) as -> by congruence. rewrite Eq in He. by apply elem_of_nil in He. }
  cbn [Store.drain_incoming]. unfold getEdge. rewrite Hpj. cbn [obind]. destruct (incomingQueue pj) as [|[seq b] q] eqn:Eq.
  { exists n, st. split_and!; try done. intros p e Hp He. assert (p = pj) as -> by congruence. rewrite Eq in He. by apply elem_of_nil in He. }
  pose proof (reading_link n st pj Hr Hpj) as L. apply StronglySorted_inv in Hsort as [Hsort Hall]. cbn in Hlen.
  destruct (link_front _ _ _ _ _ _ (seq, b) L) as (i & o & Hi & E & Hw & Hd); [lia|lia|lia|rewrite Eq; by left|]. injection E as -> ->. cbn in Hd. rewrite Hd.
  assert (∀ p, findEdge (putEdge st x p) x = Some p) as Hput by (intros p; by rewrite (find_incoming _ _ _ _ _ Hpj), decide_True).
  destruct (Z.ltb_spec (Z.of_nat i - Z.of_nat (k0 + n)) 0) as [Hlt|Hge].
  - apply (IH n _ (set_incoming pj (incomingSeq pj) q)); [|by apply Hput|done|cbn; lia|done]. apply reading_note; [done|done|]. intros p Lp.
    eapply (link_stale _ _ _ _ _ _ _ (u32 (Z.of_nat i), obuffer o) q); [exact Lp|lia|lia|done|done|done|]. cbn. by rewrite <- (lk_seen _ _ _ _ _ _ L), Hd.
  - rewrite (lk_seen _ _ _ _ _ _ L). destruct (Z.eqb_spec (u32 (Z.of_nat i)) (u32 (Z.of_nat (k0 + n)))) as [E|Hne]; cbn [negb].
    + apply u32_inj in E; [|lia]. apply Nat2Z.inj in E as ->. rewrite <- (lk_seen _ _ _ _ _ _ L).
      destruct (handle_step n st pj q q o Hr Hpj Hi) as (st1 & pj1 & Ep & Hpj1 & I1 & I2 & Hr1).
      { intros e He. rewrite Eq. by right. } { intros e He Hne. rewrite Eq in He. apply elem_of_cons in He as [->|]; [done|done]. }
      rewrite Ep. cbn [obind]. rewrite Hpj1. cbn [obind]. rewrite I2.
      destruct (IH (S n) _ (set_incoming pj1 (u32 (incomingSeq pj1 + 1)) q) Hr1) as (n' & st' & H1 & H2 & H3 & H4 & H5); [by rewrite (find_incoming _ _ _ _ _ Hpj1), decide_True|done|cbn; lia|lia|].
      exists n', st'. split_and!; try done. lia.
    + exists n, st. split_and!; try done. intros p e Hp He. assert (p = pj) as -> by congruence. destruct (queue_key n st pj e Hr Hpj He) as (j & o' & Hj & -> & Hwj & Hkj).
      exists j, o'. split_and!; try done; try lia. destruct (queue_key n st pj (u32 (Z.of_nat i), obuffer o) Hr Hpj) as (i' & o'' & _ & E' & Hwi & Hki); [rewrite Eq; by left|].
      injection E' as E' _. apply u32_inj in E'; [|lia]. apply Nat2Z.inj in E' as <-. assert (i ≠ k0 + n)%nat by (by intros ->). rewrite Eq in He. apply elem_of_cons in He as [He|He].
      * injection He as He _. apply u32_inj in He; lia.
      * rewrite Forall_forall in Hall. specialize (Hall _ He). rewrite Hkj, Hki in Hall. lia.
Qed.

(** *** The whole packet *)

Lemma putEdge_id st z p : findEdge st z = Some p → putEdge st z p = st.
Proof using Type.
  intros H. unfold putEdge, findEdge, set_peers in *. destruct st as [g P cs fl ds rd sh k ou]. cbn in *. f_equal. induction P as [|[a pa] P IH]; [done|]. cbn in *. case_bool_decide; [congruence|]. by rewrite IH.
Qed.

Lemma set_incoming_id p : set_incoming p (incomingSeq p) (incomingQueue p) = p.
Proof using Type. by destruct p. Qed.

Lemma msg_ttl b : msg_ok N cfgs dst x y b → ttl (hdr b) ≠ 0.
Proof using All.
  intros (H1 & _ & _ & _ & H). destruct (broadcast (hdr b)); [|lia]. destruct H as (_ & _ & _ & H & _). pose proof (dst_lt N G cfgs nb dst Hmt (sourceRank (hdr b)) y H1 (proj1 ends)). lia.
Qed.

Lemma receive_ok conn i o : S0 !! i = Some o → Z.of_nat i < Z.of_nat k0 + 2 ^ 31 → Z.of_nat k0 ≤ Z.of_nat i + 2 ^ 31 →
  ∃ n st, receive_message fmt resolveAddressSync shuffle_addrs now sy0 conn x (obuffer o) = Ok st ∧ reading n st ∧ ready n st ∧ Z.of_nat n ≤ 2 ^ 31 ∧ (i = k0 → (0 < n)%nat).
Proof using All.
  intros Hi Hhi Hlo. destruct ends as (Hyw & Hne & Hxy & Hlt). set (st := emit (touch now sy0 conn) (Write conn (PMessageAck (hseq (hdr (obuffer o)))))).
  pose proof (reading_start conn (hseq (hdr (obuffer o)))) as Hr. fold st in Hr. destruct (reading_edge 0 st Hr) as [pj Hpj]. pose proof (reading_link 0 st pj Hr Hpj) as L.
  rewrite Nat.add_0_r in L. destruct (lk_num _ _ _ _ _ _ L i o Hi) as [_ Hseq]. cbn in Hseq.
  pose proof (wi_sent _ _ _ _ _ _ Hw0 x y Hx Hy) as Hb. rewrite Forall_lookup in Hb. specialize (Hb _ _ Hi). cbn in Hb.
  unfold receive_message. rewrite (proj2 (Z.eqb_neq _ _) (msg_ttl _ Hb)). cbn [negb CHECK obind]. unfold getEdge at 1. change (findEdge st x) with (findEdge sy0 x) in Hpj. rewrite Hpj. cbn [obind].
  fold st. change (findEdge sy0 x) with (findEdge st x) in Hpj. rewrite Hseq, (lk_seen _ _ _ _ _ _ L), i32_dist by lia.
  assert (ready 0 st) as Hready.
  { intros p e Hp He. assert (p = pj) as -> by congruence. destruct (lk_in _ _ _ _ _ _ L e He) as (j & o' & ? & ? & ?). exists j, o'. split_and!; try done; lia. }
  destruct (Z.geb_spec (Z.of_nat i - Z.of_nat k0) 0) as [Hge|Hneg]; [|exists 0%nat, st; split_and!; try done; lia].
  destruct (Z.eqb_spec (u32 (Z.of_nat i)) (u32 (Z.of_nat k0))) as [E|Hneq].
  - apply u32_inj in E; [|lia]. apply Nat2Z.inj in E as ->. set (base' := u32 (u32 (Z.of_nat k0) + 1)).
    destruct (handle_step 0 st pj (incomingQueue pj) (sort_incoming base' (incomingQueue pj)) o Hr Hpj) as (st1 & pj1 & Ep & Hpj1 & I1 & I2 & Hr1); [by rewrite Nat.add_0_r|..].
    { intros e. by rewrite sort_perm. } { intros e. by rewrite sort_perm. }
    rewrite set_incoming_id, (putEdge_id st x pj Hpj) in Ep. rewrite Ep. cbn [obind]. unfold getEdge. rewrite Hpj1. cbn [obind]. rewrite I2.
    assert (u32 (incomingSeq pj1 + 1) = base') as Eb by (by rewrite I1, (lk_seen _ _ _ _ _ _ L)). rewrite Eb in Hr1 |- *.
    destruct (queue_drain_ok (length (incomingQueue pj)) 1 _ (set_incoming pj1 base' (sort_incoming base' (incomingQueue pj))) Hr1) as (n' & st' & H1 & H2 & H3 & H4 & H5).
    + by rewrite (find_incoming _ _ _ _ _ Hpj1), decide_True.
    + assert (base' = u32 (Z.of_nat k0 + 1)) as -> by (unfold base'; rewrite u32_succ; f_equal; lia). apply sort_ok.
    + cbn. by rewrite (Permutation_length (sort_perm _ _)).
    + lia.
    + exists n', st'. split_and!; try done; lia.
  - assert (k0 < i)%nat as Hki by (destruct (Nat.eq_dec i k0) as [->|]; [done|lia]). exists 0%nat. eexists. split; [done|]. rewrite <- (lk_seen _ _ _ _ _ _ L). split; [|split_and!; [|lia|lia]].
    + apply reading_note; [done|done|]. rewrite Nat.add_0_r. intros p Lp. by apply link_early.
    + intros p e. rewrite (find_incoming _ _ _ _ _ Hpj), decide_True by done. intros [= <-]. cbn. intros [He| ->%list_elem_of_singleton]%elem_of_app; [by apply (Hready pj)|].
      exists i, o. split_and!; try done; lia.
Qed.

Lemma reading_done n st : reading n st → ready n st → wire_ok (during n st).
Proof using All.
  intros Hr Hrd. destruct (during_sent n st) as [E1 E2]. destruct (re_wire _ _ Hr) as [W1 W2 W3]. constructor; [done|done|]. intros a b sa sb pa pb Ha Hb Ea Eb Hpa Hpb.
  pose proof (W3 a b sa sb pa pb Ha Hb Ea Eb Hpa Hpb) as L. destruct (decide (a = x ∧ b = y)) as [[-> ->]|Hab].
  - destruct L as [L1 L2 L3 L4 L5 L6]. constructor; try done. intros e He. rewrite (during_y n st) in Eb. injection Eb as <-. destruct (Hrd pb e Hpb He) as (i & o & Hi & Ee & Hw).
    exists i, o. unfold window. rewrite E1, E2. split_and!; try done; cbn; lia.
  - assert (seen (during n st) a b = seen w0 a b) as Es.
    { cbn. unfold note_seen. destruct (Nat.eqb_spec a x), (Nat.eqb_spec b y); try done. naive_solver. }
    unfold window in *. by rewrite Es in *.
Qed.
End read.
