(* ===== verification/StoreActFacts.v ===== *)
(** * Every action of the network succeeds

    Whatever the environment does, the code returns normally, the invariants of
    files StoreWireFacts and StoreKnowFacts are kept, and what has happened is what
    some steps of [Lines] do. *)

From Stdlib Require Import ZArith Lia.
From stdpp Require Import base gmap option list list_numbers relations strings.
From S2P Require Import Prelude StoreTopology StoreTopologyFacts Store StoreConn StoreBoot StoreTimer StoreRun StoreSendFacts StoreCalmFacts StoreReactFacts StoreStepFacts StoreNetFacts StoreConnFacts StoreBootFacts StoreTimerFacts StoreKnowFacts StoreRunFacts StoreThreadFacts.
From S2P Require Import StoreMailFacts StoreLogFacts StoreBookFacts StoreDrainFacts StoreLineFacts StoreLinkFacts StoreWireFacts StoreReadFacts.

Section act.
Context (fmt : Reason → string) (resolveAddressSync : string → list (list Z)) (shuffle_addrs : list (list Z) → list (list Z)).
Context (env : Env) (Henv : env_ok env).
Context (N : nat) (G : list (list nat)) (cfgs : nat → Config) (nb : nat → list nat) (dst : nat → nat → nat).
Context (Hmt : mesh_tables N G cfgs nb dst) (L : nat → gmap Z string).

Local Abbreviation node_ok := (node_ok N cfgs nb dst).
Local Abbreviation effect := (effect N cfgs nb dst).
Local Abbreviation wire_ok := (wire_ok N cfgs nb dst).
Local Abbreviation onreadtcp := (onreadtcp fmt resolveAddressSync shuffle_addrs).
Local Abbreviation act := (act fmt resolveAddressSync shuffle_addrs env).
Local Abbreviation enabled := (enabled env).
Local Abbreviation knowing := (knowing N cfgs nb (e_owner env) L).

(** ** Ranks and their connections *)

Lemma wire_rank w x : wire_ok w → (x < length (ranks w))%nat → ∃ st, (x < N)%nat ∧ ranks w !! x = Some st ∧ node_ok x st.
Proof using Type.
  intros Hw Hx. assert (x < N)%nat as Hx' by (by rewrite (ne_length _ _ _ _ _ (wi_net _ _ _ _ _ _ Hw)) in Hx).
  destruct (node_at N cfgs nb dst _ x (wi_net _ _ _ _ _ _ Hw) Hx') as (st & E & H). eauto.
Qed.

Lemma has_conn_spec w x c : wire_ok w → has_conn (ranks w) x c = true → ∃ st, (x < N)%nat ∧ ranks w !! x = Some st ∧ node_ok x st ∧ is_Some (conns st !! c).
Proof using Type.
  intros Hw. unfold has_conn. destruct (ranks w !! x) as [st|] eqn:E; [|done]. rewrite bool_decide_eq_true. intros H.
  destruct (wire_rank w x Hw) as (st' & Hx & E' & Hno); [by eapply lookup_lt_Some|]. assert (st' = st) as -> by congruence. eauto.
Qed.

Lemma no_conn_spec net x c st : net !! x = Some st → negb (has_conn net x c) = true → conns st !! c = None.
Proof using Type. intros E. unfold has_conn. rewrite E, negb_true_iff, bool_decide_eq_false, eq_None_not_Some. done. Qed.

(** The peer of a connection is a neighbor. *)
Lemma peer_of_spec w x c y : wire_ok w → peer_of (ranks w) x c = Some y →
  ∃ st ci, (x < N)%nat ∧ ranks w !! x = Some st ∧ node_ok x st ∧ conns st !! c = Some ci ∧ csource ci = Some y ∧ y ∈ nb x.
Proof using Type.
  intros Hw. unfold peer_of. rewrite bind_Some. intros (st & E & H). rewrite bind_Some in H. destruct H as (ci & Hc & Hs).
  destruct (wire_rank w x Hw) as (st' & Hx & E' & Hno); [by eapply lookup_lt_Some|]. assert (st' = st) as -> by congruence. exists st, ci. split_and!; try done.
  apply (cn_source _ _ _ (no_conns _ _ _ _ _ _ Hno) c). unfold source. by rewrite Hc.
Qed.

(** ** Packets *)

Lemma data_wire w now x y c i : wire_ok w → enabled w (AData now x y c i) = true →
  ∃ sy sy' n w', (x < N)%nat ∧ y ∈ nb x ∧ ranks w !! y = Some sy ∧ ranks w' !! y = Some sy' ∧ read_data fmt resolveAddressSync shuffle_addrs w now x y c i = Ok w' ∧
    wire_ok w' ∧ rtc effect (line w) (line w') ∧ seen w' x y = (seen w x y + n)%nat ∧ (i = seen w x y → (0 < n)%nat) ∧
    handled fmt resolveAddressSync shuffle_addrs now x sy (obuffer <$> take n (drop (seen w x y) (sent w x y))) sy' ∧
    (n + net_weight N dst (l_ranks (line w')) ≤ net_weight N dst (l_ranks (line w)))%nat.
Proof using Hmt.
  intros Hw. cbn [StoreRun.enabled]. rewrite !andb_true_iff, bool_decide_eq_true, Nat.ltb_lt, Z.ltb_lt, Z.leb_le. intros [[[Hp Hi] Hhi] Hlo].
  destruct (peer_of_spec w y c x Hw Hp) as (sy & ci & Hyw & Ey & Hoy & Hci & Hs & Hxy). destruct (nb_lt N G cfgs nb dst Hmt y x Hyw Hxy) as (Hx & _ & Hy).
  destruct (wire_ends N G cfgs nb dst Hmt _ w x y Hw Hx Hy) as (sx & sy1 & pi & pj & Ex & Ey1 & Hpi & Hpj & Hlk). assert (sy1 = sy) as -> by congruence.
  destruct (lookup_lt_is_Some_2 _ _ Hi) as [o Ho].
  destruct (receive_ok fmt resolveAddressSync shuffle_addrs now N G cfgs nb dst Hmt w x y Hw Hx Hy sx sy pi Ex Ey Hpi c i o Ho Hhi Hlo) as (n & st & E & Hr & Hrd & Hn & Hpos).
  pose proof (reading_done fmt resolveAddressSync shuffle_addrs now N G cfgs nb dst Hmt w x y Hw Hx Hy sx sy pi Ex Ey Hpi n st Hr Hrd) as Hw'.
  destruct (reading_edge fmt resolveAddressSync shuffle_addrs now N G cfgs nb dst Hmt w x y Hw Hx Hy sx sy pi Ex Ey Hpi n st Hr) as [pj' Hpj'].
  pose proof (lk_seen _ _ _ _ _ _ (reading_link fmt resolveAddressSync shuffle_addrs now N G cfgs nb dst Hmt w x y Hw Hx Hy sx sy pi Ex Ey Hpi n st pj' Hr Hpj')) as Hs'.
  exists sy, st, n, (during fmt resolveAddressSync shuffle_addrs now w x y sy n st). do 3 (split; [done|]).
  split; [cbn; apply list_lookup_insert_eq; by eapply lookup_lt_Some|]. split; [|split_and!; try done; try apply Hr].
  - unfold read_data, getEdge. rewrite Ey. cbn [of_option obind]. rewrite Hpj. cbn [obind]. rewrite Ho. cbn [of_option obind].
    unfold Store.onreadtcp. rewrite Hci. cbn [of_option obind]. rewrite Hs, (proj1 (no_wf _ _ _ _ _ _ Hoy)), (proj2 (mt_rank _ _ _ _ _ Hmt y Hyw)), bool_decide_true by done.
    rewrite E. cbn [obind]. rewrite Hpj'. cbn [obind]. rewrite Hs', (lk_seen _ _ _ _ _ _ Hlk), u32_sub.
    assert (Z.to_nat (u32 (Z.of_nat (seen w x y + n) - Z.of_nat (seen w x y))) = n) as -> by (unfold u32; rewrite Z.mod_small; lia). done.
  - cbn. unfold note_seen. by rewrite !Nat.eqb_refl.
Qed.

(** ** All actions *)

(** A step that no other rank notices. *)
Lemma idle_act w x f st st' : wire_ok w → (x < N)%nat → ranks w !! x = Some st → f st = Ok st' → idle st st' →
  ∃ w', at_rank w x f = Ok w' ∧ wire_ok w' ∧ rtc effect (line w) (line w').
Proof using Hmt.
  intros Hw Hx Est Hf Hid. unfold at_rank. rewrite Est. cbn [of_option obind]. rewrite Hf. cbn [obind]. eexists. split; [done|].
  destruct (idle_wire N G cfgs nb dst Hmt w x st st' Hw Hx Est Hid) as [H1 H2]. split; [done|by apply rtc_once].
Qed.

Lemma introduce_act w now x y c reply : wire_ok w → is_edge (ranks w) x y = true → has_conn (ranks w) x c = true →
  ∃ w', act w (AIntroduce now x y c reply) = Ok w' ∧ wire_ok w' ∧ rtc effect (line w) (line w').
Proof using Hmt.
  intros Hw He Hc. apply (is_edge_ok N cfgs nb dst) in He as [Hx Hy]; [|apply Hw]. destruct (has_conn_spec w x c Hw Hc) as (st & _ & Est & Hno & Hcn).
  destruct (nb_lt N G cfgs nb dst Hmt x y Hx Hy) as (Hyw & _). destruct (node_at N cfgs nb dst _ y (wi_net _ _ _ _ _ _ Hw) Hyw) as (sy & Ey & Hoy).
  destruct (forward_ranks N G cfgs nb dst Hmt x y Hx Hy) as [Ef Hf].
  cbn [StoreRun.act]. unfold introduction. rewrite Est, Ey. cbn [of_option obind]. rewrite (proj1 (no_wf _ _ _ _ _ _ Hno)), (proj1 (no_wf _ _ _ _ _ _ Hoy)), (proj2 (mt_rank _ _ _ _ _ Hmt y Hyw)), Ef. cbn [obind].
  destruct (introduce_ok fmt resolveAddressSync shuffle_addrs N G cfgs nb dst Hmt x y now st c (myId (cfgs y)) reply Hx Hy Hno Hcn) as (st' & E & _ & H).
  unfold at_rank. rewrite Est. cbn [of_option obind]. cbn zeta in E. rewrite E. cbn [obind]. eexists. split; [done|]. destruct H as [[Hm Hr]|Hl].
  - destruct (turn_same cfgs nb x st st' Hm Hr) as [Hm' Hcl]. destruct (turn_wire N G cfgs nb dst Hmt w x st [] st' Hw Hx Est Hm' Hcl) as [H1 H2]. split; [done|by apply rtc_once].
  - destruct (link_wire N G cfgs nb dst Hmt w x y st _ st' Hw Hx Hy Est Hf Hl) as [H1 H2]. split; [done|by apply rtc_once].
Qed.

Lemma ack_act w now x y c i : wire_ok w → enabled w (AAck now x y c i) = true → ∃ w', act w (AAck now x y c i) = Ok w' ∧ wire_ok w' ∧ rtc effect (line w) (line w').
Proof using Hmt.
  intros Hw. cbn [StoreRun.enabled StoreRun.act]. rewrite !andb_true_iff, bool_decide_eq_true, Z.leb_le. intros [[Hp Ha] Hwin].
  destruct (peer_of_spec w x c y Hw Hp) as (st & ci & Hx & Est & Hno & Hci & Hs & Hy).
  destruct (ack_wire N G cfgs nb dst Hmt w now x y st c i Hw Hx Hy Est Ha Hwin) as (st' & E & H1 & H2). unfold at_rank. rewrite Est. cbn [of_option obind].
  unfold Store.onreadtcp. rewrite Hci. cbn [of_option obind]. rewrite Hs, E. cbn [obind]. eexists. split; [done|]. split; [done|by apply rtc_once].
Qed.

(** A step that the other ranks may notice. *)
Lemma turned_act w x f st st' : wire_ok w → (x < N)%nat → ranks w !! x = Some st → f st = Ok st' → turned cfgs nb x st st' →
  ∃ w', at_rank w x f = Ok w' ∧ wire_ok w' ∧ rtc effect (line w) (line w').
Proof using Hmt.
  intros Hw Hx Est Hf (ms & Hm & Hc). unfold at_rank. rewrite Est. cbn [of_option obind]. rewrite Hf. cbn [obind]. eexists. split; [done|].
  destruct (turn_wire N G cfgs nb dst Hmt w x st ms st' Hw Hx Est Hm Hc) as [H1 H2]. split; [done|by apply rtc_once].
Qed.

(** A datagram that may arrive is one that was sent, or one of another store. *)
Lemma enabled_genuine w now x socket from d taken st : ranks w !! x = Some st → enabled w (AUdp now x socket from d taken) = true →
  ∀ d', d = Some d' → datagram_key d' = storekey (cfg st) → genuine (e_owner env) (ranks w) x from d'.
Proof using Type.
  intros Est He d' -> Hkey. cbn [StoreRun.enabled] in He. rewrite Est, orb_true_iff, negb_true_iff, bool_decide_eq_false in He. destruct He as [He|He]; [done|by apply delivered_genuine].
Qed.

Lemma act_ok w a : wire_ok w → knowing (ranks w) → enabled w a = true → ∃ w', act w a = Ok w' ∧ wire_ok w' ∧ rtc effect (line w) (line w').
Proof using Hmt Henv.
  intros Hw Hk. destruct a as [now x y c i|now x y c i|now x y c reply|now x c reply|now x c|x c|now x c error|now x socket from d taken|now x addr|now x ch|now x timeout key m|now x].
  - intros He. destruct (data_wire w now x y c i Hw He) as (sy & sy' & n & w' & _ & _ & _ & _ & E & H1 & H2 & _). by exists w'.
  - by apply ack_act.
  - cbn [StoreRun.enabled]. rewrite andb_true_iff. intros [He Hc]. by apply introduce_act.
  - cbn [StoreRun.enabled StoreRun.act]. intros Hc. destruct (has_conn_spec w x c Hw Hc) as (st & Hx & Est & Hno & [ci Hci]).
    assert (∃ st', onreadtcp now st c (if reply then PKeepaliveAck else PKeepalive) = Ok st' ∧ idle st st') as (st' & E & Hid); [|by eapply idle_act].
    unfold Store.onreadtcp. rewrite Hci. cbn [of_option obind]. destruct reply; (eexists; split; [done|]); [apply touch_idle|]. eapply idle_trans; [apply touch_idle|by apply silent_idle].
  - cbn [StoreRun.enabled StoreRun.act]. rewrite andb_true_iff, bool_decide_eq_true. intros [Hx Hc]. destruct (wire_rank w x Hw Hx) as (st & Hx' & Est & _).
    destruct (accept_connection_ok now st c (no_conn_spec _ _ _ _ Est Hc)) as (st' & E & Hid). by eapply idle_act.
  - cbn [StoreRun.enabled StoreRun.act]. intros Hc. destruct (has_conn_spec w x c Hw Hc) as (st & Hx & Est & Hno & _). eapply idle_act; [done|done|done|done|apply close_conn_idle].
  - cbn [StoreRun.enabled StoreRun.act]. intros Hc. destruct (has_conn_spec w x c Hw Hc) as (st & Hx & Est & Hno & Hci).
    destruct (connection_lost_ok fmt now (cfgs x) (nb x) st c error (no_wf _ _ _ _ _ _ Hno) Hci) as (st' & E & Hid); [intros z; apply (no_conns _ _ _ _ _ _ Hno)|]. by eapply idle_act.
  - intros He. destruct (ranks w !! x) as [st|] eqn:Est; [|cbn [StoreRun.enabled] in He; by rewrite Est in He]. cbn [StoreRun.act].
    destruct (wire_rank w x Hw) as (_ & Hx & _ & _); [by eapply lookup_lt_Some|].
    destruct (udp_ok env Henv N G cfgs nb dst Hmt L (ranks w) now x st socket from d taken (wi_net _ _ _ _ _ _ Hw) Hk Est (enabled_genuine w now x socket from d taken st Est He)) as (st' & E & Hid & _).
    by eapply idle_act.
  - cbn [StoreRun.enabled StoreRun.act]. rewrite bool_decide_eq_true. intros Hx. destruct (wire_rank w x Hw Hx) as (st & Hx' & Est & Hno). eapply idle_act; [done|done|done|done|apply silent_idle, resolved_calm].
  - cbn [StoreRun.enabled StoreRun.act]. rewrite andb_true_iff, bool_decide_eq_true. intros [Hx Hc]. destruct (wire_rank w x Hw Hx) as (st & Hx' & Est & Hno).
    destruct (thread_ok fmt resolveAddressSync shuffle_addrs env Henv N G cfgs nb dst Hmt L (ranks w) now x st ch (wi_net _ _ _ _ _ _ Hw) Hk Est (no_conn_spec _ _ _ _ Est Hc)) as (st' & E & Ht & _). by eapply turned_act.
  - cbn [StoreRun.enabled StoreRun.act]. destruct (ranks w !! x) as [st|] eqn:Est; [|done]. rewrite andb_true_iff, bool_decide_eq_true, Z.ltb_lt. intros [Hkey Hid].
    destruct (wire_rank w x Hw) as (st' & Hx & _ & _); [by eapply lookup_lt_Some|].
    destruct (call_wire N G cfgs nb dst Hmt fmt resolveAddressSync shuffle_addrs w now x timeout key m st Hw Hx Est Hkey Hid) as (w' & E & H1 & H2). exists w'. split_and!; try done. by apply rtc_once.
  - cbn [StoreRun.enabled StoreRun.act]. rewrite bool_decide_eq_true. intros Hx. destruct (wire_rank w x Hw Hx) as (st & Hx' & Est & Hno). eapply turned_act; [done|done|done|done|]. exists []. apply close_turn.
Qed.

(** ** What ranks know *)

Lemma at_rank_calm w x f w' : (∀ st, calms st (f st)) → at_rank w x f = Ok w' → ∃ st st', ranks w !! x = Some st ∧ ranks w' = <[x := st']> (ranks w) ∧ calm st st'.
Proof using Type.
  intros Hf. unfold at_rank. destruct (ranks w !! x) as [st|] eqn:E; [|done]. cbn [of_option obind]. destruct (f st) as [st'| | | |] eqn:Ef; try done. cbn [obind]. intros [= <-].
  exists st, st'. split_and!; try done. by apply Hf.
Qed.

(** All but datagrams and timers change no table. *)
Lemma act_calm w a w' : act w a = Ok w' → (∃ x st st', ranks w !! x = Some st ∧ ranks w' = <[x := st']> (ranks w) ∧ calm st st') ∨
  (∃ now x socket from d taken, a = AUdp now x socket from d taken) ∨ ∃ now x ch, a = AThread now x ch.
Proof using Type.
  destruct a as [now x y c i|now x y c i|now x y c reply|now x c reply|now x c|x c|now x c error|now x socket from d taken|now x addr|now x ch|now x timeout key m|now x]; cbn [StoreRun.act];
    try (right; left; by eauto 7); try (right; right; by eauto); intros H; left.
  - unfold read_data in H. destruct (ranks w !! y) as [sy|] eqn:Ey; [|done]. cbn [of_option obind] in H. bind_inv H. destruct (sent w x y !! i); [|done]. cbn [of_option obind] in H.
    destruct (onreadtcp _ _ _ _) as [sy'| | | |] eqn:E1; try done. cbn [obind] in H. bind_inv H. injection H as <-. exists y, sy, sy'. split_and!; try done. by eapply calms_read.
  - exists x. eapply at_rank_calm; [|exact H]. intros. apply calms_read.
  - bind_inv H. exists x. eapply at_rank_calm; [|exact H]. intros. apply calms_read.
  - exists x. eapply at_rank_calm; [|exact H]. intros. apply calms_read.
  - exists x. eapply at_rank_calm; [|exact H]. intros st. unfold accept_connection. case_match; [apply calms_ok, calm_refl|apply calms_addConnection].
  - exists x. eapply at_rank_calm; [|exact H]. intros. apply calms_ok, calm_close_conn.
  - exists x. eapply at_rank_calm; [|exact H]. intros. apply calms_lost.
  - exists x. eapply at_rank_calm; [|exact H]. intros. apply calms_ok, resolved_calm.
  - unfold make_call in H. destruct (ranks w !! x) as [st|] eqn:Ex; [|done]. cbn [of_option obind] in H. destruct (doWaitOp _ _ _ _ _ _ _ _) as [[o st']| | | |] eqn:E1; try done. cbn [obind] in H.
    exists x, st, st'. split; [done|]. split; [|by eapply calm_call]. destruct (exited (shut st)); by injection H as <-.
  - exists x. eapply at_rank_calm; [|exact H]. intros. apply calms_ok, calm_close.
Qed.

Lemma act_knowing w a w' : wire_ok w → knowing (ranks w) → enabled w a = true → act w a = Ok w' → knowing (ranks w').
Proof using Hmt Henv.
  intros Hw Hk He Ha. pose proof (wi_net _ _ _ _ _ _ Hw) as Hn. destruct (act_calm w a w' Ha) as [(x & st & st' & Est & -> & Hc)|[(now & x & socket & from & d & taken & ->)|(now & x & ch & ->)]].
  - by eapply (knowing_calm N G cfgs nb dst Hmt).
  - cbn [StoreRun.act] in Ha. unfold at_rank in Ha. destruct (ranks w !! x) as [st|] eqn:Est; [|done]. cbn [of_option obind] in Ha.
    destruct (udp_ok env Henv N G cfgs nb dst Hmt L (ranks w) now x st socket from d taken Hn Hk Est (enabled_genuine w now x socket from d taken st Est He)) as (st' & E & _ & Hk').
    rewrite E in Ha. by injection Ha as <-.
  - cbn [StoreRun.act] in Ha. unfold at_rank in Ha. destruct (ranks w !! x) as [st|] eqn:Est; [|done]. cbn [of_option obind] in Ha. cbn [StoreRun.enabled] in He. apply andb_true_iff in He as [_ Hc].
    destruct (thread_ok fmt resolveAddressSync shuffle_addrs env Henv N G cfgs nb dst Hmt L (ranks w) now x st ch Hn Hk Est (no_conn_spec _ _ _ _ Est Hc)) as (st' & E & _ & Hk' & _).
    rewrite E in Ha. by injection Ha as <-.
Qed.
End act.
