(* ===== verification/StoreRefineFacts.v ===== *)
(** * Every reachable state

    The invariants of files StoreWireFacts, StoreKnowFacts, StoreAnswerFacts and
    StoreLiveFacts hold at the start and in every state that a run reaches. *)

From Stdlib Require Import ZArith Lia.
From stdpp Require Import base gmap option list list_numbers relations strings.
From S2P Require Import Prelude StoreTopology StoreTopologyFacts Store StoreConn StoreBoot StoreTimer StoreRun StoreSendFacts StoreCalmFacts StoreReactFacts StoreStepFacts StoreNetFacts StoreConnFacts StoreBootFacts StoreTimerFacts StoreKnowFacts StoreRunFacts StoreThreadFacts.
From S2P Require Import StoreMailFacts StoreLogFacts StoreBookFacts StoreAnswerFacts StoreLiveFacts StoreDrainFacts StoreLineFacts StoreLinkFacts StoreWireFacts StoreReadFacts StoreActFacts.

Local Set Warnings "-clear-no-such-hyp".

Section refine.
Context (fmt : Reason → string) (resolveAddressSync : string → list (list Z)) (shuffle_addrs : list (list Z) → list (list Z)).
Context (env : Env) (Henv : env_ok env).
Context (N : nat) (G : list (list nat)) (cfgs : nat → Config) (nb : nat → list nat) (dst : nat → nat → nat).
Context (Hmt : mesh_tables N G cfgs nb dst) (L : nat → gmap Z string).

Local Abbreviation net_ok := (net_ok N cfgs nb dst).
Local Abbreviation effect := (effect N cfgs nb dst).
Local Abbreviation wire_ok := (wire_ok N cfgs nb dst).
Local Abbreviation act := (act fmt resolveAddressSync shuffle_addrs env).
Local Abbreviation steps := (steps fmt resolveAddressSync shuffle_addrs env).
Local Abbreviation progress := (progress fmt resolveAddressSync shuffle_addrs env).
Local Abbreviation enabled := (enabled env).
Local Abbreviation knowing := (knowing N cfgs nb (e_owner env) L).

(** ** Runs *)

Definition good (w : World) : Prop := wire_ok w ∧ knowing (ranks w) ∧ books N (book (line w)) ∧ live (book (line w)).

Lemma effects_good a b : rtc effect a b → net_ok (l_ranks a) → books N (book a) → live (book a) → books N (book b) ∧ live (book b).
Proof using Hmt.
  assert (∀ r, (r < N)%nat → rank (cfgs r) = r) as Hr by (intros r Hr; apply (mt_rank _ _ _ _ _ Hmt r Hr)).
  induction 1 as [|a b d He _ IH]; [done|]. intros Hn Hb Hl. pose proof (effect_book N G cfgs nb dst Hmt a b Hn He) as Hs.
  apply IH; [by eapply (effect_ok N G cfgs nb dst Hmt)|by eapply step_books|by eapply step_live].
Qed.

Lemma act_good w a w' : good w → enabled w a = true → act w a = Ok w' → good w'.
Proof using Hmt Henv.
  intros (Hw & Hk & Hb & Hl) He Ha. destruct (act_ok fmt resolveAddressSync shuffle_addrs env Henv N G cfgs nb dst Hmt L w a Hw Hk He) as (w1 & E & Hw1 & Hs). assert (w1 = w') as -> by congruence.
  split; [done|]. split; [by eapply (act_knowing fmt resolveAddressSync shuffle_addrs env Henv N G cfgs nb dst Hmt L w a)|]. eapply effects_good; [done|by eapply line_ok|done|done].
Qed.

Lemma steps_good w w' : steps w w' → good w → good w'.
Proof using Hmt Henv. intros Hs Hg. induction Hs as [|w w1 w2 a _ IH He Ha]; [done|]. eapply act_good; [by apply IH|done|done]. Qed.

(** ** The start *)

Lemma fresh_line c es t b : line_st (λ _, []) (fresh_store N c es t b) = fresh_store N c es t b.
Proof using Type. unfold line_st, fresh_store, set_peers. cbn. f_equal. rewrite <- list_fmap_compose. by apply list_fmap_ext. Qed.

Lemma fresh_edge c es t b y pi : findEdge (fresh_store N c es t b) y = Some pi → pi = new_edge.
Proof using Type. unfold findEdge. cbn. induction es as [|e es IH]; [done|]. cbn. case_bool_decide; [by intros [= <-]|done]. Qed.

Lemma fresh_books (l : list StoreImpl) : (∀ r st, l !! r = Some st → ∃ t b, st = fresh_store N (cfgs r) (nb r) t b) →
  mkBook (kv <$> l) (net_mail l) [] [] = mkBook (replicate (length l) (mkKV 1 ∅ ∅ ∅ ∅)) [] [] [].
Proof using Type.
  intros Hst. f_equal.
  - apply list_eq_same_length with (length l); [by rewrite length_replicate|by rewrite length_fmap|]. intros r k k' Hr. rewrite list_lookup_fmap.
    destruct (l !! r) as [st|] eqn:E; [|done]. destruct (Hst r st E) as (t & b & ->). cbn. intros [= <-] [-> _]%lookup_replicate. done.
  - apply join_fmap_nil. intros st [r Hr]%list_elem_of_lookup. destruct (Hst r st Hr) as (t & b & ->). cbn. unfold peers_mail. rewrite <- list_fmap_compose. by apply join_fmap_nil.
Qed.

Lemma start_good w : net_ok (ranks w) → calls w = [] → log w = [] → (∀ x y, sent w x y = []) → (∀ x y, seen w x y = 0%nat) →
  (∀ r st, ranks w !! r = Some st → ∃ t b, st = fresh_store N (cfgs r) (nb r) t b) → knowing (ranks w) → good w.
Proof using Type.
  intros Hn Hc Hl Hs Hk Hf Hkn.
  assert (line w = mkLines (ranks w) [] []) as El.
  { unfold line. rewrite Hc, Hl. f_equal. apply list_eq. intros r. rewrite list_lookup_imap. destruct (ranks w !! r) as [st|] eqn:E; [|done]. cbn. f_equal.
    destruct (Hf r st E) as (t & b & ->). rewrite (line_ext _ (λ _, [])), fresh_line; [done|]. intros y. unfold on_line. by rewrite Hs, drop_nil. }
  split; [|split; [done|rewrite El; unfold book; cbn [l_ranks l_calls l_log]; rewrite (fresh_books _ Hf); split; [apply empty_books|apply empty_live]]].
  constructor; [done|intros x y _ _; rewrite Hs; constructor|]. intros x y sx sy pi pj Hx Hy Ex Ey Hpi Hpj. rewrite Hs.
  destruct (Hf x sx Ex) as (tx & bx & ->), (Hf y sy Ey) as (ty & bY & ->). apply fresh_edge in Hpi as ->. apply fresh_edge in Hpj as ->. unfold window. rewrite Hk.
  constructor; cbn; try done. by intros e ?%elem_of_nil.
Qed.

(** At the start nobody knows anything. *)
Lemma start_knowing hosts hostname port (l : list StoreImpl) : (∀ r, L r = local_addresses (h_local (hosts r))) →
  (∀ r st, l !! r = Some st → st = fresh_store N (cfgs r) (nb r) (fresh_timer (hosts r)) (fresh_boot N hosts hostname port r)) → knowing l.
Proof using Type.
  intros HL Hf. assert (∀ r st s ri, l !! r = Some st → ¬ registered st s ri) as Hno.
  { intros r st s ri Hr. rewrite (Hf r st Hr). unfold registered. cbn. intros [H _]%lookup_replicate. done. }
  constructor; [|intros st Hr s e ri rj _ _ H _; by apply (Hno _ _ _ _ Hr) in H]. intros r st Hr. constructor.
  - rewrite (Hf r st Hr). cbn. apply length_replicate.
  - intros s ri H. by apply (Hno _ _ _ _ Hr) in H.
  - rewrite (Hf r st Hr), HL. done.
  - by rewrite (Hf r st Hr).
  - rewrite (Hf r st Hr), HL. cbn. intros i [a Ha] Hn. congruence.
  - rewrite (Hf r st Hr). by intros socket addr d ?%elem_of_nil.
  - rewrite (Hf r st Hr). unfold waiting. cbn. intros p [->|[->|?%elem_of_nil]%elem_of_cons]%elem_of_cons; done.
  - rewrite (Hf r st Hr). constructor; [constructor|done].
  - intros y pi Hpi. rewrite (Hf r st Hr) in Hpi. apply fresh_edge in Hpi as ->. split; [constructor; [by left|apply map_empty_subseteq]|done].
Qed.

(** ** Lines and ranks *)

Lemma line_kvs w : kv <$> l_ranks (line w) = kv <$> ranks w.
Proof using Type. apply list_eq. intros r. cbn. rewrite !list_lookup_fmap, list_lookup_imap. by destruct (ranks w !! r). Qed.

Lemma line_kv w r st : ranks w !! r = Some st → bk_kvs (book (line w)) !! r = Some (kv st).
Proof using Type. intros H. cbn [book bk_kvs]. by rewrite line_kvs, list_lookup_fmap, H. Qed.

Lemma at_rest_mail w : wire_ok w → at_rest w → bk_mail (book (line w)) = [].
Proof using Type.
  intros Hw Hr. cbn. apply join_fmap_nil. intros sl [x Hx]%list_elem_of_lookup. rewrite list_lookup_imap in Hx. destruct (ranks w !! x) as [st|] eqn:Est; [|done].
  cbn in Hx. injection Hx as <-. apply join_fmap_nil. intros [y pi] Hin. cbn in Hin. apply list_elem_of_fmap in Hin as ([z pz] & [= -> ->] & Hin). cbn. unfold edge_mail. cbn.
  unfold on_line. rewrite drop_ge; [done|]. rewrite (Hr x z); [done|]. unfold is_edge. rewrite Est. apply bool_decide_eq_true, list_elem_of_fmap. by exists (z, pz).
Qed.

(** ** Progress *)

Lemma progress_weight w w' : good w → progress w w' →
  good w' ∧ (net_weight N dst (l_ranks (line w')) < net_weight N dst (l_ranks (line w)))%nat.
Proof using Hmt Henv.
  intros Hg (now & x & y & c & He & Ha). split; [by eapply act_good|]. cbn zeta in He, Ha.
  destruct (data_wire fmt resolveAddressSync shuffle_addrs env N G cfgs nb dst Hmt w now x y c _ (proj1 Hg) He) as (sy & sy' & n & w1 & _ & _ & _ & _ & E & _ & _ & _ & Hpos & _ & Hwt).
  cbn [StoreRun.act] in Ha. assert (w1 = w') as -> by congruence. specialize (Hpos eq_refl). lia.
Qed.

Lemma progress_bound n w w' : good w → nsteps progress n w w' → (n + net_weight N dst (l_ranks (line w')) ≤ net_weight N dst (l_ranks (line w)))%nat.
Proof using Hmt Henv.
  intros Hg Hs. induction Hs as [|n w w1 w2 Hp Hs IH]; [lia|]. destruct (progress_weight w w1 Hg Hp) as [Hg1 Hlt]. specialize (IH Hg1). lia.
Qed.

Lemma can_progress w x y c : good w → peer_of (ranks w) y c = Some x → (seen w x y < length (sent w x y))%nat → ∃ w', progress w w'.
Proof using Hmt Henv.
  intros (Hw & Hk & _) Hp Hlt.
  assert (enabled w (AData 0 x y c (seen w x y)) = true) as He.
  { cbn [StoreRun.enabled]. rewrite !andb_true_iff, bool_decide_eq_true, Nat.ltb_lt, Z.ltb_lt, Z.leb_le. split_and!; try done; lia. }
  destruct (act_ok fmt resolveAddressSync shuffle_addrs env Henv N G cfgs nb dst Hmt L w _ Hw Hk He) as (w' & Ha & _). exists w', 0, x, y, c. done.
Qed.
End refine.

(** ** Runs from the start *)

Section reachable.
Context (fmt : Reason → string) (resolveAddressSync : string → list (list Z)) (shuffle_addrs : list (list Z) → list (list Z)).
Context (env : Env) (Henv : env_ok env).
Context (worldSize : nat) (shuffle : Z → list nat → list nat) (draws : Z → list nat).
Context (shuffle_edges : nat → nat → list nat → list nat) (hosts : nat → Host) (storekey hostname : string) (port : Z).
Context `{Hgen : !Generator worldSize shuffle draws} (Hsh : ∀ r a l, shuffle_edges r a l ≡ₚ l).
Context (Hsmall : Z.of_nat worldSize < 2 ^ 31) (Hpos : (0 < worldSize)%nat).

Local Abbreviation reachable := (reachable fmt resolveAddressSync shuffle_addrs env worldSize shuffle draws shuffle_edges hosts storekey hostname port).

(** The addresses of the listeners of a rank. *)
Definition own_addresses (r : nat) : gmap Z string := local_addresses (h_local (hosts r)).

(** The invariant of every reachable state. *)
Lemma reachable_good w : reachable w → ∃ G cfgs nb dst, mesh_tables worldSize G cfgs nb dst ∧ good env worldSize cfgs nb dst own_addresses w ∧
  ∀ r, (r < worldSize)%nat → Store.storekey (cfgs r) = storekey ∧ myId (cfgs r) = h_id (hosts r).
Proof using Henv Hgen Hsh Hsmall Hpos.
  intros (w0 & Hs & Hw).
  destruct (start_ok worldSize shuffle draws shuffle_edges hosts storekey hostname port Hsh Hsmall w0 Hs Hpos) as (G & cfgs & nb & dst & _ & Hmt & Hn & Hc & Hl & Hse & Hk & Hf & Hid).
  exists G, cfgs, nb, dst. split; [done|]. split; [|done]. eapply steps_good; [done|done|exact Hw|]. apply start_good; try done.
  - intros r st Hr. rewrite (Hf r st Hr). eauto.
  - by eapply start_knowing.
Qed.

Lemma reachable_step w a w' : reachable w → enabled env w a = true → act fmt resolveAddressSync shuffle_addrs env w a = Ok w' → reachable w'.
Proof using Type. intros (w0 & Hs & Hw) He Ha. exists w0. split; [done|]. by eapply steps_step. Qed.
End reachable.
