(* ===== verification/StoreExample.v ===== *)
(** * A concrete store

    A small store on which the theorems of files StoreClaims and StoreBootClaims
    are instantiated: a generator that does not shuffle, three ranks, and what can
    be seen of their runs. *)

From Stdlib Require Import ZArith Lia.
From stdpp Require Import base gmap option list sorting strings.
From S2P Require Import Prelude StoreTopology StoreTopologyFacts Store StoreConn StoreBoot StoreTimer StoreRun StoreRunFacts.

Module example.

(** A generator that does not shuffle. *)
Definition shuffle (_ : Z) (l : list nat) : list nat := l.
Definition draws (_ : Z) : list nat :=
  [3; 0; 4; 5; 1; 2; 3; 0; 5; 1; 2; 4; 0; 3; 5; 1; 4; 2; 0; 1; 2; 3; 4; 5; 0; 2; 4; 1; 3; 5]%nat.
Definition no_draws (_ : Z) : list nat := [].
Definition shuffle_edges (_ : nat) (l : list nat) : list nat := l.

#[global] Instance generator : Generator 6 shuffle draws.
Proof. split; [done|]. intros s. unfold draws. repeat constructor; lia. Qed.

#[global] Instance no_generator worldSize : Generator worldSize shuffle no_draws.
Proof. split; [done|]. constructor. Qed.

Definition fmt (r : Reason) : string := "".
Definition resolve (s : string) : list (list Z) := [[1]].
Definition shuffle_addrs (l : list (list Z)) : list (list Z) := l.

(** Every address can be reached, address [r] is that of rank [r], and the sort is a merge sort. *)
Definition net (_ : nat) : Net := mkNet (λ _ _, true) "net".
Definition owner (a : list Z) : option nat := match a with [r] => Some (Z.to_nat r) | _ => None end.
Definition before (p q : Z * Callback) : Prop := p.1 ≤ q.1.
#[global] Instance before_dec p q : Decision (before p q).
Proof. unfold before. apply _. Defined.
Definition sort (l : list (Z * Callback)) : list (Z * Callback) := merge_sort before l.
Definition env : Env := mkEnv net owner (λ l, l) sort.

Lemma env_laws : env_ok env.
Proof.
  assert (Transitive before) as Ht by (intros p q r; unfold before; lia). assert (Total before) as Hto by (intros p q; unfold before; lia).
  constructor; [done|apply merge_sort_Permutation|]. intros l. assert (StronglySorted before (sort l)) as Hs by apply (StronglySorted_merge_sort _ _).
  cbn. induction Hs as [|p k Hk IH Hp]; cbn; constructor; [done|]. apply Forall_fmap. exact Hp.
Qed.

(** The machines of the ranks. *)
Definition id (r : nat) : string := match r with 0%nat => "zero" | 1%nat => "one" | _ => "two" end.
Definition address (r : nat) : string := match r with 0%nat => "10.0.0.1:1000" | 1%nat => "10.0.0.2:1000" | _ => "10.0.0.3:1000" end.
Definition hosts (r : nat) : Host := mkHost (id r) 10000 [address r] [address r] (λ _ _ _, true).

(** Three ranks. *)
Definition start : outcome World := start 3 shuffle no_draws (λ _, shuffle_edges) hosts "k" "host" 9000.
Definition act := act fmt resolve shuffle_addrs env.
Definition acts (l : list Action) : outcome World := let! w := start in acts fmt resolve shuffle_addrs env w l.
Definition all_enabled (l : list Action) : bool :=
  match start with Ok w => all_enabled fmt resolve shuffle_addrs env w l | _ => false end.
Definition reachable := reachable fmt resolve shuffle_addrs env 3 shuffle no_draws (λ _, shuffle_edges) hosts "k" "host" 9000.

Lemma acts_reachable l w : all_enabled l = true → acts l = Ok w → reachable w.
Proof.
  unfold all_enabled, acts. destruct start as [w0| | | |] eqn:E0; try done. cbn [obind]. intros He Ha. exists w0. split; [exact E0|].
  by apply (acts_steps _ _ _ _ l w0 w0); [constructor|..].
Qed.

(** What can be seen of a run. *)
Definition see {A} (l : list Action) (f : World → A) : option A := match acts l with Ok w => Some (f w) | _ => None end.

Lemma acts_see {A} l w (f : World → A) a : acts l = Ok w → see l f = Some a → f w = a.
Proof. unfold see. intros ->. by intros [= ->]. Qed.

Lemma see_acts {A} l (f : World → A) a : see l f = Some a → ∃ w, acts l = Ok w ∧ f w = a.
Proof. unfold see. destruct (acts l) as [w| | | |]; try done. intros [= <-]. eauto. Qed.

(** All edges of three ranks. *)
Lemma rest w :
  forallb (λ x, forallb (λ y, negb (is_edge (ranks w) x y) || (seen w x y =? length (sent w x y))%nat) [0; 1; 2]%nat) [0; 1; 2]%nat = true →
  length (ranks w) = 3%nat → forallb (λ st, forallb (λ y, y <? 3)%nat (edgePeers st).*1) (ranks w) = true → at_rest w.
Proof.
  intros Hf Hl Hp x y Hxy. assert (x < 3 ∧ y < 3)%nat as [Hx Hy].
  { unfold is_edge in Hxy. destruct (ranks w !! x) as [st|] eqn:Ex; [|done]. apply bool_decide_eq_true in Hxy. split; [rewrite <- Hl; by eapply lookup_lt_Some|].
    rewrite forallb_forall in Hp. specialize (Hp st). rewrite forallb_forall in Hp. apply Nat.ltb_lt, Hp; apply list_elem_of_In; [by eapply list_elem_of_lookup_2|done]. }
  rewrite forallb_forall in Hf. specialize (Hf x). rewrite forallb_forall in Hf.
  assert (∀ z, (z < 3)%nat → In z [0; 1; 2]%nat) as Hin by (intros z Hz; cbn; lia). specialize (Hf (Hin x Hx) y (Hin y Hy)). rewrite Hxy in Hf. cbn in Hf. by apply Nat.eqb_eq.
Qed.
End example.
