(* ===== verification/StoreClaims.v ===== *)
(** * What the store promises

    The theorems about core/store.cc, for the mesh that the ranks compute and
    for every run of all ranks, each with a concrete instance. *)

From Stdlib Require Import ZArith Lia.
From stdpp Require Import base gmap option list strings.
From S2P Require Import Prelude StoreTopology StoreTopologyFacts Store StoreConn StoreBoot StoreTimer StoreRun StoreSendFacts StoreCalmFacts StoreReactFacts StoreStepFacts StoreNetFacts StoreConnFacts StoreBootFacts StoreTimerFacts StoreKnowFacts StoreRunFacts StoreThreadFacts.
From S2P Require Import StoreMailFacts StoreLogFacts StoreBookFacts StoreAnswerFacts StoreLiveFacts StoreDrainFacts StoreLineFacts StoreLinkFacts StoreWireFacts StoreReadFacts StoreActFacts StoreRefineFacts StoreExample.

Local Set Warnings "-clear-no-such-hyp".

(** ** The mesh *)

(** C14: Once the shortcuts are drawn, [findPaths] never fails.  All ranks get the same graph: it is connected and
    symmetric, contains the ring, and no rank has more than four edges, which is what the constructor checks.  The first
    hop to every other rank is an edge that starts a shortest path to it, so a message that follows first hops gets
    closer with every hop. *)
Theorem findPaths_correct worldSize shuffle draws shuffle_edges storekey rank `{!Generator worldSize shuffle draws} :
  (∀ a l, shuffle_edges a l ≡ₚ l) → (rank < worldSize)%nat → mesh worldSize shuffle draws storekey ≠ NoFuel →
  ∃ G edges firsthop, mesh worldSize shuffle draws storekey = Ok G ∧ graph_ok worldSize G ∧ has_ring worldSize G ∧
    findPaths worldSize shuffle draws shuffle_edges storekey rank = Ok (edges, firsthop) ∧ tables_ok worldSize G rank edges firsthop ∧
    ∀ v, (v < worldSize)%nat → ∃ n, dist G rank v n ∧ (n < worldSize)%nat.
Proof.
  intros Hsh Hr Hm. destruct (findPaths_ok worldSize shuffle draws shuffle_edges Hsh storekey rank Hr Hm) as (G & edges & fh & EG & HG & HR & E & Ht).
  exists G, edges, fh. split_and!; try done. intros v Hv. destruct (dist_exists worldSize G edges fh rank v Ht Hr Hv) as [n Hn]. exists n. split; [done|].
  destruct (connected worldSize G rank v HG HR Hr Hv) as (k & Hk & Hlt). destruct Hn as [_ Hn]. specialize (Hn k Hk). lia.
Qed.

Lemma findPaths_correct_witness : ∃ G edges, mesh 6 example.shuffle example.draws "k" = Ok G ∧
  findPaths 6 example.shuffle example.draws example.shuffle_edges "k" 0 = Ok (edges, [0; 1; 2; 1; 4; 5]%nat) ∧ tables_ok 6 G 0 edges [0; 1; 2; 1; 4; 5]%nat.
Proof.
  destruct (findPaths_correct 6 example.shuffle example.draws example.shuffle_edges "k" 0) as (G & edges & fh & EG & _ & _ & E & Ht & _);
    [done|lia|by vm_compute|].
  exists G, edges. split; [done|]. assert (fh = [0; 1; 2; 1; 4; 5]%nat) as -> by (vm_compute in E; congruence). done.
Defined.

(** C15: The loop that draws the shortcut of a rank cannot get stuck: whatever the assignment of shortcuts is, some four
    draws of the generator end it.  So with a generator that gives every number the loop ends with probability one. *)
Theorem reroll_ends worldSize c i : (5 ≤ worldSize)%nat → c ≡ₚ seq 0 worldSize → (i < worldSize)%nat →
  ∃ d c', (length d ≤ 4)%nat ∧ Forall (λ x, (x < worldSize)%nat) d ∧ reroll worldSize d c i = Ok (c', []) ∧ c' ≡ₚ seq 0 worldSize ∧
    unsuitable worldSize c' i = Ok false.
Proof.
  intros Hw Hc Hi. destruct (reroll_can_end worldSize c i Hw Hc Hi) as (d & c' & Hl & Hd & E). exists d, c'. split_and!; try done.
  - destruct (reroll_ok worldSize d c i Hc Hi Hd) as [|(c1 & d1 & E1 & Hp & _)]; [congruence|]. rewrite E in E1. by injection E1 as <- _.
  - revert E. clear. revert c. induction d as [|x d IH]; intros c; cbn [reroll]; destruct (unsuitable worldSize c i) as [[]| | | |] eqn:Hu; try done; cbn [obind].
    + by intros [= <-].
    + destruct (vec_get c i) as [a| | | |]; try done. cbn [obind]. destruct (neighbors worldSize x a); [apply IH|].
      destruct (swap c i x) as [c1| | | |]; try done. cbn [obind]. apply IH.
Qed.

Lemma reroll_ends_witness : ∃ d c', (length d ≤ 4)%nat ∧ reroll 5 d [0; 1; 2; 3; 4]%nat 0 = Ok (c', []).
Proof.
  destruct (reroll_ends 5 [0; 1; 2; 3; 4]%nat 0) as (d & c' & Hl & _ & E & _); [lia|done|lia|]. by exists d, c'.
Defined.

(** ** Runs *)

Section claims.
Context (fmt : Reason → string) (resolveAddressSync : string → list (list Z)) (shuffle_addrs : list (list Z) → list (list Z)).
Context (env : Env) (Henv : env_ok env).
Context (worldSize : nat) (shuffle : Z → list nat → list nat) (draws : Z → list nat).
Context (shuffle_edges : nat → nat → list nat → list nat) (hosts : nat → Host) (storekey hostname : string) (port : Z).
Context `{Hgen : !Generator worldSize shuffle draws} (Hsh : ∀ r a l, shuffle_edges r a l ≡ₚ l).
Context (Hsmall : Z.of_nat worldSize < 2 ^ 31) (Hpos : (0 < worldSize)%nat).

Local Abbreviation act := (act fmt resolveAddressSync shuffle_addrs env).
Local Abbreviation enabled := (enabled env).
Local Abbreviation progress := (progress fmt resolveAddressSync shuffle_addrs env).
Local Abbreviation steps := (steps fmt resolveAddressSync shuffle_addrs env).
Local Abbreviation start := (start worldSize shuffle draws shuffle_edges hosts storekey hostname port).
Local Abbreviation reachable := (reachable fmt resolveAddressSync shuffle_addrs env worldSize shuffle draws shuffle_edges hosts storekey hostname port).

(** C1: The store is linearizable.  In every reachable state the log is a sequence of requests such that: carrying them
    out one after the other on a single table gives exactly the recorded answers and the values that the owners of the
    keys hold; no request occurs twice, and each belongs to a call that was made; a call that has returned without an
    error has its request in the log, and it returned the recorded answer.  A run only adds to the log and to the
    calls, so a request is carried out after its call was made and before the call returns.  Requests from any rank, for
    any key, with waiting callbacks, forwarding, shutdown, packets that are repeated or out of order, and connections
    that are lost in between. *)
Theorem store_linearizable w : reachable w →
  (∃ M, replay ∅ (log w) = Some M ∧ ∀ key st, ranks w !! storeRank worldSize key = Some st → store (kv st) !! key = M !! key) ∧
  NoDup ((λ e, (e_rank e, e_id e)) <$> log w) ∧
  (∀ e, e ∈ log w → ∃ c, c ∈ calls w ∧ c_rank c = e_rank e ∧ c_id c = e_id e ∧ c_msg c = e_msg e) ∧
  (∀ c, c ∈ calls w → ∃ st o, ranks w !! c_rank c = Some st ∧ waitObjs (kv st) !! c_wait c = Some o ∧
    ∀ now b data, wait_now now o = WaitDone b data → ∃ e, e ∈ log w ∧ e_rank e = c_rank c ∧ e_id e = c_id c ∧ e_msg e = c_msg c ∧
      b = (match e_reply e with ReplyBool b => b | _ => false end) ∧ data = (match e_reply e with ReplyValue v => v | _ => [] end)) ∧
  (∀ w', steps w w' → calls w `prefix_of` calls w' ∧ log w `prefix_of` log w').
Proof using Henv Hgen Hsh Hsmall Hpos.
  intros Hw. destruct (reachable_good _ _ _ _ Henv _ _ _ _ _ _ _ _ Hsh Hsmall Hpos w Hw) as (G & cfgs & nb & dst & _ & (_ & _ & Hb & _) & _). destruct (log_calls _ _ Hb) as [Hnd Hlog]. split_and!; try done.
  - destruct (tb_table _ _ (bo_tabled _ _ Hb)) as (M & HM & Hst). exists M. split; [done|]. intros key st H. apply Hst. by apply line_kv.
  - intros c Hc. destruct (nu_call _ (bo_numbered _ _ Hb) c Hc) as (k & Hk & _ & _). cbn [book bk_kvs] in Hk. rewrite line_kvs, list_lookup_fmap in Hk.
    destruct (ranks w !! c_rank c) as [st|] eqn:Est; [|done]. injection Hk as <-.
    assert (callers (calls w) (log w) (c_rank c) (kv st)) as Hcr by (apply (bo_served _ _ Hb); by apply line_kv).
    destruct (cr_calls _ _ _ _ Hcr c Hc eq_refl) as (o & Ho & H). exists st, o. split; [done|]. split; [done|]. intros now b data. unfold wait_now.
    destruct (futex o) eqn:Ef; [|repeat case_match; done]. destruct (werror o) eqn:Ee; [done|]. intros [= <- <-].
    destruct H as [[_ H]|(_ & _ & e & He & E1 & E2 & E3 & E4)]; [by destruct (H eq_refl)|]. exists e. split; [done|]. split; [done|]. split; [done|].
    destruct (Hlog e He) as (c' & Hc' & F1 & F2 & F3). assert (c' = c) as <-; [|done].
    apply (numbered_distinct _ (bo_numbered _ _ Hb)); [done|done|congruence|left; congruence].
  - intros w' Hs. by eapply steps_grow.
Qed.


(** C8: Every edge delivers its messages exactly once and in order, whatever packets arrive.  Of the messages from [x]
    to [y] in a reachable state, those that [y] has not handled are still kept: by [x], to be written again on the next
    connection, or by [y], when they came too early; the one that [y] expects next is kept by [x].  When a packet
    arrives, [y] handles exactly the next messages in the order in which they were sent, at least the one in the packet
    if that is the one expected. *)
Theorem store_link w : reachable w →
  (∀ x y sx sy pi pj i o, ranks w !! x = Some sx → ranks w !! y = Some sy → findEdge sx y = Some pi → findEdge sy x = Some pj → sent w x y !! i = Some o →
    (i < seen w x y)%nat ∨ o ∈ outgoingQueue pi ∨ (seen w x y < i)%nat ∧ (u32 (Z.of_nat i), obuffer o) ∈ incomingQueue pj) ∧
  (∀ now x y c i, enabled w (AData now x y c i) = true →
    ∃ sy sy' n w', act w (AData now x y c i) = Ok w' ∧ ranks w !! y = Some sy ∧ ranks w' !! y = Some sy' ∧ seen w' x y = (seen w x y + n)%nat ∧
      (seen w' x y ≤ length (sent w x y))%nat ∧ (i = seen w x y → (0 < n)%nat) ∧
      handled fmt resolveAddressSync shuffle_addrs now x sy (obuffer <$> take n (drop (seen w x y) (sent w x y))) sy').
Proof using Henv Hgen Hsh Hsmall Hpos.
  intros Hw. destruct (reachable_good _ _ _ _ Henv _ _ _ _ _ _ _ _ Hsh Hsmall Hpos w Hw) as (G & cfgs & nb & dst & Hmt & (Hwi & _) & _). split.
  - intros x y sx sy pi pj i o Ex Ey Hpi Hpj Hi. destruct (wire_rank worldSize cfgs nb dst w x Hwi) as (sx' & Hx & Ex' & Hno); [by eapply lookup_lt_Some|]. assert (sx' = sx) as -> by congruence.
    pose proof (peer_nb cfgs nb x sx y pi (no_wf _ _ _ _ _ _ Hno) Hpi) as Hy. pose proof (wi_link _ _ _ _ _ _ Hwi x y sx sy pi pj Hx Hy Ex Ey Hpi Hpj) as L.
    destruct (Nat.lt_ge_cases i (seen w x y)) as [?|Hge]; [by left|right]. destruct (lk_cover _ _ _ _ _ _ L i o Hi Hge) as [?|[Hlt He]]; [by left|right]. split; [|done].
    destruct (lk_in _ _ _ _ _ _ L _ He) as (j & o' & _ & [= E _] & Hr). cbn in Hr. apply u32_inj in E; lia.
  - intros now x y c i He.
    destruct (data_wire fmt resolveAddressSync shuffle_addrs env worldSize G cfgs nb dst Hmt w now x y c i Hwi He) as (sy & sy' & n & w' & Hx & Hy & Ey & Ey' & E & Hw' & _ & Hs & Hp & Hh & _).
    exists sy, sy', n, w'. split_and!; try done. pose proof (wire_seen worldSize G cfgs nb dst Hmt _ w' x y Hw' Hx Hy) as Hle.
    assert (sent w' x y = sent w x y) as <-; [|done]. destruct (nb_lt worldSize G cfgs nb dst Hmt x y Hx Hy) as (_ & Hne & _).
    unfold read_data in E. rewrite Ey in E. cbn [of_option obind] in E. destruct (getEdge sy x); try done. cbn [obind] in E. destruct (sent w x y !! i); [|done]. cbn [of_option obind] in E.
    destruct (onreadtcp _ _ _ _ _ _ _) as [s| | | |]; try done. cbn [obind] in E. destruct (getEdge s x); try done. injection E as <-. cbn. unfold note_sent. by destruct (Nat.eqb_spec x y).
Qed.

End claims.

(** ** Three ranks *)

(** Rank 1 has a connection to rank 0, which sets a key of rank 1, where a caller waits for it.  The request
    arrives before the message that was sent before it. *)
Definition example_run : list Action :=
  [AAccept 0 1 0; AIntroduce 0 1 0 0 false; ACall 0 0 1000 "a" (messageSet "a" [7]); ACall 0 1 1000 "a" (messageGet "a"); AData 1 0 1 0 1; AData 2 0 1 0 0].


Lemma store_linearizable_witness : ∃ w, example.acts example_run = Ok w ∧
  log w = [mkEntry 0 1 (messageSet "a" [7]) ReplyNone; mkEntry 1 1 (messageGet "a") (ReplyValue [7])] ∧
  (ranks w !! 1%nat ≫= λ st, wait_now 3 <$> waitObjs (kv st) !! 0%nat) = Some (WaitDone false [7]) ∧ NoDup ((λ e, (e_rank e, e_id e)) <$> log w).
Proof.
  destruct (example.acts example_run) as [w| | | |] eqn:E; [|exfalso; by apply (f_equal (λ o : outcome World, match o with Ok _ => true | _ => false end)) in E; vm_compute in E..].
  destruct (store_linearizable example.fmt example.resolve example.shuffle_addrs example.env example.env_laws 3 example.shuffle example.no_draws (λ _, example.shuffle_edges) example.hosts "k" "host" 9000) with w
    as (_ & Hnd & _); [done|lia|lia|apply (example.acts_reachable example_run); [by vm_compute|done]|].
  exists w. split; [done|]. split; [|split; [|exact Hnd]].
  - apply (example.acts_see example_run w log); [done|]. by vm_compute.
  - apply (example.acts_see example_run w (λ w, ranks w !! 1%nat ≫= λ st, wait_now 3 <$> waitObjs (kv st) !! 0%nat)); [done|]. by vm_compute.
Defined.

(** A caller at rank 0 asks for a key of rank 2 that nobody has set, and all messages have been handled. *)
Definition example_wait : list Action := [AAccept 0 2 0; AIntroduce 0 2 0 0 false; ACall 0 0 1000 "b" (messageGet "b"); AData 1 0 2 0 0; AData 2 0 2 0 1].

Definition example_sleeper : Call := mkCall 0 1 (messageGet "b") 0.


Lemma store_link_witness : ∃ w sy sy' w', example.acts (take 5 example_run) = Ok w ∧ seen w 0 1 = 0%nat ∧ ranks w !! 1%nat = Some sy ∧
  example.act w (AData 2 0 1 0 0) = Ok w' ∧ seen w' 0 1 = 2%nat ∧ ranks w' !! 1%nat = Some sy' ∧
  handled example.fmt example.resolve example.shuffle_addrs 2 0 sy (obuffer <$> take 2 (drop 0 (sent w 0 1))) sy'.
Proof.
  destruct (example.acts (take 5 example_run)) as [w| | | |] eqn:E; [|exfalso; by apply (f_equal (λ o : outcome World, match o with Ok _ => true | _ => false end)) in E; vm_compute in E..].
  destruct (store_link example.fmt example.resolve example.shuffle_addrs example.env example.env_laws 3 example.shuffle example.no_draws (λ _, example.shuffle_edges) example.hosts "k" "host" 9000) with w
    as (_ & Hread); [done|lia|lia|apply (example.acts_reachable (take 5 example_run)); [by vm_compute|done]|].
  destruct (Hread 2 0%nat 1%nat 0%nat 0%nat) as (sy & sy' & n & w' & Ea & Ey & Ey' & Es & _ & _ & Hh).
  { apply (example.acts_see (take 5 example_run) w (λ w, enabled example.env w (AData 2 0 1 0 0))); [done|]. by vm_compute. }
  assert (seen w 0 1 = 0%nat) as E0 by (apply (example.acts_see (take 5 example_run) w (λ w, seen w 0 1)); [done|by vm_compute]).
  assert (example.acts example_run = Ok w') as E'.
  { unfold example.acts in *. destruct example.start as [w0| | | |]; try done. cbn [obind] in *. change example_run with (take 5 example_run ++ [AData 2 0 1 0 0]). revert E Ea. clear.
    generalize (take 5 example_run). intros l. revert w0. induction l as [|a l IH]; intros w0; cbn [app acts]; [intros [= ->] ->; done|].
    destruct (act _ _ _ _ w0 a); try done. cbn [obind]. apply IH. }
  assert (seen w' 0 1 = 2%nat) as E2 by (apply (example.acts_see example_run w' (λ w, seen w 0 1)); [done|by vm_compute]).
  assert (n = 2%nat) as -> by lia. rewrite E0 in Hh. exists w, sy, sy', w'. do 6 (split; [assumption||reflexivity|]). exact Hh.
Defined.
