(* ===== verification/StoreBootClaims.v ===== *)
(** * What the start of the store promises

    The theorems about how ranks find each other and about the timer thread, each
    with a concrete instance. *)

From Stdlib Require Import ZArith Lia.
From stdpp Require Import base gmap option list sorting strings.
From S2P Require Import Prelude StoreTopology StoreTopologyFacts Store StoreConn StoreBoot StoreTimer StoreRun StoreSendFacts StoreCalmFacts StoreReactFacts StoreStepFacts StoreNetFacts.
From S2P Require Import StoreConnFacts StoreBootFacts StoreTimerFacts StoreKnowFacts StoreRunFacts StoreThreadFacts StoreWireFacts StoreActFacts StoreRefineFacts StoreExample.

Local Set Warnings "-clear-no-such-hyp".

Section claims.
Context (fmt : Reason → string) (resolveAddressSync : string → list (list Z)) (shuffle_addrs : list (list Z) → list (list Z)).
Context (env : Env) (Henv : env_ok env).
Context (worldSize : nat) (shuffle : Z → list nat → list nat) (draws : Z → list nat).
Context (shuffle_edges : nat → nat → list nat → list nat) (hosts : nat → Host) (storekey hostname : string) (port : Z).
Context `{Hgen : !Generator worldSize shuffle draws} (Hsh : ∀ r a l, shuffle_edges r a l ≡ₚ l).
Context (Hsmall : Z.of_nat worldSize < 2 ^ 31) (Hpos : (0 < worldSize)%nat).

Local Abbreviation act := (act fmt resolveAddressSync shuffle_addrs env).
Local Abbreviation enabled := (enabled env).
Local Abbreviation reachable := (reachable fmt resolveAddressSync shuffle_addrs env worldSize shuffle draws shuffle_edges hosts storekey hostname port).
Local Abbreviation own_addresses := (own_addresses hosts).

(** C9: The ranks find each other, whatever datagrams are lost, repeated or reordered, and next to datagrams of other
    stores.  What a rank knows of a neighbor is true: the addresses are those of its listeners and the name is its
    name, so that the neighbor will accept the introduction; and it only ever connects to such an address.  When a rank
    stops sending its addresses because rank 0 has acknowledged them all, rank 0 has them all.  Of two neighbors that
    rank 0 has heard of, one has had a connection to the other, or rank 0 has a callback waiting that sends the addresses
    of one of them to the other, as long as rank 0 is not closed. *)
Theorem store_introduces w : reachable w →
  (∀ x y st pi, ranks w !! x = Some st → findEdge st y = Some pi →
    addresses (eaddr pi) ⊆ own_addresses y ∧ (addresses (eaddr pi) ≠ ∅ → uid (eaddr pi) = h_id (hosts y))) ∧
  (∀ x st t a y u, ranks w !! x = Some st → (t, ConnectAddress a y u) ∈ waiting (timer st) →
    is_edge (ranks w) x y = true ∧ u = h_id (hosts y) ∧ ∃ i, own_addresses y !! i = Some a) ∧
  (∀ x st st0, ranks w !! x = Some st → ranks w !! 0%nat = Some st0 → connectAcked (boot st) = true →
    ∀ i a, own_addresses x !! i = Some a → ∃ ri, rankInfos (boot st0) !! x = Some (Some ri) ∧ raddresses ri !! i = Some a) ∧
  (∀ st0 s e ri rj, ranks w !! 0%nat = Some st0 → closed (shut st0) = false → is_edge (ranks w) s e = true →
    rankInfos (boot st0) !! s = Some (Some ri) → rankInfos (boot st0) !! e = Some (Some rj) →
    met (ranks w) s e ∨ met (ranks w) e s ∨ pending st0 (SendAddresses s e) ∨ pending st0 (SendAddresses e s)).
Proof using Henv Hgen Hsh Hsmall Hpos.
  intros Hw. destruct (reachable_good _ _ _ _ Henv _ _ _ _ _ _ _ _ Hsh Hsmall Hpos w Hw) as (G & cfgs & nb & dst & Hmt & (Hwi & [Hk H0] & _) & Hid).
  pose proof (wi_net _ _ _ _ _ _ Hwi) as Hn.
  assert (∀ x st, ranks w !! x = Some st → (x < worldSize)%nat) as Hlt by (intros x st Hx; rewrite <- (ne_length _ _ _ _ _ Hn); by eapply lookup_lt_Some). split_and!.
  - intros x y st pi Hx Hpi. pose proof (peer_nb cfgs nb x st y pi (no_wf _ _ _ _ _ _ (ne_node _ _ _ _ _ Hn x st Hx)) Hpi) as Hy.
    destruct (nb_lt worldSize G cfgs nb dst Hmt x y (Hlt x st Hx) Hy) as (Hyw & _). destruct (if_edge _ _ _ _ _ _ _ _ (Hk x st Hx) y pi Hpi) as [[U A] _].
    split; [done|]. intros Hne. destruct U as [?|U]; [done|]. by rewrite U, (proj2 (Hid y Hyw)).
  - intros x st t a y u Hx Hin. destruct (if_callback _ _ _ _ _ _ _ _ (Hk x st Hx) _ Hin) as (Hy & -> & Ha).
    destruct (nb_lt worldSize G cfgs nb dst Hmt x y (Hlt x st Hx) Hy) as (Hyw & _). split; [apply (is_edge_ok worldSize cfgs nb dst); [done|]; split; [by eapply Hlt|done]|].
    split; [by rewrite (proj2 (Hid y Hyw))|done].
  - intros x st st0 Hx Hz Hc i a Ha. pose proof (Hk x st Hx) as Hin. destruct (if_known _ _ _ _ _ _ _ _ Hin i) as (ri & Hri & [b Hb]).
    + by eexists.
    + by rewrite (if_acked _ _ _ _ _ _ _ _ Hin Hc), lookup_empty.
    + apply (noted_registered (ranks w) st0 x ri Hz) in Hri. exists ri. split; [done|]. pose proof (in_addresses _ _ _ _ _ _ (if_info _ _ _ _ _ _ _ _ (Hk 0%nat st0 Hz) x ri Hri)) as Hs.
      pose proof (lookup_weaken _ _ _ _ Hb Hs) as E. congruence.
  - intros st0 s e ri rj Hz Hop He Hri Hrj. apply (is_edge_ok worldSize cfgs nb dst) in He as [Hs Hes]; [|done]. destruct (nb_lt worldSize G cfgs nb dst Hmt s e Hs Hes) as (Hew & _ & Hse).
    pose proof (proj1 (no_wf _ _ _ _ _ _ (ne_node _ _ _ _ _ Hn 0%nat st0 Hz))) as Hc. pose proof (nb_mesh worldSize G cfgs nb dst Hmt 0 st0) as Hm.
    pose proof (λ a r H, in_connected _ _ _ _ _ _ (if_info _ _ _ _ _ _ _ _ (Hk 0%nat st0 Hz) a r H)) as Hmet.
    destruct (H0 st0 Hz s e ri rj) as [H|H]; [by apply Hm; [eapply Hlt|..]|by apply Hm; [eapply Hlt|..]|done|done|destruct (H Hop rj Hrj)|destruct (H Hop ri Hri)]; eauto.
Qed.

(** C10: The timer thread runs every callback, none before its time, and the earliest first.  In a round of an open store
    either no callback that waits is due and nothing changes, or one whose time has come, and that is not later than any
    other, is taken out and run; all others keep waiting, and those that it adds wait too, unless it closes the store.
    The queue is kept sorted although callbacks are only sorted when one comes out of order. *)
Theorem store_timers w x st now ch : reachable w → ranks w !! x = Some st → enabled w (AThread now x ch) = true → closed (shut st) = false →
  ∃ w' st', act w (AThread now x ch) = Ok w' ∧ ranks w' !! x = Some st' ∧
    ((∃ t, st' = set_timer st t ∧ waiting t ≡ₚ waiting (timer st) ∧ ∀ p, p ∈ waiting t → now < p.1) ∨
     ∃ time f t, waiting (timer st) ≡ₚ (time, f) :: waiting t ∧ time ≤ now ∧ (∀ p, p ∈ waiting t → time ≤ p.1) ∧
       run_callback fmt resolveAddressSync shuffle_addrs (e_net env x) (e_shuffle env) now (set_timer st t) f ch = Ok st' ∧
       (closed (shut st') = false → ∃ new, waiting (timer st') ≡ₚ waiting t ++ new)).
Proof using Henv Hgen Hsh Hsmall Hpos.
  intros Hw Hx He Hop. destruct (reachable_good _ _ _ _ Henv _ _ _ _ _ _ _ _ Hsh Hsmall Hpos w Hw) as (G & cfgs & nb & dst & Hmt & (Hwi & Hk & _) & _).
  cbn [StoreRun.enabled] in He. apply andb_true_iff in He as [_ Hc].
  destruct (thread_ok fmt resolveAddressSync shuffle_addrs env Henv worldSize G cfgs nb dst Hmt _ (ranks w) now x st ch (wi_net _ _ _ _ _ _ Hwi) Hk Hx (no_conn_spec _ _ _ _ Hx Hc)) as (st' & E & _ & _ & Hr).
  eexists _, st'. split; [cbn [StoreRun.act]; unfold at_rank; rewrite Hx; cbn [of_option obind]; by rewrite E|]. split; [cbn; apply list_lookup_insert_eq; by eapply lookup_lt_Some|].
  destruct Hr as [t Hcl|t _ Hp Hd|time f t st' _ Hp Hle Hmin Er Hca]; [congruence|left; by exists t|right]. exists time, f, t. split_and!; try done.
  intros Ho. destruct (ca_keep _ _ Hca Ho) as [new Hnew]. exists new. unfold waiting. rewrite (ca_callbacks _ _ Hca), Hnew. cbn. by rewrite (assoc_L (++)).
Qed.
End claims.

(** ** Three ranks *)

(** Ranks 1 and 2 tell rank 0 their addresses, and rank 0 tells rank 1 that of rank 2. *)
Definition example_choice : Choice := mkChoice 7 3 true.
Definition example_hello (r : nat) : list Action :=
  [AThread 10000 r example_choice; AResolved 10000 r [0]; AThread 10000 r example_choice; AThread 10000 r example_choice; AThread 10000 r example_choice].
Definition example_connect (r : nat) : Datagram := DConnect "k" r (example.id r) "net" [(0, example.address r)].
Definition example_meeting : list Action :=
  example_hello 1 ++ example_hello 2 ++
  [AUdp 10010 0 0 [1] (Some (example_connect 1)) (λ _, true); AUdp 10010 0 0 [2] (Some (example_connect 2)) (λ _, true);
   AUdp 10020 1 0 [0] (Some (DConnectAck "k" 1 "one" [0])) (λ _, true);
   AUdp 10030 1 0 [0] (Some (DAddresses "k" 2 "two" "net" [(0, example.address 2)])) (λ _, true)].

Lemma store_introduces_witness : ∃ w st0 st1, example.acts example_meeting = Ok w ∧ ranks w !! 0%nat = Some st0 ∧ ranks w !! 1%nat = Some st1 ∧
  (10030, ConnectAddress (example.address 2) 2 "two") ∈ waiting (timer st1) ∧ (∃ i, own_addresses example.hosts 2 !! i = Some (example.address 2)) ∧
  (met (ranks w) 2 1 ∨ met (ranks w) 1 2 ∨ pending st0 (SendAddresses 2 1) ∨ pending st0 (SendAddresses 1 2)).
Proof.
  destruct (example.see_acts example_meeting (λ w, (match ranks w !! 1%nat with Some st => bool_decide ((10030, ConnectAddress (example.address 2) 2 "two") ∈ waiting (timer st)) | None => false end,
    match ranks w !! 0%nat with Some st => (negb (closed (shut st)) && is_edge (ranks w) 2 1, ruid <$> mjoin (rankInfos (boot st) !! 2%nat), ruid <$> mjoin (rankInfos (boot st) !! 1%nat)) | None => (false, None, None) end))
    (true, (true, Some "two", Some "one"))) as (w & E & Hf); [by vm_compute|].
  destruct (store_introduces example.fmt example.resolve example.shuffle_addrs example.env example.env_laws 3 example.shuffle example.no_draws (λ _, example.shuffle_edges) example.hosts "k" "host" 9000) with w
    as (_ & Hc & _ & Hp); [done|lia|lia|apply (example.acts_reachable example_meeting); [by vm_compute|done]|].
  destruct (ranks w !! 1%nat) as [st1|] eqn:E1; [|discriminate Hf]. destruct (ranks w !! 0%nat) as [st0|] eqn:E0; [|discriminate Hf]. injection Hf as H1 H2 H3 H4.
  apply bool_decide_eq_true in H1. rewrite andb_true_iff, negb_true_iff in H2. destruct H2 as [H2 H2'].
  destruct (rankInfos (boot st0) !! 2%nat) as [[ri|]|] eqn:R2; [|discriminate H3..]. destruct (rankInfos (boot st0) !! 1%nat) as [[rj|]|] eqn:R1; [|discriminate H4..].
  exists w, st0, st1. do 4 (split; [assumption|]). split; [exact (proj2 (proj2 (Hc 1%nat st1 _ _ _ _ E1 H1)))|]. exact (Hp st0 2%nat 1%nat ri rj eq_refl H2 H2' R2 R1).
Defined.

Lemma store_timers_witness : ∃ w st w' st' time f t, example.acts example_meeting = Ok w ∧ ranks w !! 1%nat = Some st ∧
  example.act w (AThread 10040 1 example_choice) = Ok w' ∧ ranks w' !! 1%nat = Some st' ∧ waiting (timer st) ≡ₚ (time, f) :: waiting t ∧ time ≤ 10040 ∧
  run_callback example.fmt example.resolve example.shuffle_addrs (example.net 1) (λ l, l) 10040 (set_timer st t) f example_choice = Ok st'.
Proof.
  destruct (example.see_acts example_meeting (λ w, match ranks w !! 1%nat with
    | Some st => bool_decide ((10030, ConnectAddress (example.address 2) 2 "two") ∈ waiting (timer st)) && negb (closed (shut st)) && enabled example.env w (AThread 10040 1 example_choice)
    | None => false end) true) as (w & E & Hf); [by vm_compute|].
  destruct (ranks w !! 1%nat) as [st|] eqn:E1; [|discriminate Hf]. rewrite !andb_true_iff, negb_true_iff, bool_decide_eq_true in Hf. destruct Hf as [[H1 H2] H3].
  destruct (store_timers example.fmt example.resolve example.shuffle_addrs example.env example.env_laws 3 example.shuffle example.no_draws (λ _, example.shuffle_edges) example.hosts "k" "host" 9000) with w 1%nat st 10040 example_choice
    as (w' & st' & Ha & Hw' & H); [done|lia|lia|apply (example.acts_reachable example_meeting); [by vm_compute|exact E]|exact E1|exact H3|exact H2|].
  destruct H as [(t & _ & Hp & Hd)|(time & f & t & Hp & Hle & _ & Hr & _)]; [rewrite <- Hp in H1; apply Hd in H1; cbn in H1; lia|].
  exists w, st, w', st', time, f, t. do 6 (split; [assumption|]). exact Hr.
Defined.
