(* ===== verification/StoreFormatFacts.v ===== *)
(** * The bytes of the store's messages

    The laws of fields: what is written can be read back, and every object of the
    field's type has a value.  From them, what [onreadudp] and [onreadtcp] make of
    bytes that were written by another rank, that were cut short, or that are
    anything at all. *)

From Stdlib Require Import ZArith Lia Ascii String.
From stdpp Require Import base gmap option list strings.
From S2P Require Import Prelude Serialization SerializationFacts SerializationTyping StoreTopology Store StoreFormat.

(** ** Fields *)

Section laws.
Context (max_elems : Z).

(** The type can be read safely, values in [fits] come back, and every object has a value. *)
Class FieldOk {A} (f : Field A) (fits : A → Prop) : Prop := {
  fo_plain : plain (f_ty f) = true;
  fo_slow : scalar_or_slow (f_ty f) = true;
  fo_safe : safe_ty max_elems (f_ty f) = true;
  fo_inhabited : inhabited (f_ty f) = true;
  fo_size a : 1 ≤ zlength (enc (f_val f a));
  fo_typed a : fits a → zlength (enc (f_val f a)) ≤ max_elems → has_ty max_elems (f_ty f) (f_val f a);
  fo_back a : fits a → f_get f (f_val f a) = Some a;
  fo_total v : well_typed max_elems (f_ty f) v → is_Some (f_get f v)
}.

Class FieldsOk {A} (fs : Fields A) (fits : A → Prop) : Prop := {
  fs_plain : forallb plain (fs_ty fs) = true;
  fs_slow : forallb scalar_or_slow (fs_ty fs) = true;
  fs_safe : forallb (safe_ty max_elems) (fs_ty fs) = true;
  fs_inhabited : forallb inhabited (fs_ty fs) = true;
  fs_typed a : fits a → zlength (enc_all (fs_val fs a)) ≤ max_elems → fields (has_ty max_elems) (fs_ty fs) (fs_val fs a);
  fs_back a : fits a → fs_get fs (fs_val fs a) = Some a;
  fs_total vs : fields (well_typed max_elems) (fs_ty fs) vs → is_Some (fs_get fs vs)
}.
End laws.

(** Compute which branch a signature takes. *)
Ltac dispatch :=
  cbv beta iota delta [signed_datagram signed_packet Z.eqb Pos.eqb signatureConnect signatureConnectAck signatureAddresses signatureAddressesAck
    signatureMessage signatureMessageAck signatureKeepalive signatureKeepaliveAck signatureDiagnosticHello signatureDiagnosticHelloAck signatureDiagnosticInfo].

Section instances.
Context (max_elems : Z) (Hmax : 0 ≤ max_elems < 2 ^ 61).

Local Abbreviation FieldOk := (FieldOk max_elems).
Local Abbreviation FieldsOk := (FieldsOk max_elems).

#[global] Instance fnil_ok : FieldsOk fnil (λ _, True).
Proof. split; try done; [by intros []|intros []; [by eexists|done]]. Qed.

#[global] Instance fcons_ok {A B} (f : Field A) (fs : Fields B) P Q :
  FieldOk f P → FieldsOk fs Q → FieldsOk (fcons f fs) (λ p, P p.1 ∧ Q p.2).
Proof using.
  intros Hf Hfs. split; cbn [fs_ty fs_val fs_get fcons forallb].
  - by rewrite (fo_plain max_elems), (fs_plain max_elems).
  - by rewrite (fo_slow max_elems), (fs_slow max_elems).
  - by rewrite (fo_safe max_elems), (fs_safe max_elems).
  - by rewrite (fo_inhabited max_elems), (fs_inhabited max_elems).
  - intros [a b] [Ha Hb] Hl. cbn [fst snd] in *. rewrite enc_all_cons, zlength_app in Hl. pose proof (zlength_nonneg (enc_all (fs_val fs b))).
    pose proof (zlength_nonneg (enc (f_val f a))). split; [by apply (fo_typed max_elems); [|lia]|by apply (fs_typed max_elems); [|lia]].
  - intros [a b] [Ha Hb]. cbn [fst snd] in *. by rewrite (fo_back max_elems) by done; cbn; rewrite (fs_back max_elems).
  - intros [|v vs] Hv; [done|]. destruct Hv as [Hv Hvs]. destruct (fo_total max_elems v Hv) as [a ->], (fs_total max_elems vs Hvs) as [b ->]. by eexists.
Qed.

Lemma le_bytes_zlength n x : zlength (le_bytes n x) = Z.of_nat n.
Proof. unfold zlength. by rewrite length_le_bytes. Qed.

#[global] Instance fuint_ok n : (0 < n)%nat → FieldOk (fuint n) (λ x, 0 ≤ x < 256 ^ Z.of_nat n).
Proof using.
  intros Hn. split; cbn [fuint f_ty f_val f_get]; try done.
  - cbn. lia.
  - intros x. cbn [enc]. rewrite le_bytes_zlength. lia.
  - intros x _ _. cbn. apply le_bytes_zlength.
  - intros x Hx. by rewrite le_value_bytes.
  - intros [] Hv; try done; by eexists.
Qed.

#[global] Instance fmap_field_ok {A B} (to : A → B) (from : B → A) (f : Field A) P :
  FieldOk f P → FieldOk (fmap_field to from f) (λ b, P (from b) ∧ to (from b) = b).
Proof using.
  intros Hf. split; cbn [fmap_field f_ty f_val f_get]; try apply Hf.
  - intros b. apply (fo_size max_elems).
  - intros b [Hb _]. by apply (fo_typed max_elems).
  - intros b [Hb Heq]. rewrite (fo_back max_elems) by done. cbn. by rewrite Heq.
  - intros v Hv. destruct (fo_total max_elems v Hv) as [a ->]. by eexists.
Qed.

Lemma string_of_bytes_of_string s : string_of_bytes (bytes_of_string s) = s.
Proof. induction s as [|c s IH]; [done|]. cbn. by rewrite N2Z.id, ascii_N_embedding, IH. Qed.

#[global] Instance fview_ok : FieldOk fview (λ _, True).
Proof using Hmax.
  split; cbn [fview f_ty f_val f_get]; try done.
  - intros s. cbn [enc]. rewrite zlength_app, length_size_t. pose proof (zlength_nonneg (bytes_of_string s)). lia.
  - intros s _ Hl. cbn [enc has_ty] in *. rewrite zlength_app, length_size_t in Hl. split_and!; [done|done|unfold view_size; rewrite Z.div_1_r; lia|lia].
  - intros s _. by rewrite string_of_bytes_of_string.
  - intros [] Hv; try done; by eexists.
Qed.

#[global] Instance fstring_ok : FieldOk fstring (λ _, True).
Proof using Hmax.
  split; cbn [fstring f_ty f_val f_get]; try done.
  - intros s. cbn [enc]. rewrite zlength_app, length_size_t. pose proof (zlength_nonneg (bytes_of_string s)). lia.
  - intros s _ Hl. cbn [enc has_ty] in *. rewrite zlength_app, length_size_t in Hl. lia.
  - intros s _. by rewrite string_of_bytes_of_string.
  - intros [] Hv; try done; by eexists.
Qed.

#[global] Instance frec_ok {A B} k (f : Field A) (fs : Fields B) P :
  FieldsOk (fcons f fs) P → (∀ a, 1 ≤ zlength (enc (f_val f a))) → FieldOk (frec k (fcons f fs)) P.
Proof using.
  intros Hfs Hs. set (g := fcons f fs) in *. split; cbn [frec f_ty f_val f_get].
  - cbn [plain]. by rewrite (fs_plain max_elems), (fs_slow max_elems).
  - destruct k; [done|done|apply orb_true_r].
  - apply (fs_safe max_elems).
  - apply (fs_inhabited max_elems).
  - intros [a b]. cbn [enc g fcons fs_val fst map concat]. rewrite zlength_app. specialize (Hs a). pose proof (zlength_nonneg (concat (map enc (fs_val fs b)))). cbn [snd]. lia.
  - intros a Ha Hl. by apply (fs_typed max_elems).
  - intros a Ha. by apply (fs_back max_elems).
  - intros [] Hv; try done; by apply (fs_total max_elems).
Qed.

Lemma field_weaken {A} (f : Field A) (P Q : A → Prop) : FieldOk f P → (∀ a, Q a → P a) → FieldOk f Q.
Proof. intros [] H. split; auto. Qed.

Lemma enc_all_bounds vs v : v ∈ vs → zlength (enc v) ≤ zlength (enc_all vs).
Proof.
  induction vs as [|w vs IH]; intros Hv; [by apply not_elem_of_nil in Hv|]. rewrite enc_all_cons, zlength_app. pose proof (zlength_nonneg (enc w)). pose proof (zlength_nonneg (enc_all vs)).
  apply elem_of_cons in Hv as [->|Hv]; [lia|]. specialize (IH Hv). lia.
Qed.

Lemma enc_all_count vs : Forall (λ v, 1 ≤ zlength (enc v)) vs → zlength vs ≤ zlength (enc_all vs).
Proof. induction 1 as [|v vs Hv _ IH]; [done|]. rewrite enc_all_cons, zlength_app, zlength_cons. lia. Qed.

#[global] Instance flist_ok {A} (f : Field A) P :
  FieldOk f P → is_string_view (f_ty f) = false → sizeof (f_ty f) ≤ 8 → FieldOk (flist f) (Forall P).
Proof using Hmax.
  intros Hf Hv Hsz. split; cbn [flist f_ty f_val f_get].
  - cbn [plain]. by rewrite (fo_plain max_elems), (fo_slow max_elems), Hv.
  - done.
  - cbn [safe_ty]. rewrite (fo_safe max_elems). apply Z.ltb_lt. nia.
  - apply (fo_inhabited max_elems).
  - intros l. cbn [enc]. rewrite zlength_app, length_size_t. pose proof (zlength_nonneg (concat (map enc (f_val f <$> l)))). lia.
  - intros l Hl Hs. cbn [enc] in Hs. rewrite zlength_app, length_size_t in Hs. fold (enc_all (f_val f <$> l)) in Hs. cbn [has_ty].
    pose proof (enc_all_count (f_val f <$> l)) as Hc. split_and!; [|transitivity (zlength (enc_all (f_val f <$> l)))|lia].
    + apply Forall_fmap, Forall_forall. intros a Ha. rewrite Forall_forall in Hl. cbn. apply (fo_typed max_elems); [by apply Hl|].
      pose proof (enc_all_bounds (f_val f <$> l) (f_val f a) ltac:(by apply list_elem_of_fmap_2)). lia.
    + apply Hc, Forall_fmap, Forall_true. intros a. apply (fo_size max_elems).
    + lia.
  - intros l Hl. apply mapM_Some_2, Forall2_fmap_l, Forall_Forall2_diag. eapply Forall_impl; [exact Hl|]. apply (fo_back max_elems).
  - intros [] Hw; try done. apply mapM_is_Some. destruct Hw as [Hw _]. eapply Forall_impl; [exact Hw|]. intros v. apply (fo_total max_elems).
Qed.

(** *** The fields of the store *)

#[global] Instance fu32_ok : FieldOk fu32 (λ x, 0 ≤ x < 2 ^ 32).
Proof. apply (fuint_ok 4). lia. Qed.
#[global] Instance frank_ok : FieldOk frank (λ r, Z.of_nat r < 2 ^ 32).
Proof. eapply field_weaken; [by apply fmap_field_ok, fu32_ok|]. intros r Hr. cbn. lia. Qed.
#[global] Instance fbool_ok : FieldOk fbool (λ _, True).
Proof. eapply field_weaken; [by apply fmap_field_ok, (fuint_ok 1); lia|]. by intros []. Qed.

Definition kind_fits (k : DiagnosticKind) : Prop := match k with OtherKind b => 3 ≤ b < 256 | _ => True end.

#[global] Instance fkind_ok : FieldOk fkind kind_fits.
Proof.
  eapply field_weaken; [by apply fmap_field_ok, (fuint_ok 1); lia|]. intros [| | |b]; cbn; try done. intros Hb. unfold kind_of_byte.
  destruct (Z.eqb_spec b 0), (Z.eqb_spec b 1), (Z.eqb_spec b 2); lia || (split; [lia|done]).
Qed.

#[global] Instance fbytes_ok : FieldOk fbytes (Forall byte).
Proof using Hmax. by apply flist_ok; [apply (fuint_ok 1); lia|..]. Qed.

#[global] Instance faddresses_ok : FieldOk faddresses (Forall (λ p, 0 ≤ p.1 < 2 ^ 32)).
Proof using Hmax.
  eapply field_weaken; [apply flist_ok; [eapply frec_ok; [exact _|]|done|done]|].
  - intros a. apply (fo_size max_elems).
  - intros l Hl. eapply Forall_impl; [exact Hl|]. by intros [i [a []]].
Qed.

(** ** Reading what was written *)

Section back.
Context {A} (fs : Fields A) (P : A → Prop) `{!FieldsOk fs P}.

Lemma fields_plain : plain (TRec KTuple (fs_ty fs)) = true.
Proof using FieldsOk0. cbn [plain]. by rewrite (fs_plain max_elems), (fs_slow max_elems). Qed.

Lemma read_args_enc a more : P a → zlength (enc_all (fs_val fs a)) ≤ max_elems → zlength (enc_all (fs_val fs a) ++ more) < 2 ^ 64 →
  read_args max_elems fs (enc_all (fs_val fs a) ++ more) = Ok (a, more).
Proof using FieldsOk0 Hmax.
  intros Ha Hl Hl'. unfold read_args. rewrite deserializeBufferPart_enc; [|apply fields_plain|by apply (fs_typed max_elems)|lia|done].
  cbn [obind]. by rewrite (fs_back max_elems).
Qed.

Lemma read_args_cut a b : P a → zlength (enc_all (fs_val fs a)) ≤ max_elems → cut b (enc_all (fs_val fs a)) →
  read_args max_elems fs b = Throw SerializationError.
Proof using FieldsOk0 Hmax.
  intros Ha Hl Hc. unfold read_args. by rewrite (deserializeBufferPart_cut max_elems (fs_ty fs) (fs_val fs a)); [|apply fields_plain|by apply (fs_typed max_elems)|lia|lia|].
Qed.

(** Any bytes at all. *)
Lemma read_args_any view : Forall byte view → zlength view < 2 ^ 64 →
  match read_args max_elems fs view with
  | Ok (_, rest) => Forall byte rest ∧ zlength rest < 2 ^ 64
  | Throw e => e = SerializationError ∨ e = BadAlloc
  | _ => False
  end.
Proof using FieldsOk0 Hmax.
  intros Hb Hl. set (t := TRec KTuple (fs_ty fs)). assert (safe_ty max_elems t = true) as Hs by apply (fs_safe max_elems).
  pose proof (x_read_types max_elems t fields_plain Hs (fs_inhabited max_elems) (proj1 Hmax) (Deserializer_init view) (conj Hl Hb)) as Ht.
  pose proof (zlength_nonneg view). pose proof (x_read_safe max_elems t Hs (Deserializer_init view) ltac:(by split_and!)) as Hd.
  unfold read_args, deserializeBufferPart, x_reads. cbn [t x_read] in Ht, Hd. unfold safe in Hd. destruct (read_batch _ _ _ _ _) as [[vs d]|e| | |]; try done.
  cbn [obind] in *. destruct Ht as [Hba Ht], Hd as (Hd & _ & _). destruct (d_ok_read d (remaining d) Hd) as (rest & -> & Hr & Hrb).
  { rewrite d_ok_remaining by done. destruct Hd as (? & ? & ? & ?). lia. }
  cbn [obind]. destruct (fs_total max_elems vs Ht) as [a ->]. cbn [of_option obind]. split; [done|]. rewrite Hr, (d_ok_remaining d Hd). destruct Hd as (? & ? & ? & ?). lia.
Qed.
End back.

Section struct.
Context {A B} (f : Field A) (P : A → Prop) (mk : A → B) `{!FieldOk f P}.

Lemma read_struct_enc a : P a → zlength (enc (f_val f a)) ≤ max_elems → read_struct max_elems f mk (enc (f_val f a)) = Ok (Some (mk a)).
Proof using FieldOk0 Hmax.
  intros Ha Hl. assert (enc (f_val f a) = enc_all (fs_val (f ▷ ∎) (a, tt)) ++ []) as E by (cbn; by rewrite !app_nil_r).
  unfold read_struct. rewrite E, (read_args_enc (f ▷ ∎) _ (a, tt) []); [done|done|by rewrite app_nil_r in E; rewrite <- E|rewrite <- E; lia].
Qed.

Lemma read_struct_cut a b : P a → zlength (enc (f_val f a)) ≤ max_elems → cut b (enc (f_val f a)) → read_struct max_elems f mk b = Throw SerializationError.
Proof using FieldOk0 Hmax.
  intros Ha Hl. assert (enc (f_val f a) = enc_all (fs_val (f ▷ ∎) (a, tt))) as E by (cbn; by rewrite app_nil_r).
  rewrite E in *. intros Hc. unfold read_struct. by rewrite (read_args_cut (f ▷ ∎) _ (a, tt)).
Qed.

Definition reads_any {C} (o : outcome (option C)) : Prop :=
  match o with
  | Ok _ => True
  | Throw e => e = SerializationError ∨ e = BadAlloc
  | _ => False
  end.

Lemma read_struct_any view : Forall byte view → zlength view < 2 ^ 64 → reads_any (read_struct max_elems f mk view).
Proof using FieldOk0 Hmax.
  intros Hb Hl. pose proof (read_args_any (f ▷ ∎) _ view Hb Hl) as H. unfold read_struct. by destruct (read_args _ _ _) as [[a rest]|e| | |].
Qed.
End struct.

(** ** Signatures *)

Lemma signed_enc {A} (read : Z → list Z → outcome (option A)) s view : 0 ≤ s < 2 ^ 64 → signed read (le_bytes 8 s ++ view) = catch (read s view).
Proof.
  intros Hs. unfold signed. pose proof (le_bytes_zlength 8 s) as H8. pose proof (zlength_nonneg view).
  destruct (Z.ltb_spec (zlength (le_bytes 8 s ++ view)) 8) as [Hlt|_]; [rewrite zlength_app in Hlt; lia|].
  change 8 with (Z.of_nat 8) at 1. rewrite <- H8, mem_read_prefix. cbn [obind]. rewrite le_value_bytes by done. by rewrite drop_app_length' by (by rewrite length_le_bytes).
Qed.

Lemma signed_cut {A} (read : Z → list Z → outcome (option A)) s e b : 0 ≤ s < 2 ^ 64 →
  (∀ b, cut b e → read s b = Throw SerializationError) → cut b (le_bytes 8 s ++ e) → signed read b = Ok None.
Proof.
  intros Hs He (z & Hz & Hne). destruct (Z.ltb_spec (zlength b) 8) as [H|H]; [unfold signed; by destruct (Z.ltb_spec (zlength b) 8); [|lia]|].
  apply app_eq_inv in Hz as [(k & E1 & E2)|(k & -> & E2)].
  - assert (k = []) as -> by (apply (f_equal length) in E1; rewrite length_app, length_le_bytes in E1; unfold zlength in H; destruct k; [done|cbn in E1; lia]).
    rewrite app_nil_r in E1. subst b. rewrite <- (app_nil_r (le_bytes 8 s)), signed_enc by done. rewrite He; [done|]. cbn in E2. subst z. by exists e.
  - rewrite signed_enc by done. rewrite He; [done|]. by exists z.
Qed.

Ltac struct_ok := eapply field_weaken; [eapply frec_ok; [exact _|intros; apply (fo_size max_elems)]|cbn; tauto].

(** ** Datagrams *)

Definition rank_fits (r : nat) : Prop := Z.of_nat r < 2 ^ 32.
Definition u32_fits (x : Z) : Prop := 0 ≤ x < 2 ^ 32.

(** Every number fits its field. *)
Definition datagram_fits (d : Datagram) : Prop :=
  match d with
  | DConnect _ source _ _ l | DAddresses _ source _ _ l => rank_fits source ∧ Forall (λ p, u32_fits p.1) l
  | DConnectAck _ source _ l => rank_fits source ∧ Forall u32_fits l
  | DAddressesAck _ source edge => rank_fits source ∧ rank_fits edge
  | DDiagnosticHello _ source | DDiagnosticHelloAck _ source => rank_fits source
  | DDiagnosticInfo _ reporting stuck kind _ => rank_fits reporting ∧ rank_fits stuck ∧ kind_fits kind
  end.

#[local] Instance list_u32_ok : FieldOk (flist fu32) (Forall u32_fits).
Proof using Hmax. by apply flist_ok; [apply fu32_ok|..]. Qed.
#[local] Instance list_rank_ok : FieldOk (flist frank) (Forall rank_fits).
Proof using Hmax. by apply flist_ok; [apply frank_ok|..]. Qed.
#[local] Instance list_string_ok : FieldOk (flist fstring) (λ _, True).
Proof using Hmax. eapply field_weaken; [by apply flist_ok; [apply fstring_ok|..]|]. intros l _. by apply Forall_true. Qed.

#[local] Instance DiagnosticInfoMessage_ok : FieldOk DiagnosticInfoMessage (λ a, rank_fits a.2.1 ∧ rank_fits a.2.2.1 ∧ kind_fits a.2.2.2.1).
Proof using Hmax. struct_ok. Qed.
#[local] Instance DiagnosticHelloMessage_ok : FieldOk DiagnosticHelloMessage (λ a, rank_fits a.2.1).
Proof using Hmax. struct_ok. Qed.
#[local] Instance UdpConnectMessage_ok : FieldOk UdpConnectMessage (λ a, rank_fits a.2.1 ∧ Forall (λ p, u32_fits p.1) a.2.2.2.2.1).
Proof using Hmax. struct_ok. Qed.
#[local] Instance UdpConnectAckMessage_ok : FieldOk UdpConnectAckMessage (λ a, rank_fits a.2.1 ∧ Forall u32_fits a.2.2.2.1).
Proof using Hmax. struct_ok. Qed.
#[local] Instance AddressesMessage_ok : FieldOk AddressesMessage (λ a, rank_fits a.2.1 ∧ Forall (λ p, u32_fits p.1) a.2.2.2.2.1).
Proof using Hmax. struct_ok. Qed.
#[local] Instance AddressesAckMessage_ok : FieldOk AddressesAckMessage (λ a, rank_fits a.2.1 ∧ rank_fits a.2.2.1).
Proof using Hmax. struct_ok. Qed.
#[local] Instance TcpConnectFields_ok :
  FieldOk TcpConnectFields (λ a, rank_fits a.2.1 ∧ rank_fits a.2.2.2.1 ∧ Forall rank_fits a.2.2.2.2.2.1).
Proof using Hmax. struct_ok. Qed.

Lemma unpairs_pairs l : unpairs (pairs l) = l.
Proof. unfold unpairs, pairs. rewrite <- list_fmap_compose. rewrite <- (list_fmap_id l) at 2. apply list_fmap_ext. by intros _ [i a] _. Qed.

Lemma pairs_fit l : Forall (λ p, u32_fits p.1) l → Forall (λ p, u32_fits p.1) (pairs l).
Proof. intros H. by apply Forall_fmap. Qed.

(** A signature and a struct that is read back. *)
Definition comes_back {B} (read : Z → list Z → outcome (option B)) (bytes : list Z) (b : B) : Prop :=
  ∃ s e, bytes = le_bytes 8 s ++ e ∧ 0 ≤ s < 2 ^ 64 ∧ read s e = Ok (Some b) ∧ ∀ b, cut b e → read s b = Throw SerializationError.

Lemma struct_comes_back {A B} (read : Z → list Z → outcome (option B)) (f : Field A) (mk : A → B) s a b vals P :
  vals = [f_val (fuint 8) s; f_val f a] → (∀ view, read s view = read_struct max_elems f mk view) → FieldOk f P → 0 ≤ s < 2 ^ 64 →
  zlength (enc_all vals) ≤ max_elems → mk a = b → P a → comes_back read (enc_all vals) b.
Proof using Hmax.
  intros -> Hr Hf Hs Hl <- Ha. cbn [enc_all concat map enc f_val fuint] in *. rewrite app_nil_r in *. rewrite zlength_app in Hl.
  pose proof (zlength_nonneg (le_bytes 8 s)). exists s, (enc (f_val f a)). split; [done|]. split; [done|]. split; [rewrite Hr; eapply read_struct_enc; [exact Hf|exact Ha|lia]|].
  intros b Hb. rewrite Hr. eapply read_struct_cut; [exact Hf|exact Ha|lia|exact Hb].
Qed.

Lemma datagram_comes_back d : datagram_fits d → zlength (enc_all (datagram_vals d)) ≤ max_elems →
  comes_back (signed_datagram max_elems) (enc_all (datagram_vals d)) d.
Proof using Hmax.
  intros Hd Hl. destruct d; cbn [datagram_fits] in Hd; 
    (notypeclasses refine (struct_comes_back _ _ _ _ _ _ _ _ eq_refl _ _ _ Hl _ _); [by intros view|exact _|done|cbn|cbn]);
    rewrite ?unpairs_pairs; try done; (split; [apply Hd|apply pairs_fit, Hd]).
Qed.

(** ** Packets *)

Lemma le4 x : u32_fits x → ∃ a b c d, le_bytes 4 x = [a; b; c; d] ∧ le_value [a; b; c; d] = x.
Proof. intros Hx. eexists _, _, _, _. split; [reflexivity|]. by apply (le_value_bytes 4). Qed.

Definition header_fits (p : MessageHeader * Z) : Prop :=
  u32_fits (ttl p.1) ∧ u32_fits (hseq p.1) ∧ rank_fits (destinationRank p.1) ∧ u32_fits (hid p.1) ∧ rank_fits (sourceRank p.1) ∧
  rank_fits (diagnosticSource p.1) ∧ byte p.2.

Local Arguments le_value : simpl never.

Lemma header_back pad p : header_fits p → header_of_bytes (header_bytes pad p.1 p.2) = p.
Proof.
  destruct p as [[t s d i r g br] type]. unfold header_fits, header_bytes, header_of_bytes. cbn [fst snd ttl hseq destinationRank hid sourceRank diagnosticSource broadcast].
  intros (H1 & H2 & H3 & H4 & H5 & H6 & H7). unfold rank_fits in *.
  destruct (le4 t H1) as (? & ? & ? & ? & -> & V1), (le4 s H2) as (? & ? & ? & ? & -> & V2), (le4 (Z.of_nat d) ltac:(unfold u32_fits; lia)) as (? & ? & ? & ? & -> & V3), (le4 i H4) as (? & ? & ? & ? & -> & V4),
    (le4 (Z.of_nat r) ltac:(unfold u32_fits; lia)) as (? & ? & ? & ? & -> & V5), (le4 (Z.of_nat g) ltac:(unfold u32_fits; lia)) as (? & ? & ? & ? & -> & V6).
  repeat match goal with |- context [Z.to_nat (Zpos ?p)] => let n := eval compute in (Pos.to_nat p) in change (Z.to_nat (Zpos p)) with n end.
  change (Z.to_nat 0) with 0%nat. cbn. rewrite V1, V2, V3, V4, V5, V6, !Nat2Z.id.
  assert (∀ x, le_value [x] = x) as V7 by (intros; unfold le_value; lia). rewrite !V7. by destruct br.
Qed.

Lemma header_length pad h t : zlength (header_bytes pad h t) = 26 + zlength pad.
Proof. unfold header_bytes. rewrite !zlength_app, !le_bytes_zlength, !zlength_cons. change (@zlength Z []) with 0. lia. Qed.

#[local] Instance fheader_ok pad : zlength pad = 2 → FieldOk (fheader pad) header_fits.
Proof using.
  intros Hp. split; cbn [fheader f_ty f_val f_get]; try done.
  - intros [h t]. cbn [enc]. rewrite header_length. lia.
  - intros [h t] _ _. cbn [has_ty fst snd]. rewrite header_length. lia.
  - intros p Hf. by rewrite header_back.
  - intros [] Hv; try done; by eexists.
Qed.

Definition message_fits (m : Message) : Prop :=
  match m with
  | messageDone (ReplyValue v) | messageSet _ v => Forall byte v
  | messageShutdown r | messageExit r => rank_fits r
  | _ => True
  end.

Definition connect_fits (m : TcpConnectMessage) : Prop :=
  rank_fits (tsourceRank m) ∧ rank_fits (tdestinationRank m) ∧ Forall rank_fits (broadcastForwardRanks m).

Definition packet_fits (p : Packet) : Prop :=
  match p with
  | PConnect m | PConnectAck m => connect_fits m
  | PMessage b => header_fits (hdr b, message_type (body b)) ∧ message_fits (body b)
  | PMessageAck seq => u32_fits seq
  | PKeepalive | PKeepaliveAck => True
  end.

(** A key is written as a [string_view] and read as a [string]. *)
Lemma enc_view_string s : enc (f_val fview s) = enc (f_val fstring s).
Proof. cbn [enc f_val fview fstring]. unfold view_size. by rewrite Z.div_1_r. Qed.

Lemma read_key_enc {B} (mk : string → B) s : zlength (enc_all [f_val fview s]) ≤ max_elems →
  read_struct max_elems fstring mk (enc_all [f_val fview s]) = Ok (Some (mk s)).
Proof using Hmax.
  unfold enc_all. cbn [map concat]. rewrite app_nil_r, enc_view_string. intros Hl. eapply read_struct_enc; [exact fstring_ok|exact I|exact Hl].
Qed.

Lemma read_one_enc {A B} (f : Field A) P (mk : A → B) a : FieldOk f P → P a → zlength (enc_all [f_val f a]) ≤ max_elems →
  read_struct max_elems f mk (enc_all [f_val f a]) = Ok (Some (mk a)).
Proof using Hmax. unfold enc_all. cbn [map concat]. rewrite app_nil_r. intros Hf Ha Hl. eapply read_struct_enc; [exact Hf|exact Ha|exact Hl]. Qed.

Lemma content_back m : message_fits m → zlength (enc_all (message_args m)) ≤ max_elems →
  read_content max_elems (message_type m) (enc_all (message_args m)) = Ok (Some m).
Proof using Hmax.
  intros Hm Hl. destruct m as [[|b|v]|key v|key|key|key|r|r| |l]; cbn [message_type message_args] in *; unfold read_content; cbn -[read_struct read_args enc_all zlength fbytes fview f_val].
  - done.
  - assert (zlength (enc_all [f_val fbool b]) = 1) as E by (by destruct b). rewrite E. by apply (read_one_enc fbool (λ _, True) (λ b, messageDone (ReplyBool b)) b fbool_ok).
  - assert (8 ≤ zlength (enc_all [f_val fbytes v])) as E.
    { unfold enc_all. cbn [map concat]. rewrite app_nil_r. cbn [enc f_val fbytes flist]. rewrite zlength_app, length_size_t. pose proof (zlength_nonneg (concat (map enc (f_val (fuint 1) <$> v)))). lia. }
    destruct (Z.eqb_spec (zlength (enc_all [f_val fbytes v])) 0), (Z.eqb_spec (zlength (enc_all [f_val fbytes v])) 1); try lia. by apply (read_one_enc fbytes _ (λ v, messageDone (ReplyValue v)) v fbytes_ok).
  - assert (enc_all [f_val fview key; f_val fbytes v] = enc_all (fs_val (fstring ▷ fbytes ▷ ∎) (key, (v, tt))) ++ []) as E.
    { rewrite app_nil_r, !enc_all_cons, enc_view_string. done. }
    rewrite E in *. rewrite (read_args_enc (fstring ▷ fbytes ▷ ∎) _ (key, (v, tt))); [done|done|by rewrite app_nil_r in Hl|lia].
  - by apply read_key_enc.
  - by apply read_key_enc.
  - by apply read_key_enc.
  - by apply (read_one_enc frank _ messageShutdown r frank_ok).
  - by apply (read_one_enc frank _ messageExit r frank_ok).
  - done.
  - by apply (read_one_enc (flist fstring) _ messageDiagnosticSource l list_string_ok).
Qed.

Lemma comes_back_signed {B} (read : Z → list Z → outcome (option B)) bytes b : comes_back read bytes b → signed read bytes = Ok (Some b).
Proof. intros (s & e & -> & Hs & Hr & _). rewrite signed_enc by done. by rewrite Hr. Qed.

Lemma read_header pad p more : zlength pad = 2 → header_fits p → zlength (header_bytes pad p.1 p.2 ++ more) ≤ max_elems →
  read_args max_elems (fheader [] ▷ ∎) (header_bytes pad p.1 p.2 ++ more) = Ok ((p, tt), more).
Proof using Hmax.
  intros Hp Hf Hl. change (read_args max_elems (fheader [] ▷ ∎)) with (read_args max_elems (fheader pad ▷ ∎)).
  pose proof (fheader_ok pad Hp) as Hok. pose proof (zlength_nonneg more).
  assert (enc_all (fs_val (fheader pad ▷ ∎) (p, tt)) = header_bytes pad p.1 p.2) as E by (unfold enc_all; cbn [fs_val fcons fnil map concat enc f_val fheader fst snd]; by rewrite app_nil_r).
  rewrite zlength_app in Hl. rewrite <- E in *. apply (read_args_enc (fheader pad ▷ ∎) _ (p, tt)); [done|lia|rewrite zlength_app; lia].
Qed.

Lemma message_back pad b : zlength pad = 2 → header_fits (hdr b, message_type (body b)) → message_fits (body b) →
  zlength (header_bytes pad (hdr b) (message_type (body b)) ++ enc_all (message_args (body b))) ≤ max_elems →
  signed_packet max_elems signatureMessage (header_bytes pad (hdr b) (message_type (body b)) ++ enc_all (message_args (body b))) = Ok (Some (PMessage b)).
Proof using Hmax.
  intros Hp Hh Hm Hl. destruct b as [h m]. cbn [hdr body] in *. dispatch.
  assert (header_bytes pad h (message_type m) ++ enc_all (message_args m) = enc_all (fs_val (fu32 ▷ fu32 ▷ ∎) (ttl h, (hseq h, tt))) ++
    drop 8 (header_bytes pad h (message_type m) ++ enc_all (message_args m))) as E by done.
  rewrite E at 1. rewrite (read_args_enc (fu32 ▷ fu32 ▷ ∎) _ (ttl h, (hseq h, tt))); [|by destruct Hh as (? & ? & _)|rewrite zlength_app, header_length in Hl; pose proof (zlength_nonneg (enc_all (message_args m))); change (zlength _) with 8; lia|rewrite <- E; lia].
  cbn [obind]. unfold read_message. pose proof (zlength_nonneg (header_bytes pad h (message_type m))).
  rewrite (read_header pad (h, message_type m)) by done. cbn [obind fst snd]. rewrite zlength_app in Hl. by rewrite content_back by (done || lia).
Qed.

Lemma packet_back pad p : zlength pad = 2 → packet_fits p → zlength (enc_all (packet_vals pad p)) ≤ max_elems →
  read_packet max_elems (enc_all (packet_vals pad p)) = Ok (Some p).
Proof using Hmax.
  intros Hp Hf Hl. unfold read_packet. destruct p as [m|m|b|seq| |]; cbn [packet_fits] in Hf.
  - apply comes_back_signed. notypeclasses refine (struct_comes_back _ _ _ _ _ _ _ _ eq_refl _ _ _ Hl _ Hf); [by intros view|exact _|done|by destruct m].
  - apply comes_back_signed. notypeclasses refine (struct_comes_back _ _ _ _ _ _ _ _ eq_refl _ _ _ Hl _ Hf); [by intros view|exact _|done|by destruct m].
  - cbn [packet_vals] in *. rewrite enc_all_cons, enc_all_cons in *. cbn [enc f_val fuint fheader fst snd] in *. rewrite signed_enc by done.
    pose proof (zlength_nonneg (le_bytes 8 signatureMessage)). rewrite zlength_app in Hl. rewrite message_back; [done|done|apply Hf|apply Hf|lia].
  - apply comes_back_signed. notypeclasses refine (struct_comes_back _ _ _ _ _ _ _ _ eq_refl _ _ _ Hl _ Hf); [by intros view|exact _|done|done].
  - cbn [packet_vals] in *. rewrite enc_all_cons. cbn [enc f_val fuint]. by rewrite signed_enc.
  - cbn [packet_vals] in *. rewrite enc_all_cons. cbn [enc f_val fuint]. by rewrite signed_enc.
Qed.

(** ** Arbitrary bytes *)

Ltac any_struct := first [exact I | notypeclasses refine (read_struct_any _ _ _ _ _ _); [exact _|assumption|assumption]].

Lemma reads_any_bind {A B C} (o : outcome (A * B)) (k : A → B → outcome (option C)) :
  match o with Ok (a, b) => reads_any (k a b) | Throw e => e = SerializationError ∨ e = BadAlloc | _ => False end →
  reads_any (let! '(a, b) := o in k a b).
Proof. by destruct o as [[]| | | |]. Qed.

Lemma datagram_any s view : Forall byte view → zlength view < 2 ^ 64 → reads_any (signed_datagram max_elems s view).
Proof using Hmax.
  intros Hb Hl. unfold signed_datagram. repeat (destruct (_ =? _); [any_struct|]). done.
Qed.

Lemma content_any t view : Forall byte view → zlength view < 2 ^ 64 → reads_any (read_content max_elems t view).
Proof using Hmax.
  intros Hb Hl. unfold read_content. destruct (t =? 4).
  { pose proof (read_args_any (fstring ▷ fbytes ▷ ∎) _ view Hb Hl) as H. by destruct (read_args _ _ _) as [[a r]| | | |]. }
  repeat (destruct (_ =? _); [any_struct || (repeat (destruct (_ =? _); [any_struct|]); any_struct)|]). done.
Qed.

Lemma packet_any s view : Forall byte view → zlength view < 2 ^ 64 → reads_any (signed_packet max_elems s view).
Proof using Hmax.
  intros Hb Hl. unfold signed_packet. destruct (s =? signatureConnect); [any_struct|]. destruct (s =? signatureConnectAck); [any_struct|].
  destruct (s =? signatureMessage).
  { apply reads_any_bind. pose proof (read_args_any (fu32 ▷ fu32 ▷ ∎) _ view Hb Hl) as H. destruct (read_args _ (fu32 ▷ _) _) as [[ts r]| | | |]; try done. clear H.
    unfold read_message. pose proof (fheader_ok [0; 0] eq_refl) as Hok. pose proof (read_args_any (fheader [0; 0] ▷ ∎) _ view Hb Hl) as H. change (read_args max_elems (fheader [0; 0] ▷ ∎)) with (read_args max_elems (fheader [] ▷ ∎)) in H.
    destruct (read_args _ (fheader _ ▷ _) _) as [[a view']| | | |]; try done. destruct H as [Hb' Hl']. cbn [obind]. pose proof (content_any a.1.2 view' Hb' Hl') as Hc. by destruct (read_content _ _ _) as [[]| | | |]. }
  repeat (destruct (_ =? _); [any_struct|]). done.
Qed.

Lemma signed_any {A} (read : Z → list Z → outcome (option A)) buf :
  (∀ s view, Forall byte view → zlength view < 2 ^ 64 → reads_any (read s view)) → Forall byte buf → zlength buf < 2 ^ 64 →
  match signed read buf with Ok _ => True | Throw e => e = BadAlloc | _ => False end.
Proof.
  intros Hr Hb Hl. unfold signed. destruct (Z.ltb_spec (zlength buf) 8); [done|]. unfold mem_read. rewrite bool_decide_true by lia. cbn [obind].
  specialize (Hr (le_value (take (Z.to_nat 8) (drop (Z.to_nat 0) buf))) (drop 8 buf) ltac:(by apply Forall_drop) ltac:(unfold zlength in *; rewrite length_drop; lia)).
  destruct (read _ _) as [o|e| | |]; cbn; try done. by destruct Hr as [->| ->].
Qed.

(** ** Changing a message in place *)

Lemma mem_write_app off pre old new post : off = zlength pre → zlength old = zlength new → mem_write (pre ++ old ++ post) off new = Ok (pre ++ new ++ post).
Proof.
  intros -> Hl. unfold mem_write. pose proof (zlength_nonneg pre). pose proof (zlength_nonneg post). pose proof (zlength_nonneg new). rewrite bool_decide_true by (rewrite !zlength_app; lia).
  rewrite to_nat_zlength, take_app_length. do 3 f_equal. rewrite <- Hl. replace (Z.to_nat (zlength pre + zlength old)) with (length pre + length old)%nat by (unfold zlength; lia).
  by rewrite drop_app_add, drop_app_length.
Qed.

(** The fields of the header, as they lie in the bytes of a message. *)
Lemma message_bytes pad b : enc_all (packet_vals pad (PMessage b)) =
  le_bytes 8 signatureMessage ++ le_bytes 4 (ttl (hdr b)) ++ le_bytes 4 (hseq (hdr b)) ++ le_bytes 4 (Z.of_nat (destinationRank (hdr b))) ++
  drop 20 (enc_all (packet_vals pad (PMessage b))).
Proof. done. Qed.

Lemma message_patches pad b :
  read_ttl (enc_all (packet_vals pad (PMessage b))) = Ok (le_value (le_bytes 4 (ttl (hdr b)))) ∧
  (∀ t, write_ttl (enc_all (packet_vals pad (PMessage b))) t = Ok (enc_all (packet_vals pad (PMessage (patch_ttl b t))))) ∧
  (∀ s, write_seq (enc_all (packet_vals pad (PMessage b))) s = Ok (enc_all (packet_vals pad (PMessage (patch_seq b s))))) ∧
  (∀ d, write_dest (enc_all (packet_vals pad (PMessage b))) d = Ok (enc_all (packet_vals pad (PMessage (patch_dest b d))))).
Proof.
  unfold read_ttl, write_ttl, write_seq, write_dest. pose proof (le_bytes_zlength 8 signatureMessage) as H8. pose proof (le_bytes_zlength 4) as H4. split_and!.
  - rewrite message_bytes. pose proof (mem_read_app (le_bytes 8 signatureMessage) (le_bytes 4 (ttl (hdr b)))) as Hr. rewrite H8, H4 in Hr. by rewrite Hr.
  - intros t. rewrite message_bytes, (message_bytes pad (patch_ttl b t)). apply mem_write_app; [done|by rewrite !H4].
  - intros x. rewrite message_bytes, (message_bytes pad (patch_seq b x)), !(assoc_L (++) (le_bytes 8 _)). apply mem_write_app; [|by rewrite !H4].
    rewrite zlength_app, H8, H4. lia.
  - intros d. rewrite message_bytes, (message_bytes pad (patch_dest b d)), !(assoc_L (++) (le_bytes 8 _)), !(assoc_L (++) (le_bytes 8 _ ++ _)). apply mem_write_app; [|by rewrite !H4].
    rewrite !zlength_app, H8, !H4. lia.
Qed.
End instances.

(** ** What follows for the store *)

(** C13: Datagrams survive the wire.  What a rank sends is exactly the bytes that the other end turns back into the same
    datagram, for every kind of datagram whose numbers fit their fields; one that is cut short, also because it is larger
    than the 4096 bytes that are received, is dropped and never mistaken for another. *)
Theorem datagram_wire max_elems fill d : 0 ≤ max_elems < 2 ^ 61 → datagram_fits d → zlength (enc_all (datagram_vals d)) ≤ max_elems →
  ∃ bytes, write_datagram fill d = Ok bytes ∧
    read_datagram max_elems bytes = Ok (if zlength bytes <=? 0x1000 then Some d else None) ∧
    ∀ b, cut b bytes → read_datagram max_elems b = Ok None.
Proof.
  intros Hm Hd Hl. pose proof (datagram_comes_back max_elems Hm d Hd Hl) as Hb. exists (enc_all (datagram_vals d)). split; [apply serializeTo_enc; lia|].
  assert (∀ b, cut b (enc_all (datagram_vals d)) → signed (signed_datagram max_elems) b = Ok None) as Hcut.
  { intros b Hc. destruct Hb as (s & e & E & Hs & _ & Hr). rewrite E in Hc. by eapply signed_cut. }
  unfold read_datagram. split.
  - destruct (Z.leb_spec (zlength (enc_all (datagram_vals d))) 0x1000) as [H|H].
    + rewrite take_ge by (unfold zlength in H; lia). by apply comes_back_signed.
    + apply Hcut. eexists. split; [symmetry; apply take_drop|]. intros E. apply (f_equal length) in E. rewrite length_drop in E. unfold zlength in H. cbn [length] in E. lia.
  - intros b Hc. apply Hcut. destruct Hc as (z & E & Hz). rewrite <- (take_drop (Z.to_nat 0x1000) b) in E. eexists. split; [rewrite E; symmetry; apply (assoc_L (++))|].
    by intros [_ ?]%app_eq_nil.
Qed.

(** C12: Packets survive the wire.  Every packet that a rank writes to a connection is read back as the same packet by
    the other end; and the places that the code patches in the bytes of a message, the hop count, the number and the
    destination, are those fields: the bytes after a patch are the bytes of the patched message. *)
Theorem packet_wire max_elems fill pad p : 0 ≤ max_elems < 2 ^ 61 → zlength pad = 2 → packet_fits p → zlength (enc_all (packet_vals pad p)) ≤ max_elems →
  ∃ bytes, write_packet fill pad p = Ok bytes ∧ read_packet max_elems bytes = Ok (Some p) ∧
    ∀ b, p = PMessage b → read_ttl bytes = Ok (ttl (hdr b)) ∧
      (∀ t, write_ttl bytes t = write_packet fill pad (PMessage (patch_ttl b t))) ∧
      (∀ s, write_seq bytes s = write_packet fill pad (PMessage (patch_seq b s))) ∧
      (∀ r, write_dest bytes r = write_packet fill pad (PMessage (patch_dest b r))).
Proof.
  intros Hm Hp Hf Hl. exists (enc_all (packet_vals pad p)). split; [apply serializeTo_enc; lia|]. split; [by apply packet_back|].
  intros b ->. destruct (message_patches pad b) as (H1 & H2 & H3 & H4).
  assert (∀ b', body b' = body b → zlength (enc_all (packet_vals pad (PMessage b'))) = zlength (enc_all (packet_vals pad (PMessage b)))) as Hs.
  { intros b' E. cbn [packet_vals]. rewrite !enc_all_cons, E, !zlength_app. cbn [enc f_val fheader fst snd]. by rewrite !header_length. }
  split; [rewrite H1; destruct Hf as [(Ht & _) _]; by rewrite le_value_bytes|].
  split_and!; intros x; [rewrite H2|rewrite H3|rewrite H4]; symmetry; apply serializeTo_enc; rewrite Hs by done; lia.
Qed.


(** A datagram with the signature of a connect message, empty strings, and a list of [2 ^ 61] addresses. *)
Definition huge_count : list Z := le_bytes 8 signatureConnect ++ size_t 0 ++ le_bytes 4 1 ++ size_t 0 ++ size_t 0 ++ size_t (2 ^ 61).

(** How a batch begins. *)
Lemma read_batch_slow r run t ts d : copy_trivially t = false →
  read_batch true r run (t :: ts) d = let! '(v, d) := r t d in let! '(vs, d) := read_batch true r false ts d in Ok (v :: vs, d).
Proof. intros Ht. cbn [read_batch]. rewrite Ht, andb_false_r. by destruct ts. Qed.

Lemma read_batch_fast r t t' ts d : copy_trivially t = true → copy_trivially t' = false → sizeof t ≤ remaining d →
  read_batch true r false (t :: t' :: ts) d = let! '(v, d) := trivial_copy t d in let! '(vs, d) := read_batch true r true (t' :: ts) d in Ok (v :: vs, d).
Proof.
  intros Ht Ht' Hr. cbn [read_batch andb]. rewrite Ht. cbn [trivialBytes]. rewrite Ht, Ht', Z.add_0_r. by destruct (Z.ltb_spec (remaining d) (sizeof t)); [lia|].
Qed.

(** A list that is too long. *)
Lemma long_list_throws max_elems t d n d' : trivially_copyable t = false → read_size_t true d = Ok (n, d') → max_elems < n →
  x_read true max_elems (TVec t) d = Throw BadAlloc.
Proof.
  intros Ht Hn Hlt. cbn [x_read]. rewrite Ht, Hn. cbn [andb obind]. unfold resize. by destruct (Z.ltb_spec max_elems n); [|lia].
Qed.

Ltac view_read :=
  match goal with |- context [x_read true ?m (TView 1) ?d] =>
    let E := fresh in destruct (x_read true m (TView 1) d) as [[? ?]| | | |] eqn:E; vm_compute in E; try discriminate E; injection E as <- <-
  end; cbn [obind].

Lemma huge_count_throws max_elems : max_elems < 2 ^ 61 → read_args max_elems (UdpConnectMessage ▷ ∎) (drop 8 huge_count) = Throw BadAlloc.
Proof.
  intros Hm. unfold read_args, deserializeBufferPart, x_reads. set (d0 := Deserializer_init _).
  change (fs_ty (UdpConnectMessage ▷ ∎)) with [TRec KMember [TView 1; TPod 4 4; TView 1; TView 1; TVec (TRec KPair [TPod 4 4; TString])]].
  rewrite read_batch_slow by done.
  change (x_read true max_elems (TRec ?k ?ts) d0) with (let! '(vs, d) := read_batch true (x_read true max_elems) false ts d0 in Ok (VRec vs, d)).
  rewrite read_batch_slow by done. view_read. rewrite read_batch_fast by done.
  destruct (trivial_copy (TPod 4 4) _) as [[v2 d2]| | | |] eqn:E2; vm_compute in E2; try discriminate E2. injection E2 as <- <-. cbn [obind].
  rewrite read_batch_slow by done. view_read. rewrite read_batch_slow by done. view_read. rewrite read_batch_slow by done.
  match goal with |- context [x_read true max_elems (TVec ?t) ?d] => destruct (read_size_t true d) as [[n d5]| | | |] eqn:E5; pose proof E5 as E6; vm_compute in E6; try discriminate E6; injection E6 as <- _;
    rewrite (long_list_throws max_elems t d _ _ eq_refl E5) by exact Hm end. done.
Qed.


(** ** Examples *)

Definition example_datagram : Datagram := DConnect "store" 3 "me" "net" [(0, "10.0.0.3:4711"); (1, "[::1]:4711")].

Lemma datagram_wire_witness : ∃ bytes, write_datagram 0 example_datagram = Ok bytes ∧ zlength bytes = 101 ∧
  read_datagram (2 ^ 32) bytes = Ok (Some example_datagram) ∧ read_datagram (2 ^ 32) (take 60 bytes) = Ok None.
Proof.
  destruct (datagram_wire (2 ^ 32) 0 example_datagram) as (bytes & Hw & Hr & Hc);
    [lia|split; [unfold rank_fits; lia|repeat constructor; cbn; lia]|vm_compute; discriminate|].
  pose proof (eq_sym Hw) as E. vm_compute in E. injection E as ->. eexists. split; [exact Hw|]. split; [reflexivity|]. split; [exact Hr|].
  apply Hc. eexists. split; [symmetry; apply take_drop|discriminate].
Defined.

Definition example_message : Packet := PMessage (mkBuffer (mkHeader 3 0 2 7 1 1 false) (messageSet "key" [1; 2; 3])).

Lemma packet_wire_witness : ∃ bytes, write_packet 0 [9; 9] example_message = Ok bytes ∧ read_packet (2 ^ 32) bytes = Ok (Some example_message) ∧
  write_seq bytes 5 = write_packet 0 [9; 9] (PMessage (mkBuffer (mkHeader 3 5 2 7 1 1 false) (messageSet "key" [1; 2; 3]))).
Proof.
  destruct (packet_wire (2 ^ 32) 0 [9; 9] example_message) as (bytes & Hw & Hr & Hp);
    [lia|reflexivity|split; [unfold header_fits, u32_fits, rank_fits, byte; cbn; lia|repeat constructor; cbn; lia]|vm_compute; discriminate|].
  exists bytes. destruct (Hp _ eq_refl) as (_ & _ & Hs & _). split; [exact Hw|]. split; [exact Hr|]. apply Hs.
Defined.


